(** * Light-client records of go-eth2-client: textual codec, content
      negotiation and multi-backend dispatch

    The development embeds the Go sources shallowly:
    - [Go]        the pieces of the Go standard library the records call
                  (errors, strings.TrimPrefix, encoding/hex, strconv.ParseUint,
                  fmt's %d and %#x, encoding/json's binding of an object to a
                  struct);
    - [Codec]     the record types and their MarshalJSON / UnmarshalJSON;
    - [HTTP]      the versioned envelopes and the content-negotiation layer;
    - [Multi]     the multi-backend dispatcher's four operations;
    - [Records]   the seven record types as one family, with what it means
                  for a field to be absent, for decoding to fail with an
                  error, and the canonical rendering of an input;
    - [Fixture]   the JSON texts and responses of the examples;
    - [Capella], [Legacy]  the altair view of a capella header and the
                  earlier revisions of the http service.

    The facts follow the definitions, from the Go library up to the record
    family; [Claims] states the properties of the specification, each with
    its example, and [Extras] further properties of the code.  JSON texts
    are handled as the tree Go's scanner makes of them, so that equal
    renderings are equal trees.

    A Go method with a pointer receiver that assigns fields as it goes is
    modelled by explicit state passing: it takes the receiver and returns the
    receiver after the call together with the error ([None] is Go's nil). *)

From Stdlib Require Import NArith Lia Bool Ascii String List.
From stdpp Require Import base list.
Import ListNotations.

Set Warnings "-register-all,-unused-intro-pattern".

Local Open Scope string_scope.
Local Open Scope N_scope.

(* ===================================================================== *)
(** ** Go standard library                                                *)
(* ===================================================================== *)

Module Go.

(** The double quote character, used by strconv's error texts. *)
Definition dquote : string := String (ascii_of_nat 34) EmptyString.

Inductive strconvErr := ErrSyntax | ErrRange.

(** Go errors, kept structured; [Error] renders the text of [err.Error()]. *)
Inductive error :=
| errorsNew (msg : string)                    (* errors.New, errors.Errorf, fmt.Errorf *)
| errorsWrap (cause : error) (msg : string)   (* errors.Wrap, errors.Wrapf *)
| jsonSyntaxError (msg : string)              (* *json.SyntaxError and io errors *)
| jsonUnmarshalTypeError (value struct field type : string)
| hexInvalidByteError (c : ascii)             (* hex.InvalidByteError *)
| hexErrLength                                (* hex.ErrLength *)
| strconvNumError (func num : string) (e : strconvErr).

Inductive result (A : Type) :=
| Ok (a : A)
| Err (e : error).
Arguments Ok {A} a.
Arguments Err {A} e.

Definition bind {A B} (r : result A) (f : A -> result B) : result B :=
  match r with
  | Ok a => f a
  | Err e => Err e
  end.

(** *** Bytes and small helpers *)

Definition bytes := list N.          (* a []byte; every element is below 256 *)

Definition byteOf (c : ascii) : N := N_of_ascii c.
Definition charOf (n : N) : ascii := ascii_of_N n.

Fixpoint strBytes (s : string) : list N :=
  match s with
  | EmptyString => []
  | String c r => byteOf c :: strBytes r
  end.

Fixpoint strlen (s : string) : nat :=
  match s with
  | EmptyString => O
  | String _ r => S (strlen r)
  end.

(** strings.TrimPrefix(s, prefix) *)
Fixpoint hasPrefix (prefix s : string) : option string :=
  match prefix, s with
  | EmptyString, _ => Some s
  | String p pr, String c r => if Ascii.eqb p c then hasPrefix pr r else None
  | String _ _, EmptyString => None
  end.

Definition TrimPrefix (s prefix : string) : string :=
  match hasPrefix prefix s with
  | Some r => r
  | None => s
  end.


(** *** fmt: %d of an unsigned integer (strconv.formatBits, base 10) *)

Definition digitChar (d : N) : ascii := charOf (48 + d).

(** The loop [for u >= 10 { q := u/10; buf[i] = '0'+u-q*10; u = q }] followed
    by the last digit.  A uint64 has at most 20 digits, which bounds the loop. *)
Fixpoint formatBits (fuel : nat) (u : N) (acc : string) : string :=
  match fuel with
  | O => String (digitChar (u mod 10)) acc
  | S f =>
      if 10 <=? u
      then formatBits f (u / 10) (String (digitChar (u mod 10)) acc)
      else String (digitChar u) acc
  end.

Definition maxUint64 : N := 18446744073709551615.

Definition Sprintf_d (u : N) : string := formatBits 20 u "".

(** For indices ([%d] of an int that is never negative here). *)
Definition Sprintf_idx (i : nat) : string := formatBits 20 (N.of_nat i) "".

(** *** strconv.ParseUint(s, 10, 64) *)

Definition cutoff : N := maxUint64 / 10 + 1.

(** One turn of the loop over the bytes of [s]; [n] is the uint64 accumulator,
    whose multiplication and addition wrap around modulo 2^64 as in Go. *)
Definition wrap64 (x : N) : N := x mod 18446744073709551616.

Fixpoint parseLoop (s0 : string) (s : string) (n : N) : result N :=
  match s with
  | EmptyString => Ok n
  | String c r =>
      let b := byteOf c in
      if (48 <=? b) && (b <=? 57) then
        let d := b - 48 in
        if cutoff <=? n then Err (strconvNumError "ParseUint" s0 ErrRange)
        else
          let n' := wrap64 (n * 10) in
          let n1 := wrap64 (n' + d) in
          if (n1 <? n') || (maxUint64 <? n1)
          then Err (strconvNumError "ParseUint" s0 ErrRange)
          else parseLoop s0 r n1
      else
        (* letters give a digit >= base, everything else is no digit at all *)
        Err (strconvNumError "ParseUint" s0 ErrSyntax)
  end.

Definition ParseUint (s : string) : result N :=
  match s with
  | EmptyString => Err (strconvNumError "ParseUint" s ErrSyntax)
  | _ => parseLoop s s 0
  end.

(** What a text of decimal digits denotes, continuing from [n]. *)
Definition isDigit (c : ascii) : bool := (48 <=? byteOf c) && (byteOf c <=? 57).

Fixpoint allDigits (s : string) : bool :=
  match s with
  | EmptyString => true
  | String c r => isDigit c && allDigits r
  end.

Fixpoint decimalValue (s : string) (n : N) : N :=
  match s with
  | EmptyString => n
  | String c r => decimalValue r (n * 10 + (byteOf c - 48))
  end.

(** *** encoding/hex *)

Definition hextable (n : N) : ascii :=
  if n <? 10 then charOf (48 + n) else charOf (87 + n).

(** reverseHexTable: the value of a hex digit, [None] for 0xff. *)
Definition fromHexChar (c : ascii) : option N :=
  let b := byteOf c in
  if (48 <=? b) && (b <=? 57) then Some (b - 48)
  else if (97 <=? b) && (b <=? 102) then Some (b - 87)
  else if (65 <=? b) && (b <=? 70) then Some (b - 55)
  else None.

(** hex.DecodeString: the bytes decoded before the error, and the error. *)
Fixpoint hexDecode (s : string) : bytes * option error :=
  match s with
  | EmptyString => ([], None)
  | String p EmptyString =>
      match fromHexChar p with
      | None => ([], Some (hexInvalidByteError p))
      | Some _ => ([], Some hexErrLength)
      end
  | String p (String q r) =>
      match fromHexChar p with
      | None => ([], Some (hexInvalidByteError p))
      | Some a =>
          match fromHexChar q with
          | None => ([], Some (hexInvalidByteError q))
          | Some b =>
              let '(rest, e) := hexDecode r in
              (N.lor (N.shiftl a 4) b :: rest, e)
          end
      end
  end.

(** hex.EncodeToString, as used by fmt's %x verb. *)
Fixpoint hexEncode (b : bytes) : string :=
  match b with
  | [] => EmptyString
  | x :: r => String (hextable (N.shiftr x 4)) (String (hextable (N.land x 15)) (hexEncode r))
  end.

(** fmt.Sprintf("%#x", b) for a byte slice or array: nothing at all for an
    empty one, otherwise 0x and the lowercase digits. *)
Definition Sprintf_hx (b : bytes) : string :=
  match b with
  | [] => ""
  | _ => "0x" ++ hexEncode b
  end.

(** *** Error texts *)

Definition strconvErrText (e : strconvErr) : string :=
  match e with
  | ErrSyntax => "invalid syntax"
  | ErrRange => "value out of range"
  end.

Definition upperHex (n : N) : ascii :=
  if n <? 10 then charOf (48 + n) else charOf (55 + n).

(** strconv.Quote: the text between double quotes, with a backslash before
    a double quote and a backslash, the escapes \a \b \f \n \r \t \v and
    \xhh for the other control bytes of ASCII.  Bytes above 0x7f are kept
    as they are, which is what Go does with the printable runes of a valid
    UTF-8 text. *)
Definition backslash : string := String (charOf 92) EmptyString.

Definition quoteByte (c : ascii) : string :=
  let b := byteOf c in
  if (b =? 34) || (b =? 92) then backslash ++ String c ""
  else if (32 <=? b) && (b <=? 126) then String c ""
  else if b =? 7 then backslash ++ "a"
  else if b =? 8 then backslash ++ "b"
  else if b =? 12 then backslash ++ "f"
  else if b =? 10 then backslash ++ "n"
  else if b =? 13 then backslash ++ "r"
  else if b =? 9 then backslash ++ "t"
  else if b =? 11 then backslash ++ "v"
  else if b <? 128 then
    backslash ++ "x"
      ++ String (hextable (N.shiftr b 4)) (String (hextable (N.land b 15)) "")
  else String c "".

Fixpoint quoteBytes (s : string) : string :=
  match s with
  | EmptyString => EmptyString
  | String c r => quoteByte c ++ quoteBytes r
  end.

Definition Quote (s : string) : string := dquote ++ quoteBytes s ++ dquote.

(** fmt's %#U of a rune below 256: U+00XX, followed by the quoted
    character when strconv.IsPrint holds of it (the printable characters of
    ASCII and of Latin-1 but the soft hyphen). *)
Definition isPrintLatin1 (b : N) : bool :=
  ((32 <=? b) && (b <=? 126)) || ((161 <=? b) && (b <=? 255) && negb (b =? 173)).

(** string(n) of an integer n: the UTF-8 text of the rune n, and of U+FFFD
    when n is no rune (a surrogate half, or above U+10FFFF). *)
Definition runeString (n : N) : string :=
  let cont x := charOf (128 + N.land x 63) in
  if n <? 128 then String (charOf n) ""
  else if n <? 2048 then String (charOf (192 + N.shiftr n 6)) (String (cont n) "")
  else if ((55296 <=? n) && (n <=? 57343)) || (1114111 <? n) then
    String (charOf 239) (String (charOf 191) (String (charOf 189) ""))
  else if n <? 65536 then
    String (charOf (224 + N.shiftr n 12))
      (String (cont (N.shiftr n 6)) (String (cont n) ""))
  else
    String (charOf (240 + N.shiftr n 18))
      (String (cont (N.shiftr n 12)) (String (cont (N.shiftr n 6)) (String (cont n) ""))).

Fixpoint Error (e : error) : string :=
  match e with
  | errorsNew msg => msg
  | errorsWrap cause msg => msg ++ ": " ++ Error cause
  | jsonSyntaxError msg => msg
  | jsonUnmarshalTypeError value struct field type =>
      match struct, field with
      | EmptyString, EmptyString =>
          "json: cannot unmarshal " ++ value ++ " into Go value of type " ++ type
      | _, _ =>
          "json: cannot unmarshal " ++ value ++ " into Go struct field "
            ++ struct ++ "." ++ field ++ " of type " ++ type
      end
  | hexInvalidByteError c =>
      "encoding/hex: invalid byte: U+00"
        ++ String (upperHex (N.shiftr (byteOf c) 4)) (String (upperHex (N.land (byteOf c) 15)) "")
        ++ (if isPrintLatin1 (byteOf c) then " '" ++ runeString (byteOf c) ++ "'" else "")
  | hexErrLength => "encoding/hex: odd length hex string"
  | strconvNumError func num e =>
      "strconv." ++ func ++ ": parsing " ++ Quote num ++ ": " ++ strconvErrText e
  end.

(** *** encoding/json: values and the binding of an object to a struct *)

(** A JSON text after Go's scanner: the tree of values, object members in
    the order of the text (duplicates kept). *)
Inductive json :=
| JNull
| JBool (b : bool)
| JNumber (literal : string)
| JString (s : string)
| JArray (elements : list json)
| JObject (members : list (string * json)).

(** The word json's type errors use for a value. *)
Definition kindName (v : json) : string :=
  match v with
  | JNull => "null"
  | JBool _ => "bool"
  | JNumber _ => "number"
  | JString _ => "string"
  | JArray _ => "array"
  | JObject _ => "object"
  end.

(** Object keys are matched to a field's name exactly or after folding:
    ASCII letters fold onto their capitals, and so do the two runes whose
    simple case folding is an ASCII letter, the Kelvin sign (U+212A, bytes
    E2 84 AA) onto K and the long s (U+017F, bytes C5 BF) onto S.  Every
    other rune folds onto a rune that is not ASCII and stays as it is. *)
Definition upper (c : ascii) : ascii :=
  let b := byteOf c in
  if (97 <=? b) && (b <=? 122) then charOf (b - 32) else c.

Fixpoint foldName (s : string) : string :=
  match s with
  | EmptyString => EmptyString
  | String "226" (String "132" (String "170" r)) => String "K" (foldName r)
  | String "197" (String "191" r) => String "S" (foldName r)
  | String c r => String (upper c) (foldName r)
  end.

Definition keyMatches (field key : string) : bool :=
  String.eqb field key || String.eqb (foldName field) (foldName key).

(** json.Marshaler and json.Unmarshaler, for the types the records point to.
    [UnmarshalJSON] has a pointer receiver: it is given the receiver and
    returns it after the call with the error.  The Marshalers of this
    repository render a fixed struct of strings and never fail, so
    [MarshalJSON] is total. *)
Class JSONCodec (T : Type) := {
  zero : T;
  UnmarshalJSON : T -> json -> T * option error;
  MarshalJSON : T -> json
}.

(** Marshalling a pointer field: null for nil. *)
Definition marshalPtr {T} `{JSONCodec T} (p : option T) : json :=
  match p with
  | None => JNull
  | Some x => MarshalJSON x
  end.

(** Binding a value to a field of type string.  null has no effect; a value
    of another kind is skipped and reported (the decoder goes on). *)
Definition bindString (struct field : string) (cur : string) (v : json)
  : string * option error :=
  match v with
  | JString s => (s, None)
  | JNull => (cur, None)
  | _ => (cur, Some (jsonUnmarshalTypeError (kindName v) struct field "string"))
  end.

(** The elements of an array bound to a []string, one by one into the
    slice the field holds: [cur] gives the values the elements start from,
    the empty string beyond its length.  The result holds the strings, with
    the first type error if an element is no string; such an element and a
    null keep the value they started from. *)
Fixpoint bindElements (struct field : string) (cur : list string) (l : list json)
  : list string * option error :=
  match l with
  | [] => ([], None)
  | v :: r =>
      let '(s, e) := bindString struct field (hd "" cur) v in
      let '(rs, er) := bindElements struct field (tl cur) r in
      (s :: rs, match e with Some _ => e | None => er end)
  end.

(** Binding a value to a field of type []string; [None] is the nil slice.
    An array is decoded into the slice the field holds and always gives a
    non-nil slice, also when it is empty.  (The decoder grows a slice over
    its backing array; what lies there beyond the length is empty unless
    the field was given before by a longer array, a case left out here.) *)
Definition bindStrings (struct field : string) (cur : option (list string)) (v : json)
  : option (list string) * option error :=
  match v with
  | JArray l =>
      let '(ss, e) := bindElements struct field (match cur with Some c => c | None => [] end) l in
      (Some ss, e)
  | JNull => (None, None)
  | _ => (cur, Some (jsonUnmarshalTypeError (kindName v) struct field "[]string"))
  end.

(** Binding a value to a field of type *T where T is an Unmarshaler: null
    sets the pointer to nil, any other value is handed to T's UnmarshalJSON
    (on the pointed-to value, allocated if the pointer is nil), whose error
    stops the decoder at once. *)
Definition bindPtr {T} `{JSONCodec T} (cur : option T) (v : json) : result (option T) :=
  match v with
  | JNull => Ok None
  | _ =>
      let recv := match cur with Some x => x | None => zero end in
      match UnmarshalJSON recv v with
      | (x, None) => Ok (Some x)
      | (_, Some e) => Err e
      end
  end.

(** A field of the struct a JSON object is bound to, as the decoder's
    reflection sees it: its kind, and how it is read and written. *)
Inductive field (J : Type) :=
| ptrField {T} `{JSONCodec T} (get : J -> option T) (put : option T -> J -> J)
| stringsField (get : J -> option (list string)) (put : option (list string) -> J -> J)
| stringField (get : J -> string) (put : string -> J -> J).
Arguments ptrField {J T _} get put.
Arguments stringsField {J} get put.
Arguments stringField {J} get put.

Definition bindField {J} (struct name : string) (d : field J) (jso : J) (v : json)
  : result (J * option error) :=
  match d with
  | ptrField get put => bind (bindPtr (get jso) v) (fun p => Ok (put p jso, None))
  | stringsField get put =>
      let '(x, e) := bindStrings struct name (get jso) v in Ok (put x jso, e)
  | stringField get put =>
      let '(x, e) := bindString struct name (get jso) v in Ok (put x jso, e)
  end.

(** Binding one member: to the field whose tag matches its key, if any. *)
Fixpoint bindStruct {J} (struct : string) (fs : list (string * field J))
    (jso : J) (k : string) (v : json) : result (J * option error) :=
  match fs with
  | [] => Ok (jso, None)
  | (name, d) :: r =>
      if keyMatches name k then bindField struct name d jso v
      else bindStruct struct r jso k v
  end.

(** What the decoder relies on when it binds members to fields: the tags
    differ also after folding, a field reads what was written to it, and
    writing one field leaves the others as they were. *)
Fixpoint distinct (l : list string) : bool :=
  match l with
  | [] => true
  | x :: r => negb (existsb (String.eqb x) r) && distinct r
  end.

Definition sameOn {J} (d : field J) (j j' : J) : Prop :=
  match d with
  | ptrField get _ => get j = get j'
  | stringsField get _ => get j = get j'
  | stringField get _ => get j = get j'
  end.

Definition putGet {J} (d : field J) : Prop :=
  match d with
  | ptrField get put => forall v j, get (put v j) = v
  | stringsField get put => forall v j, get (put v j) = v
  | stringField get put => forall v j, get (put v j) = v
  end.

Definition frames {J} (d d' : field J) : Prop :=
  match d with
  | ptrField _ put => forall v j, sameOn d' j (put v j)
  | stringsField _ put => forall v j, sameOn d' j (put v j)
  | stringField _ put => forall v j, sameOn d' j (put v j)
  end.

Definition wellFormed {J} (fs : list (string * field J)) : Prop :=
  distinct (map (fun nd => foldName (fst nd)) fs) = true
  /\ (forall i n d, fs !! i = Some (n, d) -> putGet d)
  /\ (forall i j n d n' d',
        fs !! i = Some (n, d) -> fs !! j = Some (n', d') -> i <> j -> frames d d').

(** Two structs that hold the same in every field but the one at index
    [i]. *)
Definition sameButAt {J} (fs : list (string * field J)) (i : nat) (j j' : J) : Prop :=
  forall m n d, fs !! m = Some (n, d) -> m <> i -> sameOn d j j'.

(** The loop of the decoder over the members of an object.  [set] binds one
    member to the struct (members matching no field are skipped); a type
    error is saved (the earliest one) while decoding goes on, an
    Unmarshaler's error returns at once. *)
Fixpoint bindMembers {J} (set : J -> string -> json -> result (J * option error))
    (ms : list (string * json)) (jso : J) (saved : option error)
  : result (J * option error) :=
  match ms with
  | [] => Ok (jso, saved)
  | (k, v) :: r =>
      match set jso k v with
      | Err e => Err e
      | Ok (jso', e) =>
          bindMembers set r jso' (match saved with Some _ => saved | None => e end)
      end
  end.

(** json.Unmarshal(input, &jso) for a plain struct [jso] that starts as its
    zero value. *)
Definition unmarshalStruct {J} (type : string) (zeroJ : J)
    (set : J -> string -> json -> result (J * option error)) (input : json) : result J :=
  match input with
  | JNull => Ok zeroJ
  | JObject ms =>
      match bindMembers set ms zeroJ None with
      | Ok (jso, None) => Ok jso
      | Ok (_, Some e) => Err e
      | Err e => Err e
      end
  | _ => Err (jsonUnmarshalTypeError (kindName input) "" "" type)
  end.

(** *** Methods with a pointer receiver *)

(** A method body over a receiver of type [L]: the receiver after the call
    and either the value computed so far or the error returned. *)
Definition Method (L A : Type) : Type := L -> L * result A.

Definition ret {L A} (a : A) : Method L A := fun l => (l, Ok a).
Definition fail {L A} (e : error) : Method L A := fun l => (l, Err e).
Definition assign {L} (f : L -> L) : Method L unit := fun l => (f l, Ok tt).
Definition andThen {L A B} (m : Method L A) (k : A -> Method L B) : Method L B :=
  fun l => match m l with
           | (l', Ok a) => k a l'
           | (l', Err e) => (l', Err e)
           end.

(** The error a method returns: nil when its body ran to the end. *)
Definition run {L} (m : Method L unit) (l : L) : L * option error :=
  match m l with
  | (l', Ok _) => (l', None)
  | (l', Err e) => (l', Some e)
  end.

(** A value that may fail, inside a method: [if err != nil { return wrap(err) }]. *)
Definition try {L A} (r : result A) (wrap : error -> error) : Method L A :=
  match r with
  | Ok a => ret a
  | Err e => fail (wrap e)
  end.

(** [if p == nil { return err }], giving the pointed-to value otherwise. *)
Definition nonNil {L A} (p : option A) (e : error) : Method L A :=
  match p with
  | Some a => ret a
  | None => fail e
  end.

(** [if cond { return err }] *)
Definition failIf {L} (cond : bool) (e : error) : Method L unit :=
  if cond then fail e else ret tt.

End Go.

Declare Scope method_scope.
Delimit Scope method_scope with method.
Notation "'let*' x ':=' m 'in' k" := (Go.andThen m (fun x => k))
  (at level 10, x name, m at level 100, k at level 200) : method_scope.
Notation "m ';;' k" := (Go.andThen m (fun _ => k))
  (at level 100, k at level 200, right associativity) : method_scope.

(* ===================================================================== *)
(** ** Branches, element by element                                       *)
(* ===================================================================== *)

(** What the loops of UnmarshalJSON over a branch compute, without the
    receiver they write to. *)
Module Branch.
Import Go.

(** What one element of a branch decodes to. *)
Inductive element :=
| Decoded (b : bytes)              (* 32 bytes *)
| Missing                          (* the empty string, where it is looked for *)
| InvalidValue (e : error)         (* no hexadecimal text *)
| InvalidLength (b : bytes).       (* hexadecimal, of another length *)

(** [guard] tells whether the loop starts with [if jso.X[i] == ""]. *)
Definition decodeElement (guard : bool) (s : string) : element :=
  if guard && String.eqb s "" then Missing
  else match hexDecode (TrimPrefix s "0x") with
       | (_, Some e) => InvalidValue e
       | (b, None) => if Nat.eqb (length b) 32 then Decoded b else InvalidLength b
       end.

Definition decodes (guard : bool) (s : string) (b : bytes) : Prop :=
  decodeElement guard s = Decoded b.

(** The error the loop over a branch returns for an element. *)
Definition elementError (field : string) (i : nat) (e : element) : option error :=
  match e with
  | Decoded _ => None
  | Missing => Some (errorsNew (field ++ "[" ++ Sprintf_idx i ++ "] missing"))
  | InvalidValue e =>
      Some (errorsWrap e ("invalid value for " ++ field ++ "[" ++ Sprintf_idx i ++ "]"))
  | InvalidLength _ =>
      Some (errorsNew ("invalid length of " ++ field ++ "[" ++ Sprintf_idx i ++ "]"))
  end.

(** A branch decoded element by element from index [i] on: the elements
    decoded, and the first element that is not, with its index. *)
Fixpoint decodeBranch (guard : bool) (i : nat) (ss : list string)
  : list bytes * option (nat * element) :=
  match ss with
  | [] => ([], None)
  | s :: r =>
      match decodeElement guard s with
      | Decoded b => let '(bs, bad) := decodeBranch guard (S i) r in (b :: bs, bad)
      | e => ([], Some (i, e))
      end
  end.

(** What the loop returns for the first element that does not decode. *)
Definition loopResult (field : string) (bad : option (nat * element)) : result unit :=
  match bad with
  | None => Ok tt
  | Some (j, e) => match elementError field j e with
                   | Some err => Err err
                   | None => Ok tt
                   end
  end.

(** A branch field as UnmarshalJSON treats it, without the receiver: the
    nil check, the length check and the loop. *)
Definition branchResult (guard : bool) (field : string) (x : option (list string))
  : result (list bytes) :=
  match x with
  | None => Err (errorsNew (field ++ " missing"))
  | Some ss =>
      if Nat.eqb (length ss) 0 then Err (errorsNew (field ++ " length cannot be 0"))
      else match decodeBranch guard 0 ss with
           | (bs, None) => Ok bs
           | (bs, Some (j, e)) =>
               match elementError field j e with
               | Some err => Err err
               | None => Ok bs
               end
           end
  end.

(** 32 bytes. *)
Definition wellSized (x : bytes) : Prop :=
  length x = 32%nat /\ Forall (fun n => n < 256) x.

End Branch.

(* ===================================================================== *)
(** ** The record types and their textual codec                           *)
(* ===================================================================== *)

Module Codec.
Import Go Branch.

(** The loop over a branch whose elements are byte slices ([][]byte): every
    element is written to the receiver as soon as it is hex-decoded, before
    its length is looked at.  [ss] holds the elements from index [i] on. *)
Fixpoint sliceLoop {L} (field : string) (get : L -> list bytes)
    (put : list bytes -> L -> L) (i : nat) (ss : list string) : Method L unit :=
  match ss with
  | [] => ret tt
  | s :: r =>
      if String.eqb s "" then
        fail (errorsNew (field ++ "[" ++ Sprintf_idx i ++ "] missing"))
      else
        let '(b, err) := hexDecode (TrimPrefix s "0x") in
        (assign (fun l => put (<[i := b]> (get l)) l) ;;
         match err with
         | Some e =>
             fail (errorsWrap e ("invalid value for " ++ field ++ "[" ++ Sprintf_idx i ++ "]"))
         | None =>
             if negb (Nat.eqb (length b) 32)
             then fail (errorsNew ("invalid length of " ++ field ++ "[" ++ Sprintf_idx i ++ "]"))
             else sliceLoop field get put (S i) r
         end)%method
  end.

(** The loop over a branch whose elements are arrays ([][32]byte): an
    element is decoded into a local and copied into the receiver once its
    length has been checked. *)
Fixpoint arrayLoop {L} (field : string) (get : L -> list bytes)
    (put : list bytes -> L -> L) (i : nat) (ss : list string) : Method L unit :=
  match ss with
  | [] => ret tt
  | s :: r =>
      let '(b, err) := hexDecode (TrimPrefix s "0x") in
      match err with
      | Some e =>
          fail (errorsWrap e ("invalid value for " ++ field ++ "[" ++ Sprintf_idx i ++ "]"))
      | None =>
          if negb (Nat.eqb (length b) 32)
          then fail (errorsNew ("invalid length of " ++ field ++ "[" ++ Sprintf_idx i ++ "]"))
          else (assign (fun l => put (<[i := b]> (get l)) l) ;;
                arrayLoop field get put (S i) r)%method
      end
  end.

(** [if jso.X == nil { missing }; if len(jso.X) == 0 { length cannot be 0 };
     l.X = make([][]byte, len(jso.X)); for i := range jso.X { ... }] *)
Definition sliceBranch {L} (field : string) (get : L -> list bytes)
    (put : list bytes -> L -> L) (x : option (list string)) : Method L unit :=
  (let* ss := nonNil x (errorsNew (field ++ " missing")) in
   failIf (Nat.eqb (length ss) 0) (errorsNew (field ++ " length cannot be 0")) ;;
   assign (put (replicate (length ss) [])) ;;
   sliceLoop field get put 0 ss)%method.

(** The same with [make([][32]byte, len(jso.X))]: arrays of 32 zero bytes. *)
Definition arrayBranch {L} (field : string) (get : L -> list bytes)
    (put : list bytes -> L -> L) (x : option (list string)) : Method L unit :=
  (let* ss := nonNil x (errorsNew (field ++ " missing")) in
   failIf (Nat.eqb (length ss) 0) (errorsNew (field ++ " length cannot be 0")) ;;
   assign (put (replicate (length ss) (replicate 32 0))) ;;
   arrayLoop field get put 0 ss)%method.

(** The branch as MarshalJSON renders it: one %#x string per element. *)
Definition marshalBranch (b : list bytes) : json :=
  JArray (map (fun x => JString (Sprintf_hx x)) b).

(** [if jso.SignatureSlot == "" { missing }; slot, err := ParseUint(...)] *)
Definition parseSlot {L} (s : string) : Method L N :=
  (failIf (String.eqb s "") (errorsNew "signature_slot missing") ;;
   try (ParseUint s) (fun e => errorsWrap e "invalid value for slot"))%method.

(** *** The checks of an UnmarshalJSON, field by field *)

(** One field's share of an UnmarshalJSON: the statements that check the
    field and assign it, and what holds of the receiver once they have run
    without error. *)
Record stage (L : Type) := {
  stageName : string;
  action : Method L unit;
  done : L -> Prop
}.
Arguments stageName {L} _.
Arguments action {L} _.
Arguments done {L} _.

Fixpoint runStages {L} (ss : list (stage L)) : Method L unit :=
  match ss with
  | [] => ret tt
  | s :: r => (action s ;; runStages r)%method
  end.

(** [if jso.X == nil { return missing }; l.X = jso.X] *)
Definition ptrStage {L T} (name : string) (p : option T)
    (get : L -> option T) (set : option T -> L -> L) : stage L :=
  {| stageName := name;
     action := (let* x := nonNil p (errorsNew (name ++ " missing")) in
                assign (set (Some x)))%method;
     done := fun l => p <> None /\ get l = p |}.

Definition sliceStage {L} (name : string) (x : option (list string))
    (get : L -> list bytes) (put : list bytes -> L -> L) : stage L :=
  {| stageName := name;
     action := sliceBranch name get put x;
     done := fun l => branchResult true name x = Ok (get l) |}.

Definition arrayStage {L} (name : string) (x : option (list string))
    (get : L -> list bytes) (put : list bytes -> L -> L) : stage L :=
  {| stageName := name;
     action := arrayBranch name get put x;
     done := fun l => branchResult false name x = Ok (get l) |}.

Definition slotStage {L} (s : string) (get : L -> N) (set : N -> L -> L) : stage L :=
  {| stageName := "signature_slot";
     action := (let* slot := parseSlot s in assign (set slot))%method;
     done := fun l => s <> "" /\ ParseUint s = Ok (get l) |}.

(** *** api/v1: LightClientUpdate *)

Module v1_LightClientUpdate.
Section Record_.
Context {BeaconBlockHeader SyncCommittee SyncAggregate : Type}.
Context `{!JSONCodec BeaconBlockHeader, !JSONCodec SyncCommittee, !JSONCodec SyncAggregate}.

Record LightClientUpdate := {
  AttestedHeader : option BeaconBlockHeader;
  NextSyncCommittee : option SyncCommittee;
  NextSyncCommitteeBranch : list bytes;
  FinalizedHeader : option BeaconBlockHeader;
  FinalityBranch : list bytes;
  SyncAggregate_ : option SyncAggregate;
  SignatureSlot : N
}.

(** lightClientUpdateJSON; the projections carry the json tags. *)
Record lightClientUpdateJSON := {
  attested_header : option BeaconBlockHeader;
  next_sync_committee : option SyncCommittee;
  next_sync_committee_branch : option (list string);
  finalized_header : option BeaconBlockHeader;
  finality_branch : option (list string);
  sync_aggregate : option SyncAggregate;
  signature_slot : string
}.

Definition zeroJSON : lightClientUpdateJSON :=
  {| attested_header := None; next_sync_committee := None; next_sync_committee_branch := None; finalized_header := None; finality_branch := None; sync_aggregate := None; signature_slot := "" |}.

Definition zeroValue : LightClientUpdate :=
  {| AttestedHeader := None; NextSyncCommittee := None; NextSyncCommitteeBranch := []; FinalizedHeader := None; FinalityBranch := []; SyncAggregate_ := None; SignatureSlot := 0 |}.

(** Assignments to one field of the receiver. *)
Definition setAttestedHeader v (l : LightClientUpdate) : LightClientUpdate :=
  {| AttestedHeader := v;
     NextSyncCommittee := NextSyncCommittee l;
     NextSyncCommitteeBranch := NextSyncCommitteeBranch l;
     FinalizedHeader := FinalizedHeader l;
     FinalityBranch := FinalityBranch l;
     SyncAggregate_ := SyncAggregate_ l;
     SignatureSlot := SignatureSlot l |}.
Definition setNextSyncCommittee v (l : LightClientUpdate) : LightClientUpdate :=
  {| AttestedHeader := AttestedHeader l;
     NextSyncCommittee := v;
     NextSyncCommitteeBranch := NextSyncCommitteeBranch l;
     FinalizedHeader := FinalizedHeader l;
     FinalityBranch := FinalityBranch l;
     SyncAggregate_ := SyncAggregate_ l;
     SignatureSlot := SignatureSlot l |}.
Definition setNextSyncCommitteeBranch v (l : LightClientUpdate) : LightClientUpdate :=
  {| AttestedHeader := AttestedHeader l;
     NextSyncCommittee := NextSyncCommittee l;
     NextSyncCommitteeBranch := v;
     FinalizedHeader := FinalizedHeader l;
     FinalityBranch := FinalityBranch l;
     SyncAggregate_ := SyncAggregate_ l;
     SignatureSlot := SignatureSlot l |}.
Definition setFinalizedHeader v (l : LightClientUpdate) : LightClientUpdate :=
  {| AttestedHeader := AttestedHeader l;
     NextSyncCommittee := NextSyncCommittee l;
     NextSyncCommitteeBranch := NextSyncCommitteeBranch l;
     FinalizedHeader := v;
     FinalityBranch := FinalityBranch l;
     SyncAggregate_ := SyncAggregate_ l;
     SignatureSlot := SignatureSlot l |}.
Definition setFinalityBranch v (l : LightClientUpdate) : LightClientUpdate :=
  {| AttestedHeader := AttestedHeader l;
     NextSyncCommittee := NextSyncCommittee l;
     NextSyncCommitteeBranch := NextSyncCommitteeBranch l;
     FinalizedHeader := FinalizedHeader l;
     FinalityBranch := v;
     SyncAggregate_ := SyncAggregate_ l;
     SignatureSlot := SignatureSlot l |}.
Definition setSyncAggregate v (l : LightClientUpdate) : LightClientUpdate :=
  {| AttestedHeader := AttestedHeader l;
     NextSyncCommittee := NextSyncCommittee l;
     NextSyncCommitteeBranch := NextSyncCommitteeBranch l;
     FinalizedHeader := FinalizedHeader l;
     FinalityBranch := FinalityBranch l;
     SyncAggregate_ := v;
     SignatureSlot := SignatureSlot l |}.
Definition setSignatureSlot v (l : LightClientUpdate) : LightClientUpdate :=
  {| AttestedHeader := AttestedHeader l;
     NextSyncCommittee := NextSyncCommittee l;
     NextSyncCommitteeBranch := NextSyncCommitteeBranch l;
     FinalizedHeader := FinalizedHeader l;
     FinalityBranch := FinalityBranch l;
     SyncAggregate_ := SyncAggregate_ l;
     SignatureSlot := v |}.

(** The fields of lightClientUpdateJSON as json.Unmarshal sees them: the tag, the
    kind of the field and how it is read and written. *)
Definition put_attested_header v (jso : lightClientUpdateJSON) : lightClientUpdateJSON :=
  {| attested_header := v;
     next_sync_committee := next_sync_committee jso;
     next_sync_committee_branch := next_sync_committee_branch jso;
     finalized_header := finalized_header jso;
     finality_branch := finality_branch jso;
     sync_aggregate := sync_aggregate jso;
     signature_slot := signature_slot jso |}.
Definition put_next_sync_committee v (jso : lightClientUpdateJSON) : lightClientUpdateJSON :=
  {| attested_header := attested_header jso;
     next_sync_committee := v;
     next_sync_committee_branch := next_sync_committee_branch jso;
     finalized_header := finalized_header jso;
     finality_branch := finality_branch jso;
     sync_aggregate := sync_aggregate jso;
     signature_slot := signature_slot jso |}.
Definition put_next_sync_committee_branch v (jso : lightClientUpdateJSON) : lightClientUpdateJSON :=
  {| attested_header := attested_header jso;
     next_sync_committee := next_sync_committee jso;
     next_sync_committee_branch := v;
     finalized_header := finalized_header jso;
     finality_branch := finality_branch jso;
     sync_aggregate := sync_aggregate jso;
     signature_slot := signature_slot jso |}.
Definition put_finalized_header v (jso : lightClientUpdateJSON) : lightClientUpdateJSON :=
  {| attested_header := attested_header jso;
     next_sync_committee := next_sync_committee jso;
     next_sync_committee_branch := next_sync_committee_branch jso;
     finalized_header := v;
     finality_branch := finality_branch jso;
     sync_aggregate := sync_aggregate jso;
     signature_slot := signature_slot jso |}.
Definition put_finality_branch v (jso : lightClientUpdateJSON) : lightClientUpdateJSON :=
  {| attested_header := attested_header jso;
     next_sync_committee := next_sync_committee jso;
     next_sync_committee_branch := next_sync_committee_branch jso;
     finalized_header := finalized_header jso;
     finality_branch := v;
     sync_aggregate := sync_aggregate jso;
     signature_slot := signature_slot jso |}.
Definition put_sync_aggregate v (jso : lightClientUpdateJSON) : lightClientUpdateJSON :=
  {| attested_header := attested_header jso;
     next_sync_committee := next_sync_committee jso;
     next_sync_committee_branch := next_sync_committee_branch jso;
     finalized_header := finalized_header jso;
     finality_branch := finality_branch jso;
     sync_aggregate := v;
     signature_slot := signature_slot jso |}.
Definition put_signature_slot v (jso : lightClientUpdateJSON) : lightClientUpdateJSON :=
  {| attested_header := attested_header jso;
     next_sync_committee := next_sync_committee jso;
     next_sync_committee_branch := next_sync_committee_branch jso;
     finalized_header := finalized_header jso;
     finality_branch := finality_branch jso;
     sync_aggregate := sync_aggregate jso;
     signature_slot := v |}.

Definition jsonFields : list (string * field lightClientUpdateJSON) :=
  [ ("attested_header", ptrField attested_header put_attested_header);
    ("next_sync_committee", ptrField next_sync_committee put_next_sync_committee);
    ("next_sync_committee_branch", stringsField next_sync_committee_branch put_next_sync_committee_branch);
    ("finalized_header", ptrField finalized_header put_finalized_header);
    ("finality_branch", stringsField finality_branch put_finality_branch);
    ("sync_aggregate", ptrField sync_aggregate put_sync_aggregate);
    ("signature_slot", stringField signature_slot put_signature_slot) ].

(** json.Unmarshal(input, &jso) *)
Definition unmarshalJSO (input : json) : result lightClientUpdateJSON :=
  unmarshalStruct "v1.lightClientUpdateJSON" zeroJSON (bindStruct "lightClientUpdateJSON" jsonFields) input.

(** func (l *LightClientUpdate) MarshalJSON() *)
Definition MarshalJSON (l : LightClientUpdate) : json :=
  JObject [
    ("attested_header", marshalPtr (AttestedHeader l));
    ("next_sync_committee", marshalPtr (NextSyncCommittee l));
    ("next_sync_committee_branch", marshalBranch (NextSyncCommitteeBranch l));
    ("finalized_header", marshalPtr (FinalizedHeader l));
    ("finality_branch", marshalBranch (FinalityBranch l));
    ("sync_aggregate", marshalPtr (SyncAggregate_ l));
    ("signature_slot", JString (Sprintf_d (SignatureSlot l)))
  ].

(** The checks and assignments of UnmarshalJSON once the input is bound. *)
Definition fill (jso : lightClientUpdateJSON) : Method LightClientUpdate unit :=
  (let* h := nonNil (attested_header jso) (errorsNew "attested_header missing") in
   assign (setAttestedHeader (Some h)) ;;
   let* c := nonNil (next_sync_committee jso) (errorsNew "next_sync_committee missing") in
   assign (setNextSyncCommittee (Some c)) ;;
   sliceBranch "next_sync_committee_branch" NextSyncCommitteeBranch
     setNextSyncCommitteeBranch (next_sync_committee_branch jso) ;;
   let* f := nonNil (finalized_header jso) (errorsNew "finalized_header missing") in
   assign (setFinalizedHeader (Some f)) ;;
   sliceBranch "finality_branch" FinalityBranch setFinalityBranch (finality_branch jso) ;;
   let* a := nonNil (sync_aggregate jso) (errorsNew "sync_aggregate missing") in
   assign (setSyncAggregate (Some a)) ;;
   let* slot := parseSlot (signature_slot jso) in
   assign (setSignatureSlot slot))%method.

(** The same checks, one stage per field. *)
Definition stages (jso : lightClientUpdateJSON) : list (stage LightClientUpdate) :=
  [ ptrStage "attested_header" (attested_header jso) AttestedHeader setAttestedHeader;
    ptrStage "next_sync_committee" (next_sync_committee jso) NextSyncCommittee setNextSyncCommittee;
    sliceStage "next_sync_committee_branch" (next_sync_committee_branch jso) NextSyncCommitteeBranch setNextSyncCommitteeBranch;
    ptrStage "finalized_header" (finalized_header jso) FinalizedHeader setFinalizedHeader;
    sliceStage "finality_branch" (finality_branch jso) FinalityBranch setFinalityBranch;
    ptrStage "sync_aggregate" (sync_aggregate jso) SyncAggregate_ setSyncAggregate;
    slotStage (signature_slot jso) SignatureSlot setSignatureSlot ].

(** func (l *LightClientUpdate) UnmarshalJSON(input []byte) error *)
Definition UnmarshalJSON (l : LightClientUpdate) (input : json)
  : LightClientUpdate * option error :=
  run (let* jso := try (unmarshalJSO input) (fun e => errorsWrap e "invalid JSON") in
       fill jso)%method l.

#[global] Instance codec : JSONCodec LightClientUpdate :=
  Build_JSONCodec _ zeroValue UnmarshalJSON MarshalJSON.

End Record_.
End v1_LightClientUpdate.

(** *** api/v1: LightClientFinalityUpdate *)

Module v1_LightClientFinalityUpdate.
Section Record_.
Context {BeaconBlockHeader SyncAggregate : Type}.
Context `{!JSONCodec BeaconBlockHeader, !JSONCodec SyncAggregate}.

Record LightClientFinalityUpdate := {
  AttestedHeader : option BeaconBlockHeader;
  FinalizedHeader : option BeaconBlockHeader;
  FinalityBranch : list bytes;
  SyncAggregate_ : option SyncAggregate;
  SignatureSlot : N
}.

(** lightClientFinalityUpdateJSON; the projections carry the json tags. *)
Record lightClientFinalityUpdateJSON := {
  attested_header : option BeaconBlockHeader;
  finalized_header : option BeaconBlockHeader;
  finality_branch : option (list string);
  sync_aggregate : option SyncAggregate;
  signature_slot : string
}.

Definition zeroJSON : lightClientFinalityUpdateJSON :=
  {| attested_header := None; finalized_header := None; finality_branch := None; sync_aggregate := None; signature_slot := "" |}.

Definition zeroValue : LightClientFinalityUpdate :=
  {| AttestedHeader := None; FinalizedHeader := None; FinalityBranch := []; SyncAggregate_ := None; SignatureSlot := 0 |}.

(** Assignments to one field of the receiver. *)
Definition setAttestedHeader v (l : LightClientFinalityUpdate) : LightClientFinalityUpdate :=
  {| AttestedHeader := v;
     FinalizedHeader := FinalizedHeader l;
     FinalityBranch := FinalityBranch l;
     SyncAggregate_ := SyncAggregate_ l;
     SignatureSlot := SignatureSlot l |}.
Definition setFinalizedHeader v (l : LightClientFinalityUpdate) : LightClientFinalityUpdate :=
  {| AttestedHeader := AttestedHeader l;
     FinalizedHeader := v;
     FinalityBranch := FinalityBranch l;
     SyncAggregate_ := SyncAggregate_ l;
     SignatureSlot := SignatureSlot l |}.
Definition setFinalityBranch v (l : LightClientFinalityUpdate) : LightClientFinalityUpdate :=
  {| AttestedHeader := AttestedHeader l;
     FinalizedHeader := FinalizedHeader l;
     FinalityBranch := v;
     SyncAggregate_ := SyncAggregate_ l;
     SignatureSlot := SignatureSlot l |}.
Definition setSyncAggregate v (l : LightClientFinalityUpdate) : LightClientFinalityUpdate :=
  {| AttestedHeader := AttestedHeader l;
     FinalizedHeader := FinalizedHeader l;
     FinalityBranch := FinalityBranch l;
     SyncAggregate_ := v;
     SignatureSlot := SignatureSlot l |}.
Definition setSignatureSlot v (l : LightClientFinalityUpdate) : LightClientFinalityUpdate :=
  {| AttestedHeader := AttestedHeader l;
     FinalizedHeader := FinalizedHeader l;
     FinalityBranch := FinalityBranch l;
     SyncAggregate_ := SyncAggregate_ l;
     SignatureSlot := v |}.

(** The fields of lightClientFinalityUpdateJSON as json.Unmarshal sees them: the tag, the
    kind of the field and how it is read and written. *)
Definition put_attested_header v (jso : lightClientFinalityUpdateJSON) : lightClientFinalityUpdateJSON :=
  {| attested_header := v;
     finalized_header := finalized_header jso;
     finality_branch := finality_branch jso;
     sync_aggregate := sync_aggregate jso;
     signature_slot := signature_slot jso |}.
Definition put_finalized_header v (jso : lightClientFinalityUpdateJSON) : lightClientFinalityUpdateJSON :=
  {| attested_header := attested_header jso;
     finalized_header := v;
     finality_branch := finality_branch jso;
     sync_aggregate := sync_aggregate jso;
     signature_slot := signature_slot jso |}.
Definition put_finality_branch v (jso : lightClientFinalityUpdateJSON) : lightClientFinalityUpdateJSON :=
  {| attested_header := attested_header jso;
     finalized_header := finalized_header jso;
     finality_branch := v;
     sync_aggregate := sync_aggregate jso;
     signature_slot := signature_slot jso |}.
Definition put_sync_aggregate v (jso : lightClientFinalityUpdateJSON) : lightClientFinalityUpdateJSON :=
  {| attested_header := attested_header jso;
     finalized_header := finalized_header jso;
     finality_branch := finality_branch jso;
     sync_aggregate := v;
     signature_slot := signature_slot jso |}.
Definition put_signature_slot v (jso : lightClientFinalityUpdateJSON) : lightClientFinalityUpdateJSON :=
  {| attested_header := attested_header jso;
     finalized_header := finalized_header jso;
     finality_branch := finality_branch jso;
     sync_aggregate := sync_aggregate jso;
     signature_slot := v |}.

Definition jsonFields : list (string * field lightClientFinalityUpdateJSON) :=
  [ ("attested_header", ptrField attested_header put_attested_header);
    ("finalized_header", ptrField finalized_header put_finalized_header);
    ("finality_branch", stringsField finality_branch put_finality_branch);
    ("sync_aggregate", ptrField sync_aggregate put_sync_aggregate);
    ("signature_slot", stringField signature_slot put_signature_slot) ].

(** json.Unmarshal(input, &jso) *)
Definition unmarshalJSO (input : json) : result lightClientFinalityUpdateJSON :=
  unmarshalStruct "v1.lightClientFinalityUpdateJSON" zeroJSON (bindStruct "lightClientFinalityUpdateJSON" jsonFields) input.

(** func (l *LightClientFinalityUpdate) MarshalJSON() *)
Definition MarshalJSON (l : LightClientFinalityUpdate) : json :=
  JObject [
    ("attested_header", marshalPtr (AttestedHeader l));
    ("finalized_header", marshalPtr (FinalizedHeader l));
    ("finality_branch", marshalBranch (FinalityBranch l));
    ("sync_aggregate", marshalPtr (SyncAggregate_ l));
    ("signature_slot", JString (Sprintf_d (SignatureSlot l)))
  ].

(** The checks and assignments of UnmarshalJSON once the input is bound. *)
Definition fill (jso : lightClientFinalityUpdateJSON) : Method LightClientFinalityUpdate unit :=
  (let* h := nonNil (attested_header jso) (errorsNew "attested_header missing") in
   assign (setAttestedHeader (Some h)) ;;
   let* f := nonNil (finalized_header jso) (errorsNew "finalized_header missing") in
   assign (setFinalizedHeader (Some f)) ;;
   arrayBranch "finality_branch" FinalityBranch setFinalityBranch (finality_branch jso) ;;
   let* a := nonNil (sync_aggregate jso) (errorsNew "sync_aggregate missing") in
   assign (setSyncAggregate (Some a)) ;;
   let* slot := parseSlot (signature_slot jso) in
   assign (setSignatureSlot slot))%method.

(** The same checks, one stage per field. *)
Definition stages (jso : lightClientFinalityUpdateJSON) : list (stage LightClientFinalityUpdate) :=
  [ ptrStage "attested_header" (attested_header jso) AttestedHeader setAttestedHeader;
    ptrStage "finalized_header" (finalized_header jso) FinalizedHeader setFinalizedHeader;
    arrayStage "finality_branch" (finality_branch jso) FinalityBranch setFinalityBranch;
    ptrStage "sync_aggregate" (sync_aggregate jso) SyncAggregate_ setSyncAggregate;
    slotStage (signature_slot jso) SignatureSlot setSignatureSlot ].

(** func (l *LightClientFinalityUpdate) UnmarshalJSON(input []byte) error *)
Definition UnmarshalJSON (l : LightClientFinalityUpdate) (input : json)
  : LightClientFinalityUpdate * option error :=
  run (let* jso := try (unmarshalJSO input) (fun e => errorsWrap e "invalid JSON") in
       fill jso)%method l.

#[global] Instance codec : JSONCodec LightClientFinalityUpdate :=
  Build_JSONCodec _ zeroValue UnmarshalJSON MarshalJSON.

End Record_.
End v1_LightClientFinalityUpdate.

(** *** api/v1: LightClientBootstrap *)

Module v1_LightClientBootstrap.
Section Record_.
Context {BeaconBlockHeader SyncCommittee : Type}.
Context `{!JSONCodec BeaconBlockHeader, !JSONCodec SyncCommittee}.

Record LightClientBootstrap := {
  Header : option BeaconBlockHeader;
  CurrentSyncCommittee : option SyncCommittee;
  CurrentSyncCommitteeBranch : list bytes
}.

(** lightClientBootstrapJSON; the projections carry the json tags. *)
Record lightClientBootstrapJSON := {
  header : option BeaconBlockHeader;
  current_sync_committee : option SyncCommittee;
  current_sync_committee_branch : option (list string)
}.

Definition zeroJSON : lightClientBootstrapJSON :=
  {| header := None; current_sync_committee := None; current_sync_committee_branch := None |}.

Definition zeroValue : LightClientBootstrap :=
  {| Header := None; CurrentSyncCommittee := None; CurrentSyncCommitteeBranch := [] |}.

(** Assignments to one field of the receiver. *)
Definition setHeader v (l : LightClientBootstrap) : LightClientBootstrap :=
  {| Header := v;
     CurrentSyncCommittee := CurrentSyncCommittee l;
     CurrentSyncCommitteeBranch := CurrentSyncCommitteeBranch l |}.
Definition setCurrentSyncCommittee v (l : LightClientBootstrap) : LightClientBootstrap :=
  {| Header := Header l;
     CurrentSyncCommittee := v;
     CurrentSyncCommitteeBranch := CurrentSyncCommitteeBranch l |}.
Definition setCurrentSyncCommitteeBranch v (l : LightClientBootstrap) : LightClientBootstrap :=
  {| Header := Header l;
     CurrentSyncCommittee := CurrentSyncCommittee l;
     CurrentSyncCommitteeBranch := v |}.

(** The fields of lightClientBootstrapJSON as json.Unmarshal sees them: the tag, the
    kind of the field and how it is read and written. *)
Definition put_header v (jso : lightClientBootstrapJSON) : lightClientBootstrapJSON :=
  {| header := v;
     current_sync_committee := current_sync_committee jso;
     current_sync_committee_branch := current_sync_committee_branch jso |}.
Definition put_current_sync_committee v (jso : lightClientBootstrapJSON) : lightClientBootstrapJSON :=
  {| header := header jso;
     current_sync_committee := v;
     current_sync_committee_branch := current_sync_committee_branch jso |}.
Definition put_current_sync_committee_branch v (jso : lightClientBootstrapJSON) : lightClientBootstrapJSON :=
  {| header := header jso;
     current_sync_committee := current_sync_committee jso;
     current_sync_committee_branch := v |}.

Definition jsonFields : list (string * field lightClientBootstrapJSON) :=
  [ ("header", ptrField header put_header);
    ("current_sync_committee", ptrField current_sync_committee put_current_sync_committee);
    ("current_sync_committee_branch", stringsField current_sync_committee_branch put_current_sync_committee_branch) ].

(** json.Unmarshal(input, &jso) *)
Definition unmarshalJSO (input : json) : result lightClientBootstrapJSON :=
  unmarshalStruct "v1.lightClientBootstrapJSON" zeroJSON (bindStruct "lightClientBootstrapJSON" jsonFields) input.

(** func (l *LightClientBootstrap) MarshalJSON() *)
Definition MarshalJSON (l : LightClientBootstrap) : json :=
  JObject [
    ("header", marshalPtr (Header l));
    ("current_sync_committee", marshalPtr (CurrentSyncCommittee l));
    ("current_sync_committee_branch", marshalBranch (CurrentSyncCommitteeBranch l))
  ].

(** The checks and assignments of UnmarshalJSON once the input is bound. *)
Definition fill (jso : lightClientBootstrapJSON) : Method LightClientBootstrap unit :=
  (let* h := nonNil (header jso) (errorsNew "header missing") in
   assign (setHeader (Some h)) ;;
   let* c := nonNil (current_sync_committee jso)
               (errorsNew "current_sync_committee missing") in
   assign (setCurrentSyncCommittee (Some c)) ;;
   arrayBranch "current_sync_committee_branch" CurrentSyncCommitteeBranch
     setCurrentSyncCommitteeBranch (current_sync_committee_branch jso))%method.

(** The same checks, one stage per field. *)
Definition stages (jso : lightClientBootstrapJSON) : list (stage LightClientBootstrap) :=
  [ ptrStage "header" (header jso) Header setHeader;
    ptrStage "current_sync_committee" (current_sync_committee jso) CurrentSyncCommittee setCurrentSyncCommittee;
    arrayStage "current_sync_committee_branch" (current_sync_committee_branch jso) CurrentSyncCommitteeBranch setCurrentSyncCommitteeBranch ].

(** func (l *LightClientBootstrap) UnmarshalJSON(input []byte) error *)
Definition UnmarshalJSON (l : LightClientBootstrap) (input : json)
  : LightClientBootstrap * option error :=
  run (let* jso := try (unmarshalJSO input) (fun e => errorsWrap e "invalid JSON") in
       fill jso)%method l.

#[global] Instance codec : JSONCodec LightClientBootstrap :=
  Build_JSONCodec _ zeroValue UnmarshalJSON MarshalJSON.

End Record_.
End v1_LightClientBootstrap.

(** *** spec/altair: LightClientHeader *)

Module altair_LightClientHeader.
Section Record_.
Context {BeaconBlockHeader : Type}.
Context `{!JSONCodec BeaconBlockHeader}.

Record LightClientHeader := {
  Beacon : option BeaconBlockHeader
}.

(** lightClientHeaderJSON; the projections carry the json tags. *)
Record lightClientHeaderJSON := {
  beacon : option BeaconBlockHeader
}.

Definition zeroJSON : lightClientHeaderJSON :=
  {| beacon := None |}.

Definition zeroValue : LightClientHeader :=
  {| Beacon := None |}.

(** Assignments to one field of the receiver. *)
Definition setBeacon v (l : LightClientHeader) : LightClientHeader :=
  {| Beacon := v |}.

(** The fields of lightClientHeaderJSON as json.Unmarshal sees them: the tag, the
    kind of the field and how it is read and written. *)
Definition put_beacon v (jso : lightClientHeaderJSON) : lightClientHeaderJSON :=
  {| beacon := v |}.

Definition jsonFields : list (string * field lightClientHeaderJSON) :=
  [ ("beacon", ptrField beacon put_beacon) ].

(** json.Unmarshal(input, &jso) *)
Definition unmarshalJSO (input : json) : result lightClientHeaderJSON :=
  unmarshalStruct "altair.lightClientHeaderJSON" zeroJSON (bindStruct "lightClientHeaderJSON" jsonFields) input.

(** func (l *LightClientHeader) MarshalJSON() *)
Definition MarshalJSON (l : LightClientHeader) : json :=
  JObject [
    ("beacon", marshalPtr (Beacon l))
  ].

(** The checks and assignments of UnmarshalJSON once the input is bound. *)
Definition fill (jso : lightClientHeaderJSON) : Method LightClientHeader unit :=
  (let* b := nonNil (beacon jso) (errorsNew "beacon missing") in
   assign (setBeacon (Some b)))%method.

(** The same checks, one stage per field. *)
Definition stages (jso : lightClientHeaderJSON) : list (stage LightClientHeader) :=
  [ ptrStage "beacon" (beacon jso) Beacon setBeacon ].

(** func (l *LightClientHeader) UnmarshalJSON(input []byte) error *)
Definition UnmarshalJSON (l : LightClientHeader) (input : json)
  : LightClientHeader * option error :=
  run (let* jso := try (unmarshalJSO input) (fun e => errorsWrap e "invalid JSON") in
       fill jso)%method l.

#[global] Instance codec : JSONCodec LightClientHeader :=
  Build_JSONCodec _ zeroValue UnmarshalJSON MarshalJSON.

End Record_.
End altair_LightClientHeader.

(** *** spec/altair: LightClientOptimisticUpdate *)

Module altair_LightClientOptimisticUpdate.
Section Record_.
Context {BeaconBlockHeader SyncAggregate : Type}.
Context `{!JSONCodec BeaconBlockHeader, !JSONCodec SyncAggregate}.

Abbreviation LightClientHeader :=
  (@altair_LightClientHeader.LightClientHeader BeaconBlockHeader).

Record LightClientOptimisticUpdate := {
  AttestedHeader : option LightClientHeader;
  SyncAggregate_ : option SyncAggregate;
  SignatureSlot : N
}.

(** lightClientOptimisticUpdateJSON; the projections carry the json tags. *)
Record lightClientOptimisticUpdateJSON := {
  attested_header : option LightClientHeader;
  sync_aggregate : option SyncAggregate;
  signature_slot : string
}.

Definition zeroJSON : lightClientOptimisticUpdateJSON :=
  {| attested_header := None; sync_aggregate := None; signature_slot := "" |}.

Definition zeroValue : LightClientOptimisticUpdate :=
  {| AttestedHeader := None; SyncAggregate_ := None; SignatureSlot := 0 |}.

(** Assignments to one field of the receiver. *)
Definition setAttestedHeader v (l : LightClientOptimisticUpdate) : LightClientOptimisticUpdate :=
  {| AttestedHeader := v;
     SyncAggregate_ := SyncAggregate_ l;
     SignatureSlot := SignatureSlot l |}.
Definition setSyncAggregate v (l : LightClientOptimisticUpdate) : LightClientOptimisticUpdate :=
  {| AttestedHeader := AttestedHeader l;
     SyncAggregate_ := v;
     SignatureSlot := SignatureSlot l |}.
Definition setSignatureSlot v (l : LightClientOptimisticUpdate) : LightClientOptimisticUpdate :=
  {| AttestedHeader := AttestedHeader l;
     SyncAggregate_ := SyncAggregate_ l;
     SignatureSlot := v |}.

(** The fields of lightClientOptimisticUpdateJSON as json.Unmarshal sees them: the tag, the
    kind of the field and how it is read and written. *)
Definition put_attested_header v (jso : lightClientOptimisticUpdateJSON) : lightClientOptimisticUpdateJSON :=
  {| attested_header := v;
     sync_aggregate := sync_aggregate jso;
     signature_slot := signature_slot jso |}.
Definition put_sync_aggregate v (jso : lightClientOptimisticUpdateJSON) : lightClientOptimisticUpdateJSON :=
  {| attested_header := attested_header jso;
     sync_aggregate := v;
     signature_slot := signature_slot jso |}.
Definition put_signature_slot v (jso : lightClientOptimisticUpdateJSON) : lightClientOptimisticUpdateJSON :=
  {| attested_header := attested_header jso;
     sync_aggregate := sync_aggregate jso;
     signature_slot := v |}.

Definition jsonFields : list (string * field lightClientOptimisticUpdateJSON) :=
  [ ("attested_header", ptrField attested_header put_attested_header);
    ("sync_aggregate", ptrField sync_aggregate put_sync_aggregate);
    ("signature_slot", stringField signature_slot put_signature_slot) ].

(** json.Unmarshal(input, &jso) *)
Definition unmarshalJSO (input : json) : result lightClientOptimisticUpdateJSON :=
  unmarshalStruct "altair.lightClientOptimisticUpdateJSON" zeroJSON (bindStruct "lightClientOptimisticUpdateJSON" jsonFields) input.

(** func (l *LightClientOptimisticUpdate) MarshalJSON() *)
Definition MarshalJSON (l : LightClientOptimisticUpdate) : json :=
  JObject [
    ("attested_header", marshalPtr (AttestedHeader l));
    ("sync_aggregate", marshalPtr (SyncAggregate_ l));
    ("signature_slot", JString (Sprintf_d (SignatureSlot l)))
  ].

(** The checks and assignments of UnmarshalJSON once the input is bound. *)
Definition fill (jso : lightClientOptimisticUpdateJSON) : Method LightClientOptimisticUpdate unit :=
  (let* h := nonNil (attested_header jso) (errorsNew "attested_header missing") in
   assign (setAttestedHeader (Some h)) ;;
   let* a := nonNil (sync_aggregate jso) (errorsNew "sync_aggregate missing") in
   assign (setSyncAggregate (Some a)) ;;
   let* slot := parseSlot (signature_slot jso) in
   assign (setSignatureSlot slot))%method.

(** The same checks, one stage per field. *)
Definition stages (jso : lightClientOptimisticUpdateJSON) : list (stage LightClientOptimisticUpdate) :=
  [ ptrStage "attested_header" (attested_header jso) AttestedHeader setAttestedHeader;
    ptrStage "sync_aggregate" (sync_aggregate jso) SyncAggregate_ setSyncAggregate;
    slotStage (signature_slot jso) SignatureSlot setSignatureSlot ].

(** func (l *LightClientOptimisticUpdate) UnmarshalJSON(input []byte) error *)
Definition UnmarshalJSON (l : LightClientOptimisticUpdate) (input : json)
  : LightClientOptimisticUpdate * option error :=
  run (let* jso := try (unmarshalJSO input) (fun e => errorsWrap e "invalid JSON") in
       fill jso)%method l.

#[global] Instance codec : JSONCodec LightClientOptimisticUpdate :=
  Build_JSONCodec _ zeroValue UnmarshalJSON MarshalJSON.

End Record_.
End altair_LightClientOptimisticUpdate.

(** *** spec/capella: LightClientHeader *)

Module capella_LightClientHeader.
Section Record_.
Context {BeaconBlockHeader ExecutionPayloadHeader : Type}.
Context `{!JSONCodec BeaconBlockHeader, !JSONCodec ExecutionPayloadHeader}.

Record LightClientHeader := {
  Beacon : option BeaconBlockHeader;
  Execution : option ExecutionPayloadHeader;
  ExecutionBranch : list bytes
}.

(** lightClientHeaderJSON; the projections carry the json tags. *)
Record lightClientHeaderJSON := {
  beacon : option BeaconBlockHeader;
  execution : option ExecutionPayloadHeader;
  execution_branch : option (list string)
}.

Definition zeroJSON : lightClientHeaderJSON :=
  {| beacon := None; execution := None; execution_branch := None |}.

Definition zeroValue : LightClientHeader :=
  {| Beacon := None; Execution := None; ExecutionBranch := [] |}.

(** Assignments to one field of the receiver. *)
Definition setBeacon v (l : LightClientHeader) : LightClientHeader :=
  {| Beacon := v;
     Execution := Execution l;
     ExecutionBranch := ExecutionBranch l |}.
Definition setExecution v (l : LightClientHeader) : LightClientHeader :=
  {| Beacon := Beacon l;
     Execution := v;
     ExecutionBranch := ExecutionBranch l |}.
Definition setExecutionBranch v (l : LightClientHeader) : LightClientHeader :=
  {| Beacon := Beacon l;
     Execution := Execution l;
     ExecutionBranch := v |}.

(** The fields of lightClientHeaderJSON as json.Unmarshal sees them: the tag, the
    kind of the field and how it is read and written. *)
Definition put_beacon v (jso : lightClientHeaderJSON) : lightClientHeaderJSON :=
  {| beacon := v;
     execution := execution jso;
     execution_branch := execution_branch jso |}.
Definition put_execution v (jso : lightClientHeaderJSON) : lightClientHeaderJSON :=
  {| beacon := beacon jso;
     execution := v;
     execution_branch := execution_branch jso |}.
Definition put_execution_branch v (jso : lightClientHeaderJSON) : lightClientHeaderJSON :=
  {| beacon := beacon jso;
     execution := execution jso;
     execution_branch := v |}.

Definition jsonFields : list (string * field lightClientHeaderJSON) :=
  [ ("beacon", ptrField beacon put_beacon);
    ("execution", ptrField execution put_execution);
    ("execution_branch", stringsField execution_branch put_execution_branch) ].

(** json.Unmarshal(input, &jso) *)
Definition unmarshalJSO (input : json) : result lightClientHeaderJSON :=
  unmarshalStruct "capella.lightClientHeaderJSON" zeroJSON (bindStruct "lightClientHeaderJSON" jsonFields) input.

(** func (l *LightClientHeader) MarshalJSON() *)
Definition MarshalJSON (l : LightClientHeader) : json :=
  JObject [
    ("beacon", marshalPtr (Beacon l));
    ("execution", marshalPtr (Execution l));
    ("execution_branch", marshalBranch (ExecutionBranch l))
  ].

(** The checks and assignments of UnmarshalJSON once the input is bound. *)
Definition fill (jso : lightClientHeaderJSON) : Method LightClientHeader unit :=
  (let* b := nonNil (beacon jso) (errorsNew "beacon missing") in
   assign (setBeacon (Some b)) ;;
   let* e := nonNil (execution jso) (errorsNew "execution missing") in
   assign (setExecution (Some e)) ;;
   sliceBranch "execution_branch" ExecutionBranch setExecutionBranch
     (execution_branch jso))%method.

(** The same checks, one stage per field. *)
Definition stages (jso : lightClientHeaderJSON) : list (stage LightClientHeader) :=
  [ ptrStage "beacon" (beacon jso) Beacon setBeacon;
    ptrStage "execution" (execution jso) Execution setExecution;
    sliceStage "execution_branch" (execution_branch jso) ExecutionBranch setExecutionBranch ].

(** func (l *LightClientHeader) UnmarshalJSON(input []byte) error *)
Definition UnmarshalJSON (l : LightClientHeader) (input : json)
  : LightClientHeader * option error :=
  run (let* jso := try (unmarshalJSO input) (fun e => errorsWrap e "invalid JSON") in
       fill jso)%method l.

#[global] Instance codec : JSONCodec LightClientHeader :=
  Build_JSONCodec _ zeroValue UnmarshalJSON MarshalJSON.

End Record_.
End capella_LightClientHeader.

(** *** spec/capella: LightClientBootstrap *)

Module capella_LightClientBootstrap.
Section Record_.
Context {BeaconBlockHeader ExecutionPayloadHeader SyncCommittee : Type}.
Context `{!JSONCodec BeaconBlockHeader, !JSONCodec ExecutionPayloadHeader, !JSONCodec SyncCommittee}.

Abbreviation LightClientHeader :=
  (@capella_LightClientHeader.LightClientHeader BeaconBlockHeader ExecutionPayloadHeader).

Record LightClientBootstrap := {
  Header : option LightClientHeader;
  CurrentSyncCommittee : option SyncCommittee;
  CurrentSyncCommitteeBranch : list bytes
}.

(** lightClientBootstrapJSON; the projections carry the json tags. *)
Record lightClientBootstrapJSON := {
  header : option LightClientHeader;
  current_sync_committee : option SyncCommittee;
  current_sync_committee_branch : option (list string)
}.

Definition zeroJSON : lightClientBootstrapJSON :=
  {| header := None; current_sync_committee := None; current_sync_committee_branch := None |}.

Definition zeroValue : LightClientBootstrap :=
  {| Header := None; CurrentSyncCommittee := None; CurrentSyncCommitteeBranch := [] |}.

(** Assignments to one field of the receiver. *)
Definition setHeader v (l : LightClientBootstrap) : LightClientBootstrap :=
  {| Header := v;
     CurrentSyncCommittee := CurrentSyncCommittee l;
     CurrentSyncCommitteeBranch := CurrentSyncCommitteeBranch l |}.
Definition setCurrentSyncCommittee v (l : LightClientBootstrap) : LightClientBootstrap :=
  {| Header := Header l;
     CurrentSyncCommittee := v;
     CurrentSyncCommitteeBranch := CurrentSyncCommitteeBranch l |}.
Definition setCurrentSyncCommitteeBranch v (l : LightClientBootstrap) : LightClientBootstrap :=
  {| Header := Header l;
     CurrentSyncCommittee := CurrentSyncCommittee l;
     CurrentSyncCommitteeBranch := v |}.

(** The fields of lightClientBootstrapJSON as json.Unmarshal sees them: the tag, the
    kind of the field and how it is read and written. *)
Definition put_header v (jso : lightClientBootstrapJSON) : lightClientBootstrapJSON :=
  {| header := v;
     current_sync_committee := current_sync_committee jso;
     current_sync_committee_branch := current_sync_committee_branch jso |}.
Definition put_current_sync_committee v (jso : lightClientBootstrapJSON) : lightClientBootstrapJSON :=
  {| header := header jso;
     current_sync_committee := v;
     current_sync_committee_branch := current_sync_committee_branch jso |}.
Definition put_current_sync_committee_branch v (jso : lightClientBootstrapJSON) : lightClientBootstrapJSON :=
  {| header := header jso;
     current_sync_committee := current_sync_committee jso;
     current_sync_committee_branch := v |}.

Definition jsonFields : list (string * field lightClientBootstrapJSON) :=
  [ ("header", ptrField header put_header);
    ("current_sync_committee", ptrField current_sync_committee put_current_sync_committee);
    ("current_sync_committee_branch", stringsField current_sync_committee_branch put_current_sync_committee_branch) ].

(** json.Unmarshal(input, &jso) *)
Definition unmarshalJSO (input : json) : result lightClientBootstrapJSON :=
  unmarshalStruct "capella.lightClientBootstrapJSON" zeroJSON (bindStruct "lightClientBootstrapJSON" jsonFields) input.

(** func (l *LightClientBootstrap) MarshalJSON() *)
Definition MarshalJSON (l : LightClientBootstrap) : json :=
  JObject [
    ("header", marshalPtr (Header l));
    ("current_sync_committee", marshalPtr (CurrentSyncCommittee l));
    ("current_sync_committee_branch", marshalBranch (CurrentSyncCommitteeBranch l))
  ].

(** The checks and assignments of UnmarshalJSON once the input is bound. *)
Definition fill (jso : lightClientBootstrapJSON) : Method LightClientBootstrap unit :=
  (let* h := nonNil (header jso) (errorsNew "header missing") in
   assign (setHeader (Some h)) ;;
   let* c := nonNil (current_sync_committee jso)
               (errorsNew "current_sync_committee missing") in
   assign (setCurrentSyncCommittee (Some c)) ;;
   sliceBranch "current_sync_committee_branch" CurrentSyncCommitteeBranch
     setCurrentSyncCommitteeBranch (current_sync_committee_branch jso))%method.

(** The same checks, one stage per field. *)
Definition stages (jso : lightClientBootstrapJSON) : list (stage LightClientBootstrap) :=
  [ ptrStage "header" (header jso) Header setHeader;
    ptrStage "current_sync_committee" (current_sync_committee jso) CurrentSyncCommittee setCurrentSyncCommittee;
    sliceStage "current_sync_committee_branch" (current_sync_committee_branch jso) CurrentSyncCommitteeBranch setCurrentSyncCommitteeBranch ].

(** func (l *LightClientBootstrap) UnmarshalJSON(input []byte) error *)
Definition UnmarshalJSON (l : LightClientBootstrap) (input : json)
  : LightClientBootstrap * option error :=
  run (let* jso := try (unmarshalJSO input) (fun e => errorsWrap e "invalid JSON") in
       fill jso)%method l.

#[global] Instance codec : JSONCodec LightClientBootstrap :=
  Build_JSONCodec _ zeroValue UnmarshalJSON MarshalJSON.

End Record_.
End capella_LightClientBootstrap.
End Codec.

(* ===================================================================== *)
(** ** http: versioned envelopes and content negotiation                  *)
(* ===================================================================== *)

Module HTTP.
Import Go.

(** spec.DataVersion is an integer type, declared outside the sources:
    besides the five generations the switches name, any other number can
    arrive, which they treat by their default. *)
Inductive DataVersion :=
| DataVersionPhase0
| DataVersionAltair
| DataVersionBellatrix
| DataVersionCapella
| DataVersionDeneb
| DataVersionOther (n : N).

(** Modelled from the spec: the String method of spec.DataVersion, which
    the %s verb calls, is not among the sources; a generation prints as its
    name. *)
Definition versionString (v : DataVersion) : string :=
  match v with
  | DataVersionPhase0 => "phase0"
  | DataVersionAltair => "altair"
  | DataVersionBellatrix => "bellatrix"
  | DataVersionCapella => "capella"
  | DataVersionDeneb => "deneb"
  | DataVersionOther _ => "unknown"
  end.

(** ContentType is an integer type of the http package, declared outside
    the sources: SSZ, JSON, or any other number. *)
Inductive ContentType :=
| ContentTypeSSZ
| ContentTypeJSON
| ContentTypeOther (n : N).

(** Modelled from the spec: the String method of ContentType, which the %v
    verb calls, is not among the sources; a content type prints as its
    name. *)
Definition contentTypeString (c : ContentType) : string :=
  match c with
  | ContentTypeSSZ => "SSZ"
  | ContentTypeJSON => "JSON"
  | ContentTypeOther _ => "Unknown"
  end.

Definition metadata := list (string * json).

(** The body of a response: its bytes, and what Go's JSON scanner makes of
    them (the tree, or the syntax error). *)
Record body := {
  raw : bytes;
  scanned : result json
}.

Record httpResponse := {
  contentType : ContentType;
  headers : list (string * string);
  consensusVersion : DataVersion;
  body_ : body
}.

(** api.Response[T] *)
Record Response (T : Type) := {
  Data : T;
  Metadata : metadata
}.
Arguments Data {T} _.
Arguments Metadata {T} _.

(** spec.VersionedLCBootstrap, VersionedLCUpdate, VersionedLCFinalityUpdate
    and VersionedLCOptimisticUpdate: the fork tag and one pointer per fork;
    Altair and Bellatrix share the altair record type. *)
Record Versioned (A C D : Type) := {
  Version : DataVersion;
  Altair : option A;
  Bellatrix : option A;
  Capella : option C;
  Deneb : option D
}.
Arguments Version {A C D} _.
Arguments Altair {A C D} _.
Arguments Bellatrix {A C D} _.
Arguments Capella {A C D} _.
Arguments Deneb {A C D} _.

(** [&spec.VersionedLC...{Version: v}] *)
Definition tagged {A C D} (v : DataVersion) : Versioned A C D :=
  {| Version := v; Altair := None; Bellatrix := None; Capella := None; Deneb := None |}.

Definition setAltair {A C D} (x : option A) (d : Versioned A C D) : Versioned A C D :=
  {| Version := Version d; Altair := x; Bellatrix := Bellatrix d;
     Capella := Capella d; Deneb := Deneb d |}.
Definition setBellatrix {A C D} (x : option A) (d : Versioned A C D) : Versioned A C D :=
  {| Version := Version d; Altair := Altair d; Bellatrix := x;
     Capella := Capella d; Deneb := Deneb d |}.
Definition setCapella {A C D} (x : option C) (d : Versioned A C D) : Versioned A C D :=
  {| Version := Version d; Altair := Altair d; Bellatrix := Bellatrix d;
     Capella := x; Deneb := Deneb d |}.
Definition setDeneb {A C D} (x : option D) (d : Versioned A C D) : Versioned A C D :=
  {| Version := Version d; Altair := Altair d; Bellatrix := Bellatrix d;
     Capella := Capella d; Deneb := x |}.

(** An envelope with exactly one payload, in the slot of its fork tag. *)
Definition populated {A C D} (d : Versioned A C D) : Prop :=
  match Version d with
  | DataVersionAltair =>
      Altair d <> None /\ Bellatrix d = None /\ Capella d = None /\ Deneb d = None
  | DataVersionBellatrix =>
      Altair d = None /\ Bellatrix d <> None /\ Capella d = None /\ Deneb d = None
  | DataVersionCapella =>
      Altair d = None /\ Bellatrix d = None /\ Capella d <> None /\ Deneb d = None
  | DataVersionDeneb =>
      Altair d = None /\ Bellatrix d = None /\ Capella d = None /\ Deneb d <> None
  | DataVersionPhase0 | DataVersionOther _ => False
  end.

(** The generated UnmarshalSSZ of a record (pointer receiver). *)
Class SSZCodec (T : Type) := UnmarshalSSZ : T -> bytes -> T * option error.

(** The member of an object a map[string]json.RawMessage holds under a key:
    the last one of that name. *)
Fixpoint member (key : string) (ms : list (string * json)) : option json :=
  match ms with
  | [] => None
  | (k, v) :: r =>
      match member key r with
      | Some x => Some x
      | None => if String.eqb k key then Some v else None
      end
  end.

(** Decoding a body into a map[string]json.RawMessage. *)
Definition decodeMap (b : body) : result (list (string * json)) :=
  match scanned b with
  | Err e => Err e
  | Ok (JObject ms) => Ok ms
  | Ok JNull => Ok []
  | Ok v => Err (jsonUnmarshalTypeError (kindName v) "" "" "map[string]json.RawMessage")
  end.

(** Decoding a value into a []json.RawMessage. *)
Definition decodeList (v : json) : result (list json) :=
  match v with
  | JArray l => Ok l
  | JNull => Ok []
  | _ => Err (jsonUnmarshalTypeError (kindName v) "" "" "[]json.RawMessage")
  end.

(** Modelled from the spec: decodeJSONResponse is a helper of the http
    package that is not among the sources.  Its callers hand it a pointer
    to a fresh record and store the pointer it returns.  By the spec a
    textual payload invokes the textual codec, whose errors are surfaced
    at once, and every required field must be present.  So the helper runs
    the record's UnmarshalJSON on the payload, the [data] member of the
    body, into the record it is given, and returns the pointer to that
    record when the codec reports no error; a body without a [data] member
    holds no value to decode, which is handed to the codec as null (the
    codecs of the records refuse it, their fields being missing).  The
    other members become the metadata. *)
Definition decodeJSONResponse_spec {T} `{JSONCodec T} (b : body) (res : T)
  : result (option T * metadata) :=
  match decodeMap b with
  | Err e => Err (errorsWrap e "failed to parse JSON")
  | Ok ms =>
      let md := filter (fun kv => negb (String.eqb (fst kv) "data")) ms in
      let payload := match member "data" ms with Some v => v | None => JNull end in
      match UnmarshalJSON res payload with
      | (x, None) => Ok (Some x, md)
      | (_, Some e) => Err (errorsWrap e "failed to unmarshal data")
      end
  end.

Section Service.

(** What the service is given: the transport ([s.get]), the helper turning
    headers into metadata, the text of [string(version)] and the helper
    decoding a textual response, which returns a pointer (possibly nil)
    to a record, the metadata and an error. *)
Variable get : string -> option httpResponse * option error.
Variable metadataFromHeaders : list (string * string) -> metadata.
Variable versionText : DataVersion -> string.
Variable decodeJSONResponse :
  forall T, JSONCodec T -> body -> T -> result (option T * metadata).

Definition unsupported (v : DataVersion) : error :=
  errorsNew ("unsupported version " ++ versionString v).

(** The unsupported-version error, bare or wrapped once. *)
Definition isUnsupported (v : DataVersion) (e : error) : Prop :=
  e = unsupported v \/ exists msg, e = errorsWrap (unsupported v) msg.

Definition unhandled (c : ContentType) : error :=
  errorsNew ("unhandled content type " ++ contentTypeString c).

Section Operation.
(** The records of one operation: altair's (also used for Bellatrix),
    capella's and deneb's. *)
Context {A C D : Type}.
Context `{!JSONCodec A, !JSONCodec C, !JSONCodec D}.
Context `{!SSZCodec A, !SSZCodec C, !SSZCodec D}.

(** The switch of the three ...FromSSZ functions: the slot of the fork is
    set to a fresh record, which UnmarshalSSZ then fills. *)
Definition switchSSZ (res : httpResponse) (d : Versioned A C D)
  : Versioned A C D * option error :=
  match consensusVersion res with
  | DataVersionPhase0 => (d, Some (unsupported (consensusVersion res)))
  | DataVersionAltair =>
      let '(x, err) := UnmarshalSSZ (zero : A) (raw (body_ res)) in
      (setAltair (Some x) d, err)
  | DataVersionBellatrix =>
      let '(x, err) := UnmarshalSSZ (zero : A) (raw (body_ res)) in
      (setBellatrix (Some x) d, err)
  | DataVersionCapella =>
      let '(x, err) := UnmarshalSSZ (zero : C) (raw (body_ res)) in
      (setCapella (Some x) d, err)
  | DataVersionDeneb =>
      let '(x, err) := UnmarshalSSZ (zero : D) (raw (body_ res)) in
      (setDeneb (Some x) d, err)
  | DataVersionOther _ => (d, Some (unsupported (consensusVersion res)))
  end.

(** lightClientBootstrapFromSSZ, lightClientFinalityUpdateFromSSZ and
    lightClientOptimisticUpdateFromSSZ have the same body. *)
Definition fromSSZ (res : httpResponse)
  : option (Response (Versioned A C D)) * option error :=
  let '(d, err) := switchSSZ res (tagged (consensusVersion res)) in
  match err with
  | Some e =>
      (None, Some (errorsWrap e ("failed to decode " ++ versionString (consensusVersion res)
                                   ++ " light client optimistic update")))
  | None => (Some {| Data := d; Metadata := metadataFromHeaders (headers res) |}, None)
  end.

Definition lightClientBootstrapFromSSZ := fromSSZ.
Definition lightClientFinalityUpdateFromSSZ := fromSSZ.
Definition lightClientOptimisticUpdateFromSSZ := fromSSZ.

(** The switch over the version of the textual decoders: the slot of the
    fork receives what decodeJSONResponse returns. *)
Definition switchJSON (version : DataVersion) (data : body)
  : result (Versioned A C D * metadata) :=
  let update := tagged version in
  match version with
  | DataVersionPhase0 => Err (unsupported version)
  | DataVersionAltair =>
      bind (decodeJSONResponse A _ data zero)
           (fun '(x, md) => Ok (setAltair x update, md))
  | DataVersionBellatrix =>
      bind (decodeJSONResponse A _ data zero)
           (fun '(x, md) => Ok (setBellatrix x update, md))
  | DataVersionCapella =>
      bind (decodeJSONResponse C _ data zero)
           (fun '(x, md) => Ok (setCapella x update, md))
  | DataVersionDeneb =>
      bind (decodeJSONResponse D _ data zero)
           (fun '(x, md) => Ok (setDeneb x update, md))
  | DataVersionOther _ => Err (unsupported version)
  end.

Definition versionedLCFinalityUpdateFromJSON := switchJSON.
Definition versionedLCOptimisticUpdateFromJSON := switchJSON.

(** lightClientBootstrapFromJSON (the switch is written out in it),
    lightClientFinalityUpdateFromJSON and lightClientOptimisticUpdateFromJSON. *)
Definition fromJSON (res : httpResponse)
  : option (Response (Versioned A C D)) * option error :=
  match switchJSON (consensusVersion res) (body_ res) with
  | Err e => (None, Some e)
  | Ok (d, md) => (Some {| Data := d; Metadata := md |}, None)
  end.

Definition lightClientBootstrapFromJSON := fromJSON.
Definition lightClientFinalityUpdateFromJSON := fromJSON.
Definition lightClientOptimisticUpdateFromJSON := fromJSON.

(** The loop of lightClientUpdatesFromJSON over the elements of [data]:
    the envelope of each element carries the version of the response; the
    first error returns. *)
Definition decodeUpdate (version : DataVersion) (u : json)
  : Versioned A C D * option error :=
  let d := tagged version in
  match version with
  | DataVersionPhase0 => (d, Some (unsupported version))
  | DataVersionAltair =>
      let '(update, err) := UnmarshalJSON (zero : A) u in (setAltair (Some update) d, err)
  | DataVersionBellatrix =>
      let '(update, err) := UnmarshalJSON (zero : A) u in (setBellatrix (Some update) d, err)
  | DataVersionCapella =>
      let '(update, err) := UnmarshalJSON (zero : C) u in (setCapella (Some update) d, err)
  | DataVersionDeneb =>
      let '(update, err) := UnmarshalJSON (zero : D) u in (setDeneb (Some update) d, err)
  | DataVersionOther _ => (d, Some (unsupported version))
  end.

Fixpoint updatesLoop (version : DataVersion) (updates : list json)
    (datas : list (Versioned A C D)) : result (list (Versioned A C D)) :=
  match updates with
  | [] => Ok datas
  | u :: r =>
      match decodeUpdate version u with
      | (_, Some err) => Err err
      | (d, None) => updatesLoop version r (datas ++ [d])
      end
  end.

Definition lightClientUpdatesFromJSON (res : httpResponse)
  : option (Response (list (Versioned A C D))) * option error :=
  match decodeMap (body_ res) with
  | Err e => (None, Some (errorsWrap e "failed to parse JSON"))
  | Ok decoded =>
      let updates :=
        match member "data" decoded with
        | Some v => decodeList v
        | None => Ok []
        end in
      match updates with
      | Err e => (None, Some (errorsWrap e "failed to parse JSON"))
      | Ok us =>
          match updatesLoop (consensusVersion res) us [] with
          | Err err => (None, Some err)
          | Ok datas =>
              (Some {| Data := datas;
                       Metadata := [("version", JString (versionText (consensusVersion res)))] |},
               None)
          end
      end
  end.

(** The four operations of the service. *)
Definition dispatch {R} (resp : option httpResponse * option error) (failed : string)
    (k : httpResponse -> option R * option error) : option R * option error :=
  match resp with
  | (_, Some err) => (None, Some (errorsWrap err failed))
  | (None, None) => (None, None)
  | (Some r, None) => k r
  end.

Definition LightClientBootstrap (block : string) :=
  dispatch (get ("/eth/v1/beacon/light_client/bootstrap/" ++ block))
    "failed to request beacon light client bootstrap"
    (fun resp =>
       match contentType resp with
       | ContentTypeSSZ => lightClientBootstrapFromSSZ resp
       | ContentTypeJSON => lightClientBootstrapFromJSON resp
       | ContentTypeOther _ => (None, Some (unhandled (contentType resp)))
       end).

Definition LightClientUpdates (startPeriod count : N) :=
  dispatch (get ("/eth/v1/beacon/light_client/updates?start_period="
                   ++ Sprintf_d startPeriod ++ "&count=" ++ Sprintf_d count))
    "failed to request beacon light client updates"
    (fun resp =>
       match contentType resp with
       | ContentTypeJSON => lightClientUpdatesFromJSON resp
       | _ => (None, Some (unhandled (contentType resp)))
       end).

Definition LightClientFinalityUpdate :=
  dispatch (get "/eth/v1/beacon/light_client/finality_update")
    "failed to request beacon light client finality_update"
    (fun resp =>
       match contentType resp with
       | ContentTypeSSZ => lightClientFinalityUpdateFromSSZ resp
       | ContentTypeJSON => lightClientFinalityUpdateFromJSON resp
       | ContentTypeOther _ => (None, Some (unhandled (contentType resp)))
       end).

Definition LightClientOptimisticUpdate :=
  dispatch (get "/eth/v1/beacon/light_client/optimistic_update")
    "failed to request beacon light client optimistic_update"
    (fun resp =>
       match contentType resp with
       | ContentTypeSSZ => lightClientOptimisticUpdateFromSSZ resp
       | ContentTypeJSON => lightClientOptimisticUpdateFromJSON resp
       | ContentTypeOther _ => (None, Some (unhandled (contentType resp)))
       end).

End Operation.
End Service.

End HTTP.

(* ===================================================================== *)
(** ** multi: the dispatcher over several clients                         *)
(* ===================================================================== *)

Module Multi.
Import Go.

(** What a Go function returns, or the panic of a failed type assertion. *)
Inductive outcome (R : Type) :=
| Returns (res : R) (err : option error)
| Panics.
Arguments Returns {R} res err.
Arguments Panics {R}.

Section Service.
Context {Client Bootstrap Update FinalityUpdate OptimisticUpdate : Type}.

(** The dynamic value inside an interface{}: a pointer or a slice (either
    may be nil) that remembers its type. *)
Inductive dyn :=
| ofBootstrap (p : option Bootstrap)
| ofUpdates (s : option (list (option Update)))
| ofFinalityUpdate (p : option FinalityUpdate)
| ofOptimisticUpdate (p : option OptimisticUpdate).

(** interface{}: [None] is the nil interface. *)
Definition any := option dyn.

(** consensusclient.LightClientProvider, as each client implements it. *)
Variable providerBootstrap : Client -> string -> option Bootstrap * option error.
Variable providerUpdates : Client -> N -> N -> option (list (option Update)) * option error.
Variable providerFinalityUpdate : Client -> option FinalityUpdate * option error.
Variable providerOptimisticUpdate : Client -> option OptimisticUpdate * option error.

(** s.doCall: runs the closure against the clients by its own policy. *)
Variable doCall : (Client -> any * option error) -> any * option error.

(** The closure of each operation: the client's result goes into an
    interface{} as it is, the error makes the result the nil interface.
    The closure first asserts [client.(consensusclient.LightClientProvider)]
    without a check, which panics for a client that is no provider: the
    clients of the embedding are those that implement the interface
    ([call] is total on them), and that panic is not modelled. *)
Definition closure {T} (box : T -> dyn) (call : Client -> T * option error)
  : Client -> any * option error :=
  fun client =>
    match call client with
    | (_, Some err) => (None, Some err)
    | (x, None) => (Some (box x), None)
    end.

Definition LightClientBootstrap (blockID : string) : outcome (option Bootstrap) :=
  match doCall (closure ofBootstrap (fun c => providerBootstrap c blockID)) with
  | (_, Some err) => Returns None (Some err)
  | (None, None) => Returns None None
  | (Some (ofBootstrap p), None) => Returns p None
  | (Some _, None) => Panics
  end.

Definition LightClientUpdates (start count : N) : outcome (option (list (option Update))) :=
  match doCall (closure ofUpdates (fun c => providerUpdates c start count)) with
  | (_, Some err) => Returns None (Some err)
  | (None, None) => Returns None None
  | (Some (ofUpdates s), None) => Returns s None
  | (Some _, None) => Panics
  end.

Definition LightClientFinalityUpdate : outcome (option FinalityUpdate) :=
  match doCall (closure ofFinalityUpdate providerFinalityUpdate) with
  | (_, Some err) => Returns None (Some err)
  | (None, None) => Returns None None
  | (Some (ofFinalityUpdate p), None) => Returns p None
  | (Some _, None) => Panics
  end.

Definition LightClientOptimisticUpdate : outcome (option OptimisticUpdate) :=
  match doCall (closure ofOptimisticUpdate providerOptimisticUpdate) with
  | (_, Some err) => Returns None (Some err)
  | (None, None) => Returns None None
  | (Some (ofOptimisticUpdate p), None) => Returns p None
  | (Some _, None) => Panics
  end.

End Service.
End Multi.

(* ===================================================================== *)
(** ** The record types as one family                                     *)
(* ===================================================================== *)

(** Which values of a type are well formed: for a record of this file, the
    values its UnmarshalJSON accepts. *)
Class Valid (T : Type) := valid : T -> Prop.

Module Records.
Import Go Branch Codec.

(** A pointer that is set and points to a well-formed value. *)
Definition validPtr {T} `{Valid T} (p : option T) : Prop :=
  match p with
  | Some x => valid x
  | None => False
  end.

(** A branch that is not empty and holds 32 bytes per element. *)
Definition validBranch (b : list bytes) : Prop :=
  negb (Nat.eqb (length b) 0)
  && forallb (fun x => Nat.eqb (length x) 32 && forallb (fun n => n <? 256) x) b = true.

Definition validSlot (s : N) : Prop := (s <=? maxUint64) = true.

(** The value of the last member of an object whose key matches a field. *)
Fixpoint lastMatch (field : string) (ms : list (string * json)) : option json :=
  match ms with
  | [] => None
  | (k, v) :: r =>
      match lastMatch field r with
      | Some x => Some x
      | None => if keyMatches field k then Some v else None
      end
  end.

(** The field of an input as the decoder finds it: nothing for a value
    that is no object. *)
Definition fieldOf (field : string) (input : json) : option json :=
  match input with
  | JObject ms => lastMatch field ms
  | _ => None
  end.

(** A field that is absent from an input object or JSON null: every member
    whose key matches the field is null. *)
Definition nullWhere (field : string) (ms : list (string * json)) : Prop :=
  Forall (fun kv => keyMatches field (fst kv) = true -> snd kv = JNull) ms.

Definition absentOrNull (field : string) (input : json) : Prop :=
  exists ms, input = JObject ms /\ nullWhere field ms.

(** The values an input gives for a field: those of the members whose key
    matches it, in the order of the text. *)
Definition valuesFor (field : string) (input : json) : list json :=
  match input with
  | JObject ms => map snd (List.filter (fun kv => keyMatches field (fst kv)) ms)
  | _ => []
  end.

(** The members of an object without those of a field, and with another
    value for those of a field. *)
Definition without (field : string) (ms : list (string * json)) : list (string * json) :=
  List.filter (fun kv => negb (keyMatches field (fst kv))) ms.

Definition replaced (field : string) (v : json) (ms : list (string * json))
  : list (string * json) :=
  map (fun kv => if keyMatches field (fst kv) then (fst kv, v) else kv) ms.

(** The element at index [i] of [ss] is [s], and all elements before it
    decode. *)
Definition firstBadAt (guard : bool) (ss : list string) (i : nat) (s : string) : Prop :=
  ss !! i = Some s
  /\ forall j t, (j < i)%nat -> ss !! j = Some t -> exists b, decodes guard t b.

(** *** The canonical rendering of an input *)

(** These follow the spec's words: the fields in their fixed order,
    hexadecimal values with 0x and lowercase digits, and (what the spec
    leaves unsaid) a number in decimal digits without leading zeros.  The
    tree of values has no white space to begin with. *)
Definition lowerHexChar (c : ascii) : ascii :=
  let b := byteOf c in
  if (65 <=? b) && (b <=? 70) then charOf (b + 32) else c.

Fixpoint lowerHex (s : string) : string :=
  match s with
  | EmptyString => EmptyString
  | String c r => String (lowerHexChar c) (lowerHex r)
  end.

Definition canonicalHex (s : string) : string := "0x" ++ lowerHex (TrimPrefix s "0x").

Fixpoint canonicalDecimal (s : string) : string :=
  match s with
  | String "0" (String _ _ as r) => canonicalDecimal r
  | _ => s
  end.

(** A text that does not start with the digit 0. *)
Definition leading (s : string) : bool :=
  match s with
  | String c _ => negb (Ascii.eqb c "0")
  | EmptyString => false
  end.

(** The canonical rendering of the value of a field, by the kind of the
    field: a nested object as its own codec renders what it reads, a
    branch element by element, a slot as a number. *)
Definition canonicalPtr {T} `{JSONCodec T} (v : option json) : json :=
  match v with
  | Some w => MarshalJSON (fst (UnmarshalJSON zero w))
  | None => JNull
  end.

Definition canonicalElement (v : json) : json :=
  match v with
  | JString s => JString (canonicalHex s)
  | _ => v
  end.

Definition canonicalBranch (v : option json) : json :=
  match v with
  | Some (JArray l) => JArray (map canonicalElement l)
  | _ => JNull
  end.

Definition canonicalSlot (v : option json) : json :=
  match v with
  | Some (JString s) => JString (canonicalDecimal s)
  | _ => JNull
  end.

(** The errors a decoder returns about one field. *)
Inductive blames (field : string) : error -> Prop :=
| blames_missing : blames field (errorsNew (field ++ " missing"))
| blames_empty : blames field (errorsNew (field ++ " length cannot be 0"))
| blames_element i e err : elementError field i e = Some err -> blames field err
| blames_slot c : field = "signature_slot" ->
    blames field (errorsWrap c "invalid value for slot").

(** The error of a failed json.Unmarshal into the struct. *)
Definition invalidJSON (e : error) : Prop := exists c, e = errorsWrap c "invalid JSON".

(** The stages of an UnmarshalJSON fit together: a stage that ran without
    error has assigned its field, no stage touches what another has
    assigned, and the error of a stage is about its own field. *)
Record sound {L} (ss : list (stage L)) : Prop := {
  sound_done : forall i s l l',
    ss !! i = Some s -> action s l = (l', Ok tt) -> done s l';
  sound_keep : forall i j si sj l l' r,
    i <> j -> ss !! i = Some si -> ss !! j = Some sj ->
    action sj l = (l', r) -> done si l -> done si l';
  sound_blame : forall i s l l' e,
    ss !! i = Some s -> action s l = (l', Err e) -> blames (stageName s) e
}.

(** [g] stands before [f] in the list of fields [fs]. *)
Fixpoint declaredBefore (fs : list string) (g f : string) : bool :=
  match fs with
  | [] => false
  | x :: r => if String.eqb x g then existsb (String.eqb f) r else declaredBefore r g f
  end.

Inductive recordType :=
| V1Update
| V1FinalityUpdate
| V1Bootstrap
| AltairHeader
| AltairOptimisticUpdate
| CapellaHeader
| CapellaBootstrap.

(** The required fields of each record, in the order UnmarshalJSON checks
    them. *)
Definition fields (r : recordType) : list string :=
  match r with
  | V1Update =>
      ["attested_header"; "next_sync_committee"; "next_sync_committee_branch";
       "finalized_header"; "finality_branch"; "sync_aggregate"; "signature_slot"]
  | V1FinalityUpdate =>
      ["attested_header"; "finalized_header"; "finality_branch"; "sync_aggregate";
       "signature_slot"]
  | V1Bootstrap | CapellaBootstrap =>
      ["header"; "current_sync_committee"; "current_sync_committee_branch"]
  | AltairHeader => ["beacon"]
  | AltairOptimisticUpdate => ["attested_header"; "sync_aggregate"; "signature_slot"]
  | CapellaHeader => ["beacon"; "execution"; "execution_branch"]
  end.

(** The branch fields of each record, with the guard of their loop. *)
Definition branches (r : recordType) : list (string * bool) :=
  match r with
  | V1Update => [("next_sync_committee_branch", true); ("finality_branch", true)]
  | V1FinalityUpdate => [("finality_branch", false)]
  | V1Bootstrap => [("current_sync_committee_branch", false)]
  | CapellaBootstrap => [("current_sync_committee_branch", true)]
  | CapellaHeader => [("execution_branch", true)]
  | AltairHeader | AltairOptimisticUpdate => []
  end.

(** The records with a signature slot. *)
Definition hasSlot (r : recordType) : bool :=
  match r with
  | V1Update | V1FinalityUpdate | AltairOptimisticUpdate => true
  | _ => false
  end.

Section Family.
Context {BeaconBlockHeader SyncCommittee SyncAggregate ExecutionPayloadHeader : Type}.
Context `{!JSONCodec BeaconBlockHeader, !JSONCodec SyncCommittee,
          !JSONCodec SyncAggregate, !JSONCodec ExecutionPayloadHeader}.

Definition recordOf (r : recordType) : Type :=
  match r with
  | V1Update =>
      @v1_LightClientUpdate.LightClientUpdate BeaconBlockHeader SyncCommittee SyncAggregate
  | V1FinalityUpdate =>
      @v1_LightClientFinalityUpdate.LightClientFinalityUpdate BeaconBlockHeader SyncAggregate
  | V1Bootstrap =>
      @v1_LightClientBootstrap.LightClientBootstrap BeaconBlockHeader SyncCommittee
  | AltairHeader => @altair_LightClientHeader.LightClientHeader BeaconBlockHeader
  | AltairOptimisticUpdate =>
      @altair_LightClientOptimisticUpdate.LightClientOptimisticUpdate
        BeaconBlockHeader SyncAggregate
  | CapellaHeader =>
      @capella_LightClientHeader.LightClientHeader BeaconBlockHeader ExecutionPayloadHeader
  | CapellaBootstrap =>
      @capella_LightClientBootstrap.LightClientBootstrap
        BeaconBlockHeader ExecutionPayloadHeader SyncCommittee
  end.

Definition codecOf (r : recordType) : JSONCodec (recordOf r) :=
  match r with
  | V1Update => v1_LightClientUpdate.codec
  | V1FinalityUpdate => v1_LightClientFinalityUpdate.codec
  | V1Bootstrap => v1_LightClientBootstrap.codec
  | AltairHeader => altair_LightClientHeader.codec
  | AltairOptimisticUpdate => altair_LightClientOptimisticUpdate.codec
  | CapellaHeader => capella_LightClientHeader.codec
  | CapellaBootstrap => capella_LightClientBootstrap.codec
  end.

(** UnmarshalJSON and MarshalJSON of the record type [r]. *)
Definition decode (r : recordType) (l : recordOf r) (input : json)
  : recordOf r * option error :=
  @UnmarshalJSON _ (codecOf r) l input.

Definition encode (r : recordType) (x : recordOf r) : json :=
  @MarshalJSON _ (codecOf r) x.

(** The struct the input of [r] is bound to, the binding, and the stages
    of its UnmarshalJSON. *)
Definition jsoOf (r : recordType) : Type :=
  match r with
  | V1Update =>
      @v1_LightClientUpdate.lightClientUpdateJSON
        BeaconBlockHeader SyncCommittee SyncAggregate
  | V1FinalityUpdate =>
      @v1_LightClientFinalityUpdate.lightClientFinalityUpdateJSON
        BeaconBlockHeader SyncAggregate
  | V1Bootstrap =>
      @v1_LightClientBootstrap.lightClientBootstrapJSON BeaconBlockHeader SyncCommittee
  | AltairHeader => @altair_LightClientHeader.lightClientHeaderJSON BeaconBlockHeader
  | AltairOptimisticUpdate =>
      @altair_LightClientOptimisticUpdate.lightClientOptimisticUpdateJSON
        BeaconBlockHeader SyncAggregate
  | CapellaHeader =>
      @capella_LightClientHeader.lightClientHeaderJSON
        BeaconBlockHeader ExecutionPayloadHeader
  | CapellaBootstrap =>
      @capella_LightClientBootstrap.lightClientBootstrapJSON
        BeaconBlockHeader ExecutionPayloadHeader SyncCommittee
  end.

Definition bound (r : recordType) : json -> result (jsoOf r) :=
  match r with
  | V1Update => v1_LightClientUpdate.unmarshalJSO
  | V1FinalityUpdate => v1_LightClientFinalityUpdate.unmarshalJSO
  | V1Bootstrap => v1_LightClientBootstrap.unmarshalJSO
  | AltairHeader => altair_LightClientHeader.unmarshalJSO
  | AltairOptimisticUpdate => altair_LightClientOptimisticUpdate.unmarshalJSO
  | CapellaHeader => capella_LightClientHeader.unmarshalJSO
  | CapellaBootstrap => capella_LightClientBootstrap.unmarshalJSO
  end.

Definition stagesOf (r : recordType) : jsoOf r -> list (stage (recordOf r)) :=
  match r with
  | V1Update => v1_LightClientUpdate.stages
  | V1FinalityUpdate => v1_LightClientFinalityUpdate.stages
  | V1Bootstrap => v1_LightClientBootstrap.stages
  | AltairHeader => altair_LightClientHeader.stages
  | AltairOptimisticUpdate => altair_LightClientOptimisticUpdate.stages
  | CapellaHeader => capella_LightClientHeader.stages
  | CapellaBootstrap => capella_LightClientBootstrap.stages
  end.

(** The input binds to the struct of [r]: json.Unmarshal returns no
    error. *)
Definition binds (r : recordType) (input : json) : Prop :=
  exists jso, bound r input = Ok jso.

(** The field [g] is given as in an input that the decoder accepts: the
    values the input gives for [g] are those of an accepted input. *)
Definition givenWell (r : recordType) (g : string) (input : json) : Prop :=
  exists (l x : recordOf r) (input0 : json),
    decode r l input0 = (x, None) /\ valuesFor g input = valuesFor g input0.

(** No field declared before [f] is at fault. *)
Definition wellBefore (r : recordType) (f : string) (input : json) : Prop :=
  forall g, declaredBefore (fields r) g f = true -> givenWell r g input.

(** Decoding [input] fails with the error [E]. *)
Definition failsWith (r : recordType) (l : recordOf r) (input : json) (E : error) : Prop :=
  exists l', decode r l input = (l', Some E).

(** The input names each field of [r] at most once.  (An object with a
    duplicated name has no canonical rendering.) *)
Definition givenOnce (r : recordType) (input : json) : Prop :=
  forall f, In f (fields r) -> (length (valuesFor f input) <= 1)%nat.

(** The canonical rendering of an input of the record type [r]. *)
Definition canonical (r : recordType) (input : json) : json :=
  match r with
  | V1Update =>
      JObject [
        ("attested_header", canonicalPtr (T:=BeaconBlockHeader) (fieldOf "attested_header" input));
        ("next_sync_committee", canonicalPtr (T:=SyncCommittee) (fieldOf "next_sync_committee" input));
        ("next_sync_committee_branch", canonicalBranch (fieldOf "next_sync_committee_branch" input));
        ("finalized_header", canonicalPtr (T:=BeaconBlockHeader) (fieldOf "finalized_header" input));
        ("finality_branch", canonicalBranch (fieldOf "finality_branch" input));
        ("sync_aggregate", canonicalPtr (T:=SyncAggregate) (fieldOf "sync_aggregate" input));
        ("signature_slot", canonicalSlot (fieldOf "signature_slot" input)) ]
  | V1FinalityUpdate =>
      JObject [
        ("attested_header", canonicalPtr (T:=BeaconBlockHeader) (fieldOf "attested_header" input));
        ("finalized_header", canonicalPtr (T:=BeaconBlockHeader) (fieldOf "finalized_header" input));
        ("finality_branch", canonicalBranch (fieldOf "finality_branch" input));
        ("sync_aggregate", canonicalPtr (T:=SyncAggregate) (fieldOf "sync_aggregate" input));
        ("signature_slot", canonicalSlot (fieldOf "signature_slot" input)) ]
  | V1Bootstrap =>
      JObject [
        ("header", canonicalPtr (T:=BeaconBlockHeader) (fieldOf "header" input));
        ("current_sync_committee", canonicalPtr (T:=SyncCommittee) (fieldOf "current_sync_committee" input));
        ("current_sync_committee_branch", canonicalBranch (fieldOf "current_sync_committee_branch" input)) ]
  | AltairHeader =>
      JObject [
        ("beacon", canonicalPtr (T:=BeaconBlockHeader) (fieldOf "beacon" input)) ]
  | AltairOptimisticUpdate =>
      JObject [
        ("attested_header", canonicalPtr (T:=(@altair_LightClientHeader.LightClientHeader BeaconBlockHeader)) (fieldOf "attested_header" input));
        ("sync_aggregate", canonicalPtr (T:=SyncAggregate) (fieldOf "sync_aggregate" input));
        ("signature_slot", canonicalSlot (fieldOf "signature_slot" input)) ]
  | CapellaHeader =>
      JObject [
        ("beacon", canonicalPtr (T:=BeaconBlockHeader) (fieldOf "beacon" input));
        ("execution", canonicalPtr (T:=ExecutionPayloadHeader) (fieldOf "execution" input));
        ("execution_branch", canonicalBranch (fieldOf "execution_branch" input)) ]
  | CapellaBootstrap =>
      JObject [
        ("header", canonicalPtr (T:=(@capella_LightClientHeader.LightClientHeader
                            BeaconBlockHeader ExecutionPayloadHeader)) (fieldOf "header" input));
        ("current_sync_committee", canonicalPtr (T:=SyncCommittee) (fieldOf "current_sync_committee" input));
        ("current_sync_committee_branch", canonicalBranch (fieldOf "current_sync_committee_branch" input)) ]
  end.

Context `{!Valid BeaconBlockHeader, !Valid SyncCommittee,
          !Valid SyncAggregate, !Valid ExecutionPayloadHeader}.

#[global] Instance validAltairHeader
  : Valid (@altair_LightClientHeader.LightClientHeader BeaconBlockHeader) :=
  fun x => validPtr (altair_LightClientHeader.Beacon x).

#[global] Instance validCapellaHeader
  : Valid (@capella_LightClientHeader.LightClientHeader
             BeaconBlockHeader ExecutionPayloadHeader) :=
  fun x => validPtr (capella_LightClientHeader.Beacon x)
           /\ validPtr (capella_LightClientHeader.Execution x)
           /\ validBranch (capella_LightClientHeader.ExecutionBranch x).

(** The well-formed values of each record type. *)
Definition validRecord (r : recordType) : recordOf r -> Prop :=
  match r with
  | V1Update => fun x =>
      validPtr (v1_LightClientUpdate.AttestedHeader x)
      /\ validPtr (v1_LightClientUpdate.NextSyncCommittee x)
      /\ validBranch (v1_LightClientUpdate.NextSyncCommitteeBranch x)
      /\ validPtr (v1_LightClientUpdate.FinalizedHeader x)
      /\ validBranch (v1_LightClientUpdate.FinalityBranch x)
      /\ validPtr (v1_LightClientUpdate.SyncAggregate_ x)
      /\ validSlot (v1_LightClientUpdate.SignatureSlot x)
  | V1FinalityUpdate => fun x =>
      validPtr (v1_LightClientFinalityUpdate.AttestedHeader x)
      /\ validPtr (v1_LightClientFinalityUpdate.FinalizedHeader x)
      /\ validBranch (v1_LightClientFinalityUpdate.FinalityBranch x)
      /\ validPtr (v1_LightClientFinalityUpdate.SyncAggregate_ x)
      /\ validSlot (v1_LightClientFinalityUpdate.SignatureSlot x)
  | V1Bootstrap => fun x =>
      validPtr (v1_LightClientBootstrap.Header x)
      /\ validPtr (v1_LightClientBootstrap.CurrentSyncCommittee x)
      /\ validBranch (v1_LightClientBootstrap.CurrentSyncCommitteeBranch x)
  | AltairHeader => fun x => valid x
  | AltairOptimisticUpdate => fun x =>
      validPtr (altair_LightClientOptimisticUpdate.AttestedHeader x)
      /\ validPtr (altair_LightClientOptimisticUpdate.SyncAggregate_ x)
      /\ validSlot (altair_LightClientOptimisticUpdate.SignatureSlot x)
  | CapellaHeader => fun x => valid x
  | CapellaBootstrap => fun x =>
      validPtr (capella_LightClientBootstrap.Header x)
      /\ validPtr (capella_LightClientBootstrap.CurrentSyncCommittee x)
      /\ validBranch (capella_LightClientBootstrap.CurrentSyncCommitteeBranch x)
  end.

End Family.

(** The laws a nested type's codec is asked to satisfy: a well-formed value
    is decoded back from its rendering, and only well-formed values are
    decoded. *)
Class Lawful (T : Type) `{JSONCodec T, Valid T} : Prop := {
  decode_encode : forall x : T, valid x -> UnmarshalJSON zero (MarshalJSON x) = (x, None);
  encode_not_null : forall x : T, valid x -> MarshalJSON x <> JNull;
  decode_valid : forall (l x : T) input, UnmarshalJSON l input = (x, None) -> valid x
}.

End Records.


(* ===================================================================== *)
(** ** Values for the examples                                            *)
(* ===================================================================== *)

(** The beacon block header, the sync committee, the sync aggregate and the
    execution payload header belong to the consensus spec packages, which
    the records only point to.  The examples put in their place a value
    that keeps the members of its JSON object as they are. *)
Module Fixture.
Import Go Branch Codec HTTP Records.

Definition object := list (string * json).

#[global] Instance objectCodec : JSONCodec object :=
  Build_JSONCodec object []
    (fun l v => match v with
                | JObject ms => (ms, None)
                | _ => (l, Some (errorsNew "invalid JSON"))
                end)
    JObject.

#[global] Instance objectValid : Valid object := fun _ => True.

(** A binary decoder for the examples: it takes any body that is not empty. *)
Definition sszAny (T : Type) : SSZCodec T :=
  fun t b => match b with
             | [] => (t, Some (errorsNew "incorrect size"))
             | _ => (t, None)
             end.

Definition Update := @v1_LightClientUpdate.LightClientUpdate object object object.
Definition FinalityUpdate :=
  @v1_LightClientFinalityUpdate.LightClientFinalityUpdate object object.

(** The JSON texts of the tests. *)
Definition header : json :=
  JObject [("slot", JString "4943744"); ("proposer_index", JString "222870")].

Definition committee : json :=
  JObject [("aggregate_pubkey", JString "0x97e006ecbe9df2f0")].

Definition aggregate : json :=
  JObject [("sync_committee_bits", JString "0xfffffffffffbffff")].

Definition root1 : string :=
  "0x65af40980fe7dfc2f8587fd1d75044f8adcf8e0e8b142363f5bf3bce21e66bb5".
Definition root2 : string :=
  "0x26648104944ae0085548cea356ebdd0c5c4b73aa440bcaf0c7b2821325b28f66".

Definition branchOf (n : nat) : json := JArray (replicate n (JString root1)).

(** An update as the node sends it; [fb] is its finality branch. *)
Definition updateJSON (fb : json) (slot : json) : json :=
  JObject [
    ("attested_header", header);
    ("next_sync_committee", committee);
    ("next_sync_committee_branch", branchOf 5);
    ("finalized_header", header);
    ("finality_branch", fb);
    ("sync_aggregate", aggregate);
    ("signature_slot", slot)
  ].

Definition goodUpdate : json := updateJSON (branchOf 6) (JString "1234").

(** The update of the scenario: five elements in the finality branch. *)
Definition shortUpdate : json := updateJSON (branchOf 5) (JString "1234").

(** An update without attested_header and without finalized_header. *)
Definition twoMissing : json :=
  JObject [
    ("next_sync_committee", committee);
    ("next_sync_committee_branch", branchOf 5);
    ("finality_branch", branchOf 6);
    ("sync_aggregate", aggregate);
    ("signature_slot", JString "1234")
  ].

(** An update without finalized_header only. *)
Definition oneMissing : json :=
  JObject [
    ("attested_header", header);
    ("next_sync_committee", committee);
    ("next_sync_committee_branch", branchOf 5);
    ("finality_branch", branchOf 6);
    ("sync_aggregate", aggregate);
    ("signature_slot", JString "1234")
  ].

(** An update whose next_sync_committee_branch holds one empty string. *)
Definition emptyElement : json :=
  JObject [
    ("attested_header", header);
    ("next_sync_committee", committee);
    ("next_sync_committee_branch", JArray [JString ""]);
    ("finalized_header", header);
    ("finality_branch", branchOf 6);
    ("sync_aggregate", aggregate);
    ("signature_slot", JString "1234")
  ].

(** An update whose finality branch holds a value of three bytes at index 1. *)
Definition shortElement : json :=
  updateJSON (JArray [JString root1; JString "0x12acde"]) (JString "1234").

(** What the mock service returns as finality update: headers and
    aggregate set, the branch empty. *)
Definition mockFinalityUpdate : FinalityUpdate :=
  {| v1_LightClientFinalityUpdate.AttestedHeader := Some [];
     v1_LightClientFinalityUpdate.FinalizedHeader := Some [];
     v1_LightClientFinalityUpdate.FinalityBranch := [];
     v1_LightClientFinalityUpdate.SyncAggregate_ := Some [];
     v1_LightClientFinalityUpdate.SignatureSlot := 0 |}.

(** The texts of the tests of spec/altair and spec/capella. *)
Definition execution : json :=
  JObject [("parent_hash", JString root2); ("block_number", JString "9630861")].

Definition altairHeader : json := JObject [("beacon", header)].

Definition optimisticUpdate (slot : json) : json :=
  JObject [
    ("attested_header", altairHeader);
    ("sync_aggregate", aggregate);
    ("signature_slot", slot)
  ].

Definition capellaHeader : json :=
  JObject [
    ("beacon", header);
    ("execution", execution);
    ("execution_branch", JArray [JString root1; JString root2; JString root1; JString root2])
  ].

(** Responses. *)
Definition jsonBody (v : json) : body := {| raw := []; scanned := Ok v |}.

Definition response (c : ContentType) (v : DataVersion) (b : body) : httpResponse :=
  {| contentType := c; headers := []; consensusVersion := v; body_ := b |}.

Definition updatesBody (us : list json) : body :=
  jsonBody (JObject [("version", JString "altair"); ("data", JArray us)]).

(** A finality update as the node sends it. *)
Definition goodFinalityUpdate : json :=
  JObject [
    ("attested_header", header);
    ("finalized_header", header);
    ("finality_branch", branchOf 6);
    ("sync_aggregate", aggregate);
    ("signature_slot", JString "1234")
  ].

Definition finalityBody (v : string) : body :=
  jsonBody (JObject [("version", JString v); ("data", goodFinalityUpdate)]).

(** A binary body: three bytes, which are no JSON text. *)
Definition sszBody : body :=
  {| raw := [1; 2; 3]; scanned := Err (jsonSyntaxError "invalid character looking for beginning of value") |}.

Definition noMetadata : list (string * string) -> metadata := fun _ => [].

(** [string(version)] converts the number of the version to the text of
    one rune.  The numbers of the generations are not among the sources;
    the examples number them in their order from 1, 0 being left to the
    unknown version. *)
Definition versionNumber (v : DataVersion) : N :=
  match v with
  | DataVersionPhase0 => 1
  | DataVersionAltair => 2
  | DataVersionBellatrix => 3
  | DataVersionCapella => 4
  | DataVersionDeneb => 5
  | DataVersionOther n => n
  end.

Definition versionText (v : DataVersion) : string := runeString (versionNumber v).

(** The four light-client calls of a client that has no data, and a doCall
    over that one client. *)
Definition silent {T} : unit -> option T * option error := fun _ => (None, None).
Definition firstClient {R} (f : unit -> R) : R := f tt.

(** A transport that answers every request with the same response. *)
Definition always (r : option httpResponse) : string -> option httpResponse * option error :=
  fun _ => (r, None).

(** An update whose signature slot is a negative number. *)
Definition negativeSlot : json := updateJSON (branchOf 6) (JString "-1").

(** The good update as a sloppy sender writes it: the members in another
    order and under keys in capitals, a member the record does not have,
    the finality branch in capital digits without 0x, zeros before the
    slot. *)
Definition root1Capitals : string :=
  "65AF40980FE7DFC2F8587FD1D75044F8ADCF8E0E8B142363F5BF3BCE21E66BB5".

Definition looseUpdate : json :=
  JObject [
    ("signature_slot", JString "0001234");
    ("SYNC_AGGREGATE", aggregate);
    ("finality_branch", JArray (replicate 6 (JString root1Capitals)));
    ("comment", JString "sent twice");
    ("next_sync_committee_branch", branchOf 5);
    ("next_sync_committee", committee);
    ("Finalized_Header", header);
    ("attested_header", header)
  ].

End Fixture.

(* ===================================================================== *)
(** ** Further code of the repository                                     *)
(* ===================================================================== *)

(** spec/capella: the altair view of a header. *)
Module Capella.
Import Go Codec.

(** func (l *LightClientHeader) ToAltair() *altair.LightClientHeader, for
    a receiver that is not nil: a new altair header that shares the beacon
    pointer. *)
Definition ToAltair {BeaconBlockHeader ExecutionPayloadHeader : Type}
    (l : @capella_LightClientHeader.LightClientHeader
           BeaconBlockHeader ExecutionPayloadHeader)
  : @altair_LightClientHeader.LightClientHeader BeaconBlockHeader :=
  {| altair_LightClientHeader.Beacon := capella_LightClientHeader.Beacon l |}.

End Capella.

(** http: the operations of the earlier revisions of the service, which
    read [{"data": ...}] from the body with encoding/json and return the
    record itself. *)
Module Legacy.
Import Go HTTP.

(** lightClientBootstrapJSON, lightClientUpdateJSON (lightClientUpdatesJSON),
    lightClientFinalityUpdateJSON and lightClientOptimisticUpdateJSON:
    [struct { Data *T `json:"data"` }]. *)
Record dataJSON (T : Type) := { data : option T }.
Arguments data {T} _.

Definition put_data {T} (v : option T) (_ : dataJSON T) : dataJSON T := {| data := v |}.

Definition zeroData {T} : dataJSON T := {| data := None |}.

Definition dataFields {T} `{JSONCodec T} : list (string * field (dataJSON T)) :=
  [ ("data", ptrField data put_data) ].

(** [var resp xJSON; json.NewDecoder(respBodyReader).Decode(&resp)] *)
Definition decodeData {T} `{JSONCodec T} (struct : string) (b : body)
  : result (dataJSON T) :=
  match scanned b with
  | Err e => Err e
  | Ok v => unmarshalStruct ("http." ++ struct) zeroData (bindStruct struct dataFields) v
  end.

(** One element of an array bound to an element of a []xJSON, which starts
    as the zero struct: null leaves it so, an object is bound member by
    member, a value of another kind is skipped and reported. *)
Definition bindElement {T} `{JSONCodec T} (struct : string) (v : json)
    (saved : option error) : result (dataJSON T * option error) :=
  match v with
  | JNull => Ok (zeroData, saved)
  | JObject ms => bindMembers (bindStruct struct dataFields) ms zeroData saved
  | _ =>
      Ok (zeroData,
          match saved with
          | Some _ => saved
          | None => Some (jsonUnmarshalTypeError (kindName v) "" "" ("http." ++ struct))
          end)
  end.

Fixpoint bindSlice {T} `{JSONCodec T} (struct : string) (vs : list json)
    (saved : option error) : result (list (dataJSON T) * option error) :=
  match vs with
  | [] => Ok ([], saved)
  | v :: r =>
      match bindElement struct v saved with
      | Err e => Err e
      | Ok (x, saved') =>
          match bindSlice struct r saved' with
          | Err e => Err e
          | Ok (xs, saved'') => Ok (x :: xs, saved'')
          end
      end
  end.

(** [var resp []xJSON; json.NewDecoder(respBodyReader).Decode(&resp)]; null
    leaves the slice nil, which has no element. *)
Definition decodeDataList {T} `{JSONCodec T} (struct : string) (b : body)
  : result (list (dataJSON T)) :=
  match scanned b with
  | Err e => Err e
  | Ok JNull => Ok []
  | Ok (JArray vs) =>
      match bindSlice struct vs None with
      | Err e => Err e
      | Ok (_, Some e) => Err e
      | Ok (xs, None) => Ok xs
      end
  | Ok v => Err (jsonUnmarshalTypeError (kindName v) "" "" ("[]http." ++ struct))
  end.

Section Service.
(** s.get of these revisions returns the reader of the body, nil when
    there is none. *)
Variable get : string -> option body * option error.

(** The body the operations share: request, nil check, decoding, and the
    data of the response. *)
Definition fetch {T} `{JSONCodec T} (url requestFailed parseFailed struct : string)
  : option T * option error :=
  match get url with
  | (_, Some err) => (None, Some (errorsWrap err requestFailed))
  | (None, None) => (None, None)
  | (Some b, None) =>
      match decodeData struct b with
      | Err e => (None, Some (errorsWrap e parseFailed))
      | Ok resp => (data resp, None)
      end
  end.

(** The revision over the records of api/v1. *)
Section V1.
Context {Bootstrap Update FinalityUpdate OptimisticUpdate : Type}.
Context `{!JSONCodec Bootstrap, !JSONCodec Update, !JSONCodec FinalityUpdate,
          !JSONCodec OptimisticUpdate}.

Definition V1Bootstrap (blockRoot : bytes) : option Bootstrap * option error :=
  fetch ("/eth/v1/beacon/light_client/bootstrap/" ++ Sprintf_hx blockRoot)
    "failed to request beacon light client bootstrap"
    "failed to parse beacon light client bootstrap"
    "lightClientBootstrapJSON".

Definition V1Updates (start count : N) : option Update * option error :=
  fetch ("/eth/v1/beacon/light_client/updates?start_period="
           ++ Sprintf_d start ++ "&count=" ++ Sprintf_d count)
    "failed to request beacon light client update"
    "failed to parse beacon light client update"
    "lightClientUpdatesJSON".

Definition V1FinalityUpdate : option FinalityUpdate * option error :=
  fetch "/eth/v1/beacon/light_client/finality_update/"
    "failed to request beacon light client finality_update"
    "failed to parse beacon light client finality_update"
    "lightClientFinalityUpdateJSON".

Definition V1OptimisticUpdate : option OptimisticUpdate * option error :=
  fetch "/eth/v1/beacon/light_client/optimistic_update/"
    "failed to request beacon light client optimistic_update"
    "failed to parse beacon light client optimistic_update"
    "lightClientOptimisticUpdateJSON".
End V1.

(** The revision over the records of spec/capella. *)
Section Capella.
Context {Bootstrap Update FinalityUpdate OptimisticUpdate : Type}.
Context `{!JSONCodec Bootstrap, !JSONCodec Update, !JSONCodec FinalityUpdate,
          !JSONCodec OptimisticUpdate}.

Definition LightClientBootstrap (blockRoot : bytes) : option Bootstrap * option error :=
  fetch ("/eth/v1/beacon/light_client/bootstrap/" ++ Sprintf_hx blockRoot)
    "failed to request beacon light client bootstrap"
    "failed to parse beacon light client bootstrap"
    "lightClientBootstrapJSON".

(** [ret[i] = resp[i].Data]: one pointer per element of the array; the
    slice returned is not nil, also when it is empty. *)
Definition LightClientUpdates (startPeriod count : N)
  : option (list (option Update)) * option error :=
  match get ("/eth/v1/beacon/light_client/updates?start_period="
               ++ Sprintf_d startPeriod ++ "&count=" ++ Sprintf_d count) with
  | (_, Some err) =>
      (None, Some (errorsWrap err "failed to request beacon light client updates"))
  | (None, None) => (None, None)
  | (Some b, None) =>
      match decodeDataList "lightClientUpdateJSON" b with
      | Err e => (None, Some (errorsWrap e "failed to parse beacon light client updates"))
      | Ok resp => (Some (map data resp), None)
      end
  end.

Definition LightClientFinalityUpdate : option FinalityUpdate * option error :=
  fetch "/eth/v1/beacon/light_client/finality_update"
    "failed to request beacon light client finality_update"
    "failed to parse beacon light client finality_update"
    "lightClientFinalityUpdateJSON".

Definition LightClientOptimisticUpdate : option OptimisticUpdate * option error :=
  fetch "/eth/v1/beacon/light_client/optimistic_update"
    "failed to request beacon light client optimistic_update"
    "failed to parse beacon light client optimistic_update"
    "lightClientOptimisticUpdateJSON".
End Capella.
End Service.

End Legacy.
(* ===================================================================== *)
(** ** Facts about the library model                                      *)
(* ===================================================================== *)

Module GoFacts.
Import Go.

Lemma hexdigit_roundtrip n : n < 16 -> fromHexChar (hextable n) = Some n.
Proof.
  intros H. destruct n as [|p]; [reflexivity|].
  do 4 (destruct p as [p|p|]; try reflexivity); exfalso; lia.
Qed.

Lemma byte_split x : N.lor (N.shiftl (N.shiftr x 4) 4) (N.land x 15) = x.
Proof.
  apply N.bits_inj. intros n.
  rewrite N.lor_spec, N.land_spec. change 15 with (N.ones 4).
  destruct (N.ltb_spec n 4) as [Hlt|Hge].
  - rewrite N.shiftl_spec_low by exact Hlt.
    rewrite N.ones_spec_low by exact Hlt.
    rewrite andb_true_r. reflexivity.
  - rewrite N.shiftl_spec_high' by exact Hge.
    rewrite N.shiftr_spec'. replace (n - 4 + 4) with n by lia.
    rewrite N.ones_spec_high by exact Hge.
    rewrite andb_false_r. apply orb_false_r.
Qed.

Lemma shiftr4_lt x : x < 256 -> N.shiftr x 4 < 16.
Proof.
  intros H. rewrite N.shiftr_div_pow2. change (2 ^ 4) with 16.
  apply N.Div0.div_lt_upper_bound. lia.
Qed.

Lemma land15_lt x : N.land x 15 < 16.
Proof.
  change 15 with (N.ones 4). rewrite N.land_ones. change (2^4) with 16.
  apply N.mod_lt. lia.
Qed.

Lemma hex_roundtrip b :
  Forall (fun x => x < 256) b -> hexDecode (hexEncode b) = (b, None).
Proof.
  induction 1 as [|x r Hx _ IH]; [reflexivity|].
  cbn [hexEncode hexDecode].
  rewrite (hexdigit_roundtrip _ (shiftr4_lt x Hx)), (hexdigit_roundtrip _ (land15_lt x)).
  rewrite IH, byte_split. reflexivity.
Qed.

Lemma byteOf_charOf n : n < 256 -> byteOf (charOf n) = n.
Proof. intros H. apply N_ascii_embedding. exact H. Qed.

Lemma decimalValue_ge s : forall n, n <= decimalValue s n.
Proof.
  induction s as [|c r IH]; intros n; simpl; [lia|].
  specialize (IH (n * 10 + (byteOf c - 48))). lia.
Qed.

Lemma decimalValue_app s1 s2 n :
  decimalValue (s1 ++ s2) n = decimalValue s2 (decimalValue s1 n).
Proof. revert n. induction s1 as [|c r IH]; intros n; simpl; [reflexivity|apply IH]. Qed.

Lemma allDigits_app s1 s2 : allDigits (s1 ++ s2) = allDigits s1 && allDigits s2.
Proof. induction s1 as [|c r IH]; simpl; [reflexivity|]. rewrite IH. apply andb_assoc. Qed.

Lemma parseLoop_spec s0 s : forall n,
  allDigits s = true -> n <= maxUint64 ->
  parseLoop s0 s n =
    if decimalValue s n <=? maxUint64 then Ok (decimalValue s n)
    else Err (strconvNumError "ParseUint" s0 ErrRange).
Proof.
  induction s as [|c r IH]; intros n Hd Hn.
  - simpl. destruct (N.leb_spec n maxUint64); [reflexivity|lia].
  - simpl in Hd. apply andb_true_iff in Hd. destruct Hd as [Hc Hr].
    unfold isDigit in Hc. cbn [parseLoop decimalValue]. cbv zeta. rewrite Hc.
    apply andb_true_iff in Hc. destruct Hc as [H1 H2].
    apply N.leb_le in H1, H2.
    pose proof (decimalValue_ge r (n * 10 + (byteOf c - 48))) as Hge.
    unfold cutoff, wrap64, maxUint64 in *.
    destruct (N.leb_spec (18446744073709551615 / 10 + 1) n) as [Hcut|Hcut].
    + change (18446744073709551615 / 10 + 1) with 1844674407370955162 in Hcut.
      destruct (N.leb_spec (decimalValue r (n * 10 + (byteOf c - 48))) 18446744073709551615);
        [lia|reflexivity].
    + change (18446744073709551615 / 10 + 1) with 1844674407370955162 in Hcut.
      rewrite (N.mod_small (n * 10)) by lia.
      destruct (N.le_gt_cases (n * 10 + (byteOf c - 48)) 18446744073709551615) as [Hok|Hov].
      * rewrite (N.mod_small (n * 10 + (byteOf c - 48))) by lia.
        destruct (N.ltb_spec (n * 10 + (byteOf c - 48)) (n * 10)); [lia|].
        destruct (N.ltb_spec 18446744073709551615 (n * 10 + (byteOf c - 48))); [lia|].
        cbn [orb]. apply IH; [exact Hr|exact Hok].
      * assert (Hm : (n * 10 + (byteOf c - 48)) mod 18446744073709551616
                     = n * 10 + (byteOf c - 48) - 18446744073709551616).
        { symmetry. apply (N.mod_unique _ _ 1); lia. }
        rewrite Hm.
        destruct (N.ltb_spec (n * 10 + (byteOf c - 48) - 18446744073709551616) (n * 10)); [|lia].
        cbn [orb].
        destruct (N.leb_spec (decimalValue r (n * 10 + (byteOf c - 48))) 18446744073709551615);
          [lia|reflexivity].
Qed.

Lemma ParseUint_digits s :
  s <> "" -> allDigits s = true ->
  ParseUint s =
    if decimalValue s 0 <=? maxUint64 then Ok (decimalValue s 0)
    else Err (strconvNumError "ParseUint" s ErrRange).
Proof.
  intros Hne Hd. destruct s as [|c r]; [congruence|].
  unfold ParseUint. apply parseLoop_spec; [exact Hd|unfold maxUint64; lia].
Qed.

Lemma parseLoop_syntax s0 s1 c s2 : forall n r,
  allDigits s1 = true -> isDigit c = false ->
  parseLoop s0 (s1 ++ String c s2) n = Ok r -> False.
Proof.
  induction s1 as [|d t IH]; intros n r Hd Hc; simpl.
  - unfold isDigit in Hc. rewrite Hc. discriminate.
  - simpl in Hd. apply andb_true_iff in Hd. destruct Hd as [Hd1 Hd2].
    unfold isDigit in Hd1. rewrite Hd1.
    destruct (cutoff <=? n); [discriminate|].
    match goal with |- context [if ?b then _ else _] => destruct b end; [discriminate|].
    apply IH; assumption.
Qed.

Lemma isDigit_digitChar d : d < 10 -> isDigit (digitChar d) = true.
Proof.
  intros H. unfold isDigit, digitChar. rewrite byteOf_charOf by lia.
  apply andb_true_iff. split; apply N.leb_le; lia.
Qed.

Lemma formatBits_spec fuel : forall u acc,
  u < 10 ^ (N.of_nat fuel + 1) ->
  exists ds, formatBits fuel u acc = ds ++ acc /\ ds <> "" /\ allDigits ds = true
             /\ forall n, decimalValue ds n = n * 10 ^ N.of_nat (strlen ds) + u.
Proof.
  induction fuel as [|f IH]; intros u acc Hu.
  - change (10 ^ (N.of_nat 0 + 1)) with 10 in Hu.
    exists (String (digitChar (u mod 10)) ""). cbn [formatBits].
    rewrite (N.mod_small u 10) by lia.
    split; [reflexivity|split; [discriminate|split]].
    + simpl. rewrite isDigit_digitChar by lia. reflexivity.
    + intros n. simpl. unfold digitChar. rewrite byteOf_charOf by lia.
      change (10 ^ 1) with 10. lia.
  - cbn [formatBits]. destruct (N.leb_spec 10 u) as [Hge|Hlt].
    + destruct (IH (u / 10) (String (digitChar (u mod 10)) acc)) as (ds & E & Hne & Hd & Hv).
      { replace (N.of_nat (S f) + 1) with (N.succ (N.of_nat f + 1)) in Hu by lia.
        rewrite N.pow_succ_r' in Hu. apply N.Div0.div_lt_upper_bound. lia. }
      assert (Hm : u mod 10 < 10) by (apply N.mod_lt; lia).
      exists (ds ++ String (digitChar (u mod 10)) "").
      split; [|split; [|split]].
      * rewrite E. clear. induction ds as [|c r IHr]; simpl; [reflexivity|]. rewrite IHr. reflexivity.
      * destruct ds; simpl; discriminate.
      * rewrite allDigits_app, Hd. simpl. rewrite isDigit_digitChar by lia. reflexivity.
      * intros n. rewrite decimalValue_app, Hv. simpl. unfold digitChar.
        rewrite byteOf_charOf by lia.
        assert (Hl : strlen (ds ++ String (charOf (48 + u mod 10)) "") = S (strlen ds)).
        { clear. induction ds as [|c r IHr]; simpl; [reflexivity|]. rewrite IHr. reflexivity. }
        rewrite Hl, Nat2N.inj_succ, N.pow_succ_r'.
        pose proof (N.div_mod u 10 ltac:(lia)) as Hdm.
        generalize (10 ^ N.of_nat (strlen ds)). intros P.
        replace (n * (10 * P)) with (n * P * 10) by (rewrite (N.mul_comm 10 P); symmetry; apply N.mul_assoc).
        generalize (n * P). intros Q. clear - Hdm Hm.
        generalize dependent (u / 10). generalize dependent (u mod 10). intros. lia.
    + exists (String (digitChar u) "").
      split; [reflexivity|split; [discriminate|split]].
      * simpl. rewrite isDigit_digitChar by lia. reflexivity.
      * intros n. simpl. unfold digitChar. rewrite byteOf_charOf by lia.
        change (10 ^ 1) with 10. lia.
Qed.

Lemma Sprintf_d_spec u :
  u <= maxUint64 ->
  Sprintf_d u <> "" /\ allDigits (Sprintf_d u) = true /\ decimalValue (Sprintf_d u) 0 = u.
Proof.
  intros Hu. unfold Sprintf_d.
  destruct (formatBits_spec 20 u "") as (ds & E & Hne & Hd & Hv).
  { unfold maxUint64 in Hu. change (10 ^ (N.of_nat 20 + 1)) with 1000000000000000000000. lia. }
  assert (Happ : ds ++ "" = ds).
  { clear. induction ds as [|c r IH]; simpl; [reflexivity|]. rewrite IH. reflexivity. }
  rewrite E, Happ. repeat split; [exact Hne|exact Hd|]. rewrite Hv. lia.
Qed.

Lemma ParseUint_Sprintf_d u : u <= maxUint64 -> ParseUint (Sprintf_d u) = Ok u.
Proof.
  intros Hu. destruct (Sprintf_d_spec u Hu) as (Hne & Hd & Hv).
  rewrite ParseUint_digits by assumption. rewrite Hv.
  destruct (N.leb_spec u maxUint64); [reflexivity|lia].
Qed.

End GoFacts.

(** The binding of an object to a struct whose fields are well formed. *)
Module BindingFacts.
Import Go Branch Records.

Lemma String_eqb_true a b : String.eqb a b = true -> a = b.
Proof. apply String.eqb_eq. Qed.

Lemma keyMatches_fold n k : keyMatches n k = true -> foldName n = foldName k.
Proof.
  unfold keyMatches. intros H. apply orb_true_iff in H. destruct H as [H|H].
  - apply String.eqb_eq in H. subst. reflexivity.
  - apply String.eqb_eq in H. exact H.
Qed.

Lemma keyMatches_refl n : keyMatches n n = true.
Proof. unfold keyMatches. rewrite String.eqb_refl. reflexivity. Qed.

Lemma existsb_eqb_In x l : In x l -> existsb (String.eqb x) l = true.
Proof.
  intros H. apply existsb_exists. exists x. split; [exact H|apply String.eqb_refl].
Qed.

Lemma distinct_lookup (l : list string) : forall i j x,
  distinct l = true -> l !! i = Some x -> l !! j = Some x -> i = j.
Proof.
  induction l as [|y r IH]; intros i j x Hd Hi Hj; [destruct i; discriminate|].
  simpl in Hd. apply andb_true_iff in Hd. destruct Hd as [Hn Hd].
  apply negb_true_iff in Hn.
  destruct i as [|i], j as [|j]; simpl in Hi, Hj.
  - reflexivity.
  - injection Hi as ->. apply list_elem_of_lookup_2, list_elem_of_In in Hj.
    rewrite (existsb_eqb_In _ _ Hj) in Hn. discriminate.
  - injection Hj as ->. apply list_elem_of_lookup_2, list_elem_of_In in Hi.
    rewrite (existsb_eqb_In _ _ Hi) in Hn. discriminate.
  - f_equal. eapply IH; eassumption.
Qed.

Section Binding.
Context {J : Type} (S : string) (fs : list (string * field J)).
Hypothesis WF : wellFormed fs.

(** A member binds to the first field whose tag matches, or to none. *)
Lemma bindStruct_cases (gs : list (string * field J)) jso k v :
  (bindStruct S gs jso k v = Ok (jso, None)
   /\ forall i n d, gs !! i = Some (n, d) -> keyMatches n k = false)
  \/ exists i n d, gs !! i = Some (n, d) /\ keyMatches n k = true
                   /\ bindStruct S gs jso k v = bindField S n d jso v.
Proof.
  induction gs as [|[n0 d0] r IH]; cbn [bindStruct].
  - left. split; [reflexivity|]. intros i n d H. destruct i; discriminate.
  - destruct (keyMatches n0 k) eqn:Hm.
    + right. exists 0%nat, n0, d0. repeat split; assumption.
    + destruct IH as [[E Hall]|(i & n & d & Hi & Hk & E)].
      * left. split; [exact E|]. intros [|i] n d H; simpl in H.
        -- injection H as <- <-. exact Hm.
        -- eapply Hall; eassumption.
      * right. exists (Datatypes.S i), n, d. repeat split; assumption.
Qed.

Lemma lookup_unique i j n d n' d' k :
  fs !! i = Some (n, d) -> fs !! j = Some (n', d') ->
  keyMatches n k = true -> keyMatches n' k = true -> i = j.
Proof.
  intros Hi Hj Hk Hk'. destruct WF as (Hd & _ & _).
  apply keyMatches_fold in Hk, Hk'.
  eapply (distinct_lookup _ i j (foldName k) Hd).
  - rewrite list_lookup_fmap, Hi. simpl. congruence.
  - rewrite list_lookup_fmap, Hj. simpl. congruence.
Qed.

Lemma bindStruct_hit i n d jso k v :
  fs !! i = Some (n, d) -> keyMatches n k = true ->
  bindStruct S fs jso k v = bindField S n d jso v.
Proof.
  intros Hi Hk. destruct (bindStruct_cases fs jso k v) as [[_ Hall]|(j & n' & d' & Hj & Hk' & E)].
  - rewrite (Hall _ _ _ Hi) in Hk. discriminate.
  - assert (i = j) by (eapply lookup_unique; eassumption). subst j.
    rewrite Hi in Hj. injection Hj as <- <-. exact E.
Qed.

Lemma sameOn_refl (d : field J) j : sameOn d j j.
Proof. destruct d; reflexivity. Qed.

Lemma bindField_frame n (d d' : field J) (jso : J) v jso' e :
  frames d d' -> bindField S n d jso v = Ok (jso', e) -> sameOn d' jso jso'.
Proof.
  intros Hf E. destruct d as [T c get put|get put|get put]; cbn [bindField frames] in *.
  - destruct (bindPtr (get jso) v) as [p|err]; cbn [bind] in E; [|discriminate].
    injection E as <- <-. apply Hf.
  - destruct (bindStrings S n (get jso) v) as [x e']. injection E as <- <-. apply Hf.
  - destruct (bindString S n (get jso) v) as [x e']. injection E as <- <-. apply Hf.
Qed.

Lemma bindStruct_frame i n d jso k v jso' e :
  fs !! i = Some (n, d) -> keyMatches n k = false ->
  bindStruct S fs jso k v = Ok (jso', e) -> sameOn d jso jso'.
Proof.
  intros Hi Hk E.
  destruct (bindStruct_cases fs jso k v) as [[E' _]|(j & n' & d' & Hj & Hk' & E')].
  - rewrite E' in E. injection E as <- <-. apply sameOn_refl.
  - rewrite E' in E. destruct WF as (_ & _ & Hfr).
    eapply bindField_frame; [|exact E]. eapply (Hfr j i); [exact Hj|exact Hi|].
    intros ->. rewrite Hi in Hj. injection Hj as <- <-. congruence.
Qed.

(** An invariant of the struct along the members. *)
Lemma bindMembers_inv (P : J -> Prop) ms :
  (forall k v jso jso' e, In (k, v) ms -> P jso ->
     bindStruct S fs jso k v = Ok (jso', e) -> P jso') ->
  forall jso saved jso' e, P jso ->
    bindMembers (bindStruct S fs) ms jso saved = Ok (jso', e) -> P jso'.
Proof.
  induction ms as [|[k v] r IH]; intros Hstep jso saved jso' e HP E; cbn [bindMembers] in E.
  - injection E as <- <-. exact HP.
  - destruct (bindStruct S fs jso k v) as [[jso1 e1]|err] eqn:E1; [|discriminate].
    eapply IH; [|eapply Hstep; [left; reflexivity|exact HP|exact E1]|exact E].
    intros k' v' j j' e' Hin. apply Hstep. right. exact Hin.
Qed.

(** A saved error stays. *)
Lemma bindMembers_saved ms : forall jso e0 jso' e,
  bindMembers (bindStruct S fs) ms jso (Some e0) = Ok (jso', e) -> e = Some e0.
Proof.
  induction ms as [|[k v] r IH]; intros jso e0 jso' e E; cbn [bindMembers] in E.
  - injection E as <- <-. reflexivity.
  - destruct (bindStruct S fs jso k v) as [[jso1 e1]|err]; [|discriminate].
    eapply IH. exact E.
Qed.

Lemma nullWhere_In n ms k v :
  nullWhere n ms -> In (k, v) ms -> keyMatches n k = true -> v = JNull.
Proof.
  intros H Hin Hk. unfold nullWhere in H.
  rewrite Forall_forall in H. apply list_elem_of_In in Hin.
  exact (H _ Hin Hk).
Qed.

Lemma null_ptr i n T (c : JSONCodec T) (get : J -> option T) put ms jso saved jso' e :
  fs !! i = Some (n, ptrField get put) -> nullWhere n ms -> get jso = None ->
  bindMembers (bindStruct S fs) ms jso saved = Ok (jso', e) -> get jso' = None.
Proof.
  intros Hi Hnull H0 E.
  eapply (bindMembers_inv (fun j => get j = None)); [|exact H0|exact E].
  intros k v j j' e' Hin Hj E'.
  destruct (keyMatches n k) eqn:Hk.
  - rewrite (bindStruct_hit _ _ _ _ _ _ Hi Hk) in E'.
    pose proof (nullWhere_In _ _ _ _ Hnull Hin Hk). subst v.
    cbn in E'. injection E' as <- <-.
    destruct WF as (_ & Hpg & _). apply (Hpg _ _ _ Hi).
  - pose proof (bindStruct_frame _ _ _ _ _ _ _ _ Hi Hk E') as Hs. cbn in Hs. congruence.
Qed.

Lemma null_strings i n (get : J -> option (list string)) put ms jso saved jso' e :
  fs !! i = Some (n, stringsField get put) -> nullWhere n ms -> get jso = None ->
  bindMembers (bindStruct S fs) ms jso saved = Ok (jso', e) -> get jso' = None.
Proof.
  intros Hi Hnull H0 E.
  eapply (bindMembers_inv (fun j => get j = None)); [|exact H0|exact E].
  intros k v j j' e' Hin Hj E'.
  destruct (keyMatches n k) eqn:Hk.
  - rewrite (bindStruct_hit _ _ _ _ _ _ Hi Hk) in E'.
    pose proof (nullWhere_In _ _ _ _ Hnull Hin Hk). subst v.
    cbn in E'. injection E' as <- <-.
    destruct WF as (_ & Hpg & _). apply (Hpg _ _ _ Hi).
  - pose proof (bindStruct_frame _ _ _ _ _ _ _ _ Hi Hk E') as Hs. cbn in Hs. congruence.
Qed.

Lemma null_string i n (get : J -> string) put ms jso saved jso' e :
  fs !! i = Some (n, stringField get put) -> nullWhere n ms ->
  bindMembers (bindStruct S fs) ms jso saved = Ok (jso', e) -> get jso' = get jso.
Proof.
  intros Hi Hnull E.
  eapply (bindMembers_inv (fun j => get j = get jso)); [|reflexivity|exact E].
  intros k v j j' e' Hin Hj E'.
  destruct (keyMatches n k) eqn:Hk.
  - rewrite (bindStruct_hit _ _ _ _ _ _ Hi Hk) in E'.
    pose proof (nullWhere_In _ _ _ _ Hnull Hin Hk). subst v.
    cbn in E'. injection E' as <- <-.
    destruct WF as (_ & Hpg & _). rewrite (Hpg _ _ _ Hi). exact Hj.
  - pose proof (bindStruct_frame _ _ _ _ _ _ _ _ Hi Hk E') as Hs. cbn in Hs. congruence.
Qed.

(** A pointer that is set holds what an UnmarshalJSON returned without error. *)
Lemma decoded_ptr i n T (c : JSONCodec T) (get : J -> option T) put ms jso saved jso' e :
  fs !! i = Some (n, ptrField get put) -> get jso = None ->
  bindMembers (bindStruct S fs) ms jso saved = Ok (jso', e) ->
  forall x, get jso' = Some x -> exists l w, UnmarshalJSON l w = (x, None).
Proof.
  intros Hi H0 E.
  eapply (bindMembers_inv
            (fun j => forall x, get j = Some x -> exists l w, UnmarshalJSON l w = (x, None)));
    [| |exact E].
  - intros k v j j' e' Hin Hj E'.
    destruct (keyMatches n k) eqn:Hk.
    + rewrite (bindStruct_hit _ _ _ _ _ _ Hi Hk) in E'. cbn [bindField] in E'.
      destruct WF as (_ & Hpg & _). pose proof (Hpg _ _ _ Hi) as Hg. cbn in Hg.
      unfold bindPtr in E'.
      destruct v; try (cbn in E'; injection E' as <- <-; rewrite Hg; discriminate);
        match type of E' with
        | context [UnmarshalJSON ?r ?w] =>
            destruct (UnmarshalJSON r w) as [y [err|]] eqn:EU; cbn in E';
            [discriminate|injection E' as <- <-; rewrite Hg; intros x [= <-]; eauto]
        end.
    + pose proof (bindStruct_frame _ _ _ _ _ _ _ _ Hi Hk E') as Hs. cbn in Hs.
      rewrite <- Hs. exact Hj.
  - intros x Hx. congruence.
Qed.
(** Without a saved error at the end, no member left one. *)
Lemma bindMembers_clean_head k v r jso saved jso' :
  bindMembers (bindStruct S fs) ((k, v) :: r) jso saved = Ok (jso', None) ->
  exists jso1, bindStruct S fs jso k v = Ok (jso1, None) /\ saved = None
               /\ bindMembers (bindStruct S fs) r jso1 None = Ok (jso', None).
Proof.
  cbn [bindMembers]. intros E.
  destruct (bindStruct S fs jso k v) as [[jso1 e1]|err] eqn:E1; [|discriminate].
  destruct saved as [e0|].
  - apply bindMembers_saved in E. discriminate.
  - destruct e1 as [e1|].
    + apply bindMembers_saved in E. discriminate.
    + exists jso1. repeat split. exact E.
Qed.

Lemma last_strings i n (get : J -> option (list string)) put ms : forall jso saved jso',
  fs !! i = Some (n, stringsField get put) ->
  bindMembers (bindStruct S fs) ms jso saved = Ok (jso', None) ->
  match lastMatch n ms with
  | None => get jso' = get jso
  | Some v =>
      (v = JNull /\ get jso' = None)
      \/ exists cur elems ss, v = JArray elems /\ bindElements S n cur elems = (ss, None)
                               /\ get jso' = Some ss
  end.
Proof.
  induction ms as [|[k v] r IH]; intros jso saved jso' Hi E.
  - cbn in E. injection E as <- _. reflexivity.
  - apply bindMembers_clean_head in E. destruct E as (jso1 & E1 & _ & E).
    specialize (IH _ _ _ Hi E). cbn [lastMatch].
    destruct (lastMatch n r) as [x|]; [exact IH|].
    destruct (keyMatches n k) eqn:Hk.
    + rewrite (bindStruct_hit _ _ _ _ _ _ Hi Hk) in E1. cbn [bindField] in E1.
      destruct WF as (_ & Hpg & _). pose proof (Hpg _ _ _ Hi) as Hg. cbn in Hg.
      destruct v; cbn in E1; try discriminate.
      * left. injection E1 as <-. rewrite IH, Hg. split; reflexivity.
      * right. destruct (bindElements S n _ elements) as [ss e1] eqn:Eb.
        injection E1 as <- ->. eexists _, elements, ss. rewrite IH, Hg.
        repeat split; [exact Eb].
    + pose proof (bindStruct_frame _ _ _ _ _ _ _ _ Hi Hk E1) as Hs. cbn in Hs.
      congruence.
Qed.

Lemma last_string i n (get : J -> string) put ms : forall jso saved jso',
  fs !! i = Some (n, stringField get put) ->
  bindMembers (bindStruct S fs) ms jso saved = Ok (jso', None) ->
  match lastMatch n ms with
  | None => get jso' = get jso
  | Some (JString s) => get jso' = s
  | Some JNull => True
  | Some _ => False
  end.
Proof.
  induction ms as [|[k v] r IH]; intros jso saved jso' Hi E.
  - cbn in E. injection E as <- _. reflexivity.
  - apply bindMembers_clean_head in E. destruct E as (jso1 & E1 & _ & E).
    specialize (IH _ _ _ Hi E). cbn [lastMatch].
    destruct (lastMatch n r) as [x|]; [exact IH|].
    destruct (keyMatches n k) eqn:Hk.
    + rewrite (bindStruct_hit _ _ _ _ _ _ Hi Hk) in E1. cbn [bindField] in E1.
      destruct WF as (_ & Hpg & _). pose proof (Hpg _ _ _ Hi) as Hg. cbn in Hg.
      destruct v; cbn in E1; try discriminate; try exact I.
      injection E1 as <-. rewrite IH, Hg. reflexivity.
    + pose proof (bindStruct_frame _ _ _ _ _ _ _ _ Hi Hk E1) as Hs. cbn in Hs.
      congruence.
Qed.

(** The elements of an array without a type error. *)
Lemma bindElements_strings (n : string) ss : forall cur,
  bindElements S n cur (map JString ss) = (ss, None).
Proof.
  induction ss as [|s r IH]; intros cur; [reflexivity|]. cbn. rewrite IH. reflexivity.
Qed.

(** *** A field holds what its own members leave in it *)

Lemma sameOn_sym (d : field J) j j' : sameOn d j j' -> sameOn d j' j.
Proof. destruct d; cbn; congruence. Qed.

Lemma sameOn_trans (d : field J) j j' j'' :
  sameOn d j j' -> sameOn d j' j'' -> sameOn d j j''.
Proof. destruct d; cbn; congruence. Qed.

(** What a member leaves in its field depends on the struct only through
    that field. *)
Lemma bindField_own n (d : field J) j j' v j2 e :
  putGet d -> sameOn d j j' -> bindField S n d j v = Ok (j2, e) ->
  exists j2', bindField S n d j' v = Ok (j2', e) /\ sameOn d j2 j2'.
Proof.
  intros Hpg Hs E. destruct d as [T c get put|get put|get put];
    cbn [bindField sameOn putGet] in *; rewrite <- Hs.
  - destruct (bindPtr (get j) v) as [p|err]; cbn [bind] in *; [|discriminate].
    injection E as <- <-. eexists. split; [reflexivity|]. rewrite !Hpg. reflexivity.
  - destruct (bindStrings S n (get j) v) as [x e']. injection E as <- <-.
    eexists. split; [reflexivity|]. rewrite !Hpg. reflexivity.
  - destruct (bindString S n (get j) v) as [x e']. injection E as <- <-.
    eexists. split; [reflexivity|]. rewrite !Hpg. reflexivity.
Qed.

Lemma bindStruct_own i n d j j' k v j2 e :
  fs !! i = Some (n, d) -> keyMatches n k = true -> sameOn d j j' ->
  bindStruct S fs j k v = Ok (j2, e) ->
  exists j2', bindStruct S fs j' k v = Ok (j2', e) /\ sameOn d j2 j2'.
Proof.
  intros Hi Hk Hs E. rewrite (bindStruct_hit i n d j _ _ Hi Hk) in E.
  rewrite (bindStruct_hit i n d j' _ _ Hi Hk).
  eapply bindField_own; [|exact Hs|exact E]. destruct WF as (_ & Hpg & _). eapply Hpg. exact Hi.
Qed.

(** The members that do not match a field leave it as it is. *)
Lemma bindMembers_others i n d ms : forall jso saved jso' e,
  fs !! i = Some (n, d) ->
  List.filter (fun kv => keyMatches n (fst kv)) ms = [] ->
  bindMembers (bindStruct S fs) ms jso saved = Ok (jso', e) -> sameOn d jso jso'.
Proof.
  induction ms as [|[k v] r IH]; intros jso saved jso' e Hi Hf E; cbn [bindMembers] in E.
  - injection E as <- <-. apply sameOn_refl.
  - cbn [List.filter fst] in Hf. destruct (keyMatches n k) eqn:Hk; [discriminate|].
    destruct (bindStruct S fs jso k v) as [[j1 e1]|err] eqn:E1; [|discriminate].
    eapply sameOn_trans; [eapply bindStruct_frame; eassumption|].
    eapply IH; eassumption.
Qed.

(** Two objects that give the same values for a field leave the same in
    it, whatever their other members are. *)
Lemma bindMembers_own i n d ms : forall ms' jso jso' sv sv' j1 e1 j1' e1',
  fs !! i = Some (n, d) ->
  bindMembers (bindStruct S fs) ms jso sv = Ok (j1, e1) ->
  bindMembers (bindStruct S fs) ms' jso' sv' = Ok (j1', e1') ->
  map snd (List.filter (fun kv => keyMatches n (fst kv)) ms)
    = map snd (List.filter (fun kv => keyMatches n (fst kv)) ms') ->
  sameOn d jso jso' -> sameOn d j1 j1'.
Proof.
  induction ms as [|[k v] r IH].
  - intros ms' jso jso' sv sv' j1 e1 j1' e1' Hi E E' Hf Hs. cbn in E. injection E as <- <-.
    cbn in Hf. symmetry in Hf. apply map_eq_nil in Hf.
    eapply sameOn_trans; [exact Hs|]. eapply bindMembers_others; eassumption.
  - intros ms' jso jso' sv sv' j1 e1 j1' e1' Hi E E' Hf Hs. cbn [bindMembers] in E.
    destruct (bindStruct S fs jso k v) as [[j2 e2]|err] eqn:E2; [|discriminate].
    cbn [List.filter fst] in Hf. destruct (keyMatches n k) eqn:Hk.
    + cbn [map snd] in Hf. revert jso' sv' E' Hf Hs.
      induction ms' as [|[k' v'] r' IH']; intros jso' sv' E' Hf Hs; [discriminate Hf|].
      cbn [bindMembers] in E'.
      destruct (bindStruct S fs jso' k' v') as [[j2' e2']|err'] eqn:E2'; [|discriminate].
      cbn [List.filter fst] in Hf. destruct (keyMatches n k') eqn:Hk'.
      * cbn [map snd] in Hf. injection Hf as <- Hf.
        rewrite (bindStruct_hit i n d _ _ _ Hi Hk) in E2.
        rewrite (bindStruct_hit i n d _ _ _ Hi Hk') in E2'.
        destruct (bindField_own n d jso jso' v j2 e2) as (j3 & E3 & Hs3);
          [destruct WF as (_ & Hpg & _); eapply Hpg; exact Hi|exact Hs|exact E2|].
        rewrite E3 in E2'. injection E2' as <- <-.
        eapply (IH r'); eassumption.
      * eapply IH'; [exact E'|exact Hf|].
        eapply sameOn_trans; [exact Hs|]. eapply bindStruct_frame; eassumption.
    + eapply (IH ms'); [exact Hi|exact E|exact E'|exact Hf|].
      eapply sameOn_trans; [|exact Hs]. apply sameOn_sym.
      eapply bindStruct_frame; eassumption.
Qed.

(** *** Changing the members of one field *)

Abbreviation others := (sameButAt fs).

Lemma others_trans i j j' j'' : others i j j' -> others i j' j'' -> others i j j''.
Proof. intros H1 H2 m n d Hm Hne. eapply sameOn_trans; [eapply H1|eapply H2]; eassumption. Qed.

Lemma others_sym i j j' : others i j j' -> others i j' j.
Proof. intros H1 m n d Hm Hne. apply sameOn_sym. eapply H1; eassumption. Qed.

Lemma bindStruct_elsewhere i n d j j' k v j2 e :
  fs !! i = Some (n, d) -> keyMatches n k = false -> others i j j' ->
  bindStruct S fs j k v = Ok (j2, e) ->
  exists j2', bindStruct S fs j' k v = Ok (j2', e) /\ others i j2 j2'.
Proof.
  intros Hi Hk Ho E.
  destruct (bindStruct_cases fs j k v) as [[E' Hall]|(m & n' & d' & Hm & Hk' & _)].
  - rewrite E' in E. injection E as <- <-.
    destruct (bindStruct_cases fs j' k v) as [[E'' _]|(m & n' & d' & Hm & Hk' & _)].
    + exists j'. split; [exact E''|exact Ho].
    + rewrite (Hall _ _ _ Hm) in Hk'. discriminate.
  - assert (Hne : m <> i) by (intros ->; rewrite Hi in Hm; injection Hm as <- <-; congruence).
    destruct (bindStruct_own m n' d' j j' k v j2 e Hm Hk' (Ho _ _ _ Hm Hne) E)
      as (j2' & E2 & Hs2).
    exists j2'. split; [exact E2|]. intros q nq dq Hq Hqi.
    destruct (Nat.eq_dec q m) as [->|Hqm].
    + rewrite Hm in Hq. injection Hq as <- <-. exact Hs2.
    + assert (Hkq : keyMatches nq k = false).
      { destruct (keyMatches nq k) eqn:X; [|reflexivity]. exfalso. apply Hqm.
        eapply lookup_unique; eassumption. }
      eapply sameOn_trans; [apply sameOn_sym; eapply bindStruct_frame; eassumption|].
      eapply sameOn_trans; [exact (Ho _ _ _ Hq Hqi)|].
      eapply bindStruct_frame; eassumption.
Qed.

Lemma bindStruct_there i n d j k v j2 e :
  fs !! i = Some (n, d) -> keyMatches n k = true ->
  bindStruct S fs j k v = Ok (j2, e) -> others i j j2.
Proof.
  intros Hi Hk E q nq dq Hq Hqi.
  eapply bindStruct_frame; [exact Hq| |exact E].
  destruct (keyMatches nq k) eqn:X; [|reflexivity]. exfalso. apply Hqi.
  eapply lookup_unique; eassumption.
Qed.

(** An object that binds still binds without the members of one field,
    and the other fields hold the same. *)
Lemma bindMembers_without i n d ms : forall jso jso' j1,
  fs !! i = Some (n, d) -> others i jso jso' ->
  bindMembers (bindStruct S fs) ms jso None = Ok (j1, None) ->
  exists j1', bindMembers (bindStruct S fs) (without n ms) jso' None = Ok (j1', None)
              /\ others i j1 j1'.
Proof.
  induction ms as [|[k v] r IH]; intros jso jso' j1 Hi Ho E.
  - cbn in E. injection E as <-. exists jso'. split; [reflexivity|exact Ho].
  - apply bindMembers_clean_head in E. destruct E as (j2 & E2 & _ & E).
    unfold without. cbn [List.filter fst]. destruct (keyMatches n k) eqn:Hk; cbn [negb].
    + eapply IH; [exact Hi| |exact E].
      eapply others_trans; [|exact Ho]. apply others_sym.
      eapply bindStruct_there; eassumption.
    + destruct (bindStruct_elsewhere i n d jso jso' k v j2 None Hi Hk Ho E2)
        as (j2' & E2' & Ho2).
      cbn [bindMembers]. rewrite E2'. eapply IH; eassumption.
Qed.

(** The same with another value for the members of that field, when the
    value binds to the field without an error. *)
Lemma bindMembers_replaced i n d w ms : forall jso jso' j1,
  fs !! i = Some (n, d) ->
  (forall j, exists j2, bindField S n d j w = Ok (j2, None)) ->
  others i jso jso' ->
  bindMembers (bindStruct S fs) ms jso None = Ok (j1, None) ->
  exists j1', bindMembers (bindStruct S fs) (replaced n w ms) jso' None = Ok (j1', None)
              /\ others i j1 j1'.
Proof.
  induction ms as [|[k v] r IH]; intros jso jso' j1 Hi Hw Ho E.
  - cbn in E. injection E as <-. exists jso'. split; [reflexivity|exact Ho].
  - apply bindMembers_clean_head in E. destruct E as (j2 & E2 & _ & E).
    unfold replaced. cbn [map fst]. destruct (keyMatches n k) eqn:Hk; cbn [bindMembers].
    + destruct (Hw jso') as [j2' E2'].
      rewrite (bindStruct_hit i n d _ _ _ Hi Hk), E2'.
      eapply IH; [exact Hi|exact Hw| |exact E].
      eapply others_trans; [apply others_sym; eapply bindStruct_there; eassumption|].
      eapply others_trans; [exact Ho|].
      eapply bindStruct_there; [exact Hi|exact Hk|].
      rewrite (bindStruct_hit i n d _ _ _ Hi Hk). exact E2'.
    + destruct (bindStruct_elsewhere i n d jso jso' k v j2 None Hi Hk Ho E2)
        as (j2' & E2' & Ho2).
      rewrite E2'. eapply IH; eassumption.
Qed.

(** The values that bind to a field without an error, whatever the field
    holds: null, a string for a string, strings for a []string. *)
Lemma bindField_null n (d : field J) j :
  exists j2, bindField S n d j JNull = Ok (j2, None).
Proof. destruct d; cbn; eexists; reflexivity. Qed.

Lemma bindField_strings n (get : J -> option (list string)) put ss j :
  exists j2, bindField S n (stringsField get put) j (JArray (map JString ss)) = Ok (j2, None).
Proof. cbn. rewrite bindElements_strings. eexists. reflexivity. Qed.

Lemma bindField_string n (get : J -> string) put s j :
  exists j2, bindField S n (stringField get put) j (JString s) = Ok (j2, None).
Proof. cbn. eexists. reflexivity. Qed.
End Binding.

(** *** Objects without a field, or with another value for it *)

Lemma without_null n ms : nullWhere n (without n ms).
Proof.
  unfold nullWhere, without. apply Forall_forall. intros [k v] Hin Hk.
  apply list_elem_of_In, filter_In in Hin. cbn in *. destruct Hin as [_ Hn].
  rewrite Hk in Hn. discriminate.
Qed.

Lemma replaced_null n ms : nullWhere n (replaced n JNull ms).
Proof.
  unfold nullWhere, replaced. apply Forall_forall. intros [k v] Hin Hk.
  apply list_elem_of_In, in_map_iff in Hin. destruct Hin as ([k' v'] & E & _). cbn in *.
  destruct (keyMatches n k') eqn:X; injection E as <- <-; [reflexivity|congruence].
Qed.

Lemma valuesFor_without g f ms :
  foldName g <> foldName f ->
  valuesFor g (JObject (without f ms)) = valuesFor g (JObject ms).
Proof.
  intros Hne. cbn. f_equal. unfold without.
  induction ms as [|[k v] r IH]; [reflexivity|]. cbn [List.filter fst].
  destruct (keyMatches f k) eqn:Hf; cbn [negb List.filter fst].
  - destruct (keyMatches g k) eqn:Hg; [|exact IH].
    exfalso. apply Hne. apply keyMatches_fold in Hf, Hg. congruence.
  - rewrite IH. reflexivity.
Qed.

Lemma valuesFor_replaced g f w ms :
  foldName g <> foldName f ->
  valuesFor g (JObject (replaced f w ms)) = valuesFor g (JObject ms).
Proof.
  intros Hne. cbn. f_equal. unfold replaced.
  induction ms as [|[k v] r IH]; [reflexivity|]. cbn [map List.filter fst].
  destruct (keyMatches f k) eqn:Hf; cbn [List.filter fst].
  - destruct (keyMatches g k) eqn:Hg; [|exact IH].
    exfalso. apply Hne. apply keyMatches_fold in Hf, Hg. congruence.
  - rewrite IH. reflexivity.
Qed.

(** The last member of a field that was replaced holds the new value. *)
Lemma lastMatch_replaced_none f w ms :
  lastMatch f ms = None -> lastMatch f (replaced f w ms) = None.
Proof.
  induction ms as [|[k v] r IH]; [reflexivity|]. unfold replaced. cbn [lastMatch map fst].
  fold (replaced f w r).
  destruct (lastMatch f r) as [x|]; [discriminate|].
  destruct (keyMatches f k) eqn:Hk; [discriminate|]. intros _.
  cbn [lastMatch]. rewrite IH by reflexivity. rewrite Hk. reflexivity.
Qed.

Lemma lastMatch_replaced f w ms : forall x,
  lastMatch f ms = Some x -> lastMatch f (replaced f w ms) = Some w.
Proof.
  induction ms as [|[k v] r IH]; intros x; [discriminate|].
  unfold replaced. cbn [lastMatch map fst].
  fold (replaced f w r).
  destruct (lastMatch f r) as [y|] eqn:Hr.
  - intros _. destruct (keyMatches f k); cbn [lastMatch]; rewrite (IH y eq_refl); reflexivity.
  - destruct (keyMatches f k) eqn:Hk; [|discriminate]. intros _.
    cbn [lastMatch]. rewrite (lastMatch_replaced_none f w r Hr), Hk. reflexivity.
Qed.


Section Struct.
Context {J : Type} (ty S : string) (fs : list (string * field J)) (zeroJ : J).
Hypothesis WF : wellFormed fs.

Lemma struct_members input jso :
  unmarshalStruct ty zeroJ (bindStruct S fs) input = Ok jso ->
  input = JNull /\ jso = zeroJ
  \/ exists ms, input = JObject ms
                /\ bindMembers (bindStruct S fs) ms zeroJ None = Ok (jso, None).
Proof.
  unfold unmarshalStruct. destruct input; try discriminate.
  - intros [= <-]. left. split; reflexivity.
  - destruct (bindMembers (bindStruct S fs) members zeroJ None) as [[j [e|]]|e] eqn:E;
      try discriminate.
    intros [= <-]. right. exists members. split; [reflexivity|exact E].
Qed.

Lemma struct_null_ptr i n T (c : JSONCodec T) (get : J -> option T) put input jso :
  fs !! i = Some (n, ptrField get put) -> get zeroJ = None ->
  absentOrNull n input ->
  unmarshalStruct ty zeroJ (bindStruct S fs) input = Ok jso -> get jso = None.
Proof.
  intros Hi H0 (ms & -> & Hn) H.
  apply struct_members in H. destruct H as [[? _]|(ms' & [= <-] & E)]; [discriminate|].
  eapply (null_ptr S fs WF); [exact Hi|exact Hn|exact H0|exact E].
Qed.

Lemma struct_null_strings i n (get : J -> option (list string)) put input jso :
  fs !! i = Some (n, stringsField get put) -> get zeroJ = None ->
  absentOrNull n input ->
  unmarshalStruct ty zeroJ (bindStruct S fs) input = Ok jso -> get jso = None.
Proof.
  intros Hi H0 (ms & -> & Hn) H.
  apply struct_members in H. destruct H as [[? _]|(ms' & [= <-] & E)]; [discriminate|].
  eapply (null_strings S fs WF); [exact Hi|exact Hn|exact H0|exact E].
Qed.

Lemma struct_null_string i n (get : J -> string) put input jso :
  fs !! i = Some (n, stringField get put) -> get zeroJ = "" ->
  absentOrNull n input ->
  unmarshalStruct ty zeroJ (bindStruct S fs) input = Ok jso -> get jso = "".
Proof.
  intros Hi H0 (ms & -> & Hn) H.
  apply struct_members in H. destruct H as [[? _]|(ms' & [= <-] & E)]; [discriminate|].
  rewrite <- H0. eapply (null_string S fs WF); [exact Hi|exact Hn|exact E].
Qed.

Lemma struct_strings i n (get : J -> option (list string)) put input ss jso :
  fs !! i = Some (n, stringsField get put) ->
  fieldOf n input = Some (JArray (map JString ss)) ->
  unmarshalStruct ty zeroJ (bindStruct S fs) input = Ok jso -> get jso = Some ss.
Proof.
  intros Hi Hf H.
  apply struct_members in H. destruct H as [[-> _]|(ms & -> & E)]; [discriminate|].
  cbn in Hf. pose proof (last_strings S fs WF i n get put ms _ _ _ Hi E) as Hl.
  rewrite Hf in Hl. destruct Hl as [[? _]|(cur & elems & ss' & [= <-] & Hb & Hg)]; [discriminate|].
  rewrite bindElements_strings in Hb. injection Hb as <-. exact Hg.
Qed.

Lemma struct_string i n (get : J -> string) put input s jso :
  fs !! i = Some (n, stringField get put) ->
  fieldOf n input = Some (JString s) ->
  unmarshalStruct ty zeroJ (bindStruct S fs) input = Ok jso -> get jso = s.
Proof.
  intros Hi Hf H.
  apply struct_members in H. destruct H as [[-> _]|(ms & -> & E)]; [discriminate|].
  cbn in Hf. pose proof (last_string S fs WF i n get put ms _ _ _ Hi E) as Hl.
  rewrite Hf in Hl. exact Hl.
Qed.


Lemma struct_decoded i n T (c : JSONCodec T) (get : J -> option T) put input jso x :
  fs !! i = Some (n, ptrField get put) -> get zeroJ = None ->
  unmarshalStruct ty zeroJ (bindStruct S fs) input = Ok jso ->
  get jso = Some x -> exists l w, UnmarshalJSON l w = (x, None).
Proof.
  intros Hi H0 H Hx.
  apply struct_members in H. destruct H as [[_ ->]|(ms & -> & E)]; [congruence|].
  eapply (decoded_ptr S fs WF); [exact Hi|exact H0|exact E|exact Hx].
Qed.
Lemma struct_run input jso :
  unmarshalStruct ty zeroJ (bindStruct S fs) input = Ok jso ->
  exists ms, bindMembers (bindStruct S fs) ms zeroJ None = Ok (jso, None)
             /\ forall n, valuesFor n input
                          = map snd (List.filter (fun kv => keyMatches n (fst kv)) ms).
Proof.
  intros H. apply struct_members in H. destruct H as [[-> ->]|(ms & -> & E)].
  - exists []. split; reflexivity.
  - exists ms. split; [exact E|reflexivity].
Qed.

(** A field of the struct is determined by the values the input gives
    for it. *)
Lemma struct_own i n d input input0 jso jso0 :
  fs !! i = Some (n, d) ->
  unmarshalStruct ty zeroJ (bindStruct S fs) input = Ok jso ->
  unmarshalStruct ty zeroJ (bindStruct S fs) input0 = Ok jso0 ->
  valuesFor n input = valuesFor n input0 -> sameOn d jso jso0.
Proof.
  intros Hi H H0 Hv.
  apply struct_run in H, H0. destruct H as (ms & E & Hm), H0 as (ms0 & E0 & Hm0).
  rewrite Hm, Hm0 in Hv.
  eapply (bindMembers_own S fs WF i n d ms ms0); try eassumption. apply sameOn_refl.
Qed.

Lemma struct_without i n d ms jso :
  fs !! i = Some (n, d) ->
  unmarshalStruct ty zeroJ (bindStruct S fs) (JObject ms) = Ok jso ->
  exists jso', unmarshalStruct ty zeroJ (bindStruct S fs) (JObject (without n ms)) = Ok jso'.
Proof.
  intros Hi H. apply struct_members in H.
  destruct H as [[? _]|(ms' & [= <-] & E)]; [discriminate|].
  destruct (bindMembers_without S fs WF i n d ms zeroJ zeroJ jso Hi) as (j1 & E1 & _);
    [intros m n' d' _ _; apply sameOn_refl|exact E|].
  exists j1. cbn [unmarshalStruct]. rewrite E1. reflexivity.
Qed.

Lemma struct_replaced i n d w ms jso :
  fs !! i = Some (n, d) ->
  (forall j, exists j2, bindField S n d j w = Ok (j2, None)) ->
  unmarshalStruct ty zeroJ (bindStruct S fs) (JObject ms) = Ok jso ->
  exists jso', unmarshalStruct ty zeroJ (bindStruct S fs) (JObject (replaced n w ms)) = Ok jso'.
Proof.
  intros Hi Hw H. apply struct_members in H.
  destruct H as [[? _]|(ms' & [= <-] & E)]; [discriminate|].
  destruct (bindMembers_replaced S fs WF i n d w ms zeroJ zeroJ jso Hi Hw) as (j1 & E1 & _);
    [intros m n' d' _ _; apply sameOn_refl|exact E|].
  exists j1. cbn [unmarshalStruct]. rewrite E1. reflexivity.
Qed.
End Struct.


End BindingFacts.

(** The loops over the branches. *)
Module LoopFacts.
Import Go Branch Codec Records GoFacts.

Lemma decodeBranch_bad guard ss : forall i j e,
  snd (decodeBranch guard i ss) = Some (j, e) -> elementError "" j e <> None.
Proof.
  induction ss as [|s r IH]; intros i j e H; [discriminate|].
  cbn [decodeBranch] in H. destruct (decodeElement guard s) eqn:Ed.
  - destruct (decodeBranch guard (Datatypes.S i) r) as [bs bad] eqn:Er. cbn in H.
    apply (IH (Datatypes.S i)). rewrite Er. exact H.
  - injection H as <- <-. discriminate.
  - injection H as <- <-. discriminate.
  - injection H as <- <-. discriminate.
Qed.

Section Loops.
Context {L : Type} (field : string) (get : L -> list bytes) (put : list bytes -> L -> L).
Hypothesis get_put : forall v l, get (put v l) = v.
Hypothesis put_put : forall v w l, put v (put w l) = put v l.
Hypothesis put_get : forall l, put (get l) l = l.

Lemma insert_middle (pre : list bytes) r0 rest b :
  <[length pre := b]> (pre ++ r0 :: rest)%list = ((pre ++ [b]) ++ rest)%list.
Proof.
  rewrite insert_app_r_alt by lia. rewrite Nat.sub_diag. cbn.
  rewrite <- app_assoc. reflexivity.
Qed.

Lemma sliceLoop_spec ss : forall pre rest l,
  get l = (pre ++ rest)%list -> length rest = length ss ->
  exists X, sliceLoop field get put (length pre) ss l
            = (put X l, loopResult field (snd (decodeBranch true (length pre) ss)))
            /\ (snd (decodeBranch true (length pre) ss) = None ->
                X = (pre ++ fst (decodeBranch true (length pre) ss))%list).
Proof.
  induction ss as [|s r IH]; intros pre rest l Hg Hl.
  - destruct rest; [|discriminate]. exists (get l). cbn. rewrite put_get.
    split; [reflexivity|]. intros _. rewrite Hg. reflexivity.
  - destruct rest as [|r0 rest]; [discriminate|]. injection Hl as Hl.
    cbn [sliceLoop decodeBranch]. unfold decodeElement. cbn [andb].
    destruct (String.eqb s "") eqn:Hs.
    + exists (get l). rewrite put_get. cbn. split; [reflexivity|discriminate].
    + destruct (hexDecode (TrimPrefix s "0x")) as [b [err|]] eqn:Hh.
      * exists (<[length pre := b]> (get l)). cbn. split; [reflexivity|discriminate].
      * unfold andThen, assign. destruct (Nat.eqb (length b) 32) eqn:Hlen; cbn [negb].
        -- set (l1 := put (<[length pre := b]> (get l)) l).
           assert (Hg1 : get l1 = ((pre ++ [b]) ++ rest)%list).
           { unfold l1. rewrite get_put, Hg. apply insert_middle. }
           destruct (IH (pre ++ [b])%list rest l1 Hg1 Hl) as (X & E & HX).
           rewrite length_app in E, HX. cbn [length] in E, HX.
           rewrite Nat.add_1_r in E, HX.
           exists X. rewrite E. unfold l1. rewrite put_put.
           destruct (decodeBranch true (Datatypes.S (length pre)) r) as [bs bad].
           cbn [fst snd] in *. split; [reflexivity|].
           intros Hb. rewrite (HX Hb). rewrite <- app_assoc. reflexivity.
        -- exists (<[length pre := b]> (get l)). cbn. split; [reflexivity|discriminate].
Qed.

Lemma arrayLoop_spec ss : forall pre rest l,
  get l = (pre ++ rest)%list -> length rest = length ss ->
  exists X, arrayLoop field get put (length pre) ss l
            = (put X l, loopResult field (snd (decodeBranch false (length pre) ss)))
            /\ (snd (decodeBranch false (length pre) ss) = None ->
                X = (pre ++ fst (decodeBranch false (length pre) ss))%list).
Proof.
  induction ss as [|s r IH]; intros pre rest l Hg Hl.
  - destruct rest; [|discriminate]. exists (get l). cbn. rewrite put_get.
    split; [reflexivity|]. intros _. rewrite Hg. reflexivity.
  - destruct rest as [|r0 rest]; [discriminate|]. injection Hl as Hl.
    cbn [arrayLoop decodeBranch]. unfold decodeElement. cbn [andb].
    destruct (hexDecode (TrimPrefix s "0x")) as [b [err|]] eqn:Hh.
    + exists (get l). rewrite put_get. cbn. split; [reflexivity|discriminate].
    + unfold andThen, assign. destruct (Nat.eqb (length b) 32) eqn:Hlen; cbn [negb].
      * set (l1 := put (<[length pre := b]> (get l)) l).
        assert (Hg1 : get l1 = ((pre ++ [b]) ++ rest)%list).
        { unfold l1. rewrite get_put, Hg. apply insert_middle. }
        destruct (IH (pre ++ [b])%list rest l1 Hg1 Hl) as (X & E & HX).
        rewrite length_app in E, HX. cbn [length] in E, HX.
        rewrite Nat.add_1_r in E, HX.
        exists X. rewrite E. unfold l1. rewrite put_put.
        destruct (decodeBranch false (Datatypes.S (length pre)) r) as [bs bad].
        cbn [fst snd] in *. split; [reflexivity|].
        intros Hb. rewrite (HX Hb). rewrite <- app_assoc. reflexivity.
      * exists (get l). rewrite put_get. cbn. split; [reflexivity|discriminate].
Qed.

(** The branch of a record after the checks and the loop: the receiver has
    the decoded branch on success; on failure only the branch was written. *)
Lemma sliceBranch_spec x l :
  match branchResult true field x with
  | Ok bs => sliceBranch field get put x l = (put bs l, Ok tt)
  | Err e => exists X, sliceBranch field get put x l = (put X l, Err e)
  end.
Proof.
  unfold sliceBranch, branchResult, andThen, nonNil, failIf, assign, ret, fail.
  destruct x as [ss|]; [|exists (get l); rewrite put_get; reflexivity].
  destruct (Nat.eqb (length ss) 0) eqn:H0; [exists (get l); rewrite put_get; reflexivity|].
  set (l1 := put (replicate (length ss) []) l).
  destruct (sliceLoop_spec ss [] (replicate (length ss) []) l1) as (X & E & HX).
  { unfold l1. rewrite get_put. reflexivity. }
  { apply length_replicate. }
  cbn [length] in E, HX. rewrite E. unfold l1 in *. rewrite put_put.
  destruct (decodeBranch true 0 ss) as [bs [[j e]|]] eqn:Ed; cbn [fst snd loopResult] in *.
  - destruct (elementError field j e) as [err|] eqn:Ee.
    + exists X. reflexivity.
    + exfalso. pose proof (decodeBranch_bad true ss 0%nat j e) as Hb.
      rewrite Ed in Hb. specialize (Hb eq_refl). destruct e; cbn in *; congruence.
  - rewrite (HX eq_refl). reflexivity.
Qed.
End Loops.

Lemma fromHexChar_lt c a : fromHexChar c = Some a -> a < 16.
Proof.
  unfold fromHexChar. intros H.
  repeat match type of H with
         | (if ?b then _ else _) = _ => destruct b eqn:?
         end; try discriminate; injection H as <-;
  repeat match goal with
         | H : _ && _ = true |- _ => apply andb_true_iff in H; destruct H
         | H : (_ <=? _) = true |- _ => apply N.leb_le in H
         end; lia.
Qed.

Lemma lor_nibbles a b : a < 16 -> b < 16 -> N.lor (N.shiftl a 4) b < 256.
Proof.
  intros Ha Hb.
  destruct a as [|p]; [|do 4 (try (destruct p as [p|p|]; try (exfalso; lia)))];
  (destruct b as [|q]; [|do 4 (try (destruct q as [q|q|]; try (exfalso; lia)))]);
  reflexivity.
Qed.

Lemma hexDecode_bytes_fuel n : forall s b e,
  (strlen s <= n)%nat -> hexDecode s = (b, e) -> Forall (fun x => x < 256) b.
Proof.
  induction n as [|n IH]; intros s b e Hn H.
  - destruct s; [|cbn in Hn; lia]. injection H as <- _. constructor.
  - destruct s as [|p [|q r]]; cbn [hexDecode] in H.
    + injection H as <- _. constructor.
    + destruct (fromHexChar p); injection H as <- _; constructor.
    + destruct (fromHexChar p) as [a|] eqn:Ha; [|injection H as <- _; constructor].
      destruct (fromHexChar q) as [c|] eqn:Hc; [|injection H as <- _; constructor].
      destruct (hexDecode r) as [rest e'] eqn:Hr. injection H as <- _.
      constructor.
      * apply lor_nibbles; eapply fromHexChar_lt; eassumption.
      * eapply (IH r); [cbn in Hn; lia|exact Hr].
Qed.

Lemma hexDecode_bytes s b e : hexDecode s = (b, e) -> Forall (fun x => x < 256) b.
Proof. apply (hexDecode_bytes_fuel (strlen s)). lia. Qed.

Lemma decodeElement_Sprintf_hx guard x :
  wellSized x -> decodeElement guard (Sprintf_hx x) = Decoded x.
Proof.
  intros [Hl Hb]. unfold decodeElement, Sprintf_hx.
  destruct x as [|x0 xr]; [discriminate|].
  replace (String.eqb ("0x" ++ hexEncode (x0 :: xr)) "") with false by reflexivity.
  rewrite andb_false_r.
  replace (TrimPrefix ("0x" ++ hexEncode (x0 :: xr)) "0x") with (hexEncode (x0 :: xr))
    by reflexivity.
  rewrite hex_roundtrip by exact Hb. rewrite Hl. reflexivity.
Qed.

Lemma decodeElement_Decoded guard s b :
  decodeElement guard s = Decoded b -> wellSized b.
Proof.
  unfold decodeElement. destruct (guard && String.eqb s ""); [discriminate|].
  destruct (hexDecode (TrimPrefix s "0x")) as [b' [e|]] eqn:Hh; [discriminate|].
  destruct (Nat.eqb (length b') 32) eqn:Hl; [|discriminate].
  intros [= <-]. split; [apply Nat.eqb_eq; exact Hl|eapply hexDecode_bytes; exact Hh].
Qed.

Lemma decodeBranch_ok guard ss : forall i bs,
  decodeBranch guard i ss = (bs, None) ->
  Forall2 (decodes guard) ss bs.
Proof.
  induction ss as [|s r IH]; intros i bs H; cbn [decodeBranch] in H.
  - injection H as <-. constructor.
  - destruct (decodeElement guard s) eqn:Ed; try discriminate.
    destruct (decodeBranch guard (Datatypes.S i) r) as [bs' bad] eqn:Er.
    injection H as <- ->. constructor; [exact Ed|]. eapply IH. exact Er.
Qed.

Lemma decodeBranch_all guard ss bs i :
  Forall2 (decodes guard) ss bs -> decodeBranch guard i ss = (bs, None).
Proof.
  intros H. revert i. induction H as [|s b r bs' Hd _ IH]; intros i; [reflexivity|].
  cbn [decodeBranch]. unfold decodes in Hd. rewrite Hd, IH. reflexivity.
Qed.

End LoopFacts.

(** The stages of an UnmarshalJSON, kind by kind, and their runs. *)
Module StageFacts.
Import Go Branch Codec Records GoFacts BindingFacts LoopFacts.

Lemma arrayBranch_spec {L} field (get : L -> list bytes) put :
  (forall v l, get (put v l) = v) -> (forall v w l, put v (put w l) = put v l) ->
  (forall l, put (get l) l = l) ->
  forall x l,
  match branchResult false field x with
  | Ok bs => arrayBranch field get put x l = (put bs l, Ok tt)
  | Err e => exists X, arrayBranch field get put x l = (put X l, Err e)
  end.
Proof.
  intros get_put put_put put_get x l.
  unfold arrayBranch, branchResult, andThen, nonNil, failIf, assign, ret, fail.
  destruct x as [ss|]; [|exists (get l); rewrite put_get; reflexivity].
  destruct (Nat.eqb (length ss) 0) eqn:H0; [exists (get l); rewrite put_get; reflexivity|].
  set (l1 := put (replicate (length ss) (replicate 32 0)) l).
  destruct (arrayLoop_spec field get put get_put put_put put_get ss []
              (replicate (length ss) (replicate 32 0)) l1) as (X & E & HX).
  { unfold l1. rewrite get_put. reflexivity. }
  { apply length_replicate. }
  cbn [length] in E, HX. rewrite E. unfold l1 in *. rewrite put_put.
  destruct (decodeBranch false 0 ss) as [bs [[j e]|]] eqn:Ed; cbn [fst snd loopResult] in *.
  - destruct (elementError field j e) as [err|] eqn:Ee.
    + exists X. reflexivity.
    + exfalso. pose proof (decodeBranch_bad false ss 0%nat j e) as Hb.
      rewrite Ed in Hb. specialize (Hb eq_refl). destruct e; cbn in *; congruence.
  - rewrite (HX eq_refl). reflexivity.
Qed.

Lemma branchResult_blames guard field x e :
  branchResult guard field x = Err e -> blames field e.
Proof.
  unfold branchResult. destruct x as [ss|]; [|intros [= <-]; constructor].
  destruct (Nat.eqb (length ss) 0); [intros [= <-]; constructor|].
  destruct (decodeBranch guard 0 ss) as [bs [[j el]|]]; [|discriminate].
  destruct (elementError field j el) as [err|] eqn:Ee; [|discriminate].
  intros [= <-]. econstructor. exact Ee.
Qed.

Section StageKinds.
Context {L : Type}.

Lemma ptrStage_done {T} name (p : option T) (get : L -> option T) set l l' :
  (forall v l, get (set v l) = v) ->
  action (ptrStage name p get set) l = (l', Ok tt) -> done (ptrStage name p get set) l'.
Proof.
  intros Hgs. cbn. unfold andThen, nonNil, assign, ret, fail.
  destruct p as [x|]; [|discriminate]. intros [= <-]. split; [discriminate|apply Hgs].
Qed.

Lemma ptrStage_effect {T} name (p : option T) (get : L -> option T) set l l' r :
  action (ptrStage name p get set) l = (l', r) -> l' = l \/ exists v, l' = set v l.
Proof.
  cbn. unfold andThen, nonNil, assign, ret, fail.
  destruct p as [x|]; intros [= <- _]; [right; eauto|left; reflexivity].
Qed.

Lemma ptrStage_blame {T} name (p : option T) (get : L -> option T) set l l' e :
  action (ptrStage name p get set) l = (l', Err e) -> blames name e.
Proof.
  cbn. unfold andThen, nonNil, assign, ret, fail.
  destruct p as [x|]; [discriminate|]. intros [= _ <-]. constructor.
Qed.

Lemma slotStage_done s (get : L -> N) set l l' :
  (forall v l, get (set v l) = v) ->
  action (slotStage s get set) l = (l', Ok tt) -> done (slotStage s get set) l'.
Proof.
  intros Hgs. cbn. unfold andThen, parseSlot, andThen, failIf, try, assign, ret, fail.
  destruct (String.eqb s "") eqn:Hs; [discriminate|].
  destruct (ParseUint s) as [n|e]; [|discriminate]. intros [= <-].
  split; [intros ->; discriminate|rewrite Hgs; reflexivity].
Qed.

Lemma slotStage_effect s (get : L -> N) set l l' r :
  action (slotStage s get set) l = (l', r) -> l' = l \/ exists v, l' = set v l.
Proof.
  cbn. unfold andThen, parseSlot, andThen, failIf, try, assign, ret, fail.
  destruct (String.eqb s ""); [intros [= <- _]; left; reflexivity|].
  destruct (ParseUint s) as [n|e]; intros [= <- _]; [right; eauto|left; reflexivity].
Qed.

Lemma slotStage_blame s (get : L -> N) set l l' e :
  action (slotStage s get set) l = (l', Err e) -> blames "signature_slot" e.
Proof.
  cbn. unfold andThen, parseSlot, andThen, failIf, try, assign, ret, fail.
  destruct (String.eqb s ""); [intros [= _ <-]; apply (blames_missing "signature_slot")|].
  destruct (ParseUint s) as [n|e']; [discriminate|]. intros [= _ <-].
  apply blames_slot. reflexivity.
Qed.

Section Lens.
Context (get : L -> list bytes) (put : list bytes -> L -> L).
Hypothesis get_put : forall v l, get (put v l) = v.
Hypothesis put_put : forall v w l, put v (put w l) = put v l.
Hypothesis put_get : forall l, put (get l) l = l.

Lemma sliceStage_done name x l l' :
  action (sliceStage name x get put) l = (l', Ok tt) -> done (sliceStage name x get put) l'.
Proof.
  cbn. pose proof (sliceBranch_spec name get put get_put put_put put_get x l) as H.
  destruct (branchResult true name x) as [bs|e].
  - rewrite H. intros [= <-]. rewrite get_put. reflexivity.
  - destruct H as [X ->]. discriminate.
Qed.

Lemma sliceStage_effect name x l l' r :
  action (sliceStage name x get put) l = (l', r) -> exists X, l' = put X l.
Proof.
  cbn. pose proof (sliceBranch_spec name get put get_put put_put put_get x l) as H.
  destruct (branchResult true name x) as [bs|e].
  - rewrite H. intros [= <- _]. eauto.
  - destruct H as [X ->]. intros [= <- _]. eauto.
Qed.

Lemma sliceStage_blame name x l l' e :
  action (sliceStage name x get put) l = (l', Err e) -> blames name e.
Proof.
  cbn. pose proof (sliceBranch_spec name get put get_put put_put put_get x l) as H.
  destruct (branchResult true name x) as [bs|e'] eqn:Eb.
  - rewrite H. discriminate.
  - destruct H as [X ->]. intros [= _ <-]. eapply branchResult_blames. exact Eb.
Qed.

Lemma arrayStage_done name x l l' :
  action (arrayStage name x get put) l = (l', Ok tt) -> done (arrayStage name x get put) l'.
Proof.
  cbn. pose proof (arrayBranch_spec name get put get_put put_put put_get x l) as H.
  destruct (branchResult false name x) as [bs|e].
  - rewrite H. intros [= <-]. rewrite get_put. reflexivity.
  - destruct H as [X ->]. discriminate.
Qed.

Lemma arrayStage_effect name x l l' r :
  action (arrayStage name x get put) l = (l', r) -> exists X, l' = put X l.
Proof.
  cbn. pose proof (arrayBranch_spec name get put get_put put_put put_get x l) as H.
  destruct (branchResult false name x) as [bs|e].
  - rewrite H. intros [= <- _]. eauto.
  - destruct H as [X ->]. intros [= <- _]. eauto.
Qed.

Lemma arrayStage_blame name x l l' e :
  action (arrayStage name x get put) l = (l', Err e) -> blames name e.
Proof.
  cbn. pose proof (arrayBranch_spec name get put get_put put_put put_get x l) as H.
  destruct (branchResult false name x) as [bs|e'] eqn:Eb.
  - rewrite H. discriminate.
  - destruct H as [X ->]. intros [= _ <-]. eapply branchResult_blames. exact Eb.
Qed.
End Lens.

(** Running the stages of a sound list. *)
Lemma runStages_suffix (ss : list (stage L)) : sound ss ->
  forall suf pre l l' r,
    ss = (pre ++ suf)%list ->
    (forall i si, pre !! i = Some si -> done si l) ->
    runStages suf l = (l', r) ->
    match r with
    | Ok _ => forall i si, ss !! i = Some si -> done si l'
    | Err e => exists g s, ss !! g = Some s /\ blames (stageName s) e
                           /\ forall i si, (i < g)%nat -> ss !! i = Some si -> done si l'
    end.
Proof.
  intros [Hdone Hkeep Hblame]. induction suf as [|s rest IH]; intros pre l l' r Hss Hpre Hrun.
  - cbn in Hrun. injection Hrun as <- <-. rewrite app_nil_r in Hss. subst pre. exact Hpre.
  - cbn [runStages] in Hrun. unfold andThen in Hrun.
    assert (Hs : ss !! length pre = Some s).
    { rewrite Hss. rewrite lookup_app_r by lia. rewrite Nat.sub_diag. reflexivity. }
    destruct (action s l) as [l1 [[]|e]] eqn:Ea.
    + apply (IH (pre ++ [s])%list l1 l' r).
      * rewrite Hss, <- app_assoc. reflexivity.
      * intros i si Hi. destruct (Nat.lt_ge_cases i (length pre)) as [Hlt|Hge].
        -- rewrite lookup_app_l in Hi by exact Hlt.
           eapply (Hkeep i (length pre)); [lia| |exact Hs|exact Ea|eapply Hpre; exact Hi].
           rewrite Hss, lookup_app_l by exact Hlt. exact Hi.
        -- rewrite lookup_app_r in Hi by exact Hge.
           destruct (i - length pre)%nat as [|k] eqn:Hk; [|destruct k; discriminate].
           injection Hi as <-. eapply Hdone; [exact Hs|exact Ea].
      * exact Hrun.
    + injection Hrun as <- <-. exists (length pre), s. split; [exact Hs|split].
      * eapply Hblame; [exact Hs|exact Ea].
      * intros i si Hlt Hi.
        eapply (Hkeep i (length pre)); [lia|exact Hi|exact Hs|exact Ea|].
        apply (Hpre i). rewrite Hss, lookup_app_l in Hi by exact Hlt. exact Hi.
Qed.

Lemma runStages_ok (ss : list (stage L)) l l' :
  sound ss -> runStages ss l = (l', Ok tt) ->
  forall i si, ss !! i = Some si -> done si l'.
Proof.
  intros Hs Hr. apply (runStages_suffix ss Hs ss [] l l' (Ok tt)); [reflexivity| |exact Hr].
  intros i si H. destruct i; discriminate.
Qed.

Lemma runStages_fail (ss : list (stage L)) l l' e :
  sound ss -> runStages ss l = (l', Err e) ->
  exists g s, ss !! g = Some s /\ blames (stageName s) e
              /\ forall i si, (i < g)%nat -> ss !! i = Some si -> done si l'.
Proof.
  intros Hs Hr. apply (runStages_suffix ss Hs ss [] l l' (Err e)); [reflexivity| |exact Hr].
  intros i si H. destruct i; discriminate.
Qed.

End StageKinds.

(** Tactics for the records, whose fields and stages are written out. *)
Ltac fill_cases :=
  repeat (cbn [nonNil fail ret assign fst snd];
          first
            [ reflexivity
            | match goal with
              | |- context [nonNil ?p _] => destruct p
              | |- context [sliceBranch ?a ?b ?c ?d ?l] =>
                  destruct (sliceBranch a b c d l) as [? [[]|?]]
              | |- context [arrayBranch ?a ?b ?c ?d ?l] =>
                  destruct (arrayBranch a b c d l) as [? [[]|?]]
              | |- context [parseSlot ?s ?l] => destruct (parseSlot s l) as [? [?|?]]
              end ]).

(** Looking up a stage in a list that is written out. *)
Ltac stage_at H :=
  repeat match type of H with
         | (_ :: _) !! ?i = Some _ => destruct i as [|i]; [injection H as <-|cbn in H]
         | [] !! _ = Some _ => discriminate H
         end.

Ltac lens := intros; first [reflexivity | match goal with l : _ |- _ => destruct l; reflexivity end].

Ltac stage_done :=
  first [ eapply ptrStage_done; [lens|eassumption]
        | eapply slotStage_done; [lens|eassumption]
        | eapply sliceStage_done; [lens|lens|lens|eassumption]
        | eapply arrayStage_done; [lens|lens|lens|eassumption] ].

Ltac stage_blame :=
  first [ eapply ptrStage_blame; eassumption
        | eapply slotStage_blame; eassumption
        | match goal with
          | H : action (sliceStage ?n ?x ?g ?p) ?l = _ |- _ =>
              apply (sliceStage_blame g p ltac:(lens) ltac:(lens) ltac:(lens) n x l _ _ H)
          | H : action (arrayStage ?n ?x ?g ?p) ?l = _ |- _ =>
              apply (arrayStage_blame g p ltac:(lens) ltac:(lens) ltac:(lens) n x l _ _ H)
          end ].

Ltac stage_effect H :=
  first [ apply ptrStage_effect in H; destruct H as [->|[? ->]]
        | apply slotStage_effect in H; destruct H as [->|[? ->]]
        | apply sliceStage_effect in H; [destruct H as [? ->]|lens|lens|lens]
        | apply arrayStage_effect in H; [destruct H as [? ->]|lens|lens|lens] ].

Ltac sound_stages :=
  constructor;
  [ intros i s l l' Hi Ha; stage_at Hi; stage_done
  | intros i j si sj l l' r Hne Hi Hj Ha Hd; stage_at Hi; stage_at Hj;
    try congruence; stage_effect Ha; exact Hd
  | intros i s l l' e Hi Ha; stage_at Hi; stage_blame ].

Ltac field_at H :=
  repeat match type of H with
         | (_ :: _) !! ?i = Some _ => destruct i as [|i]; [injection H as <- <-|cbn in H]
         | [] !! _ = Some _ => discriminate H
         end.

Ltac fields_wf :=
  split; [reflexivity|split];
  [ intros i n d H; field_at H; cbn; intros; reflexivity
  | intros i j n d n' d' Hi Hj Hne; field_at Hi; field_at Hj;
    try congruence; cbn; intros; reflexivity ].


End StageFacts.

(** The records, one by one: their fields are well formed, their
    UnmarshalJSON runs its stages, and the stages are sound. *)
Module RecordFacts.
Import Go Branch Codec Records GoFacts BindingFacts LoopFacts StageFacts.

Section v1_update.
Import v1_LightClientUpdate.
Context {BeaconBlockHeader SyncCommittee SyncAggregate : Type}.
Context `{!JSONCodec BeaconBlockHeader, !JSONCodec SyncCommittee, !JSONCodec SyncAggregate}.

Lemma v1_update_wf : wellFormed (@jsonFields BeaconBlockHeader SyncCommittee SyncAggregate _ _ _).
Proof. unfold jsonFields. fields_wf. Qed.

Lemma v1_update_fill_stages (jso : @lightClientUpdateJSON BeaconBlockHeader SyncCommittee SyncAggregate) l :
  fill jso l = runStages (stages jso) l.
Proof.
  unfold fill, stages. cbn [runStages action ptrStage sliceStage arrayStage slotStage].
  unfold andThen, ret. fill_cases.
Qed.

Lemma v1_update_sound (jso : @lightClientUpdateJSON BeaconBlockHeader SyncCommittee SyncAggregate) : sound (stages jso).
Proof. unfold stages. sound_stages. Qed.

Lemma v1_update_decode (l : @LightClientUpdate BeaconBlockHeader SyncCommittee SyncAggregate) input :
  UnmarshalJSON l input =
    match unmarshalJSO input with
    | Err e => (l, Some (errorsWrap e "invalid JSON"))
    | Ok jso => run (runStages (stages jso)) l
    end.
Proof.
  unfold UnmarshalJSON, run, andThen, try, ret, fail.
  destruct (unmarshalJSO input) as [jso|e]; [|reflexivity].
  rewrite v1_update_fill_stages. reflexivity.
Qed.
End v1_update.

Section v1_finality.
Import v1_LightClientFinalityUpdate.
Context {BeaconBlockHeader SyncAggregate : Type}.
Context `{!JSONCodec BeaconBlockHeader, !JSONCodec SyncAggregate}.

Lemma v1_finality_wf : wellFormed (@jsonFields BeaconBlockHeader SyncAggregate _ _).
Proof. unfold jsonFields. fields_wf. Qed.

Lemma v1_finality_fill_stages (jso : @lightClientFinalityUpdateJSON BeaconBlockHeader SyncAggregate) l :
  fill jso l = runStages (stages jso) l.
Proof.
  unfold fill, stages. cbn [runStages action ptrStage sliceStage arrayStage slotStage].
  unfold andThen, ret. fill_cases.
Qed.

Lemma v1_finality_sound (jso : @lightClientFinalityUpdateJSON BeaconBlockHeader SyncAggregate) : sound (stages jso).
Proof. unfold stages. sound_stages. Qed.

Lemma v1_finality_decode (l : @LightClientFinalityUpdate BeaconBlockHeader SyncAggregate) input :
  UnmarshalJSON l input =
    match unmarshalJSO input with
    | Err e => (l, Some (errorsWrap e "invalid JSON"))
    | Ok jso => run (runStages (stages jso)) l
    end.
Proof.
  unfold UnmarshalJSON, run, andThen, try, ret, fail.
  destruct (unmarshalJSO input) as [jso|e]; [|reflexivity].
  rewrite v1_finality_fill_stages. reflexivity.
Qed.
End v1_finality.

Section v1_bootstrap.
Import v1_LightClientBootstrap.
Context {BeaconBlockHeader SyncCommittee : Type}.
Context `{!JSONCodec BeaconBlockHeader, !JSONCodec SyncCommittee}.

Lemma v1_bootstrap_wf : wellFormed (@jsonFields BeaconBlockHeader SyncCommittee _ _).
Proof. unfold jsonFields. fields_wf. Qed.

Lemma v1_bootstrap_fill_stages (jso : @lightClientBootstrapJSON BeaconBlockHeader SyncCommittee) l :
  fill jso l = runStages (stages jso) l.
Proof.
  unfold fill, stages. cbn [runStages action ptrStage sliceStage arrayStage slotStage].
  unfold andThen, ret. fill_cases.
Qed.

Lemma v1_bootstrap_sound (jso : @lightClientBootstrapJSON BeaconBlockHeader SyncCommittee) : sound (stages jso).
Proof. unfold stages. sound_stages. Qed.

Lemma v1_bootstrap_decode (l : @LightClientBootstrap BeaconBlockHeader SyncCommittee) input :
  UnmarshalJSON l input =
    match unmarshalJSO input with
    | Err e => (l, Some (errorsWrap e "invalid JSON"))
    | Ok jso => run (runStages (stages jso)) l
    end.
Proof.
  unfold UnmarshalJSON, run, andThen, try, ret, fail.
  destruct (unmarshalJSO input) as [jso|e]; [|reflexivity].
  rewrite v1_bootstrap_fill_stages. reflexivity.
Qed.
End v1_bootstrap.

Section altair_header.
Import altair_LightClientHeader.
Context {BeaconBlockHeader : Type}.
Context `{!JSONCodec BeaconBlockHeader}.

Lemma altair_header_wf : wellFormed (@jsonFields BeaconBlockHeader _).
Proof. unfold jsonFields. fields_wf. Qed.

Lemma altair_header_fill_stages (jso : @lightClientHeaderJSON BeaconBlockHeader) l :
  fill jso l = runStages (stages jso) l.
Proof.
  unfold fill, stages. cbn [runStages action ptrStage sliceStage arrayStage slotStage].
  unfold andThen, ret. fill_cases.
Qed.

Lemma altair_header_sound (jso : @lightClientHeaderJSON BeaconBlockHeader) : sound (stages jso).
Proof. unfold stages. sound_stages. Qed.

Lemma altair_header_decode (l : @LightClientHeader BeaconBlockHeader) input :
  UnmarshalJSON l input =
    match unmarshalJSO input with
    | Err e => (l, Some (errorsWrap e "invalid JSON"))
    | Ok jso => run (runStages (stages jso)) l
    end.
Proof.
  unfold UnmarshalJSON, run, andThen, try, ret, fail.
  destruct (unmarshalJSO input) as [jso|e]; [|reflexivity].
  rewrite altair_header_fill_stages. reflexivity.
Qed.
End altair_header.

Section altair_optimistic.
Import altair_LightClientOptimisticUpdate.
Context {BeaconBlockHeader SyncAggregate : Type}.
Context `{!JSONCodec BeaconBlockHeader, !JSONCodec SyncAggregate}.

Lemma altair_optimistic_wf : wellFormed (@jsonFields BeaconBlockHeader SyncAggregate _ _).
Proof. unfold jsonFields. fields_wf. Qed.

Lemma altair_optimistic_fill_stages (jso : @lightClientOptimisticUpdateJSON BeaconBlockHeader SyncAggregate) l :
  fill jso l = runStages (stages jso) l.
Proof.
  unfold fill, stages. cbn [runStages action ptrStage sliceStage arrayStage slotStage].
  unfold andThen, ret. fill_cases.
Qed.

Lemma altair_optimistic_sound (jso : @lightClientOptimisticUpdateJSON BeaconBlockHeader SyncAggregate) : sound (stages jso).
Proof. unfold stages. sound_stages. Qed.

Lemma altair_optimistic_decode (l : @LightClientOptimisticUpdate BeaconBlockHeader SyncAggregate) input :
  UnmarshalJSON l input =
    match unmarshalJSO input with
    | Err e => (l, Some (errorsWrap e "invalid JSON"))
    | Ok jso => run (runStages (stages jso)) l
    end.
Proof.
  unfold UnmarshalJSON, run, andThen, try, ret, fail.
  destruct (unmarshalJSO input) as [jso|e]; [|reflexivity].
  rewrite altair_optimistic_fill_stages. reflexivity.
Qed.
End altair_optimistic.

Section capella_header.
Import capella_LightClientHeader.
Context {BeaconBlockHeader ExecutionPayloadHeader : Type}.
Context `{!JSONCodec BeaconBlockHeader, !JSONCodec ExecutionPayloadHeader}.

Lemma capella_header_wf : wellFormed (@jsonFields BeaconBlockHeader ExecutionPayloadHeader _ _).
Proof. unfold jsonFields. fields_wf. Qed.

Lemma capella_header_fill_stages (jso : @lightClientHeaderJSON BeaconBlockHeader ExecutionPayloadHeader) l :
  fill jso l = runStages (stages jso) l.
Proof.
  unfold fill, stages. cbn [runStages action ptrStage sliceStage arrayStage slotStage].
  unfold andThen, ret. fill_cases.
Qed.

Lemma capella_header_sound (jso : @lightClientHeaderJSON BeaconBlockHeader ExecutionPayloadHeader) : sound (stages jso).
Proof. unfold stages. sound_stages. Qed.

Lemma capella_header_decode (l : @LightClientHeader BeaconBlockHeader ExecutionPayloadHeader) input :
  UnmarshalJSON l input =
    match unmarshalJSO input with
    | Err e => (l, Some (errorsWrap e "invalid JSON"))
    | Ok jso => run (runStages (stages jso)) l
    end.
Proof.
  unfold UnmarshalJSON, run, andThen, try, ret, fail.
  destruct (unmarshalJSO input) as [jso|e]; [|reflexivity].
  rewrite capella_header_fill_stages. reflexivity.
Qed.
End capella_header.

Section capella_bootstrap.
Import capella_LightClientBootstrap.
Context {BeaconBlockHeader ExecutionPayloadHeader SyncCommittee : Type}.
Context `{!JSONCodec BeaconBlockHeader, !JSONCodec ExecutionPayloadHeader, !JSONCodec SyncCommittee}.

Lemma capella_bootstrap_wf : wellFormed (@jsonFields BeaconBlockHeader ExecutionPayloadHeader SyncCommittee _ _ _).
Proof. unfold jsonFields. fields_wf. Qed.

Lemma capella_bootstrap_fill_stages (jso : @lightClientBootstrapJSON BeaconBlockHeader ExecutionPayloadHeader SyncCommittee) l :
  fill jso l = runStages (stages jso) l.
Proof.
  unfold fill, stages. cbn [runStages action ptrStage sliceStage arrayStage slotStage].
  unfold andThen, ret. fill_cases.
Qed.

Lemma capella_bootstrap_sound (jso : @lightClientBootstrapJSON BeaconBlockHeader ExecutionPayloadHeader SyncCommittee) : sound (stages jso).
Proof. unfold stages. sound_stages. Qed.

Lemma capella_bootstrap_decode (l : @LightClientBootstrap BeaconBlockHeader ExecutionPayloadHeader SyncCommittee) input :
  UnmarshalJSON l input =
    match unmarshalJSO input with
    | Err e => (l, Some (errorsWrap e "invalid JSON"))
    | Ok jso => run (runStages (stages jso)) l
    end.
Proof.
  unfold UnmarshalJSON, run, andThen, try, ret, fail.
  destruct (unmarshalJSO input) as [jso|e]; [|reflexivity].
  rewrite capella_bootstrap_fill_stages. reflexivity.
Qed.
End capella_bootstrap.

End RecordFacts.

(** The records as one family: how decoding runs, and what the binding
    leaves in the fields. *)
Module FamilyFacts.
Import Go Branch Codec Records GoFacts BindingFacts LoopFacts StageFacts RecordFacts.

Lemma sound_tail {L} (s : stage L) rest : sound (s :: rest) -> sound rest.
Proof.
  intros [Hd Hk Hb]. constructor.
  - intros i si l l' Hi. apply (Hd (S i)). exact Hi.
  - intros i j si sj l l' r Hne Hi Hj. apply (Hk (S i) (S j)); [lia|exact Hi|exact Hj].
  - intros i si l l' e Hi. apply (Hb (S i)). exact Hi.
Qed.

(** A stage that fails whenever it is reached: the run fails there, or at a
    stage before it. *)
Lemma runStages_reach {L} (ss : list (stage L)) : forall i s E l,
  sound ss -> ss !! i = Some s ->
  (forall l, exists l', action s l = (l', Err E)) ->
  exists l' e, runStages ss l = (l', Err e)
    /\ (e = E \/ exists g sg, (g < i)%nat /\ ss !! g = Some sg /\ blames (stageName sg) e).
Proof.
  induction ss as [|s0 rest IH]; intros i s E l Hs Hi Hfail; [destruct i; discriminate|].
  cbn [runStages]. unfold andThen. destruct i as [|i]; cbn in Hi.
  - injection Hi as ->. destruct (Hfail l) as [l' Ha]. rewrite Ha.
    exists l', E. split; [reflexivity|left; reflexivity].
  - destruct (action s0 l) as [l1 [[]|e]] eqn:Ea.
    + destruct (IH i s E l1 (sound_tail _ _ Hs) Hi Hfail) as (l' & e & Hr & Hc).
      exists l', e. split; [exact Hr|]. destruct Hc as [->|(g & sg & Hlt & Hg & Hb)];
        [left; reflexivity|right]. exists (S g), sg. repeat split; [lia|exact Hg|exact Hb].
    + exists l1, e. split; [reflexivity|right]. exists 0%nat, s0.
      repeat split; [lia|]. destruct Hs as [_ _ Hb]. eapply (Hb 0%nat); [reflexivity|exact Ea].
Qed.

Lemma declaredBefore_index (fs : list string) : forall g i a b,
  distinct fs = true -> fs !! g = Some a -> fs !! i = Some b -> (g < i)%nat ->
  declaredBefore fs a b = true.
Proof.
  induction fs as [|x r IH]; intros g i a b Hd Hg Hi Hlt; [destruct g; discriminate|].
  cbn in Hd. apply andb_true_iff in Hd. destruct Hd as [Hx Hd].
  apply negb_true_iff in Hx. cbn [declaredBefore].
  destruct i as [|i]; [lia|]. cbn in Hi. destruct g as [|g]; cbn in Hg.
  - injection Hg as ->. rewrite String.eqb_refl.
    apply existsb_exists. exists b. split; [|apply String.eqb_refl].
    apply list_elem_of_In. eapply list_elem_of_lookup_2. exact Hi.
  - destruct (String.eqb x a) eqn:Hxa.
    + apply String.eqb_eq in Hxa. subst a. exfalso.
      assert (Hin : In x r) by (apply list_elem_of_In; eapply list_elem_of_lookup_2; exact Hg).
      rewrite (existsb_eqb_In _ _ Hin) in Hx. discriminate.
    + eapply (IH g i); [exact Hd|exact Hg|exact Hi|lia].
Qed.

Section Family.
Context {BeaconBlockHeader SyncCommittee SyncAggregate ExecutionPayloadHeader : Type}.
Context `{!JSONCodec BeaconBlockHeader, !JSONCodec SyncCommittee,
          !JSONCodec SyncAggregate, !JSONCodec ExecutionPayloadHeader}.

Abbreviation recordOf :=
  (@Records.recordOf BeaconBlockHeader SyncCommittee SyncAggregate ExecutionPayloadHeader).
Abbreviation jsoOf :=
  (@Records.jsoOf BeaconBlockHeader SyncCommittee SyncAggregate ExecutionPayloadHeader).
Abbreviation decode :=
  (@Records.decode BeaconBlockHeader SyncCommittee SyncAggregate ExecutionPayloadHeader _ _ _ _).
Abbreviation bound :=
  (@Records.bound BeaconBlockHeader SyncCommittee SyncAggregate ExecutionPayloadHeader _ _ _ _).
Abbreviation stagesOf :=
  (@Records.stagesOf BeaconBlockHeader SyncCommittee SyncAggregate ExecutionPayloadHeader).

Lemma family_decode r (l : recordOf r) input :
  decode r l input =
    match bound r input with
    | Err e => (l, Some (errorsWrap e "invalid JSON"))
    | Ok jso => run (runStages (stagesOf r jso)) l
    end.
Proof.
  destruct r; cbn [decode bound stagesOf codecOf UnmarshalJSON].
  - apply v1_update_decode.
  - apply v1_finality_decode.
  - apply v1_bootstrap_decode.
  - apply altair_header_decode.
  - apply altair_optimistic_decode.
  - apply capella_header_decode.
  - apply capella_bootstrap_decode.
Qed.

Lemma family_sound r (jso : jsoOf r) : sound (stagesOf r jso).
Proof.
  destruct r; cbn [stagesOf].
  - apply v1_update_sound.
  - apply v1_finality_sound.
  - apply v1_bootstrap_sound.
  - apply altair_header_sound.
  - apply altair_optimistic_sound.
  - apply capella_header_sound.
  - apply capella_bootstrap_sound.
Qed.

Lemma family_names r (jso : jsoOf r) : map stageName (stagesOf r jso) = fields r.
Proof. destruct r; reflexivity. Qed.

Lemma family_distinct r : distinct (fields r) = true.
Proof. destruct r; reflexivity. Qed.

Lemma family_stage_name r (jso : jsoOf r) i s :
  stagesOf r jso !! i = Some s -> fields r !! i = Some (stageName s).
Proof.
  intros H. rewrite <- (family_names r jso), list_lookup_fmap, H. reflexivity.
Qed.

(** Decoding fails where a stage fails whenever it is reached: with that
    stage's error, with the error of the binding, or with an error about a
    field declared before. *)
Lemma decode_reach r (l : recordOf r) input f E :
  (forall jso, bound r input = Ok jso ->
     exists i s, stagesOf r jso !! i = Some s /\ stageName s = f
                 /\ forall l, exists l', action s l = (l', Err E)) ->
  exists l' e, decode r l input = (l', Some e)
    /\ (e = E \/ invalidJSON e
        \/ exists g, declaredBefore (fields r) g f = true /\ blames g e).
Proof.
  intros H. rewrite family_decode. destruct (bound r input) as [jso|e0].
  - destruct (H jso eq_refl) as (i & s & Hi & Hn & Hfail).
    destruct (runStages_reach _ i s E l (family_sound r jso) Hi Hfail) as (l' & e & Hr & Hc).
    exists l', e. unfold run. rewrite Hr. split; [reflexivity|].
    destruct Hc as [->|(g & sg & Hlt & Hg & Hb)]; [left; reflexivity|right; right].
    exists (stageName sg). split; [|exact Hb]. subst f.
    eapply (declaredBefore_index _ g i); [apply family_distinct| | |exact Hlt];
      eapply family_stage_name; eassumption.
  - exists l, (errorsWrap e0 "invalid JSON"). split; [reflexivity|].
    right; left. exists e0. reflexivity.
Qed.
End Family.

(** Finding, among the fields of a struct that are written out, the one a
    hypothesis is about. *)
Ltac with_index tac :=
  first [ tac 0%nat | tac 1%nat | tac 2%nat | tac 3%nat | tac 4%nat | tac 5%nat | tac 6%nat ].

Ltac open_bound H :=
  cbn [Records.bound] in H;
  cbv beta delta [v1_LightClientUpdate.unmarshalJSO v1_LightClientFinalityUpdate.unmarshalJSO
             v1_LightClientBootstrap.unmarshalJSO altair_LightClientHeader.unmarshalJSO
             altair_LightClientOptimisticUpdate.unmarshalJSO
             capella_LightClientHeader.unmarshalJSO
             capella_LightClientBootstrap.unmarshalJSO] in H.

Ltac get_wf fs WF :=
  assert (WF : wellFormed fs)
    by first [ apply v1_update_wf | apply v1_finality_wf | apply v1_bootstrap_wf
             | apply altair_header_wf | apply altair_optimistic_wf
             | apply capella_header_wf | apply capella_bootstrap_wf ].

(** The index of a tag among the fields of a struct. *)
Ltac index_of f names :=
  match names with
  | f :: _ => constr:(0%nat)
  | _ :: ?r => let i := index_of f r in constr:(S i)
  end.

Ltac field_index fs f :=
  let names := eval cbv in (map fst fs) in index_of f names.

(** What the binding leaves in the field a hypothesis is about. *)
Ltac null_fact Habs Hbound :=
  match type of Hbound with
  | unmarshalStruct ?ty ?z (bindStruct ?S ?fs) ?input = Ok ?jso =>
      match type of Habs with
      | absentOrNull ?f _ =>
          let WF := fresh "WF" in
          get_wf fs WF;
          let i := field_index fs f in
          first
            [ pose proof (struct_null_ptr ty S fs z WF i _ _ _ _ _ input jso
                            eq_refl eq_refl Habs Hbound)
            | pose proof (struct_null_strings ty S fs z WF i _ _ _ input jso
                            eq_refl eq_refl Habs Hbound)
            | pose proof (struct_null_string ty S fs z WF i _ _ _ input jso
                            eq_refl eq_refl Habs Hbound) ]
      end
  end.

Ltac strings_fact Hfield Hbound :=
  match type of Hbound with
  | unmarshalStruct ?ty ?z (bindStruct ?S ?fs) ?input = Ok ?jso =>
      match type of Hfield with
      | fieldOf ?f _ = _ =>
          let WF := fresh "WF" in
          get_wf fs WF;
          let i := field_index fs f in
          pose proof (struct_strings ty S fs z WF i _ _ _ input _ jso eq_refl Hfield Hbound)
      end
  end.


Ltac string_fact Hfield Hbound :=
  match type of Hbound with
  | unmarshalStruct ?ty ?z (bindStruct ?S ?fs) ?input = Ok ?jso =>
      match type of Hfield with
      | fieldOf ?f _ = _ =>
          let WF := fresh "WF" in
          get_wf fs WF;
          let i := field_index fs f in
          pose proof (struct_string ty S fs z WF i _ _ _ input _ jso eq_refl Hfield Hbound)
      end
  end.

Section FamilyFields.
Context {BeaconBlockHeader SyncCommittee SyncAggregate ExecutionPayloadHeader : Type}.
Context `{!JSONCodec BeaconBlockHeader, !JSONCodec SyncCommittee,
          !JSONCodec SyncAggregate, !JSONCodec ExecutionPayloadHeader}.

Abbreviation recordOf :=
  (@Records.recordOf BeaconBlockHeader SyncCommittee SyncAggregate ExecutionPayloadHeader).
Abbreviation jsoOf :=
  (@Records.jsoOf BeaconBlockHeader SyncCommittee SyncAggregate ExecutionPayloadHeader).
Abbreviation decode :=
  (@Records.decode BeaconBlockHeader SyncCommittee SyncAggregate ExecutionPayloadHeader _ _ _ _).
Abbreviation bound :=
  (@Records.bound BeaconBlockHeader SyncCommittee SyncAggregate ExecutionPayloadHeader _ _ _ _).
Abbreviation stagesOf :=
  (@Records.stagesOf BeaconBlockHeader SyncCommittee SyncAggregate ExecutionPayloadHeader).

Ltac pick_stage :=
  match goal with
  | |- exists i s, ?ss !! i = Some s /\ stageName s = ?f /\ _ =>
      let names := eval cbv in (map stageName ss) in
      let i := index_of f names in
      exists i; eexists; split; [reflexivity|split; [reflexivity|]]
  end.

Lemma family_null r f input (jso : jsoOf r) :
  In f (fields r) -> absentOrNull f input -> bound r input = Ok jso ->
  exists i s, stagesOf r jso !! i = Some s /\ stageName s = f
              /\ forall l, exists l', action s l = (l', Err (errorsNew (f ++ " missing"))).
Proof.
  intros Hin Habs Hbound.
  destruct r; cbn [fields] in Hin;
    repeat (destruct Hin as [<-|Hin]; [|]); try contradiction;
    open_bound Hbound; null_fact Habs Hbound;
    pick_stage; intros l; exists l; cbn;
    match goal with H : _ = _ |- _ => rewrite H end; reflexivity.
Qed.

Lemma family_branch r f guard input ss (jso : jsoOf r) :
  In (f, guard) (branches r) ->
  fieldOf f input = Some (JArray (map JString ss)) -> bound r input = Ok jso ->
  exists i s, stagesOf r jso !! i = Some s /\ stageName s = f
              /\ forall e, branchResult guard f (Some ss) = Err e ->
                           forall l, exists l', action s l = (l', Err e).
Proof.
  intros Hin Hf Hbound.
  destruct r; cbn [branches] in Hin;
    repeat (destruct Hin as [[= <- <-]|Hin]; [|]); try contradiction;
    open_bound Hbound; strings_fact Hf Hbound;
    pick_stage; intros e He l;
    cbn [action sliceStage arrayStage];
    match goal with H : _ = Some ss |- _ => rewrite H end.
  all: match goal with
       | He : branchResult _ _ _ = Err _ |- context [sliceBranch ?n ?g ?p (Some ?ss) ?l] =>
           let Hs := fresh "Hs" in
           pose proof (sliceBranch_spec n g p ltac:(lens) ltac:(lens) ltac:(lens) (Some ss) l)
             as Hs; rewrite He in Hs; destruct Hs as [? ->]; eauto
       | He : branchResult _ _ _ = Err _ |- context [arrayBranch ?n ?g ?p (Some ?ss) ?l] =>
           let Hs := fresh "Hs" in
           pose proof (arrayBranch_spec n g p ltac:(lens) ltac:(lens) ltac:(lens) (Some ss) l)
             as Hs; rewrite He in Hs; destruct Hs as [? ->]; eauto
       end.
Qed.


End FamilyFields.

End FamilyFacts.
(** Whether a stage fails does not depend on the receiver. *)
Module DecoderFacts.
Import Go Branch Codec Records GoFacts BindingFacts LoopFacts StageFacts.
Import RecordFacts FamilyFacts.

Section Outcome.
Context {L : Type}.

(** Whether a stage fails, and with which error, does not depend on the
    receiver. *)
Lemma ptrStage_outcome {T} name (p : option T) (get : L -> option T) set l1 l2 :
  snd (action (ptrStage name p get set) l1) = snd (action (ptrStage name p get set) l2).
Proof. cbn. unfold andThen, nonNil, assign, ret, fail. destruct p; reflexivity. Qed.

Lemma slotStage_outcome s (get : L -> N) set l1 l2 :
  snd (action (slotStage s get set) l1) = snd (action (slotStage s get set) l2).
Proof.
  cbn. unfold andThen, parseSlot, andThen, failIf, try, assign, ret, fail.
  destruct (String.eqb s ""); [reflexivity|]. destruct (ParseUint s); reflexivity.
Qed.

Lemma sliceStage_outcome (get : L -> list bytes) put name x l1 l2 :
  (forall v l, get (put v l) = v) -> (forall v w l, put v (put w l) = put v l) ->
  (forall l, put (get l) l = l) ->
  snd (action (sliceStage name x get put) l1) = snd (action (sliceStage name x get put) l2).
Proof.
  intros get_put put_put put_get. cbn.
  pose proof (sliceBranch_spec name get put get_put put_put put_get x l1) as H1.
  pose proof (sliceBranch_spec name get put get_put put_put put_get x l2) as H2.
  destruct (branchResult true name x) as [bs|e].
  - rewrite H1, H2. reflexivity.
  - destruct H1 as [X1 ->]. destruct H2 as [X2 ->]. reflexivity.
Qed.

Lemma arrayStage_outcome (get : L -> list bytes) put name x l1 l2 :
  (forall v l, get (put v l) = v) -> (forall v w l, put v (put w l) = put v l) ->
  (forall l, put (get l) l = l) ->
  snd (action (arrayStage name x get put) l1) = snd (action (arrayStage name x get put) l2).
Proof.
  intros get_put put_put put_get. cbn.
  pose proof (arrayBranch_spec name get put get_put put_put put_get x l1) as H1.
  pose proof (arrayBranch_spec name get put get_put put_put put_get x l2) as H2.
  destruct (branchResult false name x) as [bs|e].
  - rewrite H1, H2. reflexivity.
  - destruct H1 as [X1 ->]. destruct H2 as [X2 ->]. reflexivity.
Qed.

Lemma runStages_outcome (ss : list (stage L)) :
  (forall s, In s ss -> forall l1 l2, snd (action s l1) = snd (action s l2)) ->
  forall l1 l2, snd (runStages ss l1) = snd (runStages ss l2).
Proof.
  induction ss as [|s r IH]; intros Hall l1 l2; cbn [runStages]; [reflexivity|].
  unfold andThen. pose proof (Hall s (or_introl eq_refl) l1 l2) as Hs.
  destruct (action s l1) as [l1' [[]|e1]], (action s l2) as [l2' [[]|e2]];
    cbn [snd] in Hs |- *; try discriminate Hs; [|exact Hs].
  apply IH. intros s' Hin. apply Hall. right. exact Hin.
Qed.

End Outcome.

Section Family.
Context {BeaconBlockHeader SyncCommittee SyncAggregate ExecutionPayloadHeader : Type}.
Context `{!JSONCodec BeaconBlockHeader, !JSONCodec SyncCommittee,
          !JSONCodec SyncAggregate, !JSONCodec ExecutionPayloadHeader}.

Abbreviation recordOf :=
  (@Records.recordOf BeaconBlockHeader SyncCommittee SyncAggregate ExecutionPayloadHeader).
Abbreviation jsoOf :=
  (@Records.jsoOf BeaconBlockHeader SyncCommittee SyncAggregate ExecutionPayloadHeader).
Abbreviation decode :=
  (@Records.decode BeaconBlockHeader SyncCommittee SyncAggregate ExecutionPayloadHeader _ _ _ _).
Abbreviation bound :=
  (@Records.bound BeaconBlockHeader SyncCommittee SyncAggregate ExecutionPayloadHeader _ _ _ _).
Abbreviation stagesOf :=
  (@Records.stagesOf BeaconBlockHeader SyncCommittee SyncAggregate ExecutionPayloadHeader).

Lemma family_outcome r (jso : jsoOf r) i s (l1 l2 : recordOf r) :
  stagesOf r jso !! i = Some s -> snd (action s l1) = snd (action s l2).
Proof.
  intros Hi.
  destruct r; cbn [Records.stagesOf] in Hi;
    cbv beta delta [v1_LightClientUpdate.stages v1_LightClientFinalityUpdate.stages
      v1_LightClientBootstrap.stages altair_LightClientHeader.stages
      altair_LightClientOptimisticUpdate.stages capella_LightClientHeader.stages
      capella_LightClientBootstrap.stages] in Hi;
    stage_at Hi;
    first [ apply ptrStage_outcome | apply slotStage_outcome
          | apply sliceStage_outcome; lens | apply arrayStage_outcome; lens ].
Qed.

(** The stages of a record, once all done, leave no field open. *)
Lemma family_determined r (jso : jsoOf r) (x y : recordOf r) :
  (forall i s, stagesOf r jso !! i = Some s -> done s x) ->
  (forall i s, stagesOf r jso !! i = Some s -> done s y) -> x = y.
Proof.
  intros Hx Hy.
  destruct r; destruct x, y; cbn [Records.stagesOf] in Hx, Hy;
    repeat match goal with
           | H : forall i s, ?ss !! i = Some s -> done s ?z |- _ =>
               try pose proof (H 0%nat _ eq_refl); try pose proof (H 1%nat _ eq_refl);
               try pose proof (H 2%nat _ eq_refl); try pose proof (H 3%nat _ eq_refl);
               try pose proof (H 4%nat _ eq_refl); try pose proof (H 5%nat _ eq_refl);
               try pose proof (H 6%nat _ eq_refl); clear H
           end;
    cbn in *;
    repeat match goal with H : _ /\ _ |- _ => destruct H end;
    f_equal; congruence.
Qed.

End Family.
End DecoderFacts.

(** The decoder checks the fields in the order of declaration: where it
    fails when the fields declared before are given well. *)
Module OrderFacts.
Import Go Branch Codec Records GoFacts BindingFacts LoopFacts StageFacts.
Import RecordFacts FamilyFacts DecoderFacts.

Lemma runStages_each {L} (ss : list (stage L)) : forall l l',
  runStages ss l = (l', Ok tt) ->
  forall k s, ss !! k = Some s -> exists a b, action s a = (b, Ok tt).
Proof.
  induction ss as [|s0 rest IH]; intros l l' H k s Hk; [destruct k; discriminate|].
  cbn [runStages] in H. unfold andThen in H.
  destruct (action s0 l) as [l1 [[]|e]] eqn:Ea; [|discriminate].
  destruct k as [|k]; cbn in Hk.
  - injection Hk as <-. eauto.
  - eapply IH; eassumption.
Qed.

(** A stage that fails whenever it is reached, after stages that never
    fail: the run fails there, with that stage's error. *)
Lemma runStages_exact {L} (ss : list (stage L)) : forall i s E l,
  ss !! i = Some s ->
  (forall k sk, (k < i)%nat -> ss !! k = Some sk -> forall a, snd (action sk a) = Ok tt) ->
  (forall a, exists b, action s a = (b, Err E)) ->
  exists l', runStages ss l = (l', Err E).
Proof.
  induction ss as [|s0 rest IH]; intros i s E l Hi Hbefore Hfail; [destruct i; discriminate|].
  cbn [runStages]. unfold andThen. destruct i as [|i]; cbn in Hi.
  - injection Hi as ->. destruct (Hfail l) as [l' Ha]. rewrite Ha. eauto.
  - pose proof (Hbefore 0%nat s0 ltac:(lia) eq_refl l) as H0.
    destruct (action s0 l) as [l1 [[]|e]]; [|discriminate H0].
    eapply (IH i); [exact Hi| |exact Hfail].
    intros k sk Hlt Hk. apply (Hbefore (Datatypes.S k)); [lia|exact Hk].
Qed.

Lemma distinct_inj {A} (h : A -> string) (l : list A) a b :
  distinct (map h l) = true -> In a l -> In b l -> h a = h b -> a = b.
Proof.
  intros Hd Ha Hb Hab.
  apply list_elem_of_In, list_elem_of_lookup in Ha, Hb. destruct Ha as [i Hi], Hb as [j Hj].
  assert (i = j).
  { eapply (distinct_lookup _ i j (h a) Hd); rewrite list_lookup_fmap.
    - rewrite Hi. reflexivity.
    - rewrite Hj. cbn. congruence. }
  subst j. congruence.
Qed.

Lemma declaredBefore_In (fs : list string) g f :
  declaredBefore fs g f = true -> In g fs /\ In f fs.
Proof.
  induction fs as [|x r IH]; cbn; [discriminate|].
  destruct (String.eqb x g) eqn:E.
  - apply String.eqb_eq in E. subst x. intros H. split; [left; reflexivity|right].
    apply existsb_exists in H. destruct H as (y & Hy & Hfy).
    apply String.eqb_eq in Hfy. subst y. exact Hy.
  - intros H. destruct (IH H). split; right; assumption.
Qed.

Lemma declaredBefore_neq (fs : list string) g f :
  distinct fs = true -> declaredBefore fs g f = true -> g <> f.
Proof.
  induction fs as [|x r IH]; cbn; [discriminate|].
  intros Hd. apply andb_true_iff in Hd. destruct Hd as [Hx Hd]. apply negb_true_iff in Hx.
  destruct (String.eqb x g) eqn:E.
  - apply String.eqb_eq in E. subst x. intros H ->. congruence.
  - apply IH. exact Hd.
Qed.

Section Family.
Context {BeaconBlockHeader SyncCommittee SyncAggregate ExecutionPayloadHeader : Type}.
Context `{!JSONCodec BeaconBlockHeader, !JSONCodec SyncCommittee,
          !JSONCodec SyncAggregate, !JSONCodec ExecutionPayloadHeader}.

Abbreviation recordOf :=
  (@Records.recordOf BeaconBlockHeader SyncCommittee SyncAggregate ExecutionPayloadHeader).
Abbreviation jsoOf :=
  (@Records.jsoOf BeaconBlockHeader SyncCommittee SyncAggregate ExecutionPayloadHeader).
Abbreviation decode :=
  (@Records.decode BeaconBlockHeader SyncCommittee SyncAggregate ExecutionPayloadHeader _ _ _ _).
Abbreviation bound :=
  (@Records.bound BeaconBlockHeader SyncCommittee SyncAggregate ExecutionPayloadHeader _ _ _ _).
Abbreviation stagesOf :=
  (@Records.stagesOf BeaconBlockHeader SyncCommittee SyncAggregate ExecutionPayloadHeader).
Abbreviation binds :=
  (@Records.binds BeaconBlockHeader SyncCommittee SyncAggregate ExecutionPayloadHeader _ _ _ _).
Abbreviation wellBefore :=
  (@Records.wellBefore BeaconBlockHeader SyncCommittee SyncAggregate ExecutionPayloadHeader
     _ _ _ _).
Abbreviation givenWell :=
  (@Records.givenWell BeaconBlockHeader SyncCommittee SyncAggregate ExecutionPayloadHeader
     _ _ _ _).
Abbreviation failsWith :=
  (@Records.failsWith BeaconBlockHeader SyncCommittee SyncAggregate ExecutionPayloadHeader
     _ _ _ _).

Ltac own_fact Hv Hb Hb0 k :=
  match type of Hb with
  | unmarshalStruct ?ty ?z (bindStruct ?S ?fs) ?input = Ok ?jso =>
      let WF := fresh "WF" in
      get_wf fs WF;
      pose proof (struct_own ty S fs z WF k _ _ _ _ _ _ eq_refl Hb Hb0 Hv)
  end.

(** The stage of a field is the same for two inputs that give the same
    values for that field. *)
Lemma family_stage_own r g k input input0 (jso jso0 : jsoOf r) :
  bound r input = Ok jso -> bound r input0 = Ok jso0 ->
  fields r !! k = Some g -> valuesFor g input = valuesFor g input0 ->
  stagesOf r jso !! k = stagesOf r jso0 !! k.
Proof.
  intros Hb Hb0 Hk Hv.
  destruct r; cbn [fields] in Hk; open_bound Hb; open_bound Hb0;
    repeat (destruct k as [|k]; [injection Hk as <-|cbn in Hk]); try discriminate Hk.
  all: match goal with
       | |- _ !! ?k = _ => own_fact Hv Hb Hb0 k
       end;
       match goal with H : sameOn _ _ _ |- _ => cbn [sameOn] in H end;
       cbn;
       match goal with H : _ = _ |- _ => rewrite H end; reflexivity.
Qed.

Lemma family_fold_distinct r : distinct (map foldName (fields r)) = true.
Proof. destruct r; reflexivity. Qed.

Lemma family_fold_neq r g f : In g (fields r) -> In f (fields r) -> g <> f ->
  foldName g <> foldName f.
Proof.
  intros Hg Hf Hne E. apply Hne.
  eapply (distinct_inj foldName); [apply family_fold_distinct| | |]; eassumption.
Qed.

Lemma family_bound_ok r (l x : recordOf r) input :
  decode r l input = (x, None) ->
  exists jso, bound r input = Ok jso /\ runStages (stagesOf r jso) l = (x, Ok tt).
Proof.
  rewrite family_decode. destruct (bound r input) as [jso|e]; [|discriminate].
  unfold run. destruct (runStages (stagesOf r jso) l) as [l1 [[]|e1]] eqn:Hr; [|discriminate].
  intros [= <-]. exists jso. split; [reflexivity|exact Hr].
Qed.

(** Decoding fails with the error of a stage that fails whenever it is
    reached, when the input binds and the fields declared before are given
    as in accepted inputs. *)
Lemma family_exact r (l : recordOf r) input f E :
  binds r input -> wellBefore r f input ->
  (forall jso, bound r input = Ok jso ->
     exists i s, stagesOf r jso !! i = Some s /\ stageName s = f
                 /\ forall l, exists l', action s l = (l', Err E)) ->
  failsWith r l input E.
Proof.
  intros [jso Hb] Hw H. unfold Records.failsWith. rewrite family_decode, Hb. unfold run.
  destruct (H jso Hb) as (i & s & Hi & Hn & Hfail).
  destruct (runStages_exact (stagesOf r jso) i s E l Hi) as [l' Hr]; [|exact Hfail|].
  - intros k sk Hlt Hk a.
    pose proof (family_stage_name r jso k sk Hk) as Hgk.
    pose proof (family_stage_name r jso i s Hi) as Hfi. rewrite Hn in Hfi.
    destruct (Hw (stageName sk)) as (l0 & x & input0 & Hdec & Hv).
    { eapply (declaredBefore_index _ k i); [apply family_distinct|exact Hgk|exact Hfi|exact Hlt]. }
    apply family_bound_ok in Hdec. destruct Hdec as (jso0 & Hb0 & Hrun).
    pose proof (family_stage_own r _ k input input0 jso jso0 Hb Hb0 Hgk Hv) as Hsame.
    rewrite Hk in Hsame. symmetry in Hsame.
    destruct (runStages_each _ _ _ Hrun k sk Hsame) as (a0 & b0 & Ha).
    rewrite (family_outcome r jso k sk a a0 Hk), Ha. reflexivity.
  - exists l'. rewrite Hr. reflexivity.
Qed.

(** The stages of a successful decoding are all done in its result. *)
Lemma decoded_done r (l x : recordOf r) input :
  decode r l input = (x, None) ->
  exists jso : jsoOf r, bound r input = Ok jso
    /\ forall i s, stagesOf r jso !! i = Some s -> done s x.
Proof.
  rewrite family_decode. destruct (bound r input) as [jso|e]; [|discriminate].
  unfold run. destruct (runStages (stagesOf r jso) l) as [x1 [[]|e]] eqn:H1; [|discriminate].
  intros [= ->]. exists jso. split; [reflexivity|].
  exact (runStages_ok _ _ _ (family_sound r jso) H1).
Qed.

(** *** An accepted input with one field left out or changed *)

Lemma lastMatch_none_null f ms : lastMatch f ms = None -> nullWhere f ms.
Proof.
  unfold nullWhere. induction ms as [|[k v] r IH]; intros H; [constructor|].
  cbn [lastMatch] in H. destruct (lastMatch f r); [discriminate|].
  destruct (keyMatches f k) eqn:Hk; [discriminate|].
  constructor; [cbn; congruence|apply IH; reflexivity].
Qed.

(** An accepted input gives every required field. *)
Lemma family_present r f ms (l x : recordOf r) :
  In f (fields r) -> decode r l (JObject ms) = (x, None) ->
  exists v, lastMatch f ms = Some v.
Proof.
  intros Hin Hdec. destruct (lastMatch f ms) as [v|] eqn:Hl; [eauto|exfalso].
  assert (Habs : absentOrNull f (JObject ms)).
  { exists ms. split; [reflexivity|apply lastMatch_none_null; exact Hl]. }
  destruct (decode_reach r l (JObject ms) f (errorsNew (f ++ " missing")))
    as (l' & e & He & _).
  - intros jso Hb. exact (family_null r f (JObject ms) jso Hin Habs Hb).
  - rewrite Hdec in He. discriminate.
Qed.

(** The fields declared before are given well in an input that differs
    from an accepted one in the members of [f] only. *)
Lemma family_wellBefore r f ms ms' (l x : recordOf r) :
  decode r l (JObject ms) = (x, None) ->
  (forall g, foldName g <> foldName f ->
     valuesFor g (JObject ms') = valuesFor g (JObject ms)) ->
  wellBefore r f (JObject ms').
Proof.
  intros Hdec Hv g Hg. exists l, x, (JObject ms). split; [exact Hdec|].
  apply Hv. destruct (declaredBefore_In _ _ _ Hg) as [Hig Hif].
  apply (family_fold_neq r); [exact Hig|exact Hif|].
  eapply declaredBefore_neq; [apply family_distinct|exact Hg].
Qed.

Ltac open_binds H :=
  let jso := fresh "jso" in
  destruct H as [jso H]; open_bound H;
  unfold Records.binds; cbn [Records.bound];
  cbv beta delta [v1_LightClientUpdate.unmarshalJSO v1_LightClientFinalityUpdate.unmarshalJSO
             v1_LightClientBootstrap.unmarshalJSO altair_LightClientHeader.unmarshalJSO
             altair_LightClientOptimisticUpdate.unmarshalJSO
             capella_LightClientHeader.unmarshalJSO
             capella_LightClientBootstrap.unmarshalJSO].

Ltac changed_fact H tac :=
  match type of H with
  | unmarshalStruct ?ty ?z (bindStruct ?S ?fs) _ = Ok ?jso =>
      match goal with
      | |- exists _, unmarshalStruct _ _ _ (JObject (without ?f _)) = _ =>
          let WF := fresh "WF" in
          get_wf fs WF;
          let i := field_index fs f in
          exact (struct_without ty S fs z WF i _ _ _ _ eq_refl H)
      | |- exists _, unmarshalStruct _ _ _ (JObject (replaced ?f ?w _)) = _ =>
          let WF := fresh "WF" in
          get_wf fs WF;
          let i := field_index fs f in
          eapply (struct_replaced ty S fs z WF i _ _ w _ _ eq_refl); [|exact H];
          intros j; tac
      end
  end.

Lemma family_binds_without r f ms :
  In f (fields r) -> binds r (JObject ms) -> binds r (JObject (without f ms)).
Proof.
  intros Hin Hb.
  destruct r; cbn [fields] in Hin;
    repeat (destruct Hin as [<-|Hin]; [|]); try contradiction;
    open_binds Hb; changed_fact Hb idtac.
Qed.

Lemma family_binds_null r f ms :
  In f (fields r) -> binds r (JObject ms) -> binds r (JObject (replaced f JNull ms)).
Proof.
  intros Hin Hb.
  destruct r; cbn [fields] in Hin;
    repeat (destruct Hin as [<-|Hin]; [|]); try contradiction;
    open_binds Hb; changed_fact Hb ltac:(apply bindField_null).
Qed.

Lemma family_binds_strings r f guard ss ms :
  In (f, guard) (branches r) -> binds r (JObject ms) ->
  binds r (JObject (replaced f (JArray (map JString ss)) ms)).
Proof.
  intros Hin Hb.
  destruct r; cbn [branches] in Hin;
    repeat (destruct Hin as [[= <- <-]|Hin]; [|]); try contradiction;
    open_binds Hb; changed_fact Hb ltac:(apply bindField_strings).
Qed.

Lemma family_binds_string r s ms :
  hasSlot r = true -> binds r (JObject ms) ->
  binds r (JObject (replaced "signature_slot" (JString s) ms)).
Proof.
  intros Hs Hb.
  destruct r; try discriminate Hs;
    open_binds Hb; changed_fact Hb ltac:(apply bindField_string).
Qed.

Lemma family_accepted_binds r (l x : recordOf r) input :
  decode r l input = (x, None) -> binds r input.
Proof. intros H. apply family_bound_ok in H. destruct H as (jso & Hb & _). exists jso. exact Hb. Qed.
End Family.

Ltac all_done H :=
  cbn [Records.stagesOf] in H;
  try pose proof (H 0%nat _ eq_refl); try pose proof (H 1%nat _ eq_refl);
  try pose proof (H 2%nat _ eq_refl); try pose proof (H 3%nat _ eq_refl);
  try pose proof (H 4%nat _ eq_refl); try pose proof (H 5%nat _ eq_refl);
  try pose proof (H 6%nat _ eq_refl); clear H;
  cbn [done ptrStage sliceStage arrayStage slotStage] in *.

End OrderFacts.

(** What the round trip of a record rests on. *)
Module LawTactics.
Import Go Branch Codec Records GoFacts BindingFacts LoopFacts StageFacts RecordFacts.

Lemma bindPtr_encode {T} `{Lawful T} (x : T) :
  valid x -> bindPtr None (MarshalJSON x) = Ok (Some x).
Proof.
  intros Hv. pose proof (decode_encode x Hv) as Hd. pose proof (encode_not_null x Hv) as Hn.
  unfold bindPtr. destruct (MarshalJSON x); try contradiction; rewrite Hd; reflexivity.
Qed.

Lemma validBranch_spec b : validBranch b <-> b <> [] /\ Forall wellSized b.
Proof.
  unfold validBranch. rewrite andb_true_iff, negb_true_iff, forallb_forall, Forall_forall.
  split.
  - intros [Hl Hall]. split; [intros ->; discriminate|].
    intros x Hx. apply list_elem_of_In in Hx. specialize (Hall x Hx).
    apply andb_true_iff in Hall. destruct Hall as [H32 Hb]. split.
    + apply Nat.eqb_eq. exact H32.
    + rewrite Forall_forall. intros n Hn. apply list_elem_of_In in Hn.
      rewrite forallb_forall in Hb. apply N.ltb_lt. apply Hb. exact Hn.
  - intros [Hne Hall]. split; [destruct b; [contradiction|reflexivity]|].
    intros x Hx. apply list_elem_of_In in Hx. destruct (Hall x Hx) as [H32 Hb].
    apply andb_true_iff. split; [apply Nat.eqb_eq; exact H32|].
    rewrite forallb_forall. intros n Hn. apply N.ltb_lt.
    rewrite Forall_forall in Hb. apply Hb. apply list_elem_of_In. exact Hn.
Qed.

Lemma branchResult_roundtrip guard f b :
  validBranch b -> branchResult guard f (Some (map Sprintf_hx b)) = Ok b.
Proof.
  intros Hv. apply validBranch_spec in Hv. destruct Hv as [Hne Hall].
  unfold branchResult. rewrite length_map.
  destruct b as [|x r]; [contradiction|]. cbn [length Nat.eqb].
  rewrite (decodeBranch_all guard (map Sprintf_hx (x :: r)) (x :: r)); [reflexivity|].
  clear Hne. induction Hall as [|y t Hy _ IH]; cbn [map]; constructor; [|exact IH].
  apply decodeElement_Sprintf_hx. exact Hy.
Qed.

Lemma branchResult_valid guard f x bs :
  branchResult guard f x = Ok bs -> validBranch bs.
Proof.
  unfold branchResult. destruct x as [ss|]; [|discriminate].
  destruct (Nat.eqb (length ss) 0) eqn:Hl; [discriminate|].
  destruct (decodeBranch guard 0 ss) as [bs' [[j e]|]] eqn:Ed.
  - pose proof (decodeBranch_bad guard ss 0%nat j e) as Hb. rewrite Ed in Hb.
    specialize (Hb eq_refl). destruct e; cbn in *; try discriminate. congruence.
  - intros [= <-]. apply decodeBranch_ok in Ed. apply validBranch_spec. split.
    + intros ->. inversion Ed. subst. discriminate.
    + clear Hl. induction Ed as [|s b r t Hs _ IH]; constructor; [|exact IH].
      eapply decodeElement_Decoded. exact Hs.
Qed.

Lemma parseLoop_bound s0 s : forall n m, n <= maxUint64 -> parseLoop s0 s n = Ok m -> m <= maxUint64.
Proof.
  induction s as [|c r IH]; intros n m Hn H; cbn [parseLoop] in H.
  - injection H as <-. exact Hn.
  - cbv zeta in H. destruct ((48 <=? byteOf c) && (byteOf c <=? 57)); [|discriminate].
    destruct (cutoff <=? n); [discriminate|].
    match type of H with
    | (if (?a <? ?b) || (maxUint64 <? ?n1) then _ else _) = _ =>
        destruct (a <? b); [discriminate|];
        destruct (N.ltb_spec maxUint64 n1); [discriminate|]
    end.
    cbn [orb] in H. eapply IH; [|exact H]. assumption.
Qed.

Lemma ParseUint_bound s n : ParseUint s = Ok n -> validSlot n.
Proof.
  unfold ParseUint, validSlot. destruct s; [discriminate|]. intros H.
  apply N.leb_le. eapply parseLoop_bound; [|exact H]. unfold maxUint64. lia.
Qed.

Lemma parseSlot_Sprintf_d {L} n (l : L) :
  validSlot n -> parseSlot (Sprintf_d n) l = (l, Ok n).
Proof.
  intros Hv. apply N.leb_le in Hv. unfold parseSlot, andThen, failIf, try, ret, fail.
  destruct (Sprintf_d_spec n Hv) as (Hne & _ & _).
  destruct (Sprintf_d n) eqn:E; [contradiction|]. cbn [String.eqb]. rewrite <- E.
  rewrite ParseUint_Sprintf_d by exact Hv. reflexivity.
Qed.

Lemma validPtr_Some {T} `{Valid T} (p : option T) :
  validPtr p -> exists x, p = Some x /\ valid x.
Proof. destruct p as [x|]; [eauto|contradiction]. Qed.

Lemma marshalBranch_strings b : marshalBranch b = JArray (map JString (map Sprintf_hx b)).
Proof. unfold marshalBranch. rewrite map_map. reflexivity. Qed.

Lemma bindStrings_encode S n b :
  bindStrings S n None (marshalBranch b) = (Some (map Sprintf_hx b), None).
Proof.
  rewrite marshalBranch_strings. cbn [bindStrings]. rewrite bindElements_strings. reflexivity.
Qed.

Lemma bindMembers_step {J} S (fs : list (string * field J)) i n d jso v jso1 r :
  wellFormed fs -> fs !! i = Some (n, d) ->
  bindField S n d jso v = Ok (jso1, None) ->
  bindMembers (bindStruct S fs) ((n, v) :: r) jso None
  = bindMembers (bindStruct S fs) r jso1 None.
Proof.
  intros WF Hi Hb. cbn [bindMembers].
  rewrite (bindStruct_hit S fs WF i n d jso n v Hi (keyMatches_refl n)), Hb. reflexivity.
Qed.

Ltac bind_member WF i :=
  erewrite (bindMembers_step _ _ i _ _ _ _ _ _ WF eq_refl);
  [|cbn -[bindPtr bindStrings marshalBranch Sprintf_d Sprintf_hx Go.MarshalJSON Go.UnmarshalJSON];
    first [ rewrite bindPtr_encode by assumption; reflexivity
          | rewrite bindStrings_encode; reflexivity
          | reflexivity ]].

Ltac run_branch :=
  match goal with
  | |- context [sliceBranch ?n ?g ?p (Some (map Sprintf_hx ?b)) ?l] =>
      let Hs := fresh "Hs" in
      pose proof (sliceBranch_spec n g p ltac:(lens) ltac:(lens) ltac:(lens)
                    (Some (map Sprintf_hx b)) l) as Hs;
      rewrite branchResult_roundtrip in Hs by assumption; rewrite Hs; clear Hs
  | |- context [arrayBranch ?n ?g ?p (Some (map Sprintf_hx ?b)) ?l] =>
      let Hs := fresh "Hs" in
      pose proof (arrayBranch_spec n g p ltac:(lens) ltac:(lens) ltac:(lens)
                    (Some (map Sprintf_hx b)) l) as Hs;
      rewrite branchResult_roundtrip in Hs by assumption; rewrite Hs; clear Hs
  end.

(** From the stage of a field to the validity of the field. *)
Ltac ptr_valid WF Hb Hdone i :=
  let Hd := fresh "Hd" in
  pose proof (Hdone i _ eq_refl) as Hd; cbn [done ptrStage] in Hd;
  destruct Hd as [Hd ->];
  match type of Hb with
  | unmarshalStruct ?ty ?z (bindStruct ?S ?fs) ?input = Ok ?jso =>
      match goal with
      | |- validPtr ?p =>
          let v := fresh "v" in
          let Hp := fresh "Hp" in
          destruct p as [v|] eqn:Hp; [|congruence];
          let Hu := fresh "Hu" in
          destruct (struct_decoded ty S fs z WF i _ _ _ _ _ input jso v
                      eq_refl eq_refl Hb Hp) as (? & ? & Hu);
          exact (decode_valid _ _ _ Hu)
      end
  end.

Ltac other_valid Hdone i :=
  let Hd := fresh "Hd" in
  pose proof (Hdone i _ eq_refl) as Hd; cbn [done sliceStage arrayStage slotStage] in Hd;
  first [ eapply branchResult_valid; exact Hd
        | destruct Hd as [_ Hd]; eapply ParseUint_bound; exact Hd ].

End LawTactics.

(** The records, one by one: a well-formed value is decoded back from its
    rendering, and only well-formed values are decoded. *)
Module RecordLaws.
Import Go Branch Codec Records GoFacts BindingFacts LoopFacts StageFacts RecordFacts LawTactics.

Section altair_header_laws.
Import altair_LightClientHeader.
Context {BeaconBlockHeader : Type}.
Context `{!JSONCodec BeaconBlockHeader}.
Context `{!Valid BeaconBlockHeader}.
Context `{!Lawful BeaconBlockHeader}.

Lemma altair_header_bound (x0 : BeaconBlockHeader) :
  valid x0 ->
  unmarshalJSO (MarshalJSON
    ({| Beacon := Some x0 |} : @LightClientHeader BeaconBlockHeader))
  = Ok {| beacon := Some x0 |}.
Proof.
  intros V0.
  unfold unmarshalJSO, MarshalJSON, unmarshalStruct.
  cbn [marshalPtr Beacon].
  pose proof (@altair_header_wf BeaconBlockHeader _) as WF.
  bind_member WF 0%nat.
  reflexivity.
Qed.

Lemma altair_header_roundtrip (x0 : BeaconBlockHeader) l :
  valid x0 ->
  let x : @LightClientHeader BeaconBlockHeader :=
    {| Beacon := Some x0 |} in
  UnmarshalJSON l (MarshalJSON x) = (x, None).
Proof.
  intros V0 x. subst x.
  rewrite altair_header_decode, altair_header_bound by assumption.
  unfold run, stages. cbn [runStages action ptrStage sliceStage arrayStage slotStage beacon].
  unfold andThen, nonNil, assign, ret.
  repeat run_branch.
  reflexivity.
Qed.

Lemma altair_header_valid l input (x : @LightClientHeader BeaconBlockHeader) :
  UnmarshalJSON l input = (x, None) ->
  validPtr (Beacon x).
Proof.
  rewrite altair_header_decode. destruct (unmarshalJSO input) as [jso|e] eqn:Hb; [|discriminate].
  unfold run. destruct (runStages (stages jso) l) as [l' [[]|e]] eqn:Hr; [|discriminate].
  intros [= ->].
  pose proof (runStages_ok _ _ _ (altair_header_sound jso) Hr) as Hdone.
  pose proof (@altair_header_wf BeaconBlockHeader _) as WF.
  unfold unmarshalJSO in Hb.
  repeat split.
  all: first
    [ ptr_valid WF Hb Hdone 0%nat
    | other_valid Hdone 0%nat ].
Qed.
End altair_header_laws.

Section altair_header_lawful.
Context {BeaconBlockHeader : Type}.
Context `{!JSONCodec BeaconBlockHeader}.
Context `{!Valid BeaconBlockHeader}.
Context `{!Lawful BeaconBlockHeader}.

Lemma altair_header_is_lawful :
  Lawful (@altair_LightClientHeader.LightClientHeader BeaconBlockHeader).
Proof.
  constructor.
  - intros x Hv. destruct x as [[b|]]; [|contradiction]. apply (altair_header_roundtrip b); exact Hv.
  - intros x _. discriminate.
  - intros l x input Hd. exact (altair_header_valid l input x Hd).
Qed.
End altair_header_lawful.
#[global] Existing Instance altair_header_is_lawful.

Section capella_header_laws.
Import capella_LightClientHeader.
Context {BeaconBlockHeader ExecutionPayloadHeader : Type}.
Context `{!JSONCodec BeaconBlockHeader, !JSONCodec ExecutionPayloadHeader}.
Context `{!Valid BeaconBlockHeader, !Valid ExecutionPayloadHeader}.
Context `{!Lawful BeaconBlockHeader, !Lawful ExecutionPayloadHeader}.

Lemma capella_header_bound (x0 : BeaconBlockHeader) (x1 : ExecutionPayloadHeader) (x2 : list bytes) :
  valid x0 -> valid x1 ->
  unmarshalJSO (MarshalJSON
    ({| Beacon := Some x0;
       Execution := Some x1;
       ExecutionBranch := x2 |} : @LightClientHeader BeaconBlockHeader ExecutionPayloadHeader))
  = Ok {| beacon := Some x0;
          execution := Some x1;
          execution_branch := Some (map Sprintf_hx x2) |}.
Proof.
  intros V0 V1.
  unfold unmarshalJSO, MarshalJSON, unmarshalStruct.
  cbn [marshalPtr Beacon Execution ExecutionBranch].
  pose proof (@capella_header_wf BeaconBlockHeader ExecutionPayloadHeader _ _) as WF.
  bind_member WF 0%nat. bind_member WF 1%nat. bind_member WF 2%nat.
  reflexivity.
Qed.

Lemma capella_header_roundtrip (x0 : BeaconBlockHeader) (x1 : ExecutionPayloadHeader) (x2 : list bytes) l :
  valid x0 -> valid x1 -> validBranch x2 ->
  let x : @LightClientHeader BeaconBlockHeader ExecutionPayloadHeader :=
    {| Beacon := Some x0;
       Execution := Some x1;
       ExecutionBranch := x2 |} in
  UnmarshalJSON l (MarshalJSON x) = (x, None).
Proof.
  intros V0 V1 V2 x. subst x.
  rewrite capella_header_decode, capella_header_bound by assumption.
  unfold run, stages. cbn [runStages action ptrStage sliceStage arrayStage slotStage beacon execution execution_branch].
  unfold andThen, nonNil, assign, ret.
  repeat run_branch.
  reflexivity.
Qed.

Lemma capella_header_valid l input (x : @LightClientHeader BeaconBlockHeader ExecutionPayloadHeader) :
  UnmarshalJSON l input = (x, None) ->
  validPtr (Beacon x) /\ validPtr (Execution x) /\ validBranch (ExecutionBranch x).
Proof.
  rewrite capella_header_decode. destruct (unmarshalJSO input) as [jso|e] eqn:Hb; [|discriminate].
  unfold run. destruct (runStages (stages jso) l) as [l' [[]|e]] eqn:Hr; [|discriminate].
  intros [= ->].
  pose proof (runStages_ok _ _ _ (capella_header_sound jso) Hr) as Hdone.
  pose proof (@capella_header_wf BeaconBlockHeader ExecutionPayloadHeader _ _) as WF.
  unfold unmarshalJSO in Hb.
  repeat split.
  all: first
    [ ptr_valid WF Hb Hdone 0%nat
    | ptr_valid WF Hb Hdone 1%nat
    | ptr_valid WF Hb Hdone 2%nat
    | other_valid Hdone 0%nat
    | other_valid Hdone 1%nat
    | other_valid Hdone 2%nat ].
Qed.
End capella_header_laws.

Section capella_header_lawful.
Context {BeaconBlockHeader ExecutionPayloadHeader : Type}.
Context `{!JSONCodec BeaconBlockHeader, !JSONCodec ExecutionPayloadHeader}.
Context `{!Valid BeaconBlockHeader, !Valid ExecutionPayloadHeader}.
Context `{!Lawful BeaconBlockHeader, !Lawful ExecutionPayloadHeader}.

Lemma capella_header_is_lawful :
  Lawful (@capella_LightClientHeader.LightClientHeader BeaconBlockHeader ExecutionPayloadHeader).
Proof.
  constructor.
  - intros x Hv. destruct x as [[b|] [e|] br]; destruct Hv as (Hb & He & Hbr); try contradiction. apply (capella_header_roundtrip b e br); assumption.
  - intros x _. discriminate.
  - intros l x input Hd. exact (capella_header_valid l input x Hd).
Qed.
End capella_header_lawful.
#[global] Existing Instance capella_header_is_lawful.

Section v1_update_laws.
Import v1_LightClientUpdate.
Context {BeaconBlockHeader SyncCommittee SyncAggregate : Type}.
Context `{!JSONCodec BeaconBlockHeader, !JSONCodec SyncCommittee, !JSONCodec SyncAggregate}.
Context `{!Valid BeaconBlockHeader, !Valid SyncCommittee, !Valid SyncAggregate}.
Context `{!Lawful BeaconBlockHeader, !Lawful SyncCommittee, !Lawful SyncAggregate}.

Lemma v1_update_bound (x0 : BeaconBlockHeader) (x1 : SyncCommittee) (x2 : list bytes) (x3 : BeaconBlockHeader) (x4 : list bytes) (x5 : SyncAggregate) (x6 : N) :
  valid x0 -> valid x1 -> valid x3 -> valid x5 ->
  unmarshalJSO (MarshalJSON
    ({| AttestedHeader := Some x0;
       NextSyncCommittee := Some x1;
       NextSyncCommitteeBranch := x2;
       FinalizedHeader := Some x3;
       FinalityBranch := x4;
       SyncAggregate_ := Some x5;
       SignatureSlot := x6 |} : @LightClientUpdate BeaconBlockHeader SyncCommittee SyncAggregate))
  = Ok {| attested_header := Some x0;
          next_sync_committee := Some x1;
          next_sync_committee_branch := Some (map Sprintf_hx x2);
          finalized_header := Some x3;
          finality_branch := Some (map Sprintf_hx x4);
          sync_aggregate := Some x5;
          signature_slot := Sprintf_d x6 |}.
Proof.
  intros V0 V1 V2 V3.
  unfold unmarshalJSO, MarshalJSON, unmarshalStruct.
  cbn [marshalPtr AttestedHeader NextSyncCommittee NextSyncCommitteeBranch FinalizedHeader FinalityBranch SyncAggregate_ SignatureSlot].
  pose proof (@v1_update_wf BeaconBlockHeader SyncCommittee SyncAggregate _ _ _) as WF.
  bind_member WF 0%nat. bind_member WF 1%nat. bind_member WF 2%nat. bind_member WF 3%nat. bind_member WF 4%nat. bind_member WF 5%nat. bind_member WF 6%nat.
  reflexivity.
Qed.

Lemma v1_update_roundtrip (x0 : BeaconBlockHeader) (x1 : SyncCommittee) (x2 : list bytes) (x3 : BeaconBlockHeader) (x4 : list bytes) (x5 : SyncAggregate) (x6 : N) l :
  valid x0 -> valid x1 -> validBranch x2 -> valid x3 -> validBranch x4 -> valid x5 -> validSlot x6 ->
  let x : @LightClientUpdate BeaconBlockHeader SyncCommittee SyncAggregate :=
    {| AttestedHeader := Some x0;
       NextSyncCommittee := Some x1;
       NextSyncCommitteeBranch := x2;
       FinalizedHeader := Some x3;
       FinalityBranch := x4;
       SyncAggregate_ := Some x5;
       SignatureSlot := x6 |} in
  UnmarshalJSON l (MarshalJSON x) = (x, None).
Proof.
  intros V0 V1 V2 V3 V4 V5 V6 x. subst x.
  rewrite v1_update_decode, v1_update_bound by assumption.
  unfold run, stages. cbn [runStages action ptrStage sliceStage arrayStage slotStage attested_header next_sync_committee next_sync_committee_branch finalized_header finality_branch sync_aggregate signature_slot].
  unfold andThen, nonNil, assign, ret.
  repeat run_branch.
  rewrite parseSlot_Sprintf_d by assumption.
  reflexivity.
Qed.

Lemma v1_update_valid l input (x : @LightClientUpdate BeaconBlockHeader SyncCommittee SyncAggregate) :
  UnmarshalJSON l input = (x, None) ->
  validPtr (AttestedHeader x) /\ validPtr (NextSyncCommittee x) /\ validBranch (NextSyncCommitteeBranch x) /\ validPtr (FinalizedHeader x) /\ validBranch (FinalityBranch x) /\ validPtr (SyncAggregate_ x) /\ validSlot (SignatureSlot x).
Proof.
  rewrite v1_update_decode. destruct (unmarshalJSO input) as [jso|e] eqn:Hb; [|discriminate].
  unfold run. destruct (runStages (stages jso) l) as [l' [[]|e]] eqn:Hr; [|discriminate].
  intros [= ->].
  pose proof (runStages_ok _ _ _ (v1_update_sound jso) Hr) as Hdone.
  pose proof (@v1_update_wf BeaconBlockHeader SyncCommittee SyncAggregate _ _ _) as WF.
  unfold unmarshalJSO in Hb.
  repeat split.
  all: first
    [ ptr_valid WF Hb Hdone 0%nat
    | ptr_valid WF Hb Hdone 1%nat
    | ptr_valid WF Hb Hdone 2%nat
    | ptr_valid WF Hb Hdone 3%nat
    | ptr_valid WF Hb Hdone 4%nat
    | ptr_valid WF Hb Hdone 5%nat
    | ptr_valid WF Hb Hdone 6%nat
    | other_valid Hdone 0%nat
    | other_valid Hdone 1%nat
    | other_valid Hdone 2%nat
    | other_valid Hdone 3%nat
    | other_valid Hdone 4%nat
    | other_valid Hdone 5%nat
    | other_valid Hdone 6%nat ].
Qed.
End v1_update_laws.

Section v1_finality_laws.
Import v1_LightClientFinalityUpdate.
Context {BeaconBlockHeader SyncAggregate : Type}.
Context `{!JSONCodec BeaconBlockHeader, !JSONCodec SyncAggregate}.
Context `{!Valid BeaconBlockHeader, !Valid SyncAggregate}.
Context `{!Lawful BeaconBlockHeader, !Lawful SyncAggregate}.

Lemma v1_finality_bound (x0 : BeaconBlockHeader) (x1 : BeaconBlockHeader) (x2 : list bytes) (x3 : SyncAggregate) (x4 : N) :
  valid x0 -> valid x1 -> valid x3 ->
  unmarshalJSO (MarshalJSON
    ({| AttestedHeader := Some x0;
       FinalizedHeader := Some x1;
       FinalityBranch := x2;
       SyncAggregate_ := Some x3;
       SignatureSlot := x4 |} : @LightClientFinalityUpdate BeaconBlockHeader SyncAggregate))
  = Ok {| attested_header := Some x0;
          finalized_header := Some x1;
          finality_branch := Some (map Sprintf_hx x2);
          sync_aggregate := Some x3;
          signature_slot := Sprintf_d x4 |}.
Proof.
  intros V0 V1 V2.
  unfold unmarshalJSO, MarshalJSON, unmarshalStruct.
  cbn [marshalPtr AttestedHeader FinalizedHeader FinalityBranch SyncAggregate_ SignatureSlot].
  pose proof (@v1_finality_wf BeaconBlockHeader SyncAggregate _ _) as WF.
  bind_member WF 0%nat. bind_member WF 1%nat. bind_member WF 2%nat. bind_member WF 3%nat. bind_member WF 4%nat.
  reflexivity.
Qed.

Lemma v1_finality_roundtrip (x0 : BeaconBlockHeader) (x1 : BeaconBlockHeader) (x2 : list bytes) (x3 : SyncAggregate) (x4 : N) l :
  valid x0 -> valid x1 -> validBranch x2 -> valid x3 -> validSlot x4 ->
  let x : @LightClientFinalityUpdate BeaconBlockHeader SyncAggregate :=
    {| AttestedHeader := Some x0;
       FinalizedHeader := Some x1;
       FinalityBranch := x2;
       SyncAggregate_ := Some x3;
       SignatureSlot := x4 |} in
  UnmarshalJSON l (MarshalJSON x) = (x, None).
Proof.
  intros V0 V1 V2 V3 V4 x. subst x.
  rewrite v1_finality_decode, v1_finality_bound by assumption.
  unfold run, stages. cbn [runStages action ptrStage sliceStage arrayStage slotStage attested_header finalized_header finality_branch sync_aggregate signature_slot].
  unfold andThen, nonNil, assign, ret.
  repeat run_branch.
  rewrite parseSlot_Sprintf_d by assumption.
  reflexivity.
Qed.

Lemma v1_finality_valid l input (x : @LightClientFinalityUpdate BeaconBlockHeader SyncAggregate) :
  UnmarshalJSON l input = (x, None) ->
  validPtr (AttestedHeader x) /\ validPtr (FinalizedHeader x) /\ validBranch (FinalityBranch x) /\ validPtr (SyncAggregate_ x) /\ validSlot (SignatureSlot x).
Proof.
  rewrite v1_finality_decode. destruct (unmarshalJSO input) as [jso|e] eqn:Hb; [|discriminate].
  unfold run. destruct (runStages (stages jso) l) as [l' [[]|e]] eqn:Hr; [|discriminate].
  intros [= ->].
  pose proof (runStages_ok _ _ _ (v1_finality_sound jso) Hr) as Hdone.
  pose proof (@v1_finality_wf BeaconBlockHeader SyncAggregate _ _) as WF.
  unfold unmarshalJSO in Hb.
  repeat split.
  all: first
    [ ptr_valid WF Hb Hdone 0%nat
    | ptr_valid WF Hb Hdone 1%nat
    | ptr_valid WF Hb Hdone 2%nat
    | ptr_valid WF Hb Hdone 3%nat
    | ptr_valid WF Hb Hdone 4%nat
    | other_valid Hdone 0%nat
    | other_valid Hdone 1%nat
    | other_valid Hdone 2%nat
    | other_valid Hdone 3%nat
    | other_valid Hdone 4%nat ].
Qed.
End v1_finality_laws.

Section v1_bootstrap_laws.
Import v1_LightClientBootstrap.
Context {BeaconBlockHeader SyncCommittee : Type}.
Context `{!JSONCodec BeaconBlockHeader, !JSONCodec SyncCommittee}.
Context `{!Valid BeaconBlockHeader, !Valid SyncCommittee}.
Context `{!Lawful BeaconBlockHeader, !Lawful SyncCommittee}.

Lemma v1_bootstrap_bound (x0 : BeaconBlockHeader) (x1 : SyncCommittee) (x2 : list bytes) :
  valid x0 -> valid x1 ->
  unmarshalJSO (MarshalJSON
    ({| Header := Some x0;
       CurrentSyncCommittee := Some x1;
       CurrentSyncCommitteeBranch := x2 |} : @LightClientBootstrap BeaconBlockHeader SyncCommittee))
  = Ok {| header := Some x0;
          current_sync_committee := Some x1;
          current_sync_committee_branch := Some (map Sprintf_hx x2) |}.
Proof.
  intros V0 V1.
  unfold unmarshalJSO, MarshalJSON, unmarshalStruct.
  cbn [marshalPtr Header CurrentSyncCommittee CurrentSyncCommitteeBranch].
  pose proof (@v1_bootstrap_wf BeaconBlockHeader SyncCommittee _ _) as WF.
  bind_member WF 0%nat. bind_member WF 1%nat. bind_member WF 2%nat.
  reflexivity.
Qed.

Lemma v1_bootstrap_roundtrip (x0 : BeaconBlockHeader) (x1 : SyncCommittee) (x2 : list bytes) l :
  valid x0 -> valid x1 -> validBranch x2 ->
  let x : @LightClientBootstrap BeaconBlockHeader SyncCommittee :=
    {| Header := Some x0;
       CurrentSyncCommittee := Some x1;
       CurrentSyncCommitteeBranch := x2 |} in
  UnmarshalJSON l (MarshalJSON x) = (x, None).
Proof.
  intros V0 V1 V2 x. subst x.
  rewrite v1_bootstrap_decode, v1_bootstrap_bound by assumption.
  unfold run, stages. cbn [runStages action ptrStage sliceStage arrayStage slotStage header current_sync_committee current_sync_committee_branch].
  unfold andThen, nonNil, assign, ret.
  repeat run_branch.
  reflexivity.
Qed.

Lemma v1_bootstrap_valid l input (x : @LightClientBootstrap BeaconBlockHeader SyncCommittee) :
  UnmarshalJSON l input = (x, None) ->
  validPtr (Header x) /\ validPtr (CurrentSyncCommittee x) /\ validBranch (CurrentSyncCommitteeBranch x).
Proof.
  rewrite v1_bootstrap_decode. destruct (unmarshalJSO input) as [jso|e] eqn:Hb; [|discriminate].
  unfold run. destruct (runStages (stages jso) l) as [l' [[]|e]] eqn:Hr; [|discriminate].
  intros [= ->].
  pose proof (runStages_ok _ _ _ (v1_bootstrap_sound jso) Hr) as Hdone.
  pose proof (@v1_bootstrap_wf BeaconBlockHeader SyncCommittee _ _) as WF.
  unfold unmarshalJSO in Hb.
  repeat split.
  all: first
    [ ptr_valid WF Hb Hdone 0%nat
    | ptr_valid WF Hb Hdone 1%nat
    | ptr_valid WF Hb Hdone 2%nat
    | other_valid Hdone 0%nat
    | other_valid Hdone 1%nat
    | other_valid Hdone 2%nat ].
Qed.
End v1_bootstrap_laws.

Section altair_optimistic_laws.
Import altair_LightClientOptimisticUpdate.
Context {BeaconBlockHeader SyncAggregate : Type}.
Context `{!JSONCodec BeaconBlockHeader, !JSONCodec SyncAggregate}.
Context `{!Valid BeaconBlockHeader, !Valid SyncAggregate}.
Context `{!Lawful BeaconBlockHeader, !Lawful SyncAggregate}.
Abbreviation LightClientHeader :=
  (@altair_LightClientHeader.LightClientHeader BeaconBlockHeader).

Lemma altair_optimistic_bound (x0 : LightClientHeader) (x1 : SyncAggregate) (x2 : N) :
  valid x0 -> valid x1 ->
  unmarshalJSO (MarshalJSON
    ({| AttestedHeader := Some x0;
       SyncAggregate_ := Some x1;
       SignatureSlot := x2 |} : @LightClientOptimisticUpdate BeaconBlockHeader SyncAggregate))
  = Ok {| attested_header := Some x0;
          sync_aggregate := Some x1;
          signature_slot := Sprintf_d x2 |}.
Proof.
  intros V0 V1.
  unfold unmarshalJSO, MarshalJSON, unmarshalStruct.
  cbn [marshalPtr AttestedHeader SyncAggregate_ SignatureSlot].
  pose proof (@altair_optimistic_wf BeaconBlockHeader SyncAggregate _ _) as WF.
  bind_member WF 0%nat. bind_member WF 1%nat. bind_member WF 2%nat.
  reflexivity.
Qed.

Lemma altair_optimistic_roundtrip (x0 : LightClientHeader) (x1 : SyncAggregate) (x2 : N) l :
  valid x0 -> valid x1 -> validSlot x2 ->
  let x : @LightClientOptimisticUpdate BeaconBlockHeader SyncAggregate :=
    {| AttestedHeader := Some x0;
       SyncAggregate_ := Some x1;
       SignatureSlot := x2 |} in
  UnmarshalJSON l (MarshalJSON x) = (x, None).
Proof.
  intros V0 V1 V2 x. subst x.
  rewrite altair_optimistic_decode, altair_optimistic_bound by assumption.
  unfold run, stages. cbn [runStages action ptrStage sliceStage arrayStage slotStage attested_header sync_aggregate signature_slot].
  unfold andThen, nonNil, assign, ret.
  repeat run_branch.
  rewrite parseSlot_Sprintf_d by assumption.
  reflexivity.
Qed.

Lemma altair_optimistic_valid l input (x : @LightClientOptimisticUpdate BeaconBlockHeader SyncAggregate) :
  UnmarshalJSON l input = (x, None) ->
  validPtr (AttestedHeader x) /\ validPtr (SyncAggregate_ x) /\ validSlot (SignatureSlot x).
Proof.
  rewrite altair_optimistic_decode. destruct (unmarshalJSO input) as [jso|e] eqn:Hb; [|discriminate].
  unfold run. destruct (runStages (stages jso) l) as [l' [[]|e]] eqn:Hr; [|discriminate].
  intros [= ->].
  pose proof (runStages_ok _ _ _ (altair_optimistic_sound jso) Hr) as Hdone.
  pose proof (@altair_optimistic_wf BeaconBlockHeader SyncAggregate _ _) as WF.
  unfold unmarshalJSO in Hb.
  repeat split.
  all: first
    [ ptr_valid WF Hb Hdone 0%nat
    | ptr_valid WF Hb Hdone 1%nat
    | ptr_valid WF Hb Hdone 2%nat
    | other_valid Hdone 0%nat
    | other_valid Hdone 1%nat
    | other_valid Hdone 2%nat ].
Qed.
End altair_optimistic_laws.

Section capella_bootstrap_laws.
Import capella_LightClientBootstrap.
Context {BeaconBlockHeader ExecutionPayloadHeader SyncCommittee : Type}.
Context `{!JSONCodec BeaconBlockHeader, !JSONCodec ExecutionPayloadHeader, !JSONCodec SyncCommittee}.
Context `{!Valid BeaconBlockHeader, !Valid ExecutionPayloadHeader, !Valid SyncCommittee}.
Context `{!Lawful BeaconBlockHeader, !Lawful ExecutionPayloadHeader, !Lawful SyncCommittee}.
Abbreviation LightClientHeader :=
  (@capella_LightClientHeader.LightClientHeader BeaconBlockHeader ExecutionPayloadHeader).

Lemma capella_bootstrap_bound (x0 : LightClientHeader) (x1 : SyncCommittee) (x2 : list bytes) :
  valid x0 -> valid x1 ->
  unmarshalJSO (MarshalJSON
    ({| Header := Some x0;
       CurrentSyncCommittee := Some x1;
       CurrentSyncCommitteeBranch := x2 |} : @LightClientBootstrap BeaconBlockHeader ExecutionPayloadHeader SyncCommittee))
  = Ok {| header := Some x0;
          current_sync_committee := Some x1;
          current_sync_committee_branch := Some (map Sprintf_hx x2) |}.
Proof.
  intros V0 V1.
  unfold unmarshalJSO, MarshalJSON, unmarshalStruct.
  cbn [marshalPtr Header CurrentSyncCommittee CurrentSyncCommitteeBranch].
  pose proof (@capella_bootstrap_wf BeaconBlockHeader ExecutionPayloadHeader SyncCommittee _ _ _) as WF.
  bind_member WF 0%nat. bind_member WF 1%nat. bind_member WF 2%nat.
  reflexivity.
Qed.

Lemma capella_bootstrap_roundtrip (x0 : LightClientHeader) (x1 : SyncCommittee) (x2 : list bytes) l :
  valid x0 -> valid x1 -> validBranch x2 ->
  let x : @LightClientBootstrap BeaconBlockHeader ExecutionPayloadHeader SyncCommittee :=
    {| Header := Some x0;
       CurrentSyncCommittee := Some x1;
       CurrentSyncCommitteeBranch := x2 |} in
  UnmarshalJSON l (MarshalJSON x) = (x, None).
Proof.
  intros V0 V1 V2 x. subst x.
  rewrite capella_bootstrap_decode, capella_bootstrap_bound by assumption.
  unfold run, stages. cbn [runStages action ptrStage sliceStage arrayStage slotStage header current_sync_committee current_sync_committee_branch].
  unfold andThen, nonNil, assign, ret.
  repeat run_branch.
  reflexivity.
Qed.

Lemma capella_bootstrap_valid l input (x : @LightClientBootstrap BeaconBlockHeader ExecutionPayloadHeader SyncCommittee) :
  UnmarshalJSON l input = (x, None) ->
  validPtr (Header x) /\ validPtr (CurrentSyncCommittee x) /\ validBranch (CurrentSyncCommitteeBranch x).
Proof.
  rewrite capella_bootstrap_decode. destruct (unmarshalJSO input) as [jso|e] eqn:Hb; [|discriminate].
  unfold run. destruct (runStages (stages jso) l) as [l' [[]|e]] eqn:Hr; [|discriminate].
  intros [= ->].
  pose proof (runStages_ok _ _ _ (capella_bootstrap_sound jso) Hr) as Hdone.
  pose proof (@capella_bootstrap_wf BeaconBlockHeader ExecutionPayloadHeader SyncCommittee _ _ _) as WF.
  unfold unmarshalJSO in Hb.
  repeat split.
  all: first
    [ ptr_valid WF Hb Hdone 0%nat
    | ptr_valid WF Hb Hdone 1%nat
    | ptr_valid WF Hb Hdone 2%nat
    | other_valid Hdone 0%nat
    | other_valid Hdone 1%nat
    | other_valid Hdone 2%nat ].
Qed.
End capella_bootstrap_laws.

End RecordLaws.

(** Facts about branch elements and slots that the claims rest on. *)
Module ClaimFacts.
Import Go Branch Codec Records GoFacts BindingFacts LoopFacts StageFacts.

Lemma decodeBranch_first guard bad : forall ss k i s,
  ss !! i = Some s ->
  (forall j t, (j < i)%nat -> ss !! j = Some t -> exists b, decodes guard t b) ->
  decodeElement guard s = bad -> (forall b, bad <> Decoded b) ->
  snd (decodeBranch guard k ss) = Some ((k + i)%nat, bad).
Proof.
  induction ss as [|t r IH]; intros k i s Hi Hbefore Hs Hbad; [destruct i; discriminate|].
  cbn [decodeBranch]. destruct i as [|i]; cbn in Hi.
  - injection Hi as ->. rewrite Hs. rewrite Nat.add_0_r.
    destruct bad; try reflexivity. exfalso. eapply Hbad. reflexivity.
  - destruct (Hbefore 0%nat t ltac:(lia) eq_refl) as [b Hb]. unfold decodes in Hb. rewrite Hb.
    specialize (IH (S k) i s Hi).
    destruct (decodeBranch guard (S k) r) as [bs bd]. cbn [snd] in *.
    rewrite IH; [f_equal; f_equal; lia| |exact Hs|exact Hbad].
    intros j u Hj Hu. apply (Hbefore (S j) u); [lia|exact Hu].
Qed.

Lemma branchResult_firstBad guard f ss i s bad err :
  firstBadAt guard ss i s -> decodeElement guard s = bad ->
  elementError f i bad = Some err ->
  branchResult guard f (Some ss) = Err err.
Proof.
  intros [Hi Hbefore] Hs He. unfold branchResult.
  destruct ss as [|t r]; [destruct i; discriminate|]. cbn [length Nat.eqb].
  pose proof (decodeBranch_first guard bad (t :: r) 0 i s Hi Hbefore Hs) as Hd.
  cbn [Nat.add] in Hd.
  destruct (decodeBranch guard 0 (t :: r)) as [bs bd]. cbn [snd] in Hd.
  rewrite Hd; [rewrite He; reflexivity|].
  intros b ->. discriminate.
Qed.

(** A hexadecimal text never starts with 0x. *)
Lemma TrimPrefix_hexEncode b : TrimPrefix (hexEncode b) "0x" = hexEncode b.
Proof.
  destruct b as [|x r]; [reflexivity|]. cbn [hexEncode]. unfold TrimPrefix. cbn [hasPrefix].
  destruct (Ascii.eqb "0" (hextable (N.shiftr x 4))); [|reflexivity].
  replace (Ascii.eqb "x" (hextable (N.land x 15))) with false; [reflexivity|].
  symmetry. apply Ascii.eqb_neq. unfold hextable.
  pose proof (land15_lt x) as Hlt. intros Heq.
  apply (f_equal byteOf) in Heq. change (byteOf "x") with 120 in Heq.
  destruct (N.land x 15 <? 10) eqn:H10.
  - apply N.ltb_lt in H10. rewrite byteOf_charOf in Heq by lia. lia.
  - rewrite byteOf_charOf in Heq by lia. lia.
Qed.

Lemma hexEncode_nonempty x r : hexEncode (x :: r) <> "".
Proof. discriminate. Qed.

Lemma decodeElement_hexEncode guard x :
  wellSized x -> decodeElement guard (hexEncode x) = Decoded x.
Proof.
  intros [Hl Hb]. unfold decodeElement.
  destruct x as [|x0 xr]; [discriminate|].
  replace (String.eqb (hexEncode (x0 :: xr)) "") with false by reflexivity.
  rewrite andb_false_r, TrimPrefix_hexEncode, hex_roundtrip by exact Hb.
  rewrite Hl. reflexivity.
Qed.






End ClaimFacts.

(** ** The elements of a branch and the digits of a slot *)
Module FieldFacts.
Import Go Branch Codec Records GoFacts BindingFacts LoopFacts StageFacts.
Import RecordFacts FamilyFacts.

Lemma branchResult_ok guard f ss bs :
  branchResult guard f (Some ss) = Ok bs -> ss <> [] /\ Forall2 (decodes guard) ss bs.
Proof.
  unfold branchResult. destruct ss as [|s r]; [discriminate|]. cbn [length Nat.eqb].
  destruct (decodeBranch guard 0 (s :: r)) as [bs' [[j e]|]] eqn:Ed.
  - pose proof (decodeBranch_bad guard (s :: r) 0%nat j e) as Hb. rewrite Ed in Hb.
    specialize (Hb eq_refl). destruct e; cbn; try discriminate.
    exfalso. apply Hb. reflexivity.
  - intros [= <-]. split; [discriminate|]. exact (decodeBranch_ok guard _ _ _ Ed).
Qed.

(** A text that is not all digits has a first character that is none. *)
Lemma allDigits_split s :
  allDigits s = false ->
  exists s1 c s2, s = s1 ++ String c s2 /\ allDigits s1 = true /\ isDigit c = false.
Proof.
  induction s as [|c r IH]; [discriminate|]. cbn [allDigits].
  destruct (isDigit c) eqn:Ec; cbn [andb].
  - intros Hr. destruct (IH Hr) as (s1 & c' & s2 & -> & H1 & Hc).
    exists (String c s1), c', s2. cbn [allDigits]. rewrite Ec, H1. repeat split. exact Hc.
  - intros _. exists "", c, r. repeat split. exact Ec.
Qed.

(** What strconv.ParseUint(s, 10, 64) accepts: the texts of decimal digits
    alone (no sign, no space, no underscore) that denote at most 2^64-1. *)
Lemma ParseUint_inv s n :
  ParseUint s = Ok n ->
  s <> "" /\ allDigits s = true /\ n = decimalValue s 0 /\ n <= maxUint64.
Proof.
  intros Hp. assert (Hne : s <> "") by (intros ->; discriminate Hp).
  destruct (allDigits s) eqn:Hd.
  - rewrite (ParseUint_digits s Hne Hd) in Hp.
    destruct (decimalValue s 0 <=? maxUint64) eqn:Hle; [|discriminate].
    injection Hp as <-. apply N.leb_le in Hle. repeat split; assumption.
  - exfalso. destruct (allDigits_split s Hd) as (s1 & c & s2 & -> & H1 & Hc).
    unfold ParseUint in Hp.
    destruct (s1 ++ String c s2) eqn:E; [discriminate|]. rewrite <- E in Hp.
    exact (parseLoop_syntax _ s1 c s2 0 n H1 Hc Hp).
Qed.
End FieldFacts.

(** What re-encoding makes of an accepted input: the canonical rendering
    of each field. *)
Module CanonicalFacts.
Import Go Branch Codec Records GoFacts BindingFacts LoopFacts StageFacts.
Import RecordFacts FamilyFacts DecoderFacts OrderFacts FieldFacts.

(** *** Hexadecimal texts *)

Lemma hextable_fromHexChar c a : fromHexChar c = Some a -> hextable a = lowerHexChar c.
Proof.
  destruct c as [[] [] [] [] [] [] [] []]; vm_compute; intros H;
    first [discriminate H | injection H as <-; reflexivity].
Qed.

Lemma nibbles_split a b : a < 16 -> b < 16 ->
  N.shiftr (N.lor (N.shiftl a 4) b) 4 = a /\ N.land (N.lor (N.shiftl a 4) b) 15 = b.
Proof.
  intros Ha Hb.
  assert (Ea : a = 0 \/ a = 1 \/ a = 2 \/ a = 3 \/ a = 4 \/ a = 5 \/ a = 6 \/ a = 7 \/
               a = 8 \/ a = 9 \/ a = 10 \/ a = 11 \/ a = 12 \/ a = 13 \/ a = 14 \/ a = 15) by lia.
  assert (Eb : b = 0 \/ b = 1 \/ b = 2 \/ b = 3 \/ b = 4 \/ b = 5 \/ b = 6 \/ b = 7 \/
               b = 8 \/ b = 9 \/ b = 10 \/ b = 11 \/ b = 12 \/ b = 13 \/ b = 14 \/ b = 15) by lia.
  clear Ha Hb.
  repeat (destruct Ea as [->|Ea]); try subst a;
    repeat (destruct Eb as [->|Eb]); try subst b; split; reflexivity.
Qed.

Lemma hexDecode_lower_fuel n : forall s b,
  (String.length s <= n)%nat -> hexDecode s = (b, None) -> hexEncode b = lowerHex s.
Proof.
  induction n as [|n IH]; intros s b Hn H.
  - destruct s; [|cbn in Hn; lia]. cbn in H. injection H as <-. reflexivity.
  - destruct s as [|p [|q r]].
    + cbn in H. injection H as <-. reflexivity.
    + cbn in H. destruct (fromHexChar p); discriminate.
    + cbn [hexDecode] in H.
      destruct (fromHexChar p) as [a|] eqn:Ep; [|discriminate].
      destruct (fromHexChar q) as [c|] eqn:Eq; [|discriminate].
      destruct (hexDecode r) as [rest e] eqn:Er. injection H as <- ->.
      cbn [hexEncode lowerHex].
      destruct (nibbles_split a c (fromHexChar_lt _ _ Ep) (fromHexChar_lt _ _ Eq)) as [-> ->].
      rewrite (hextable_fromHexChar _ _ Ep), (hextable_fromHexChar _ _ Eq).
      rewrite (IH r rest); [reflexivity| |exact Er]. cbn in Hn. lia.
Qed.

(** Encoding what a hexadecimal text decodes to gives the text in
    lowercase. *)
Lemma hexDecode_lower s b : hexDecode s = (b, None) -> hexEncode b = lowerHex s.
Proof. apply (hexDecode_lower_fuel (String.length s)). lia. Qed.

Lemma decodes_canonical guard s b : decodes guard s b -> Sprintf_hx b = canonicalHex s.
Proof.
  intros H. unfold decodes, decodeElement in H.
  destruct (guard && String.eqb s ""); [discriminate|].
  destruct (hexDecode (TrimPrefix s "0x")) as [b' [e|]] eqn:Eh; [discriminate|].
  destruct (Nat.eqb (length b') 32) eqn:El; [|discriminate]. injection H as <-.
  unfold canonicalHex. rewrite <- (hexDecode_lower _ _ Eh).
  destruct b'; [discriminate El|reflexivity].
Qed.

Lemma decodes_nonempty guard s b : decodes guard s b -> s <> "".
Proof. intros H ->. destruct guard; discriminate H. Qed.

(** *** Decimal texts *)

Lemma string_snoc s : s <> "" -> exists t c, s = t ++ String c "".
Proof.
  induction s as [|a r IH]; [congruence|]. intros _. destruct r as [|b r'].
  - exists "", a. reflexivity.
  - destruct IH as (t & c & E); [discriminate|]. exists (String a t), c. cbn. rewrite <- E.
    reflexivity.
Qed.

Lemma string_app_length t c : String.length (t ++ String c "") = S (String.length t).
Proof. induction t as [|a r IH]; cbn; [reflexivity|]. rewrite IH. reflexivity. Qed.

Lemma string_app_assoc1 t c acc : (t ++ String c "") ++ acc = t ++ String c acc.
Proof. induction t as [|x r IHr]; cbn; [reflexivity|]. rewrite IHr. reflexivity. Qed.

Lemma string_app_empty t : t ++ "" = t.
Proof. induction t as [|x r IHr]; cbn; [reflexivity|]. rewrite IHr. reflexivity. Qed.

Lemma string_rev_ind (P : string -> Prop) :
  P "" -> (forall t c, P t -> P (t ++ String c "")) -> forall s, P s.
Proof.
  intros H0 Hs s. remember (String.length s) as n eqn:Hn. revert s Hn.
  induction n as [|n IH]; intros s Hn.
  - destruct s; [exact H0|discriminate].
  - destruct (string_snoc s) as (t & c & ->); [intros ->; discriminate|].
    apply Hs. apply IH. rewrite string_app_length in Hn. congruence.
Qed.

Lemma digitChar_digit c : isDigit c = true -> digitChar (byteOf c - 48) = c.
Proof.
  unfold isDigit, digitChar. intros H. apply andb_true_iff in H. destruct H as [H1 H2].
  apply N.leb_le in H1, H2. replace (48 + (byteOf c - 48)) with (byteOf c) by lia.
  apply ascii_N_embedding.
Qed.

Lemma formatBits_digit fuel d acc : d < 10 -> formatBits fuel d acc = String (digitChar d) acc.
Proof.
  intros H. destruct fuel; cbn [formatBits].
  - rewrite N.mod_small by exact H. reflexivity.
  - destruct (N.leb_spec 10 d); [lia|reflexivity].
Qed.

Lemma formatBits_step fuel u d acc : 0 < u -> d < 10 ->
  formatBits (S fuel) (u * 10 + d) acc = formatBits fuel u (String (digitChar d) acc).
Proof.
  intros Hu Hd. cbn [formatBits]. destruct (N.leb_spec 10 (u * 10 + d)); [|lia].
  replace ((u * 10 + d) / 10) with u; [replace ((u * 10 + d) mod 10) with d; [reflexivity|]|].
  - apply (N.mod_unique _ _ u); lia.
  - apply (N.div_unique _ _ _ d); lia.
Qed.

Lemma leading_positive s : allDigits s = true -> leading s = true -> 0 < decimalValue s 0.
Proof.
  destruct s as [|c r]; [discriminate|]. cbn [allDigits leading decimalValue].
  intros Hd Hl. apply andb_true_iff in Hd. destruct Hd as [Hc _].
  pose proof (decimalValue_ge r (0 * 10 + (byteOf c - 48))) as Hge.
  assert (byteOf c <> 48).
  { intros E. apply negb_true_iff, Ascii.eqb_neq in Hl. apply Hl.
    rewrite <- (ascii_N_embedding c). unfold byteOf in E. rewrite E. reflexivity. }
  unfold isDigit in Hc. apply andb_true_iff in Hc. destruct Hc as [H1 H2].
  apply N.leb_le in H1, H2. lia.
Qed.

(** %d prints a text of digits without a leading zero as it is. *)
Lemma formatBits_leading s : forall fuel acc,
  allDigits s = true -> leading s = true ->
  decimalValue s 0 < 10 ^ (N.of_nat fuel + 1) ->
  formatBits fuel (decimalValue s 0) acc = s ++ acc.
Proof.
  induction s as [|t c IH] using string_rev_ind; intros fuel acc Hd Hl Hv; [discriminate|].
  rewrite allDigits_app in Hd. apply andb_true_iff in Hd. destruct Hd as [Ht Hc].
  cbn [allDigits] in Hc. rewrite andb_true_r in Hc.
  assert (Hdc : byteOf c - 48 < 10).
  { unfold isDigit in Hc. apply andb_true_iff in Hc. destruct Hc as [H1 H2].
    apply N.leb_le in H1, H2. lia. }
  rewrite decimalValue_app in Hv |- *. cbn [decimalValue] in Hv |- *.
  destruct t as [|a t'].
  - cbn [decimalValue String.append].
    replace (0 * 10 + (byteOf c - 48)) with (byteOf c - 48) by lia.
    rewrite formatBits_digit by exact Hdc. rewrite digitChar_digit by exact Hc. reflexivity.
  - assert (Hlt : leading (String a t') = true) by exact Hl.
    pose proof (leading_positive _ Ht Hlt) as Hpos.
    destruct fuel as [|f].
    + change (10 ^ (N.of_nat 0 + 1)) with 10 in Hv. lia.
    + rewrite formatBits_step by assumption.
      rewrite (IH f); [|exact Ht|exact Hlt|].
      * rewrite digitChar_digit by exact Hc. symmetry. apply string_app_assoc1.
      * replace (N.of_nat (S f) + 1) with (N.succ (N.of_nat f + 1)) in Hv by lia.
        rewrite N.pow_succ_r' in Hv. lia.
Qed.

Lemma canonicalDecimal_spec s :
  s <> "" -> allDigits s = true ->
  allDigits (canonicalDecimal s) = true
  /\ decimalValue (canonicalDecimal s) 0 = decimalValue s 0
  /\ (canonicalDecimal s = "0" \/ leading (canonicalDecimal s) = true).
Proof.
  induction s as [|c r IH]; [congruence|]. intros _ Hd.
  destruct (Ascii.eqb c "0") eqn:Ec.
  - apply Ascii.eqb_eq in Ec. subst c. destruct r as [|c' r'].
    + cbn. auto.
    + cbn [allDigits] in Hd. apply andb_true_iff in Hd. destruct Hd as [_ Hr].
      destruct IH as (H1 & H2 & H3); [discriminate|exact Hr|].
      change (canonicalDecimal (String "0" (String c' r'))) with (canonicalDecimal (String c' r')).
      repeat split; [exact H1| |exact H3]. rewrite H2. reflexivity.
  - assert (E : canonicalDecimal (String c r) = String c r).
    { destruct c as [[] [] [] [] [] [] [] []]; try reflexivity. discriminate Ec. }
    rewrite E. repeat split; [exact Hd|]. right. cbn. rewrite Ec. reflexivity.
Qed.

(** Printing the number a text denotes gives the text without its leading
    zeros. *)
Lemma ParseUint_canonical s k : ParseUint s = Ok k -> Sprintf_d k = canonicalDecimal s.
Proof.
  intros Hp. destruct (ParseUint_inv s k Hp) as (Hne & Hd & -> & Hle).
  destruct (canonicalDecimal_spec s Hne Hd) as (Hcd & Hcv & [E|Hl]).
  - rewrite <- Hcv, E. reflexivity.
  - rewrite <- Hcv in Hle |- *. unfold Sprintf_d.
    rewrite (formatBits_leading _ 20 "" Hcd Hl); [apply string_app_empty|].
    unfold maxUint64 in Hle. change (10 ^ (N.of_nat 20 + 1)) with 1000000000000000000000. lia.
Qed.

(** *** A field that the input gives once *)

Lemma lastMatch_absent n ms :
  List.filter (fun kv => keyMatches n (fst kv)) ms = [] -> lastMatch n ms = None.
Proof.
  induction ms as [|[k v] r IH]; [reflexivity|]. cbn [List.filter fst lastMatch].
  destruct (keyMatches n k); [discriminate|]. intros H. rewrite (IH H). reflexivity.
Qed.

Lemma lastMatch_single n v ms :
  map snd (List.filter (fun kv => keyMatches n (fst kv)) ms) = [v] -> lastMatch n ms = Some v.
Proof.
  induction ms as [|[k w] r IH]; [discriminate|]. cbn [List.filter fst lastMatch].
  destruct (keyMatches n k) eqn:Hk.
  - cbn [map snd]. intros [= -> Hr]. apply map_eq_nil in Hr.
    rewrite (lastMatch_absent _ _ Hr). reflexivity.
  - intros H. rewrite (IH H). reflexivity.
Qed.

(** The strings an array binds to without an error: its elements, with
    the empty string for null. *)
Lemma bindElements_inv S n l : forall ss,
  bindElements S n [] l = (ss, None) ->
  Forall2 (fun v s => v = JString s \/ (v = JNull /\ s = "")) l ss.
Proof.
  induction l as [|v r IH]; intros ss H; cbn [bindElements hd tl] in H.
  - injection H as <-. constructor.
  - destruct (bindString S n "" v) as [s e] eqn:Es.
    destruct (bindElements S n [] r) as [rs er] eqn:Er.
    destruct e as [e|]; [discriminate|]. injection H as <- ->.
    constructor; [|apply IH; reflexivity].
    destruct v; cbn in Es; try discriminate; injection Es as <-; auto.
Qed.

Lemma canonical_elements guard l : forall ss bs,
  Forall2 (fun v s => v = JString s \/ (v = JNull /\ s = "")) l ss ->
  Forall2 (decodes guard) ss bs ->
  map (fun x => JString (Sprintf_hx x)) bs = map canonicalElement l.
Proof.
  induction l as [|v r IH]; intros ss bs Hl Hs.
  - inversion Hl; subst. inversion Hs; subst. reflexivity.
  - inversion Hl as [|v' s r' rs Hv Hr]; subst. inversion Hs as [|s' b rs' rb Hd Hrb]; subst.
    cbn [map]. rewrite (IH rs rb Hr Hrb).
    destruct Hv as [->|[-> ->]].
    + cbn [canonicalElement]. rewrite (decodes_canonical guard s b Hd). reflexivity.
    + exfalso. exact (decodes_nonempty guard "" b Hd eq_refl).
Qed.

Section Once.
Context {J : Type} (ty S : string) (fs : list (string * field J)) (zeroJ : J).
Hypothesis WF : wellFormed fs.

(** Along the members of an object that binds, the one member of a field
    leaves in it what it leaves in the field of the struct before. *)
Lemma bindMembers_single i n d v ms : forall jso j1,
  fs !! i = Some (n, d) ->
  bindMembers (bindStruct S fs) ms jso None = Ok (j1, None) ->
  map snd (List.filter (fun kv => keyMatches n (fst kv)) ms) = [v] ->
  exists j2, bindField S n d jso v = Ok (j2, None) /\ sameOn d j2 j1.
Proof.
  induction ms as [|[k w] r IH]; intros jso j1 Hi E Hf; [discriminate Hf|].
  apply (bindMembers_clean_head S fs) in E. destruct E as (j' & E1 & _ & E).
  cbn [List.filter fst] in Hf. destruct (keyMatches n k) eqn:Hk.
  - cbn [map snd] in Hf. injection Hf as -> Hr. apply map_eq_nil in Hr.
    rewrite (bindStruct_hit S fs WF i n d _ _ _ Hi Hk) in E1.
    exists j'. split; [exact E1|]. eapply (bindMembers_others S fs WF); eassumption.
  - destruct (IH j' j1 Hi E Hf) as (j2 & E2 & Hs).
    pose proof (bindStruct_frame S fs WF i n d _ _ _ _ _ Hi Hk E1) as Hfr.
    destruct (bindField_own S n d j' jso v j2 None) as (j3 & E3 & Hs3);
      [destruct WF as (_ & Hpg & _); eapply Hpg; exact Hi
      |apply (sameOn_sym d); exact Hfr|exact E2|].
    exists j3. split; [exact E3|].
    eapply (sameOn_trans d); [apply (sameOn_sym d); exact Hs3|exact Hs].
Qed.

(** A field that the input gives at most once holds what the zero struct
    holds, or what the one value of the input leaves in it. *)
Lemma struct_once i n d input jso :
  fs !! i = Some (n, d) ->
  unmarshalStruct ty zeroJ (bindStruct S fs) input = Ok jso ->
  (length (valuesFor n input) <= 1)%nat ->
  sameOn d zeroJ jso
  \/ exists v j2, fieldOf n input = Some v
                  /\ bindField S n d zeroJ v = Ok (j2, None) /\ sameOn d j2 jso.
Proof.
  intros Hi H Hlen. apply (struct_members ty S fs zeroJ) in H.
  destruct H as [[-> ->]|(ms & -> & E)]; [left; apply sameOn_refl|].
  cbn [valuesFor] in Hlen.
  destruct (map snd (List.filter (fun kv => keyMatches n (fst kv)) ms)) as [|v [|w r]] eqn:Hv.
  - left. apply map_eq_nil in Hv. eapply (bindMembers_others S fs WF); eassumption.
  - right. destruct (bindMembers_single i n d v ms zeroJ jso Hi E Hv) as (j2 & E2 & Hs).
    exists v, j2. repeat split; [|exact E2|exact Hs]. cbn [fieldOf]. apply lastMatch_single. exact Hv.
  - cbn in Hlen. lia.
Qed.

Lemma canonical_ptr i n T (c : JSONCodec T) (get : J -> option T) put input jso :
  fs !! i = Some (n, ptrField get put) -> get zeroJ = None ->
  unmarshalStruct ty zeroJ (bindStruct S fs) input = Ok jso ->
  (length (valuesFor n input) <= 1)%nat -> get jso <> None ->
  marshalPtr (get jso) = canonicalPtr (fieldOf n input).
Proof.
  intros Hi H0 H Hlen Hnn.
  destruct (struct_once i n _ input jso Hi H Hlen) as [Hs|(v & j2 & Hf & E & Hs)];
    cbn [sameOn] in Hs; [congruence|].
  rewrite Hf. cbn [canonicalPtr]. cbn [bindField] in E. rewrite H0 in E.
  destruct WF as (_ & Hpg & _). pose proof (Hpg _ _ _ Hi) as Hg. cbn [putGet] in Hg.
  unfold bindPtr in E. destruct v; cbn [bind] in E;
    try (destruct (UnmarshalJSON zero _) as [x [e|]] eqn:Eu; cbn [bind] in E;
         [discriminate|]; injection E as <-; rewrite Hg in Hs; rewrite <- Hs;
         reflexivity).
  injection E as <-. rewrite Hg in Hs. congruence.
Qed.

Lemma canonical_strings i n (get : J -> option (list string)) put input jso guard f bs :
  fs !! i = Some (n, stringsField get put) -> get zeroJ = None ->
  unmarshalStruct ty zeroJ (bindStruct S fs) input = Ok jso ->
  (length (valuesFor n input) <= 1)%nat ->
  branchResult guard f (get jso) = Ok bs ->
  marshalBranch bs = canonicalBranch (fieldOf n input).
Proof.
  intros Hi H0 H Hlen Hr.
  destruct WF as (_ & Hpg & _). pose proof (Hpg _ _ _ Hi) as Hg. cbn [putGet] in Hg.
  destruct (struct_once i n _ input jso Hi H Hlen) as [Hs|(v & j2 & Hf & E & Hs)];
    cbn [sameOn] in Hs.
  - rewrite <- Hs, H0 in Hr. discriminate Hr.
  - rewrite Hf. cbn [bindField] in E.
    destruct (bindStrings S n (get zeroJ) v) as [x e] eqn:Eb. injection E as <- ->.
    rewrite Hg in Hs. subst x. unfold bindStrings in Eb. rewrite H0 in Eb.
    destruct v; try discriminate Eb.
    + injection Eb as Eb. rewrite <- Eb in Hr. discriminate Hr.
    + destruct (bindElements S n [] elements) as [ss e] eqn:Ee. injection Eb as Eb ->.
      rewrite <- Eb in Hr. destruct (branchResult_ok guard f ss bs Hr) as [_ Hall].
      cbn [canonicalBranch]. unfold marshalBranch. f_equal.
      eapply canonical_elements; [apply (bindElements_inv S n); exact Ee|exact Hall].
Qed.

Lemma canonical_string i n (get : J -> string) put input jso k :
  fs !! i = Some (n, stringField get put) -> get zeroJ = "" ->
  unmarshalStruct ty zeroJ (bindStruct S fs) input = Ok jso ->
  (length (valuesFor n input) <= 1)%nat ->
  get jso <> "" -> ParseUint (get jso) = Ok k ->
  JString (Sprintf_d k) = canonicalSlot (fieldOf n input).
Proof.
  intros Hi H0 H Hlen Hne Hp.
  destruct WF as (_ & Hpg & _). pose proof (Hpg _ _ _ Hi) as Hg. cbn [putGet] in Hg.
  destruct (struct_once i n _ input jso Hi H Hlen) as [Hs|(v & j2 & Hf & E & Hs)];
    cbn [sameOn] in Hs; [congruence|].
  rewrite Hf. cbn [bindField] in E.
  destruct (bindString S n (get zeroJ) v) as [x e] eqn:Eb. injection E as <- ->.
  rewrite Hg in Hs. subst x. unfold bindString in Eb.
  destruct v; try discriminate Eb.
  - injection Eb as Eb. congruence.
  - injection Eb as Eb. rewrite <- Eb in Hp. cbn [canonicalSlot].
    rewrite (ParseUint_canonical _ _ Hp). reflexivity.
Qed.
End Once.

Section Family.
Context {BeaconBlockHeader SyncCommittee SyncAggregate ExecutionPayloadHeader : Type}.
Context `{!JSONCodec BeaconBlockHeader, !JSONCodec SyncCommittee,
          !JSONCodec SyncAggregate, !JSONCodec ExecutionPayloadHeader}.

Abbreviation recordOf :=
  (@Records.recordOf BeaconBlockHeader SyncCommittee SyncAggregate ExecutionPayloadHeader).
Abbreviation decode :=
  (@Records.decode BeaconBlockHeader SyncCommittee SyncAggregate ExecutionPayloadHeader _ _ _ _).
Abbreviation encode :=
  (@Records.encode BeaconBlockHeader SyncCommittee SyncAggregate ExecutionPayloadHeader _ _ _ _).
Abbreviation canonical :=
  (@Records.canonical BeaconBlockHeader SyncCommittee SyncAggregate ExecutionPayloadHeader
     _ _ _ _).

Ltac once_at Honce := apply Honce; cbn; tauto.

Ltac canonical_field Hb Honce WF :=
  match type of Hb with
  | unmarshalStruct ?ty ?z (bindStruct ?S ?fs) ?input = Ok ?jso =>
      match goal with
      | |- marshalPtr _ = canonicalPtr (fieldOf ?f _) =>
          let i := field_index fs f in
          eapply (canonical_ptr ty S fs z WF i);
            [reflexivity|reflexivity|exact Hb|once_at Honce|assumption]
      | |- marshalBranch _ = canonicalBranch (fieldOf ?f _) =>
          let i := field_index fs f in
          eapply (canonical_strings ty S fs z WF i);
            [reflexivity|reflexivity|exact Hb|once_at Honce|eassumption]
      | |- JString (Sprintf_d _) = canonicalSlot (fieldOf ?f _) =>
          let i := field_index fs f in
          eapply (canonical_string ty S fs z WF i);
            [reflexivity|reflexivity|exact Hb|once_at Honce|assumption|eassumption]
      end
  end.

(** Re-encoding what was decoded gives the canonical rendering of the
    input, for an input that names each field at most once. *)
Lemma family_canonical r (l x : recordOf r) input :
  decode r l input = (x, None) -> givenOnce r input -> encode r x = canonical r input.
Proof.
  intros Hd Honce. destruct (decoded_done r l x input Hd) as (jso & Hb & Hdone).
  unfold Records.givenOnce in Honce.
  destruct r; open_bound Hb; all_done Hdone;
    match type of Hb with
    | unmarshalStruct _ _ (bindStruct _ ?fs) _ = _ => get_wf fs WF
    end;
    repeat match goal with H : _ /\ _ |- _ => destruct H end;
    unfold Records.encode, Records.canonical;
    cbn [Records.codecOf Go.MarshalJSON
         v1_LightClientUpdate.codec v1_LightClientUpdate.MarshalJSON
         v1_LightClientFinalityUpdate.codec v1_LightClientFinalityUpdate.MarshalJSON
         v1_LightClientBootstrap.codec v1_LightClientBootstrap.MarshalJSON
         altair_LightClientHeader.codec altair_LightClientHeader.MarshalJSON
         altair_LightClientOptimisticUpdate.codec altair_LightClientOptimisticUpdate.MarshalJSON
         capella_LightClientHeader.codec capella_LightClientHeader.MarshalJSON
         capella_LightClientBootstrap.codec capella_LightClientBootstrap.MarshalJSON];
    unfold v1_LightClientUpdate.MarshalJSON, v1_LightClientFinalityUpdate.MarshalJSON,
      v1_LightClientBootstrap.MarshalJSON, altair_LightClientHeader.MarshalJSON,
      altair_LightClientOptimisticUpdate.MarshalJSON, capella_LightClientHeader.MarshalJSON,
      capella_LightClientBootstrap.MarshalJSON;
    repeat match goal with
           | H : _ x = _ |- _ => rewrite H
           end;
    repeat f_equal; canonical_field Hb Honce WF.
Qed.
End Family.
End CanonicalFacts.

(** The tables of the repository's tests for the records, run on the
    embedding: the error texts are those the tests expect, and a good
    input is rendered back as it was. *)
Module Tests.
Import Go Branch Codec Records Fixture.

Abbreviation decodeX :=
  (@Records.decode object object object object _ _ _ _).
Abbreviation encodeX :=
  (@Records.encode object object object object _ _ _ _).

(** The text of the error of a decoding, [None] when there is none. *)
Abbreviation errorOf r input := (option_map Error (snd (decodeX r zero input))).
(** The rendering of what a decoding leaves in the receiver. *)
Abbreviation rendered r input := (encodeX r (fst (decodeX r zero input))).

(** spec/altair/lightclientheader_test.go *)
Example altair_header_JSONBad :
  errorOf AltairHeader (JArray [])
  = Some "invalid JSON: json: cannot unmarshal array into Go value of type altair.lightClientHeaderJSON".
Proof. vm_compute. reflexivity. Qed.

Example altair_header_BeaconMissing :
  errorOf AltairHeader (JObject [])
  = Some "beacon missing".
Proof. vm_compute. reflexivity. Qed.

Example altair_header_Good :
  errorOf AltairHeader altairHeader = None
  /\ rendered AltairHeader altairHeader = altairHeader.
Proof. split; vm_compute; reflexivity. Qed.

(** spec/altair/lightclientoptimisticupdate_test.go *)
Example optimistic_JSONBad :
  errorOf AltairOptimisticUpdate (JArray [])
  = Some "invalid JSON: json: cannot unmarshal array into Go value of type altair.lightClientOptimisticUpdateJSON".
Proof. vm_compute. reflexivity. Qed.

Example optimistic_AttestedHeaderMissing :
  errorOf AltairOptimisticUpdate (JObject [("sync_aggregate", aggregate); ("signature_slot", JString "1234")])
  = Some "attested_header missing".
Proof. vm_compute. reflexivity. Qed.

Example optimistic_SyncAggregateMissing :
  errorOf AltairOptimisticUpdate (JObject [("attested_header", altairHeader); ("signature_slot", JString "1234")])
  = Some "sync_aggregate missing".
Proof. vm_compute. reflexivity. Qed.

Example optimistic_SignatureSlotMissing :
  errorOf AltairOptimisticUpdate (JObject [("attested_header", altairHeader); ("sync_aggregate", aggregate)])
  = Some "signature_slot missing".
Proof. vm_compute. reflexivity. Qed.

Example optimistic_SignatureSlotWrongType :
  errorOf AltairOptimisticUpdate (optimisticUpdate (JBool true))
  = Some "invalid JSON: json: cannot unmarshal bool into Go struct field lightClientOptimisticUpdateJSON.signature_slot of type string".
Proof. vm_compute. reflexivity. Qed.

Example optimistic_SignatureSlotInvalid :
  errorOf AltairOptimisticUpdate (optimisticUpdate (JString "-1"))
  = Some ("invalid value for slot: strconv.ParseUint: parsing "
            ++ dquote ++ "-1" ++ dquote ++ ": invalid syntax").
Proof. vm_compute. reflexivity. Qed.

Example optimistic_Good :
  errorOf AltairOptimisticUpdate (optimisticUpdate (JString "1234")) = None
  /\ rendered AltairOptimisticUpdate (optimisticUpdate (JString "1234")) = (optimisticUpdate (JString "1234")).
Proof. split; vm_compute; reflexivity. Qed.

(** spec/capella/lightclientheader_test.go *)
Example capella_header_JSONBad :
  errorOf CapellaHeader (JArray [])
  = Some "invalid JSON: json: cannot unmarshal array into Go value of type capella.lightClientHeaderJSON".
Proof. vm_compute. reflexivity. Qed.

Example capella_header_BeaconMissing :
  errorOf CapellaHeader (JObject [("execution", execution); ("execution_branch", branchOf 4)])
  = Some "beacon missing".
Proof. vm_compute. reflexivity. Qed.

Example capella_header_ExecutionMissing :
  errorOf CapellaHeader (JObject [("beacon", header); ("execution_branch", branchOf 4)])
  = Some "execution missing".
Proof. vm_compute. reflexivity. Qed.

Example capella_header_ExecutionBranchMissing :
  errorOf CapellaHeader (JObject [("beacon", header); ("execution", execution)])
  = Some "execution_branch missing".
Proof. vm_compute. reflexivity. Qed.

Example capella_header_Good :
  errorOf CapellaHeader capellaHeader = None
  /\ rendered CapellaHeader capellaHeader = capellaHeader.
Proof. split; vm_compute; reflexivity. Qed.

(** The element checks, on the update of api/v1 (the tests of the deneb
    update expect the same texts of its decoder, which has the same loops). *)
Example update_BranchWrongType :
  errorOf V1Update (updateJSON (JBool true) (JString "1234"))
  = Some "invalid JSON: json: cannot unmarshal bool into Go struct field lightClientUpdateJSON.finality_branch of type []string".
Proof. vm_compute. reflexivity. Qed.

Example update_BranchElementWrongType :
  errorOf V1Update (updateJSON (JArray [JNumber "1"]) (JString "1234"))
  = Some "invalid JSON: json: cannot unmarshal number into Go struct field lightClientUpdateJSON.finality_branch of type string".
Proof. vm_compute. reflexivity. Qed.

Example update_BranchElementInvalid :
  errorOf V1Update (updateJSON (JArray [JString "invalid"]) (JString "1234"))
  = Some "invalid value for finality_branch[0]: encoding/hex: invalid byte: U+0069 'i'".
Proof. vm_compute. reflexivity. Qed.

Example update_BranchElementShort :
  errorOf V1Update (updateJSON (JArray [JString "0x12acde"]) (JString "1234"))
  = Some "invalid length of finality_branch[0]".
Proof. vm_compute. reflexivity. Qed.

Example update_Good :
  errorOf V1Update goodUpdate = None /\ rendered V1Update goodUpdate = goodUpdate.
Proof. split; vm_compute; reflexivity. Qed.

End Tests.

(* ===================================================================== *)
(** * The specification, claim by claim                                   *)
(* ===================================================================== *)

Module Claims.
Import Go Branch Codec Records HTTP GoFacts BindingFacts LoopFacts StageFacts.
Import RecordFacts FamilyFacts DecoderFacts OrderFacts FieldFacts CanonicalFacts.
Import LawTactics RecordLaws ClaimFacts.

(** ** The textual codec of the records *)
Section Textual.
Context {BeaconBlockHeader SyncCommittee SyncAggregate ExecutionPayloadHeader : Type}.
Context `{!JSONCodec BeaconBlockHeader, !JSONCodec SyncCommittee,
          !JSONCodec SyncAggregate, !JSONCodec ExecutionPayloadHeader}.

Abbreviation recordOf :=
  (@Records.recordOf BeaconBlockHeader SyncCommittee SyncAggregate ExecutionPayloadHeader).
Abbreviation jsoOf :=
  (@Records.jsoOf BeaconBlockHeader SyncCommittee SyncAggregate ExecutionPayloadHeader).
Abbreviation stagesOf :=
  (@Records.stagesOf BeaconBlockHeader SyncCommittee SyncAggregate ExecutionPayloadHeader).
Abbreviation failsWith :=
  (@Records.failsWith BeaconBlockHeader SyncCommittee SyncAggregate ExecutionPayloadHeader
     _ _ _ _).
Abbreviation binds :=
  (@Records.binds BeaconBlockHeader SyncCommittee SyncAggregate ExecutionPayloadHeader _ _ _ _).
Abbreviation wellBefore :=
  (@Records.wellBefore BeaconBlockHeader SyncCommittee SyncAggregate ExecutionPayloadHeader
     _ _ _ _).
Abbreviation decode :=
  (@Records.decode BeaconBlockHeader SyncCommittee SyncAggregate ExecutionPayloadHeader _ _ _ _).
Abbreviation encode :=
  (@Records.encode BeaconBlockHeader SyncCommittee SyncAggregate ExecutionPayloadHeader _ _ _ _).
Abbreviation bound :=
  (@Records.bound BeaconBlockHeader SyncCommittee SyncAggregate ExecutionPayloadHeader _ _ _ _).

(** C4.  Every required field has its own check: an input in which the
    field is absent or null fails with exactly "<field> missing", and a
    branch that is present but empty with exactly "<field> length cannot
    be 0", whenever the input binds to the struct and the fields declared
    before are given as in an accepted input; what the fields declared
    after hold plays no part.  In particular an accepted input from which
    the members of one required field are left out, or in which they are
    null (resp. the empty array), fails with the error of that field: no
    other field needs to be absent. *)
Theorem required_field_missing (r : recordType) (l : recordOf r) (f : string) :
  In f (fields r) ->
  (forall input, binds r input -> wellBefore r f input -> absentOrNull f input ->
     failsWith r l input (errorsNew (f ++ " missing")))
  /\ (forall ms (l0 x : recordOf r), decode r l0 (JObject ms) = (x, None) ->
        failsWith r l (JObject (without f ms)) (errorsNew (f ++ " missing"))
        /\ failsWith r l (JObject (replaced f JNull ms)) (errorsNew (f ++ " missing")))
  /\ (forall guard, In (f, guard) (branches r) ->
        (forall input, binds r input -> wellBefore r f input ->
           fieldOf f input = Some (JArray []) ->
           failsWith r l input (errorsNew (f ++ " length cannot be 0")))
        /\ (forall ms (l0 x : recordOf r), decode r l0 (JObject ms) = (x, None) ->
              failsWith r l (JObject (replaced f (JArray []) ms))
                (errorsNew (f ++ " length cannot be 0")))).
Proof.
  intros Hin.
  assert (Hmissing : forall input, binds r input -> wellBefore r f input ->
            absentOrNull f input -> failsWith r l input (errorsNew (f ++ " missing"))).
  { intros input Hb Hw Habs. apply (family_exact r l input f); [exact Hb|exact Hw|].
    intros jso Hj. exact (family_null r f input jso Hin Habs Hj). }
  assert (Hempty : forall guard input, In (f, guard) (branches r) -> binds r input ->
            wellBefore r f input -> fieldOf f input = Some (JArray []) ->
            failsWith r l input (errorsNew (f ++ " length cannot be 0"))).
  { intros guard input Hbr Hb Hw Hf. apply (family_exact r l input f); [exact Hb|exact Hw|].
    intros jso Hj.
    destruct (family_branch r f guard input [] jso Hbr Hf Hj) as (i & s & Hi & Hn & Hfail).
    exists i, s. repeat split; [exact Hi|exact Hn|]. apply Hfail. reflexivity. }
  split; [exact Hmissing|]. split.
  - intros ms l0 x Hdec. pose proof (family_accepted_binds r l0 x _ Hdec) as Hb. split.
    + apply Hmissing.
      * apply family_binds_without; assumption.
      * eapply family_wellBefore; [exact Hdec|]. intros g Hg. apply valuesFor_without. exact Hg.
      * exists (without f ms). split; [reflexivity|apply without_null].
    + apply Hmissing.
      * apply family_binds_null; assumption.
      * eapply family_wellBefore; [exact Hdec|]. intros g Hg. apply valuesFor_replaced. exact Hg.
      * exists (replaced f JNull ms). split; [reflexivity|apply replaced_null].
  - intros guard Hbr. split; [intros input; apply (Hempty guard input Hbr)|].
    intros ms l0 x Hdec. pose proof (family_accepted_binds r l0 x _ Hdec) as Hb.
    destruct (family_present r f ms l0 x Hin Hdec) as [v Hv].
    apply (Hempty guard); [exact Hbr| | |].
    + apply (family_binds_strings r f guard [] ms); assumption.
    + eapply family_wellBefore; [exact Hdec|]. intros g Hg. apply valuesFor_replaced. exact Hg.
    + cbn [fieldOf]. eapply lastMatch_replaced. exact Hv.
Qed.

Lemma element_fails r (l : recordOf r) input f guard ss i s bad err :
  In (f, guard) (branches r) -> binds r input -> wellBefore r f input ->
  fieldOf f input = Some (JArray (map JString ss)) ->
  firstBadAt guard ss i s -> decodeElement guard s = bad ->
  elementError f i bad = Some err ->
  failsWith r l input err.
Proof.
  intros Hin Hb Hw Hf Hbad Hs He. apply (family_exact r l input f); [exact Hb|exact Hw|].
  intros jso Hj.
  destruct (family_branch r f guard input ss jso Hin Hf Hj) as (k & st & Hk & Hn & Hfail).
  exists k, st. repeat split; [exact Hk|exact Hn|]. apply Hfail.
  eapply branchResult_firstBad; eassumption.
Qed.

(** C5 (amended).  For every branch field the 0x prefix of an element is
    optional.  When the input binds to the struct and the fields declared
    before are given as in an accepted input, the first element that does
    not decode to 32 bytes makes decoding fail with exactly this error:
    "invalid length of <field>[<i>]" when its hexadecimal text has another
    length, "invalid value for <field>[<i>]" (wrapping the error of
    encoding/hex) when it is no hexadecimal text, and "<field>[<i>]
    missing" when it is the empty string and the loop of that field looks
    for it (the records whose branch elements are byte slices); an empty
    string falls under the length check in the other records. *)
Theorem branch_element_checked (r : recordType) (l : recordOf r) (input : json)
    (f : string) (guard : bool) (ss : list string) (i : nat) (s : string) :
  In (f, guard) (branches r) ->
  binds r input -> wellBefore r f input ->
  fieldOf f input = Some (JArray (map JString ss)) ->
  firstBadAt guard ss i s ->
  (forall b, wellSized b ->
     decodes guard ("0x" ++ hexEncode b) b /\ decodes guard (hexEncode b) b)
  /\ (forall b, (guard = false \/ s <> "") ->
        hexDecode (TrimPrefix s "0x") = (b, None) -> length b <> 32%nat ->
        failsWith r l input
          (errorsNew ("invalid length of " ++ f ++ "[" ++ Sprintf_idx i ++ "]")))
  /\ (forall b e, (guard = false \/ s <> "") ->
        hexDecode (TrimPrefix s "0x") = (b, Some e) ->
        failsWith r l input
          (errorsWrap e ("invalid value for " ++ f ++ "[" ++ Sprintf_idx i ++ "]")))
  /\ (guard = true -> s = "" ->
        failsWith r l input (errorsNew (f ++ "[" ++ Sprintf_idx i ++ "] missing"))).
Proof.
  intros Hin Hb Hw Hf Hbad.
  assert (Hguard : forall (P : Prop), (guard = false \/ s <> "") ->
            guard && String.eqb s "" = false).
  { intros _ [->|Hne]; [reflexivity|]. apply andb_false_iff. right.
    apply String.eqb_neq. exact Hne. }
  split; [|split; [|split]].
  - intros b Hwb. split.
    + unfold decodes.
      replace ("0x" ++ hexEncode b) with (Sprintf_hx b);
        [apply decodeElement_Sprintf_hx; exact Hwb|].
      destruct Hwb as [Hl _]. destruct b; [discriminate|reflexivity].
    + apply decodeElement_hexEncode. exact Hwb.
  - intros b Hg Hh Hl.
    eapply (element_fails r l input f guard ss i s (InvalidLength b)); try eassumption.
    + unfold decodeElement. rewrite (Hguard True Hg), Hh.
      destruct (Nat.eqb (length b) 32) eqn:E; [apply Nat.eqb_eq in E; contradiction|reflexivity].
    + reflexivity.
  - intros b e Hg Hh.
    eapply (element_fails r l input f guard ss i s (InvalidValue e)); try eassumption.
    + unfold decodeElement. rewrite (Hguard True Hg), Hh. reflexivity.
    + reflexivity.
  - intros -> ->.
    eapply (element_fails r l input f true ss i "" Missing); try eassumption; reflexivity.
Qed.



(** C10.  Decoding is not atomic.  When the decoding of a record fails
    after the input was bound to the struct, the error is about the field
    of one stage, and every stage before it is done in the receiver that
    is left behind: the pointer, the branch or the slot of each earlier
    field holds the decoded value.  Only an input that does not bind
    leaves the receiver as it was. *)
Theorem decoding_not_atomic (r : recordType) (l l' : recordOf r) (input : json)
    (e : error) :
  decode r l input = (l', Some e) ->
  (invalidJSON e /\ l' = l /\ exists c, bound r input = Err c)
  \/ exists (jso : jsoOf r) (g : nat) (s : stage (recordOf r)),
       bound r input = Ok jso
       /\ stagesOf r jso !! g = Some s
       /\ blames (stageName s) e
       /\ forall i si, (i < g)%nat -> stagesOf r jso !! i = Some si -> done si l'.
Proof.
  rewrite family_decode. destruct (bound r input) as [jso|c] eqn:Hb.
  - unfold run. destruct (runStages (stagesOf r jso) l) as [l1 [[]|e1]] eqn:Hr;
      intros H; [discriminate H|]. injection H as -> ->.
    right. destruct (runStages_fail _ _ _ _ (family_sound r jso) Hr) as (g & s & Hg & Hbl & Hd).
    exists jso, g, s. repeat split; assumption.
  - intros [= <- <-]. left. split; [exists c; reflexivity|].
    split; [reflexivity|exists c; reflexivity].
Qed.
End Textual.

(** ** The round trip of the textual codec *)
Section RoundTrip.
Context {BeaconBlockHeader SyncCommittee SyncAggregate ExecutionPayloadHeader : Type}.
Context `{!JSONCodec BeaconBlockHeader, !JSONCodec SyncCommittee,
          !JSONCodec SyncAggregate, !JSONCodec ExecutionPayloadHeader}.
Context `{!Valid BeaconBlockHeader, !Valid SyncCommittee,
          !Valid SyncAggregate, !Valid ExecutionPayloadHeader}.
Context `{!Lawful BeaconBlockHeader, !Lawful SyncCommittee,
          !Lawful SyncAggregate, !Lawful ExecutionPayloadHeader}.

Abbreviation recordOf :=
  (@Records.recordOf BeaconBlockHeader SyncCommittee SyncAggregate ExecutionPayloadHeader).
Abbreviation decode :=
  (@Records.decode BeaconBlockHeader SyncCommittee SyncAggregate ExecutionPayloadHeader _ _ _ _).
Abbreviation encode :=
  (@Records.encode BeaconBlockHeader SyncCommittee SyncAggregate ExecutionPayloadHeader _ _ _ _).
Abbreviation canonical :=
  (@Records.canonical BeaconBlockHeader SyncCommittee SyncAggregate ExecutionPayloadHeader
     _ _ _ _).
Abbreviation validRecord :=
  (@Records.validRecord BeaconBlockHeader SyncCommittee SyncAggregate ExecutionPayloadHeader
     _ _ _ _).

Ltac set_pointers :=
  repeat match goal with
         | H : _ /\ _ |- _ => destruct H
         | H : validPtr ?p |- _ =>
             is_var p; destruct p; [cbn [validPtr] in H|contradiction H]
         end.

Lemma valid_decoded_back (r : recordType) (x l : recordOf r) :
  validRecord r x -> decode r l (encode r x) = (x, None).
Proof.
  destruct r; intros Hv; destruct x;
    cbn [Records.validRecord] in Hv;
    unfold valid, validAltairHeader, validCapellaHeader in Hv;
    cbn -[validPtr validBranch validSlot] in Hv; set_pointers;
    cbn [Records.decode Records.encode Records.codecOf UnmarshalJSON MarshalJSON].
  - apply v1_update_roundtrip; assumption.
  - apply v1_finality_roundtrip; assumption.
  - apply v1_bootstrap_roundtrip; assumption.
  - apply altair_header_roundtrip; assumption.
  - apply altair_optimistic_roundtrip; assumption.
  - apply capella_header_roundtrip; assumption.
  - apply capella_bootstrap_roundtrip; assumption.
Qed.

Lemma decoded_valid (r : recordType) (l x : recordOf r) (input : json) :
  decode r l input = (x, None) -> validRecord r x.
Proof.
  destruct r; cbn [Records.decode Records.codecOf UnmarshalJSON Records.validRecord].
  - apply v1_update_valid.
  - apply v1_finality_valid.
  - apply v1_bootstrap_valid.
  - apply altair_header_valid.
  - apply altair_optimistic_valid.
  - apply capella_header_valid.
  - apply capella_bootstrap_valid.
Qed.

Lemma rendering_given_once (r : recordType) (x : recordOf r) : givenOnce r (encode r x).
Proof.
  intros f Hin.
  destruct r; cbn [fields] in Hin;
    repeat (destruct Hin as [<-|Hin]; [vm_compute; lia|]); contradiction.
Qed.

(** C1 (amended).  For every record type, with nested types whose own
    codecs are inverse on their well-formed values: a well-formed record
    (every pointer set, every branch non-empty with 32 bytes per element,
    the slot below 2^64) is decoded back from its rendering, whatever the
    receiver held.  For every input that decodes: the record is well
    formed; rendering it gives the canonical rendering of the input (the
    fields in the order of declaration, each branch element as 0x and
    lowercase digits, the slot without leading zeros, the nested objects as
    their codecs render them) when the input names each field at most
    once; and the rendering is decoded back to the record, names each field
    once and is its own canonical rendering. *)
Theorem codec_round_trip (r : recordType) :
  (forall x l : recordOf r, validRecord r x -> decode r l (encode r x) = (x, None))
  /\ (forall (l x : recordOf r) (input : json),
        decode r l input = (x, None) ->
        validRecord r x
        /\ (givenOnce r input -> encode r x = canonical r input)
        /\ (forall l2 : recordOf r, decode r l2 (encode r x) = (x, None))
        /\ givenOnce r (encode r x)
        /\ canonical r (encode r x) = encode r x).
Proof.
  split.
  - intros x l. apply valid_decoded_back.
  - intros l x input Hd. pose proof (decoded_valid r l x input Hd) as Hv.
    split; [exact Hv|]. split; [apply (family_canonical r l x input Hd)|].
    split; [intros l2; apply valid_decoded_back; exact Hv|].
    split; [apply rendering_given_once|].
    symmetry. apply (family_canonical r x x).
    + apply valid_decoded_back. exact Hv.
    + apply rendering_given_once.
Qed.
End RoundTrip.

(** ** The textual codec on the examples *)
Section Examples.
Import Fixture.

Abbreviation decodeX :=
  (@Records.decode object object object object _ _ _ _).
Abbreviation encodeX :=
  (@Records.encode object object object object _ _ _ _).
Abbreviation failsWithX :=
  (@Records.failsWith object object object object _ _ _ _).
Abbreviation bindsX :=
  (@Records.binds object object object object _ _ _ _).
Abbreviation wellBeforeX :=
  (@Records.wellBefore object object object object _ _ _ _).
Abbreviation canonicalX :=
  (@Records.canonical object object object object _ _ _ _).
Abbreviation validRecordX :=
  (@Records.validRecord object object object object _ _ _ _).

(** The codec of the examples' nested type is inverse on every value. *)
Lemma objectLawful : Lawful object.
Proof.
  constructor.
  - intros x _. reflexivity.
  - intros x _. discriminate.
  - intros l x input _. exact I.
Qed.

(** An example binds, and its fields before the one at fault are those of
    the good update. *)
Ltac binds_example := eexists; vm_compute; reflexivity.

Ltac well_before :=
  let g := fresh "g" in
  let Hg := fresh "Hg" in
  intros g Hg; exists zero, (fst (decodeX V1Update zero goodUpdate)), goodUpdate;
  split; [vm_compute; reflexivity|];
  cbn [declaredBefore Records.fields] in Hg;
  repeat match type of Hg with
         | context [String.eqb ?a g] =>
             destruct (String.eqb_spec a g); [subst g; try (vm_compute; reflexivity)|]
         end;
  try discriminate Hg.

Ltac null_where :=
  eexists; split; [reflexivity|];
  unfold nullWhere; repeat constructor; cbn; intros H; discriminate H.

Lemma codec_round_trip_witness :
  let x := fst (decodeX V1Update zero looseUpdate) in
  decodeX V1Update zero looseUpdate = (x, None)
  /\ validRecordX V1Update x
  /\ encodeX V1Update x = canonicalX V1Update looseUpdate
  /\ canonicalX V1Update looseUpdate = goodUpdate
  /\ decodeX V1Update zero (encodeX V1Update x) = (x, None).
Proof.
  intros x.
  assert (Hd : decodeX V1Update zero looseUpdate = (x, None)) by (vm_compute; reflexivity).
  destruct (proj2 (@codec_round_trip object object object object _ _ _ _ _ _ _ _
                     objectLawful objectLawful objectLawful objectLawful V1Update)
              zero x looseUpdate Hd) as (Hv & Hc & Hr & _).
  split; [exact Hd|]. split; [exact Hv|]. split.
  - apply Hc. intros f Hin. cbn [fields] in Hin.
    repeat (destruct Hin as [<-|Hin]; [vm_compute; lia|]). contradiction.
  - split; [vm_compute; reflexivity|exact (Hr zero)].
Defined.

(** An input that names a field twice has no canonical rendering: the
    decoder keeps the string of the first signature_slot over the null of
    the second, and the record renders what no single member holds. *)
Lemma duplicated_field_merged :
  let input := JObject (match goodUpdate with JObject ms => ms | _ => [] end
                          ++ [("signature_slot", JNull)]) in
  snd (decodeX V1Update zero input) = None
  /\ fieldOf "signature_slot" (encodeX V1Update (fst (decodeX V1Update zero input)))
     = Some (JString "1234")
  /\ fieldOf "signature_slot" (canonicalX V1Update input) = Some JNull
  /\ ~ givenOnce V1Update input.
Proof.
  intros input. split; [vm_compute; reflexivity|]. split; [vm_compute; reflexivity|].
  split; [vm_compute; reflexivity|].
  intros H. specialize (H "signature_slot" ltac:(cbn; tauto)). vm_compute in H. lia.
Qed.

(** C1 (as stated) fails: the finality update of the mock service has an
    empty finality branch; its rendering is refused by the decoder. *)
Lemma mock_update_not_decoded_back :
  encodeX V1FinalityUpdate mockFinalityUpdate
  = JObject [("attested_header", JObject []); ("finalized_header", JObject []);
             ("finality_branch", JArray []); ("sync_aggregate", JObject []);
             ("signature_slot", JString "0")]
  /\ snd (decodeX V1FinalityUpdate zero (encodeX V1FinalityUpdate mockFinalityUpdate))
     = Some (errorsNew "finality_branch length cannot be 0")
  /\ decodeX V1FinalityUpdate zero (encodeX V1FinalityUpdate mockFinalityUpdate)
     <> (mockFinalityUpdate, None).
Proof.
  split; [vm_compute; reflexivity|]. split; [vm_compute; reflexivity|].
  vm_compute. discriminate.
Qed.

Lemma required_field_missing_witness :
  In "finalized_header" (fields V1Update)
  /\ absentOrNull "finalized_header" oneMissing
  /\ failsWithX V1Update zero oneMissing (errorsNew "finalized_header missing")
  /\ failsWithX V1Update zero
       (JObject (without "finalized_header"
                   match goodUpdate with JObject ms => ms | _ => [] end))
       (errorsNew "finalized_header missing").
Proof.
  assert (Hin : In "finalized_header" (fields V1Update)) by (cbn; tauto).
  destruct (required_field_missing V1Update zero "finalized_header" Hin) as (H1 & H2 & _).
  split; [exact Hin|]. split; [null_where|]. split.
  - apply H1; [binds_example|well_before|null_where].
  - eapply (H2 _ zero). vm_compute. reflexivity.
Defined.

(** With attested_header and finalized_header both absent the decoder
    returns the error of the first of them: it returns one error, that of
    the first check that fails. *)
Lemma first_missing_field_reported :
  absentOrNull "attested_header" twoMissing
  /\ absentOrNull "finalized_header" twoMissing
  /\ snd (decodeX V1Update zero twoMissing) = Some (errorsNew "attested_header missing").
Proof.
  split; [null_where|]. split; [null_where|]. vm_compute. reflexivity.
Qed.

Lemma branch_element_checked_witness :
  bindsX V1Update shortElement
  /\ failsWithX V1Update zero shortElement
       (errorsNew "invalid length of finality_branch[1]").
Proof.
  assert (Hb : bindsX V1Update shortElement) by binds_example.
  split; [exact Hb|].
  refine (proj1 (proj2 (branch_element_checked V1Update zero shortElement
            "finality_branch" true [root1; "0x12acde"] 1 "0x12acde" _ Hb _ _ _))
            [18; 172; 222] _ _ _).
  - cbn. tauto.
  - well_before.
  - reflexivity.
  - split; [reflexivity|]. intros j t Hj Ht.
    destruct j as [|j]; [|lia]. injection Ht as <-. eexists. vm_compute. reflexivity.
  - right. discriminate.
  - vm_compute. reflexivity.
  - cbn. lia.
Defined.

(** C5 (as stated) fails: the empty string decodes to no byte at all, and
    the error of LightClientUpdate is not "invalid length of ...". *)
Lemma empty_element_is_missing :
  hexDecode (TrimPrefix "" "0x") = ([], None)
  /\ snd (decodeX V1Update zero emptyElement)
     = Some (errorsNew "next_sync_committee_branch[0] missing")
  /\ errorsNew "next_sync_committee_branch[0] missing"
     <> errorsNew ("invalid length of " ++ "next_sync_committee_branch" ++ "[" ++ Sprintf_idx 0 ++ "]").
Proof.
  split; [reflexivity|]. split; [vm_compute; reflexivity|]. vm_compute. discriminate.
Qed.



Lemma decoding_not_atomic_witness :
  let l' := fst (decodeX V1Update zero oneMissing) in
  snd (decodeX V1Update zero oneMissing) = Some (errorsNew "finalized_header missing")
  /\ v1_LightClientUpdate.AttestedHeader l' = Some [("slot", JString "4943744");
                                                    ("proposer_index", JString "222870")]
  /\ length (v1_LightClientUpdate.NextSyncCommitteeBranch l') = 5%nat
  /\ ((invalidJSON (errorsNew "finalized_header missing") /\ l' = zero
       /\ exists c, Records.bound V1Update oneMissing = Err c)
      \/ exists jso g s,
           Records.bound V1Update oneMissing = Ok jso
           /\ Records.stagesOf V1Update jso !! g = Some s
           /\ blames (stageName s) (errorsNew "finalized_header missing")
           /\ forall i si, (i < g)%nat -> Records.stagesOf V1Update jso !! i = Some si ->
                done si l').
Proof.
  intros l'. split; [vm_compute; reflexivity|]. split; [vm_compute; reflexivity|].
  split; [vm_compute; reflexivity|].
  apply (decoding_not_atomic V1Update zero l' oneMissing). vm_compute. reflexivity.
Defined.
End Examples.

(** ** Content negotiation *)
Section Negotiation.
Variable get : string -> option httpResponse * option error.
Variable metadataFromHeaders : list (string * string) -> metadata.
Variable versionText : DataVersion -> string.
Variable decodeJSONResponse :
  forall T, JSONCodec T -> body -> T -> result (option T * metadata).
Context {A C D : Type}.
Context `{!JSONCodec A, !JSONCodec C, !JSONCodec D}.
Context `{!SSZCodec A, !SSZCodec C, !SSZCodec D}.

Abbreviation GetBootstrap :=
  (@HTTP.LightClientBootstrap get metadataFromHeaders decodeJSONResponse A C D _ _ _ _ _ _).
Abbreviation GetUpdates :=
  (@HTTP.LightClientUpdates get versionText A C D _ _ _).
Abbreviation GetFinalityUpdate :=
  (@HTTP.LightClientFinalityUpdate get metadataFromHeaders decodeJSONResponse A C D _ _ _ _ _ _).
Abbreviation GetOptimisticUpdate :=
  (@HTTP.LightClientOptimisticUpdate get metadataFromHeaders decodeJSONResponse A C D
     _ _ _ _ _ _).
Abbreviation FromSSZ := (@HTTP.fromSSZ metadataFromHeaders A C D _ _ _ _ _ _).
Abbreviation FromJSON := (@HTTP.fromJSON decodeJSONResponse A C D _ _ _).
Abbreviation UpdatesFromJSON := (@HTTP.lightClientUpdatesFromJSON versionText A C D _ _ _).
Abbreviation decodeUpdate := (@HTTP.decodeUpdate A C D _ _ _).
Abbreviation updatesLoop := (@HTTP.updatesLoop A C D _ _ _).

Abbreviation bootstrapURL block := ("/eth/v1/beacon/light_client/bootstrap/" ++ block).
Abbreviation updatesURL startPeriod count :=
  ("/eth/v1/beacon/light_client/updates?start_period="
     ++ Sprintf_d startPeriod ++ "&count=" ++ Sprintf_d count).
Abbreviation finalityURL := "/eth/v1/beacon/light_client/finality_update".
Abbreviation optimisticURL := "/eth/v1/beacon/light_client/optimistic_update".

(** The loop over the elements: all of them decode and all envelopes are
    returned, or the error of the first one that does not is returned. *)
Lemma updatesLoop_all version : forall us acc,
  (forall u, In u us -> snd (decodeUpdate version u) = None) ->
  updatesLoop version us acc
  = Ok (acc ++ map (fun u => fst (decodeUpdate version u)) us)%list.
Proof.
  induction us as [|u r IH]; intros acc Hall; cbn [HTTP.updatesLoop map].
  - rewrite app_nil_r. reflexivity.
  - pose proof (Hall u (or_introl eq_refl)) as Hu.
    destruct (decodeUpdate version u) as [d [e|]] eqn:Ed; [discriminate Hu|].
    rewrite IH by (intros u' Hin; apply Hall; right; exact Hin).
    rewrite <- app_assoc. reflexivity.
Qed.

Lemma updatesLoop_first version : forall us acc i u e,
  us !! i = Some u -> snd (decodeUpdate version u) = Some e ->
  exists j u' e', (j <= i)%nat /\ us !! j = Some u'
    /\ snd (decodeUpdate version u') = Some e'
    /\ (forall k w, (k < j)%nat -> us !! k = Some w -> snd (decodeUpdate version w) = None)
    /\ updatesLoop version us acc = Err e'.
Proof.
  induction us as [|u0 r IH]; intros acc i u e Hi He; [destruct i; discriminate|].
  cbn [HTTP.updatesLoop]. destruct (decodeUpdate version u0) as [d0 [e0|]] eqn:E0.
  - exists 0%nat, u0, e0. rewrite E0. repeat split; [lia|]. intros k w Hk. lia.
  - destruct i as [|i]; cbn in Hi.
    + injection Hi as ->. rewrite E0 in He. discriminate.
    + destruct (IH (acc ++ [d0])%list i u e Hi He) as (j & u' & e' & Hj & Hu & He' & Hb & Hl).
      exists (S j), u', e'. repeat split; [lia|exact Hu|exact He'| |exact Hl].
      intros k w Hk Hw. destruct k as [|k]; cbn in Hw.
      * injection Hw as <-. rewrite E0. reflexivity.
      * apply (Hb k w); [lia|exact Hw].
Qed.

(** C2 (amended).  GetUpdates returns all or nothing.  When the elements
    of the data list all decode, the result holds one envelope per element,
    in order; when one of them does not, the call fails with the error of
    the first such element and returns no list.  What makes an element
    fail is the decoder of the record: the number of elements of a branch
    is not among its checks. *)
Theorem updates_all_or_nothing (resp : httpResponse) (startPeriod count : N)
    (ms : list (string * json)) (v : json) (us : list json) :
  get (updatesURL startPeriod count) = (Some resp, None) ->
  contentType resp = ContentTypeJSON ->
  decodeMap (body_ resp) = Ok ms -> member "data" ms = Some v -> decodeList v = Ok us ->
  ((forall u, In u us -> snd (decodeUpdate (consensusVersion resp) u) = None) ->
     exists r, GetUpdates startPeriod count = (Some r, None)
       /\ Data r = map (fun u => fst (decodeUpdate (consensusVersion resp) u)) us)
  /\ (forall i u e, us !! i = Some u ->
        snd (decodeUpdate (consensusVersion resp) u) = Some e ->
        exists j u' e', (j <= i)%nat /\ us !! j = Some u'
          /\ snd (decodeUpdate (consensusVersion resp) u') = Some e'
          /\ (forall k w, (k < j)%nat -> us !! k = Some w ->
                snd (decodeUpdate (consensusVersion resp) w) = None)
          /\ GetUpdates startPeriod count = (None, Some e')).
Proof.
  intros Hget Hct Hm Hd Hl.
  unfold HTTP.LightClientUpdates, dispatch. rewrite Hget, Hct.
  unfold HTTP.lightClientUpdatesFromJSON. rewrite Hm, Hd, Hl. split.
  - intros Hall. rewrite (updatesLoop_all _ us [] Hall). eexists. split; reflexivity.
  - intros i u e Hi He.
    destruct (updatesLoop_first (consensusVersion resp) us [] i u e Hi He)
      as (j & u' & e' & Hj & Hu & He' & Hb & Hloop).
    exists j, u', e'. rewrite Hloop. repeat split; assumption.
Qed.

(** C8 (amended).  Bootstrap, finality update and optimistic update branch
    three ways on the content type of the response: SSZ goes to the binary
    decoder of the operation, JSON to the textual one, anything else fails
    with "unhandled content type".  GetUpdates has the textual branch only:
    every other content type, SSZ included, is unhandled. *)
Theorem encoding_dispatch (resp : httpResponse) :
  let three (op : option (Response (Versioned A C D)) * option error) :=
    op = match contentType resp with
         | ContentTypeSSZ => FromSSZ resp
         | ContentTypeJSON => FromJSON resp
         | ContentTypeOther n => (None, Some (unhandled (ContentTypeOther n)))
         end in
  (forall block, get (bootstrapURL block) = (Some resp, None) -> three (GetBootstrap block))
  /\ (get finalityURL = (Some resp, None) -> three GetFinalityUpdate)
  /\ (get optimisticURL = (Some resp, None) -> three GetOptimisticUpdate)
  /\ (forall startPeriod count,
        get (updatesURL startPeriod count) = (Some resp, None) ->
        GetUpdates startPeriod count
        = match contentType resp with
          | ContentTypeJSON => UpdatesFromJSON resp
          | c => (None, Some (unhandled c))
          end)
  /\ (forall c, Error (unhandled c) = "unhandled content type " ++ contentTypeString c).
Proof.
  intros three. subst three. cbv beta.
  unfold HTTP.LightClientBootstrap, HTTP.LightClientFinalityUpdate,
    HTTP.LightClientOptimisticUpdate, HTTP.LightClientUpdates, dispatch,
    lightClientBootstrapFromSSZ, lightClientBootstrapFromJSON,
    lightClientFinalityUpdateFromSSZ, lightClientFinalityUpdateFromJSON,
    lightClientOptimisticUpdateFromSSZ, lightClientOptimisticUpdateFromJSON.
  repeat split.
  - intros block ->. destruct (contentType resp); reflexivity.
  - intros ->. destruct (contentType resp); reflexivity.
  - intros ->. destruct (contentType resp); reflexivity.
  - intros s c ->. destruct (contentType resp); reflexivity.
Qed.

(** An envelope with one payload, tagged as the response was. *)
Abbreviation taggedAs resp := (fun d : Versioned A C D =>
  populated d /\ Version d = consensusVersion resp).

Lemma fromSSZ_populated resp r :
  FromSSZ resp = (Some r, None) -> taggedAs resp (Data r).
Proof.
  unfold HTTP.fromSSZ, switchSSZ.
  destruct (consensusVersion resp) eqn:Ev;
    try destruct (UnmarshalSSZ _ _) as [x [e|]];
    intros H; try discriminate H; injection H as <-;
    (split; [unfold populated; cbn; repeat split; discriminate|reflexivity]).
Qed.

Lemma fromJSON_populated resp r :
  (forall T (c : JSONCodec T) b res x md,
      decodeJSONResponse T c b res = Ok (x, md) -> x <> None) ->
  FromJSON resp = (Some r, None) -> taggedAs resp (Data r).
Proof.
  intros Hhelper. unfold HTTP.fromJSON, HTTP.switchJSON.
  destruct (consensusVersion resp) eqn:Ev; try discriminate;
    destruct (decodeJSONResponse _ _ _ _) as [[x md]|e] eqn:Ed; cbn [bind];
    intros H; try discriminate H; injection H as <-;
    pose proof (Hhelper _ _ _ _ _ _ Ed) as Hx;
    (split; [unfold populated; cbn; repeat split; assumption|reflexivity]).
Qed.

Lemma decodeUpdate_populated version u d :
  decodeUpdate version u = (d, None) -> populated d /\ Version d = version.
Proof.
  unfold HTTP.decodeUpdate.
  destruct version; try discriminate;
    destruct (UnmarshalJSON _ u) as [x [e|]]; intros H; try discriminate H;
    injection H as <-;
    (split; [unfold populated; cbn; repeat split; discriminate|reflexivity]).
Qed.

Lemma updatesLoop_populated version : forall us acc ds,
  updatesLoop version us acc = Ok ds ->
  Forall (fun d => populated d /\ Version d = version) acc ->
  Forall (fun d => populated d /\ Version d = version) ds.
Proof.
  induction us as [|u r IH]; intros acc ds; cbn [HTTP.updatesLoop].
  - intros [= <-] Hacc. exact Hacc.
  - destruct (decodeUpdate version u) as [d [e|]] eqn:Ed; [discriminate|].
    intros Hl Hacc. apply (IH _ _ Hl). apply Forall_app. split; [exact Hacc|].
    constructor; [|constructor]. exact (decodeUpdate_populated _ _ _ Ed).
Qed.

Lemma updatesFromJSON_populated resp r :
  UpdatesFromJSON resp = (Some r, None) -> Forall (taggedAs resp) (Data r).
Proof.
  unfold HTTP.lightClientUpdatesFromJSON.
  destruct (decodeMap (body_ resp)) as [ms|e]; [|discriminate].
  destruct (match member "data" ms with Some v => decodeList v | None => Ok [] end)
    as [us|e]; [|discriminate].
  destruct (updatesLoop (consensusVersion resp) us []) as [ds|e] eqn:El; [|discriminate].
  intros [= <-]. cbn [Data]. apply (updatesLoop_populated _ _ _ _ El). constructor.
Qed.

(** What an operation returns is what its decoder returns for the response
    that arrived. *)
Lemma dispatch_returns {R} url failed (k : httpResponse -> option R * option error) r :
  dispatch (get url) failed k = (Some r, None) ->
  exists resp, get url = (Some resp, None) /\ k resp = (Some r, None).
Proof.
  unfold dispatch. destruct (get url) as [[resp|] [e|]]; intros H; try discriminate H.
  exists resp. split; [reflexivity|exact H].
Qed.

(** C3 (amended).  A response tagged phase0 is refused with the
    unsupported-version error of that version (wrapped once by the binary
    decoders): by bootstrap, finality update and optimistic update for the
    SSZ and the JSON content type, whatever the body holds, and by
    GetUpdates for a JSON response whose body parses and whose data list
    has an element. *)
Theorem earliest_fork_rejected (resp : httpResponse) :
  consensusVersion resp = DataVersionPhase0 ->
  let refused (op : option (Response (Versioned A C D)) * option error) :=
    exists e, op = (None, Some e) /\ isUnsupported DataVersionPhase0 e in
  (contentType resp = ContentTypeSSZ \/ contentType resp = ContentTypeJSON ->
     (forall block, get (bootstrapURL block) = (Some resp, None) ->
        refused (GetBootstrap block))
     /\ (get finalityURL = (Some resp, None) -> refused GetFinalityUpdate)
     /\ (get optimisticURL = (Some resp, None) -> refused GetOptimisticUpdate))
  /\ (forall startPeriod count ms v u us,
        get (updatesURL startPeriod count) = (Some resp, None) ->
        contentType resp = ContentTypeJSON ->
        decodeMap (body_ resp) = Ok ms -> member "data" ms = Some v ->
        decodeList v = Ok (u :: us) ->
        GetUpdates startPeriod count = (None, Some (unsupported DataVersionPhase0)))
  /\ Error (unsupported DataVersionPhase0) = "unsupported version phase0".
Proof.
  intros Hv refused. subst refused. cbv beta.
  assert (Hthree : contentType resp = ContentTypeSSZ \/ contentType resp = ContentTypeJSON ->
            exists e,
              match contentType resp with
              | ContentTypeSSZ => FromSSZ resp
              | ContentTypeJSON => FromJSON resp
              | ContentTypeOther _ => (None, Some (unhandled (contentType resp)))
              end = (None, Some e) /\ isUnsupported DataVersionPhase0 e).
  { intros [Hc|Hc]; rewrite Hc.
    - unfold HTTP.fromSSZ, switchSSZ. rewrite Hv. eexists. split; [reflexivity|].
      right. eexists. reflexivity.
    - unfold HTTP.fromJSON, HTTP.switchJSON. rewrite Hv. eexists. split; [reflexivity|].
      left. reflexivity. }
  split; [|split; [|reflexivity]].
  - intros Hc. destruct (Hthree Hc) as (e & He & Hu).
    unfold HTTP.LightClientBootstrap, HTTP.LightClientFinalityUpdate,
      HTTP.LightClientOptimisticUpdate, dispatch.
    repeat split; intros; match goal with H : get _ = _ |- _ => rewrite H end;
      exists e; (split; [exact He|exact Hu]).
  - intros s c ms v u us Hg Hc Hm Hd Hl.
    unfold HTTP.LightClientUpdates, dispatch. rewrite Hg, Hc.
    unfold HTTP.lightClientUpdatesFromJSON. rewrite Hm, Hd, Hl.
    cbn [HTTP.updatesLoop]. unfold HTTP.decodeUpdate. rewrite Hv. reflexivity.
Qed.
End Negotiation.

(** ** The envelopes of the textual decoders, with the helper of the spec *)
Section Populated.
Variable get : string -> option httpResponse * option error.
Variable metadataFromHeaders : list (string * string) -> metadata.
Variable versionText : DataVersion -> string.
Context {A C D : Type}.
Context `{!JSONCodec A, !JSONCodec C, !JSONCodec D}.
Context `{!SSZCodec A, !SSZCodec C, !SSZCodec D}.

Abbreviation GetBootstrap :=
  (@HTTP.LightClientBootstrap get metadataFromHeaders (@decodeJSONResponse_spec)
     A C D _ _ _ _ _ _).
Abbreviation GetUpdates :=
  (@HTTP.LightClientUpdates get versionText A C D _ _ _).
Abbreviation GetFinalityUpdate :=
  (@HTTP.LightClientFinalityUpdate get metadataFromHeaders (@decodeJSONResponse_spec)
     A C D _ _ _ _ _ _).
Abbreviation GetOptimisticUpdate :=
  (@HTTP.LightClientOptimisticUpdate get metadataFromHeaders (@decodeJSONResponse_spec)
     A C D _ _ _ _ _ _).
Abbreviation FromSSZ := (@HTTP.fromSSZ metadataFromHeaders A C D _ _ _ _ _ _).
Abbreviation FromJSON := (@HTTP.fromJSON (@decodeJSONResponse_spec) A C D _ _ _).
Abbreviation decodeUpdate := (@HTTP.decodeUpdate A C D _ _ _).

Abbreviation bootstrapURL block := ("/eth/v1/beacon/light_client/bootstrap/" ++ block).
Abbreviation updatesURL startPeriod count :=
  ("/eth/v1/beacon/light_client/updates?start_period="
     ++ Sprintf_d startPeriod ++ "&count=" ++ Sprintf_d count).
Abbreviation finalityURL := "/eth/v1/beacon/light_client/finality_update".
Abbreviation optimisticURL := "/eth/v1/beacon/light_client/optimistic_update".

Abbreviation taggedAs resp := (fun d : Versioned A C D =>
  populated d /\ Version d = consensusVersion resp).

(** The helper modelled from the spec returns the record whenever it
    returns no error. *)
Lemma decodeJSONResponse_spec_returns T (c : JSONCodec T) (b : body) (res : T) x md :
  decodeJSONResponse_spec b res = Ok (x, md) -> x <> None.
Proof.
  unfold decodeJSONResponse_spec. destruct (decodeMap b) as [ms|e]; [|discriminate].
  destruct (UnmarshalJSON res _) as [y [e|]]; intros [= <- <-]; discriminate.
Qed.

Lemma decodeJSONResponse_spec_decodes T (c : JSONCodec T) (b : body) (res x : T) ms v :
  decodeMap b = Ok ms -> member "data" ms = Some v -> UnmarshalJSON res v = (x, None) ->
  decodeJSONResponse_spec b res
  = Ok (Some x, filter (fun kv => negb (String.eqb (fst kv) "data")) ms).
Proof.
  intros Hm Hd Hu. unfold decodeJSONResponse_spec. rewrite Hm, Hd, Hu. reflexivity.
Qed.

(** C7.  With the helper that decodes a textual response modelled from
    the spec: the envelope of every successful operation carries the fork
    tag of the response and holds exactly one payload, in the slot of that
    tag, and so does every envelope of a list of updates.  The decoders
    succeed whenever the codec of the fork accepts the body, and the
    envelope then holds the decoded record in the slot of the fork and
    nothing in the others: a response tagged Bellatrix is decoded with the
    altair record (binary and textual, and element by element in a list of
    updates), and the record goes to the Bellatrix slot of an envelope
    tagged Bellatrix. *)
Theorem envelope_populated :
  (forall block r, GetBootstrap block = (Some r, None) ->
     exists resp, get (bootstrapURL block) = (Some resp, None) /\ taggedAs resp (Data r))
  /\ (forall r, GetFinalityUpdate = (Some r, None) ->
        exists resp, get finalityURL = (Some resp, None) /\ taggedAs resp (Data r))
  /\ (forall r, GetOptimisticUpdate = (Some r, None) ->
        exists resp, get optimisticURL = (Some resp, None) /\ taggedAs resp (Data r))
  /\ (forall startPeriod count r, GetUpdates startPeriod count = (Some r, None) ->
        exists resp, get (updatesURL startPeriod count) = (Some resp, None)
          /\ Forall (taggedAs resp) (Data r))
  /\ (forall resp,
        let returned d :=
          FromSSZ resp
          = (Some {| Data := d; Metadata := metadataFromHeaders (headers resp) |}, None) in
        (consensusVersion resp = DataVersionAltair ->
           forall x : A, UnmarshalSSZ (zero : A) (raw (body_ resp)) = (x, None) ->
           returned (setAltair (Some x) (tagged DataVersionAltair)))
        /\ (consensusVersion resp = DataVersionBellatrix ->
              forall x : A, UnmarshalSSZ (zero : A) (raw (body_ resp)) = (x, None) ->
              returned (setBellatrix (Some x) (tagged DataVersionBellatrix)))
        /\ (consensusVersion resp = DataVersionCapella ->
              forall x : C, UnmarshalSSZ (zero : C) (raw (body_ resp)) = (x, None) ->
              returned (setCapella (Some x) (tagged DataVersionCapella)))
        /\ (consensusVersion resp = DataVersionDeneb ->
              forall x : D, UnmarshalSSZ (zero : D) (raw (body_ resp)) = (x, None) ->
              returned (setDeneb (Some x) (tagged DataVersionDeneb))))
  /\ (forall resp ms v, decodeMap (body_ resp) = Ok ms -> member "data" ms = Some v ->
        let returned d :=
          FromJSON resp
          = (Some {| Data := d;
                     Metadata := filter (fun kv => negb (String.eqb (fst kv) "data")) ms |},
             None) in
        (consensusVersion resp = DataVersionAltair ->
           forall x : A, UnmarshalJSON (zero : A) v = (x, None) ->
           returned (setAltair (Some x) (tagged DataVersionAltair)))
        /\ (consensusVersion resp = DataVersionBellatrix ->
              forall x : A, UnmarshalJSON (zero : A) v = (x, None) ->
              returned (setBellatrix (Some x) (tagged DataVersionBellatrix)))
        /\ (consensusVersion resp = DataVersionCapella ->
              forall x : C, UnmarshalJSON (zero : C) v = (x, None) ->
              returned (setCapella (Some x) (tagged DataVersionCapella)))
        /\ (consensusVersion resp = DataVersionDeneb ->
              forall x : D, UnmarshalJSON (zero : D) v = (x, None) ->
              returned (setDeneb (Some x) (tagged DataVersionDeneb))))
  /\ (forall (u : json) (x : A), UnmarshalJSON (zero : A) u = (x, None) ->
        decodeUpdate DataVersionBellatrix u
        = (setBellatrix (Some x) (tagged DataVersionBellatrix), None)).
Proof.
  assert (Hthree : forall resp r,
             match contentType resp with
             | ContentTypeSSZ => FromSSZ resp
             | ContentTypeJSON => FromJSON resp
             | ContentTypeOther _ => (None, Some (unhandled (contentType resp)))
             end = (Some r, None) -> taggedAs resp (Data r)).
  { intros resp r. destruct (contentType resp);
      [apply fromSSZ_populated
      |apply fromJSON_populated; exact decodeJSONResponse_spec_returns|discriminate]. }
  split; [|split; [|split; [|split; [|split; [|split]]]]].
  - intros block r H. apply dispatch_returns in H. destruct H as (resp & Hg & Hk).
    exists resp. split; [exact Hg|]. apply Hthree. exact Hk.
  - intros r H. apply dispatch_returns in H. destruct H as (resp & Hg & Hk).
    exists resp. split; [exact Hg|]. apply Hthree. exact Hk.
  - intros r H. apply dispatch_returns in H. destruct H as (resp & Hg & Hk).
    exists resp. split; [exact Hg|]. apply Hthree. exact Hk.
  - intros s c r H. apply dispatch_returns in H. destruct H as (resp & Hg & Hk).
    exists resp. split; [exact Hg|]. eapply updatesFromJSON_populated.
    destruct (contentType resp); try discriminate Hk. exact Hk.
  - intros resp returned. subst returned. cbv beta.
    repeat split; intros Hv x Hx; unfold HTTP.fromSSZ, switchSSZ; rewrite Hv, Hx;
      reflexivity.
  - intros resp ms v Hm Hd returned. subst returned. cbv beta.
    repeat split; intros Hv x Hx; unfold HTTP.fromJSON, HTTP.switchJSON; rewrite Hv;
      rewrite (decodeJSONResponse_spec_decodes _ _ _ _ x ms v Hm Hd Hx); reflexivity.
  - intros u x Hx. unfold HTTP.decodeUpdate. rewrite Hx. reflexivity.
Qed.
End Populated.

(** ** No data *)
Section NoData.
Variable get : string -> option httpResponse * option error.
Variable metadataFromHeaders : list (string * string) -> metadata.
Variable versionText : DataVersion -> string.
Variable decodeJSONResponse :
  forall T, JSONCodec T -> body -> T -> result (option T * metadata).
Context {A C D : Type}.
Context `{!JSONCodec A, !JSONCodec C, !JSONCodec D}.
Context `{!SSZCodec A, !SSZCodec C, !SSZCodec D}.

Context {Client Bootstrap Update FinalityUpdate OptimisticUpdate : Type}.
Variable providerBootstrap : Client -> string -> option Bootstrap * option error.
Variable providerUpdates :
  Client -> N -> N -> option (list (option Update)) * option error.
Variable providerFinalityUpdate : Client -> option FinalityUpdate * option error.
Variable providerOptimisticUpdate : Client -> option OptimisticUpdate * option error.
Abbreviation any := (@Multi.any Bootstrap Update FinalityUpdate OptimisticUpdate).
Variable doCall : (Client -> any * option error) -> any * option error.

Abbreviation GetBootstrap :=
  (@HTTP.LightClientBootstrap get metadataFromHeaders decodeJSONResponse A C D _ _ _ _ _ _).
Abbreviation GetUpdates :=
  (@HTTP.LightClientUpdates get versionText A C D _ _ _).
Abbreviation GetFinalityUpdate :=
  (@HTTP.LightClientFinalityUpdate get metadataFromHeaders decodeJSONResponse A C D _ _ _ _ _ _).
Abbreviation GetOptimisticUpdate :=
  (@HTTP.LightClientOptimisticUpdate get metadataFromHeaders decodeJSONResponse A C D
     _ _ _ _ _ _).
Abbreviation bootstrapURL block := ("/eth/v1/beacon/light_client/bootstrap/" ++ block).
Abbreviation updatesURL startPeriod count :=
  ("/eth/v1/beacon/light_client/updates?start_period="
     ++ Sprintf_d startPeriod ++ "&count=" ++ Sprintf_d count).
Abbreviation finalityURL := "/eth/v1/beacon/light_client/finality_update".
Abbreviation optimisticURL := "/eth/v1/beacon/light_client/optimistic_update".

Abbreviation bootstrapCall blockID :=
  (Multi.closure Multi.ofBootstrap (fun c => providerBootstrap c blockID)).
Abbreviation updatesCall start count :=
  (Multi.closure Multi.ofUpdates (fun c => providerUpdates c start count)).
Abbreviation finalityCall :=
  (Multi.closure Multi.ofFinalityUpdate providerFinalityUpdate).
Abbreviation optimisticCall :=
  (Multi.closure Multi.ofOptimisticUpdate providerOptimisticUpdate).

(** C9.  No data is no error.  When the transport has no response, each
    of the four operations of the http service returns nil and a nil
    error, while an error of the transport comes back as an error.  In the
    multi service, when doCall passes on what the call to a client
    returned and that client returned nil and no error, or when doCall
    itself returns nil and no error, each operation returns nil and a nil
    error; an error of doCall comes back as that error. *)
Theorem no_data_is_no_error :
  ((forall block, get (bootstrapURL block) = (None, None) ->
      GetBootstrap block = (None, None))
   /\ (forall startPeriod count, get (updatesURL startPeriod count) = (None, None) ->
         GetUpdates startPeriod count = (None, None))
   /\ (get finalityURL = (None, None) -> GetFinalityUpdate = (None, None))
   /\ (get optimisticURL = (None, None) -> GetOptimisticUpdate = (None, None)))
  /\ ((forall block r e, get (bootstrapURL block) = (r, Some e) ->
         exists e', GetBootstrap block = (None, Some e'))
      /\ (forall startPeriod count r e, get (updatesURL startPeriod count) = (r, Some e) ->
            exists e', GetUpdates startPeriod count = (None, Some e'))
      /\ (forall r e, get finalityURL = (r, Some e) ->
            exists e', GetFinalityUpdate = (None, Some e'))
      /\ (forall r e, get optimisticURL = (r, Some e) ->
            exists e', GetOptimisticUpdate = (None, Some e')))
  /\ ((forall blockID c,
         doCall (bootstrapCall blockID) = bootstrapCall blockID c ->
         providerBootstrap c blockID = (None, None) ->
         Multi.LightClientBootstrap providerBootstrap doCall blockID = Multi.Returns None None)
      /\ (forall start count c,
            doCall (updatesCall start count) = updatesCall start count c ->
            providerUpdates c start count = (None, None) ->
            Multi.LightClientUpdates providerUpdates doCall start count
            = Multi.Returns None None)
      /\ (forall c, doCall finalityCall = finalityCall c ->
            providerFinalityUpdate c = (None, None) ->
            Multi.LightClientFinalityUpdate providerFinalityUpdate doCall
            = Multi.Returns None None)
      /\ (forall c, doCall optimisticCall = optimisticCall c ->
            providerOptimisticUpdate c = (None, None) ->
            Multi.LightClientOptimisticUpdate providerOptimisticUpdate doCall
            = Multi.Returns None None))
  /\ ((forall blockID, doCall (bootstrapCall blockID) = (None, None) ->
         Multi.LightClientBootstrap providerBootstrap doCall blockID = Multi.Returns None None)
      /\ (forall start count, doCall (updatesCall start count) = (None, None) ->
            Multi.LightClientUpdates providerUpdates doCall start count
            = Multi.Returns None None)
      /\ (doCall finalityCall = (None, None) ->
            Multi.LightClientFinalityUpdate providerFinalityUpdate doCall
            = Multi.Returns None None)
      /\ (doCall optimisticCall = (None, None) ->
            Multi.LightClientOptimisticUpdate providerOptimisticUpdate doCall
            = Multi.Returns None None))
  /\ ((forall blockID x e, doCall (bootstrapCall blockID) = (x, Some e) ->
         Multi.LightClientBootstrap providerBootstrap doCall blockID
         = Multi.Returns None (Some e))
      /\ (forall start count x e, doCall (updatesCall start count) = (x, Some e) ->
            Multi.LightClientUpdates providerUpdates doCall start count
            = Multi.Returns None (Some e))
      /\ (forall x e, doCall finalityCall = (x, Some e) ->
            Multi.LightClientFinalityUpdate providerFinalityUpdate doCall
            = Multi.Returns None (Some e))
      /\ (forall x e, doCall optimisticCall = (x, Some e) ->
            Multi.LightClientOptimisticUpdate providerOptimisticUpdate doCall
            = Multi.Returns None (Some e))).
Proof.
  unfold HTTP.LightClientBootstrap, HTTP.LightClientUpdates,
    HTTP.LightClientFinalityUpdate, HTTP.LightClientOptimisticUpdate, dispatch,
    Multi.LightClientBootstrap, Multi.LightClientUpdates,
    Multi.LightClientFinalityUpdate, Multi.LightClientOptimisticUpdate.
  split; [|split; [|split; [|split]]].
  - repeat split; intros; match goal with H : get _ = _ |- _ => rewrite H end; reflexivity.
  - repeat split; intros; match goal with H : get _ = (?r, _) |- _ => rewrite H; destruct r end;
      eexists; reflexivity.
  - repeat split; intros;
      match goal with
      | H : doCall _ = _, P : _ = (None, None) |- _ =>
          rewrite H; unfold Multi.closure; rewrite P; reflexivity
      end.
  - repeat split; intros; match goal with H : doCall _ = _ |- _ => rewrite H end;
      reflexivity.
  - repeat split; intros;
      match goal with H : doCall _ = (?x, _) |- _ => rewrite H; destruct x as [[]|] end;
      reflexivity.
Qed.
End NoData.

(** ** The operations on the examples *)
Section ServiceExamples.
Import Fixture.

Abbreviation UpdatesX get :=
  (@HTTP.LightClientUpdates get versionText Update Update Update _ _ _).
Abbreviation FinalityX get :=
  (@HTTP.LightClientFinalityUpdate get noMetadata (@decodeJSONResponse_spec)
     FinalityUpdate FinalityUpdate FinalityUpdate _ _ _ (sszAny _) (sszAny _) (sszAny _)).
Abbreviation BootstrapX get :=
  (@HTTP.LightClientBootstrap get noMetadata (@decodeJSONResponse_spec)
     FinalityUpdate FinalityUpdate FinalityUpdate _ _ _ (sszAny _) (sszAny _) (sszAny _)).

Lemma updates_all_or_nothing_witness :
  let resp := response ContentTypeJSON DataVersionAltair
                (updatesBody [goodUpdate; shortElement; goodUpdate]) in
  exists e, UpdatesX (always (Some resp)) 0 3 = (None, Some e).
Proof.
  intros resp.
  pose proof (proj2 (@updates_all_or_nothing (always (Some resp)) versionText
                       Update Update Update _ _ _ resp 0 3
                       [("version", JString "altair");
                        ("data", JArray [goodUpdate; shortElement; goodUpdate])]
                       (JArray [goodUpdate; shortElement; goodUpdate])
                       [goodUpdate; shortElement; goodUpdate]
                       eq_refl eq_refl eq_refl eq_refl eq_refl)) as Hfail.
  destruct (Hfail 1%nat shortElement (errorsNew "invalid length of finality_branch[1]")
              eq_refl) as (j & u' & e' & _ & _ & _ & _ & H); [vm_compute; reflexivity|].
  exists e'. exact H.
Defined.

(** C2 (as stated) fails: three updates, the second with five elements in
    its finality branch, are all returned. *)
Lemma short_finality_branch_accepted :
  let resp := response ContentTypeJSON DataVersionAltair
                (updatesBody [goodUpdate; shortUpdate; goodUpdate]) in
  snd (UpdatesX (always (Some resp)) 0 3) = None
  /\ option_map (fun r => map (fun d =>
         option_map (fun x => length (v1_LightClientUpdate.FinalityBranch x)) (Altair d))
                                (Data r))
       (fst (UpdatesX (always (Some resp)) 0 3))
     = Some [Some 6%nat; Some 5%nat; Some 6%nat].
Proof. split; vm_compute; reflexivity. Qed.

Lemma earliest_fork_rejected_witness :
  let resp := response ContentTypeJSON DataVersionPhase0 (updatesBody [goodUpdate]) in
  UpdatesX (always (Some resp)) 0 1 = (None, Some (errorsNew "unsupported version phase0")).
Proof.
  intros resp.
  exact (proj1 (proj2 (@earliest_fork_rejected (always (Some resp)) noMetadata versionText
                         (@decodeJSONResponse_spec) Update Update Update _ _ _
                         (sszAny _) (sszAny _) (sszAny _) resp eq_refl))
           0 1 _ _ goodUpdate [] eq_refl eq_refl eq_refl eq_refl eq_refl).
Defined.

(** C3 (as stated) fails: GetUpdates answers a phase0 response of content
    type SSZ with the unhandled-content-type error, and a phase0 response
    whose data list is empty with an empty list. *)
Lemma phase0_updates_not_refused :
  (UpdatesX (always (Some (response ContentTypeSSZ DataVersionPhase0 sszBody))) 0 1
   = (None, Some (errorsNew "unhandled content type SSZ"))
   /\ ~ isUnsupported DataVersionPhase0 (errorsNew "unhandled content type SSZ"))
  /\ UpdatesX (always (Some (response ContentTypeJSON DataVersionPhase0
                               (jsonBody (JObject [("version", JString "phase0");
                                                   ("data", JArray [])]))))) 0 1
     = (Some {| Data := [];
                Metadata := [("version", JString (versionText DataVersionPhase0))] |}, None).
Proof.
  split; [split; [reflexivity|]|reflexivity].
  intros [H|[msg H]]; discriminate H.
Qed.

Lemma envelope_populated_witness :
  let textual := always (Some (response ContentTypeJSON DataVersionBellatrix
                                 (finalityBody "bellatrix"))) in
  let binary := always (Some (response ContentTypeSSZ DataVersionBellatrix sszBody)) in
  (exists x, FinalityX textual
             = (Some {| Data := setBellatrix (Some x) (tagged DataVersionBellatrix);
                        Metadata := [("version", JString "bellatrix")] |}, None)
             /\ length (v1_LightClientFinalityUpdate.FinalityBranch x) = 6%nat)
  /\ FinalityX binary
      = (Some {| Data := setBellatrix (Some zero) (tagged DataVersionBellatrix);
                 Metadata := [] |}, None)
  /\ match FinalityX binary with
      | (Some r, None) => populated (Data r) /\ Version (Data r) = DataVersionBellatrix
      | _ => False
      end.
Proof.
  intros textual binary.
  pose proof (@envelope_populated textual noMetadata versionText
                FinalityUpdate FinalityUpdate FinalityUpdate _ _ _
                (sszAny _) (sszAny _) (sszAny _)) as (_ & _ & _ & _ & _ & Hjson & _).
  pose proof (@envelope_populated binary noMetadata versionText
                FinalityUpdate FinalityUpdate FinalityUpdate _ _ _
                (sszAny _) (sszAny _) (sszAny _)) as (_ & Hfin & _ & _ & Hssz & _).
  split; [|split].
  - exists (fst (UnmarshalJSON (zero : FinalityUpdate) goodFinalityUpdate)).
    split; [|vm_compute; reflexivity].
    assert (Hx : UnmarshalJSON (zero : FinalityUpdate) goodFinalityUpdate
                 = (fst (UnmarshalJSON (zero : FinalityUpdate) goodFinalityUpdate), None))
      by (vm_compute; reflexivity).
    exact (proj1 (proj2 (Hjson (response ContentTypeJSON DataVersionBellatrix
                                  (finalityBody "bellatrix"))
                               [("version", JString "bellatrix");
                                ("data", goodFinalityUpdate)]
                               goodFinalityUpdate eq_refl eq_refl)) eq_refl _ Hx).
  - exact (proj1 (proj2 (Hssz (response ContentTypeSSZ DataVersionBellatrix sszBody)))
             eq_refl zero eq_refl).
  - destruct (FinalityX binary) as [[r|] [e|]] eqn:E; try (vm_compute in E; discriminate E).
    destruct (Hfin r eq_refl) as (resp & Hg & Hp & Hv).
    injection Hg as <-. split; [exact Hp|exact Hv].
Defined.

Lemma encoding_dispatch_witness :
  let resp := response ContentTypeSSZ DataVersionAltair sszBody in
  UpdatesX (always (Some resp)) 0 1 = (None, Some (unhandled ContentTypeSSZ)).
Proof.
  intros resp.
  exact (proj1 (proj2 (proj2 (proj2
           (@encoding_dispatch (always (Some resp)) noMetadata versionText
              (@decodeJSONResponse_spec) Update Update Update _ _ _
              (sszAny _) (sszAny _) (sszAny _) resp)))) 0 1 eq_refl).
Defined.

(** C8 (as stated) fails: for one and the same SSZ response, the bootstrap
    operation runs the binary decoder and returns its envelope, while
    GetUpdates fails with the unhandled-content-type error. *)
Lemma updates_ssz_unhandled :
  let resp := response ContentTypeSSZ DataVersionAltair sszBody in
  snd (BootstrapX (always (Some resp)) "head") = None
  /\ fst (BootstrapX (always (Some resp)) "head") <> None
  /\ UpdatesX (always (Some resp)) 0 1
     = (None, Some (errorsNew "unhandled content type SSZ")).
Proof.
  split; [reflexivity|]. split; [discriminate|reflexivity].
Qed.

Lemma no_data_is_no_error_witness :
  FinalityX (always None) = (None, None)
  /\ UpdatesX (always None) 0 1 = (None, None)
  /\ @Multi.LightClientFinalityUpdate unit FinalityUpdate Update FinalityUpdate
       FinalityUpdate silent (@firstClient _)
     = Multi.Returns None None.
Proof.
  pose proof (@no_data_is_no_error (always None) noMetadata versionText
                (@decodeJSONResponse_spec)
                FinalityUpdate FinalityUpdate FinalityUpdate _ _ _
                (sszAny _) (sszAny _) (sszAny _)
                unit FinalityUpdate Update FinalityUpdate FinalityUpdate
                (fun _ _ => (None, None)) (fun _ _ _ => (None, None)) silent silent
                (@firstClient _)) as (Hhttp & _ & Hmulti & _).
  destruct Hhttp as (_ & _ & Hf & _). destruct Hmulti as (_ & _ & Hm & _).
  split; [exact (Hf eq_refl)|]. split; [reflexivity|].
  exact (Hm tt eq_refl eq_refl).
Defined.
End ServiceExamples.

End Claims.
(* ===================================================================== *)
(** * Further properties of the code                                      *)
(* ===================================================================== *)

(** ** What the decoders do with the keys of the input and with the
       elements of a branch *)

(** ** The keys of the input *)
Module KeyFacts.
Import Go Branch Codec Records GoFacts BindingFacts LoopFacts StageFacts.
Import RecordFacts FamilyFacts.

Lemma keyMatches_by_fold n k :
  keyMatches n k = String.eqb (foldName n) (foldName k).
Proof.
  unfold keyMatches. destruct (String.eqb n k) eqn:E; [|reflexivity].
  apply String.eqb_eq in E. subst k. rewrite String.eqb_refl. reflexivity.
Qed.

Section Binding.
Context {J : Type} (S : string) (fs : list (string * field J)).

(** A member is bound by the folding of its key alone. *)
Lemma bindStruct_fold jso k k' v :
  foldName k = foldName k' -> bindStruct S fs jso k v = bindStruct S fs jso k' v.
Proof.
  intros Hk. induction fs as [|[n d] r IH]; [reflexivity|]. cbn [bindStruct].
  rewrite !keyMatches_by_fold, Hk, IH. reflexivity.
Qed.

(** A member whose key matches no field leaves the struct as it is. *)
Lemma bindStruct_unknown jso k v :
  existsb (fun n => keyMatches n k) (map fst fs) = false ->
  bindStruct S fs jso k v = Ok (jso, None).
Proof.
  induction fs as [|[n d] r IH]; [reflexivity|]. cbn [bindStruct map existsb fst].
  intros H. apply orb_false_iff in H. destruct H as [Hn Hr]. rewrite Hn. exact (IH Hr).
Qed.

Lemma bindMembers_known ms : forall jso saved,
  bindMembers (bindStruct S fs) ms jso saved
  = bindMembers (bindStruct S fs)
      (List.filter (fun kv => existsb (fun n => keyMatches n (fst kv)) (map fst fs)) ms) jso saved.
Proof.
  induction ms as [|[k v] r IH]; intros jso saved; [reflexivity|].
  cbn [List.filter fst].
  destruct (existsb (fun n => keyMatches n k) (map fst fs)) eqn:E; cbn [bindMembers].
  - destruct (bindStruct S fs jso k v) as [[jso' e]|e]; [apply IH|reflexivity].
  - rewrite (bindStruct_unknown jso k v E). rewrite IH.
    destruct saved; reflexivity.
Qed.

Lemma bindMembers_fold ms ms' :
  Forall2 (fun a b => foldName (fst a) = foldName (fst b) /\ snd a = snd b) ms ms' ->
  forall jso saved,
  bindMembers (bindStruct S fs) ms jso saved = bindMembers (bindStruct S fs) ms' jso saved.
Proof.
  induction 1 as [|[k v] [k' v'] r r' [Hk Hv] _ IH]; intros jso saved; [reflexivity|].
  cbn [fst snd] in Hk, Hv. subst v'. cbn [bindMembers].
  rewrite (bindStruct_fold jso k k' v Hk).
  destruct (bindStruct S fs jso k' v) as [[jso' e]|e]; [apply IH|reflexivity].
Qed.
End Binding.

(** The binding of an input object, written out for the record at hand. *)
Ltac open_goal_bound :=
  cbn [Records.bound];
  cbv beta delta [v1_LightClientUpdate.unmarshalJSO v1_LightClientFinalityUpdate.unmarshalJSO
             v1_LightClientBootstrap.unmarshalJSO altair_LightClientHeader.unmarshalJSO
             altair_LightClientOptimisticUpdate.unmarshalJSO
             capella_LightClientHeader.unmarshalJSO
             capella_LightClientBootstrap.unmarshalJSO];
  unfold unmarshalStruct.

End KeyFacts.

(** ** The earlier revisions of the http service *)
Module LegacyFacts.
Import Go Branch Codec Records HTTP Legacy GoFacts BindingFacts KeyFacts.

Section Data.
Context {T : Type} `{!JSONCodec T}.

Lemma dataFields_wf : wellFormed (@dataFields T _).
Proof. unfold dataFields. StageFacts.fields_wf. Qed.

(** Members that are null under the key data, or have another key, leave
    the zero struct as it is. *)
Lemma bindMembers_no_data (S : string) ms : forall saved,
  nullWhere "data" ms ->
  bindMembers (bindStruct S (@dataFields T _)) ms zeroData saved = Ok (zeroData, saved).
Proof.
  induction ms as [|[k v] r IH]; intros saved Hn; [reflexivity|].
  apply Forall_cons in Hn. destruct Hn as [Hkv Hr]. cbn [fst snd] in Hkv.
  cbn [bindMembers bindStruct dataFields].
  destruct (keyMatches "data" k) eqn:Ek.
  - rewrite (Hkv eq_refl). cbn. rewrite (IH _ Hr). destruct saved; reflexivity.
  - rewrite (IH _ Hr). destruct saved; reflexivity.
Qed.

Lemma decodeData_no_data (S : string) (b : body) v :
  scanned b = Ok v -> v = JNull \/ absentOrNull "data" v ->
  decodeData (T := T) S b = Ok zeroData.
Proof.
  intros Hs Hv. unfold decodeData. rewrite Hs. destruct Hv as [->|(ms & -> & Hn)].
  - reflexivity.
  - unfold unmarshalStruct. rewrite (bindMembers_no_data S ms None Hn). reflexivity.
Qed.

(** What is found under data was decoded by the record's UnmarshalJSON. *)
Lemma decodeData_decoded (S : string) (b : body) resp x :
  decodeData (T := T) S b = Ok resp -> data resp = Some x ->
  exists l w, UnmarshalJSON l w = (x, None).
Proof.
  unfold decodeData. destruct (scanned b) as [v|e]; [|discriminate]. intros Hu Hx.
  exact (struct_decoded _ S dataFields zeroData dataFields_wf 0%nat _ _ _ _ _ v resp x
           eq_refl eq_refl Hu Hx).
Qed.

(** One member data among members of other keys. *)
Lemma bindMembers_one_data (S : string) pre post v x :
  Forall (fun kv => keyMatches "data" (fst kv) = false) pre ->
  Forall (fun kv => keyMatches "data" (fst kv) = false) post ->
  bindPtr None v = Ok (Some x) ->
  bindMembers (bindStruct S (@dataFields T _)) (pre ++ ("data", v) :: post)%list zeroData None
  = Ok ({| data := Some x |}, None).
Proof.
  intros Hpre Hpost Hv. rewrite bindMembers_known.
  assert (Hnone : forall l : list (string * json),
            Forall (fun kv => keyMatches "data" (fst kv) = false) l ->
            List.filter (fun kv => existsb (fun n => keyMatches n (fst kv))
                                      (map fst (@dataFields T _))) l = []).
  { induction l as [|[k w] r IH]; [reflexivity|]. intros H.
    apply Forall_cons in H. destruct H as [Hk Hr]. cbn [fst] in Hk.
    cbn [List.filter map dataFields existsb fst]. rewrite Hk. cbn [orb]. exact (IH Hr). }
  rewrite List.filter_app, (Hnone pre Hpre). cbn [app List.filter fst].
  replace (existsb (fun n => keyMatches n "data") (map fst (@dataFields T _))) with true
    by reflexivity.
  rewrite (Hnone post Hpost). cbn [bindMembers bindStruct dataFields].
  replace (keyMatches "data" "data") with true by reflexivity.
  cbn [bindField data zeroData bind]. rewrite Hv. reflexivity.
Qed.

(** The slice a body decodes to has one struct per element of the array. *)
Lemma bindSlice_length (S : string) vs : forall saved xs saved',
  bindSlice (T := T) S vs saved = Ok (xs, saved') -> length xs = length vs.
Proof.
  induction vs as [|v r IH]; intros saved xs saved'; cbn [bindSlice].
  - intros [= <- _]. reflexivity.
  - destruct (bindElement S v saved) as [[x s1]|e]; [|discriminate].
    destruct (bindSlice S r s1) as [[xs' s2]|e] eqn:Er; [|discriminate].
    intros [= <- _]. cbn [length]. f_equal. exact (IH _ _ _ Er).
Qed.

Lemma bindElement_no_data (S : string) v saved :
  v = JNull \/ absentOrNull "data" v ->
  bindElement (T := T) S v saved = Ok (zeroData, saved).
Proof.
  intros [->|(ms & -> & Hn)]; [reflexivity|]. cbn [bindElement].
  apply bindMembers_no_data. exact Hn.
Qed.

Lemma bindSlice_lookup (S : string) vs : forall saved xs saved' i v,
  bindSlice (T := T) S vs saved = Ok (xs, saved') -> vs !! i = Some v ->
  exists x s1 s2, xs !! i = Some x /\ bindElement S v s1 = Ok (x, s2).
Proof.
  induction vs as [|v0 r IH]; intros saved xs saved' i v; cbn [bindSlice];
    [intros _ H; destruct i; discriminate H|].
  destruct (bindElement S v0 saved) as [[x s1]|e] eqn:Ee; [|discriminate].
  destruct (bindSlice S r s1) as [[xs' s2]|e] eqn:Er; [|discriminate].
  intros [= <- _] Hi. destruct i as [|i]; cbn in Hi.
  - injection Hi as <-. exists x, saved, s1. split; [reflexivity|exact Ee].
  - exact (IH _ _ _ _ _ Er Hi).
Qed.
(** An error that is saved stays saved. *)
Lemma bindElement_saved (S : string) v e x s :
  bindElement (T := T) S v (Some e) = Ok (x, s) -> s = Some e.
Proof.
  destruct v; cbn [bindElement]; try (intros [= _ <-]; reflexivity).
  apply bindMembers_saved.
Qed.

Lemma bindSlice_saved (S : string) vs : forall e xs s,
  bindSlice (T := T) S vs (Some e) = Ok (xs, s) -> s = Some e.
Proof.
  induction vs as [|v r IH]; intros e xs s; cbn [bindSlice]; [intros [= _ <-]; reflexivity|].
  destruct (bindElement S v (Some e)) as [[x s1]|e1] eqn:Ee; [|discriminate].
  apply bindElement_saved in Ee. subst s1.
  destruct (bindSlice S r (Some e)) as [[xs' s2]|e2] eqn:Er; [|discriminate].
  intros [= _ <-]. exact (IH _ _ _ Er).
Qed.

(** When no error was saved, every element was bound without one. *)
Lemma bindSlice_clean (S : string) vs : forall xs i v,
  bindSlice (T := T) S vs None = Ok (xs, None) -> vs !! i = Some v ->
  exists x, xs !! i = Some x /\ bindElement S v None = Ok (x, None).
Proof.
  induction vs as [|v0 r IH]; intros xs i v; cbn [bindSlice];
    [intros _ H; destruct i; discriminate H|].
  destruct (bindElement S v0 None) as [[x s1]|e] eqn:Ee; [|discriminate].
  destruct (bindSlice S r s1) as [[xs' s2]|e] eqn:Er; [|discriminate].
  intros [= <- ->] Hi.
  destruct s1 as [e1|]; [apply bindSlice_saved in Er; discriminate Er|].
  destruct i as [|i]; cbn in Hi.
  - injection Hi as <-. exists x. split; [reflexivity|exact Ee].
  - exact (IH _ _ _ Er Hi).
Qed.

Lemma bindElement_decoded (S : string) v resp x :
  bindElement (T := T) S v None = Ok (resp, None) -> data resp = Some x ->
  exists l w, UnmarshalJSON l w = (x, None).
Proof.
  intros Hb Hx. destruct v; cbn [bindElement] in Hb;
    try (injection Hb as <-; discriminate Hx); try discriminate Hb.
  refine (struct_decoded "" S dataFields zeroData dataFields_wf 0%nat _ _ _ _ _
            (JObject members) resp x eq_refl eq_refl _ Hx).
  unfold unmarshalStruct. rewrite Hb. reflexivity.
Qed.
End Data.
End LegacyFacts.

(** ** Properties of the textual codec *)
Module Extras.
Import Go Branch Codec Records HTTP GoFacts BindingFacts LoopFacts StageFacts.
Import RecordFacts FamilyFacts LawTactics RecordLaws ClaimFacts.
Import DecoderFacts OrderFacts KeyFacts FieldFacts LegacyFacts Legacy.

Section Textual.
Context {BeaconBlockHeader SyncCommittee SyncAggregate ExecutionPayloadHeader : Type}.
Context `{!JSONCodec BeaconBlockHeader, !JSONCodec SyncCommittee,
          !JSONCodec SyncAggregate, !JSONCodec ExecutionPayloadHeader}.

Abbreviation recordOf :=
  (@Records.recordOf BeaconBlockHeader SyncCommittee SyncAggregate ExecutionPayloadHeader).
Abbreviation jsoOf :=
  (@Records.jsoOf BeaconBlockHeader SyncCommittee SyncAggregate ExecutionPayloadHeader).
Abbreviation stagesOf :=
  (@Records.stagesOf BeaconBlockHeader SyncCommittee SyncAggregate ExecutionPayloadHeader).
Abbreviation decode :=
  (@Records.decode BeaconBlockHeader SyncCommittee SyncAggregate ExecutionPayloadHeader _ _ _ _).
Abbreviation encode :=
  (@Records.encode BeaconBlockHeader SyncCommittee SyncAggregate ExecutionPayloadHeader _ _ _ _).
Abbreviation bound :=
  (@Records.bound BeaconBlockHeader SyncCommittee SyncAggregate ExecutionPayloadHeader _ _ _ _).

(** X1.  What UnmarshalJSON makes of an input does not depend on the
    receiver it is called on: it returns the same error, or none, for every
    receiver, and when it returns none it has overwritten every field, so
    that the record left in the receiver is the same whatever the receiver
    held before. *)
Theorem decode_independent_of_receiver (r : recordType) (l1 l2 : recordOf r)
    (input : json) :
  snd (decode r l1 input) = snd (decode r l2 input)
  /\ (snd (decode r l1 input) = None ->
      fst (decode r l1 input) = fst (decode r l2 input)).
Proof.
  rewrite !family_decode.
  destruct (bound r input) as [jso|e]; [|split; [reflexivity|discriminate]].
  unfold run.
  assert (Hout : snd (runStages (stagesOf r jso) l1) = snd (runStages (stagesOf r jso) l2)).
  { apply runStages_outcome. intros s Hin l l'.
    apply list_elem_of_In in Hin. apply list_elem_of_lookup in Hin.
    destruct Hin as [i Hi]. exact (family_outcome r jso i s l l' Hi). }
  destruct (runStages (stagesOf r jso) l1) as [x1 [[]|e1]] eqn:H1,
           (runStages (stagesOf r jso) l2) as [x2 [[]|e2]] eqn:H2;
    cbn [fst snd] in Hout |- *; try discriminate Hout.
  - split; [reflexivity|]. intros _.
    exact (family_determined r jso x1 x2
             (runStages_ok _ _ _ (family_sound r jso) H1)
             (runStages_ok _ _ _ (family_sound r jso) H2)).
  - injection Hout as ->. split; [reflexivity|discriminate].
Qed.

(** X2.  Members of the input object whose key matches no field of the
    record are ignored: with or without them, UnmarshalJSON leaves the same
    receiver and returns the same error. *)
Theorem unknown_members_ignored (r : recordType) (l : recordOf r)
    (ms : list (string * json)) :
  decode r l (JObject ms)
  = decode r l (JObject (List.filter
                           (fun kv => existsb (fun f => keyMatches f (fst kv)) (fields r))
                           ms)).
Proof.
  rewrite !family_decode.
  assert (Hb : bound r (JObject ms)
               = bound r (JObject (List.filter
                   (fun kv => existsb (fun f => keyMatches f (fst kv)) (fields r)) ms))).
  { destruct r; open_goal_bound;
      match goal with
      | |- context [bindMembers (bindStruct ?S ?fs) ms ?z ?sv] =>
          rewrite (bindMembers_known S fs ms z sv)
      end; reflexivity. }
  rewrite Hb. reflexivity.
Qed.

(** X3.  The keys of the input are matched to the fields after folding:
    two objects that hold the same values under keys with the same folding
    (the same up to the case of ASCII letters, for one) decode alike. *)
Theorem keys_match_by_folding (r : recordType) (l : recordOf r)
    (ms ms' : list (string * json)) :
  Forall2 (fun a b => foldName (fst a) = foldName (fst b) /\ snd a = snd b) ms ms' ->
  decode r l (JObject ms) = decode r l (JObject ms').
Proof.
  intros H. rewrite !family_decode.
  assert (Hb : bound r (JObject ms) = bound r (JObject ms')).
  { destruct r; open_goal_bound;
      match goal with
      | |- context [bindMembers (bindStruct ?S ?fs) ms ?z ?sv] =>
          rewrite (bindMembers_fold S fs ms ms' H z sv)
      end; reflexivity. }
  rewrite Hb. reflexivity.
Qed.

(** X4.  A branch that decodes keeps the elements of the input, one for
    one and in order: the array of the input is not empty, every string of
    it decodes to 32 bytes, and the branch of the record holds exactly
    these, as many as the input has. *)
Theorem branch_decoded_elementwise (r : recordType) (l x : recordOf r) (input : json)
    (f : string) (guard : bool) (ss : list string) :
  In (f, guard) (branches r) ->
  fieldOf f input = Some (JArray (map JString ss)) ->
  decode r l input = (x, None) ->
  exists bs, ss <> [] /\ Forall2 (decodes guard) ss bs
             /\ length bs = length ss
             /\ fieldOf f (encode r x) = Some (marshalBranch bs).
Proof.
  intros Hin Hf Hd. destruct (decoded_done r l x input Hd) as (jso & Hb & Hdone).
  assert (Hgoal : exists bs, branchResult guard f (Some ss) = Ok bs
                             /\ fieldOf f (encode r x) = Some (marshalBranch bs)).
  { destruct r; cbn [branches] in Hin;
      repeat (destruct Hin as [[= <- <-]|Hin]; [|]); try contradiction;
      open_bound Hb; strings_fact Hf Hb; all_done Hdone;
      match goal with H : _ = Some ss |- _ => rewrite H in * end;
      destruct x; eexists; (split; [eassumption|reflexivity]). }
  destruct Hgoal as (bs & Hr & He). exists bs.
  destruct (branchResult_ok guard f ss bs Hr) as [Hne Hall].
  repeat split; try assumption. symmetry. exact (Forall2_length _ _ _ Hall).
Qed.

(** X5.  The signature slot that decodes is a text of decimal digits and
    nothing else (no sign, no blank), not empty and denoting at most
    2^64-1; the slot of the record is the number it denotes, which the
    record renders without leading zeros. *)
Theorem slot_accepted (r : recordType) (l x : recordOf r) (input : json) (s : string) :
  hasSlot r = true ->
  fieldOf "signature_slot" input = Some (JString s) ->
  decode r l input = (x, None) ->
  s <> "" /\ allDigits s = true /\ decimalValue s 0 <= maxUint64
  /\ fieldOf "signature_slot" (encode r x) = Some (JString (Sprintf_d (decimalValue s 0))).
Proof.
  intros Hs Hf Hd. destruct (decoded_done r l x input Hd) as (jso & Hb & Hdone).
  assert (Hgoal : exists n, ParseUint s = Ok n
            /\ fieldOf "signature_slot" (encode r x) = Some (JString (Sprintf_d n))).
  { destruct r; try discriminate Hs;
      open_bound Hb; string_fact Hf Hb; all_done Hdone;
      match goal with H : _ = s |- _ => rewrite H in * end;
      repeat match goal with H : _ /\ _ |- _ => destruct H end;
      destruct x; eexists; (split; [eassumption|reflexivity]). }
  destruct Hgoal as (n & Hp & He).
  destruct (ParseUint_inv s n Hp) as (Hne & Hdig & -> & Hle).
  repeat split; assumption.
Qed.
End Textual.

(** ** The altair view of a capella header *)
Section AltairView.
Context {BeaconBlockHeader ExecutionPayloadHeader : Type}.
Context `{!JSONCodec BeaconBlockHeader, !JSONCodec ExecutionPayloadHeader}.
Context `{!Valid BeaconBlockHeader, !Lawful BeaconBlockHeader}.

(** X6.  The textual decoder of the altair header reads the rendering of a
    capella header as the header's altair view: for a capella header whose
    beacon is set and well formed, whatever its execution part holds,
    decoding its JSON as an altair header gives what ToAltair gives. *)
Theorem capella_header_read_as_altair
    (x : @capella_LightClientHeader.LightClientHeader
           BeaconBlockHeader ExecutionPayloadHeader)
    (l : @altair_LightClientHeader.LightClientHeader BeaconBlockHeader) :
  validPtr (capella_LightClientHeader.Beacon x) ->
  altair_LightClientHeader.UnmarshalJSON l (capella_LightClientHeader.MarshalJSON x)
  = (Capella.ToAltair x, None).
Proof.
  destruct x as [[b|] e br]; cbn [validPtr capella_LightClientHeader.Beacon];
    [|contradiction]. intros Hv.
  pose proof (altair_header_roundtrip b l Hv) as R. cbv zeta in R.
  change (@UnmarshalJSON _ altair_LightClientHeader.codec)
    with (@altair_LightClientHeader.UnmarshalJSON BeaconBlockHeader _) in R.
  change (@MarshalJSON _ altair_LightClientHeader.codec)
    with (@altair_LightClientHeader.MarshalJSON BeaconBlockHeader _) in R.
  rewrite altair_header_decode in R |- *.
  unfold altair_LightClientHeader.unmarshalJSO, unmarshalStruct,
    altair_LightClientHeader.MarshalJSON, capella_LightClientHeader.MarshalJSON in R |- *.
  rewrite bindMembers_known. exact R.
Qed.
End AltairView.

(** ** The earlier revisions of the http service *)
Section LegacyService.
Variable get : string -> option body * option error.
Context {BeaconBlockHeader SyncCommittee SyncAggregate ExecutionPayloadHeader : Type}.
Context `{!JSONCodec BeaconBlockHeader, !JSONCodec SyncCommittee,
          !JSONCodec SyncAggregate, !JSONCodec ExecutionPayloadHeader}.
Context `{!Valid BeaconBlockHeader, !Valid SyncCommittee,
          !Valid SyncAggregate, !Valid ExecutionPayloadHeader}.
Context `{!Lawful BeaconBlockHeader, !Lawful SyncCommittee,
          !Lawful SyncAggregate, !Lawful ExecutionPayloadHeader}.

Abbreviation recordOf :=
  (@Records.recordOf BeaconBlockHeader SyncCommittee SyncAggregate ExecutionPayloadHeader).
Abbreviation codecOf :=
  (@Records.codecOf BeaconBlockHeader SyncCommittee SyncAggregate ExecutionPayloadHeader
     _ _ _ _).
Abbreviation encode :=
  (@Records.encode BeaconBlockHeader SyncCommittee SyncAggregate ExecutionPayloadHeader _ _ _ _).
Abbreviation validRecord :=
  (@Records.validRecord BeaconBlockHeader SyncCommittee SyncAggregate ExecutionPayloadHeader
     _ _ _ _).
(** The body of the operations, for the record type [r]. *)
Abbreviation fetchRecord r := (@Legacy.fetch get (recordOf r) (codecOf r)).

(** X7.  In the earlier revisions of the service a nil result with a nil
    error stands for three things alike: there was no body, the body was
    the JSON null, or the body was an object in which every member named
    data is null (or none is). *)
Theorem legacy_no_data {T} `{!JSONCodec T} (url requestFailed parseFailed struct : string) :
  (get url = (None, None) ->
     Legacy.fetch get (T := T) url requestFailed parseFailed struct = (None, None))
  /\ (forall b v, get url = (Some b, None) -> scanned b = Ok v ->
        v = JNull \/ absentOrNull "data" v ->
        Legacy.fetch get (T := T) url requestFailed parseFailed struct = (None, None)).
Proof.
  unfold Legacy.fetch. split.
  - intros ->. reflexivity.
  - intros b v -> Hs Hv. rewrite (decodeData_no_data struct b v Hs Hv). reflexivity.
Qed.

(** X8.  A record the earlier revisions return is one its UnmarshalJSON
    accepted: it is well formed, every pointer set, every branch with
    elements of 32 bytes. *)
Theorem legacy_result_well_formed (r : recordType) (x : recordOf r)
    (url requestFailed parseFailed struct : string) :
  fetchRecord r url requestFailed parseFailed struct = (Some x, None) ->
  validRecord r x.
Proof.
  unfold Legacy.fetch. destruct (get url) as [[b|] [e|]]; try discriminate.
  destruct (decodeData struct b) as [resp|e] eqn:Ed; [|discriminate].
  intros [= Hx]. destruct (decodeData_decoded struct b resp x Ed Hx) as (l & w & Hu).
  exact (Claims.decoded_valid r l x w Hu).
Qed.

(** X9.  The earlier revisions give back a well-formed record from the
    body that holds its rendering under data, whatever other members the
    body has. *)
Theorem legacy_round_trip (r : recordType) (x : recordOf r) (b : body)
    (pre post : list (string * json)) (url requestFailed parseFailed struct : string) :
  validRecord r x ->
  get url = (Some b, None) ->
  scanned b = Ok (JObject (pre ++ ("data", encode r x) :: post)%list) ->
  Forall (fun kv => keyMatches "data" (fst kv) = false) pre ->
  Forall (fun kv => keyMatches "data" (fst kv) = false) post ->
  fetchRecord r url requestFailed parseFailed struct = (Some x, None).
Proof.
  intros Hv Hg Hs Hpre Hpost. unfold Legacy.fetch, decodeData. rewrite Hg, Hs.
  unfold unmarshalStruct.
  rewrite (bindMembers_one_data struct pre post (encode r x) x Hpre Hpost); [reflexivity|].
  pose proof (Claims.valid_decoded_back r x (@zero _ (codecOf r)) Hv) as Hd.
  unfold Records.decode in Hd. unfold bindPtr.
  destruct (encode r x) eqn:E; [destruct r; discriminate E|..]; rewrite Hd; reflexivity.
Qed.
End LegacyService.

Section LegacyUpdates.
Variable get : string -> option body * option error.
Context {Update : Type} `{!JSONCodec Update}.

Abbreviation LegacyUpdates := (@Legacy.LightClientUpdates get Update _).
Abbreviation updatesURL startPeriod count :=
  ("/eth/v1/beacon/light_client/updates?start_period="
     ++ Sprintf_d startPeriod ++ "&count=" ++ Sprintf_d count).

(** X10.  The list of updates of the earlier revision has one entry per
    element of the array in the body, in order.  An element that is null,
    or an object without data, gives a nil entry and no error; an entry
    that is not nil was decoded by the record's UnmarshalJSON.  A body that
    is the JSON null gives the empty list. *)
Theorem legacy_updates_one_per_element (startPeriod count : N) (b : body) :
  get (updatesURL startPeriod count) = (Some b, None) ->
  (scanned b = Ok JNull -> LegacyUpdates startPeriod count = (Some [], None))
  /\ (forall vs ret, scanned b = Ok (JArray vs) ->
        LegacyUpdates startPeriod count = (Some ret, None) ->
        length ret = length vs
        /\ (forall i v, vs !! i = Some v -> v = JNull \/ absentOrNull "data" v ->
              ret !! i = Some None)
        /\ (forall i x, ret !! i = Some (Some x) ->
              exists l w, UnmarshalJSON l w = (x, None))).
Proof.
  intros Hg. unfold Legacy.LightClientUpdates, decodeDataList. rewrite Hg. split.
  - intros ->. reflexivity.
  - intros vs ret ->.
    destruct (bindSlice "lightClientUpdateJSON" vs None) as [[xs [e|]]|e] eqn:Eb;
      try discriminate.
    intros [= <-]. split; [|split].
    + rewrite length_map. exact (bindSlice_length _ _ _ _ _ Eb).
    + intros i v Hi Hv. destruct (bindSlice_clean _ _ _ _ _ Eb Hi) as (x & Hx & He).
      rewrite (bindElement_no_data _ v None Hv) in He. injection He as <-.
      rewrite list_lookup_fmap, Hx. reflexivity.
    + intros i x Hi. rewrite list_lookup_fmap in Hi.
      destruct (xs !! i) as [resp|] eqn:Hr; [|discriminate]. cbn in Hi. injection Hi as Hx.
      apply lookup_lt_Some in Hr as Hlt. rewrite (bindSlice_length _ _ _ _ _ Eb) in Hlt.
      apply lookup_lt_is_Some in Hlt. destruct Hlt as [v Hv].
      destruct (bindSlice_clean _ _ _ _ _ Eb Hv) as (resp' & Hr' & He).
      rewrite Hr in Hr'. injection Hr' as <-.
      exact (bindElement_decoded _ v resp x He Hx).
Qed.
End LegacyUpdates.

(** ** GetUpdates and the dispatcher *)
Section UpdatesSuccess.
Variable get : string -> option httpResponse * option error.
Variable versionText : DataVersion -> string.
Context {A C D : Type}.
Context `{!JSONCodec A, !JSONCodec C, !JSONCodec D}.

Abbreviation GetUpdates := (@HTTP.LightClientUpdates get versionText A C D _ _ _).
Abbreviation decodeUpdate := (@HTTP.decodeUpdate A C D _ _ _).
Abbreviation updatesLoop := (@HTTP.updatesLoop A C D _ _ _).

(** X11.  GetUpdates succeeds on a JSON response exactly when the body
    parses as an object, its data (if any) is an array or null, and every
    element of the array decodes under the version of the response.  The
    version is looked at once per element: a response without elements
    succeeds with the empty list under every version, also one for which
    no element could decode. *)
Theorem updates_succeed_iff (resp : httpResponse) (startPeriod count : N) :
  get ("/eth/v1/beacon/light_client/updates?start_period="
         ++ Sprintf_d startPeriod ++ "&count=" ++ Sprintf_d count) = (Some resp, None) ->
  contentType resp = ContentTypeJSON ->
  ((exists r, GetUpdates startPeriod count = (Some r, None))
   <-> exists ms us,
         decodeMap (body_ resp) = Ok ms
         /\ match member "data" ms with
            | Some v => decodeList v
            | None => Ok []
            end = Ok us
         /\ forall u, In u us -> snd (decodeUpdate (consensusVersion resp) u) = None)
  /\ (forall ms, decodeMap (body_ resp) = Ok ms ->
        member "data" ms = None \/ member "data" ms = Some JNull
        \/ member "data" ms = Some (JArray []) ->
        GetUpdates startPeriod count
        = (Some {| Data := [];
                   Metadata := [("version", JString (versionText (consensusVersion resp)))] |},
           None)).
Proof.
  intros Hg Hc. unfold HTTP.LightClientUpdates, dispatch. rewrite Hg, Hc.
  unfold HTTP.lightClientUpdatesFromJSON. split; [split|].
  - intros [r Hr]. destruct (decodeMap (body_ resp)) as [ms|e]; [|discriminate].
    destruct (match member "data" ms with Some v => decodeList v | None => Ok [] end)
      as [us|e] eqn:Eus; [|discriminate].
    exists ms, us. split; [reflexivity|]. split; [exact Eus|].
    intros u Hin. destruct (snd (decodeUpdate (consensusVersion resp) u)) as [e|] eqn:Eu;
      [exfalso|reflexivity].
    apply list_elem_of_In in Hin. apply list_elem_of_lookup in Hin. destruct Hin as [i Hi].
    destruct (Claims.updatesLoop_first (consensusVersion resp) us [] i u e Hi Eu)
      as (j & u' & e' & _ & _ & _ & _ & Hl).
    rewrite Hl in Hr. discriminate Hr.
  - intros (ms & us & -> & -> & Hall).
    rewrite (Claims.updatesLoop_all (consensusVersion resp) us [] Hall). eauto.
  - intros ms -> [->|[->| ->]]; reflexivity.
Qed.
End UpdatesSuccess.

Section UpdatesRoundTrip.
Variable get : string -> option httpResponse * option error.
Variable versionText : DataVersion -> string.
Context {A C D : Type}.
Context `{!JSONCodec A, !JSONCodec C, !JSONCodec D}.
Context `{!Valid A, !Valid C, !Valid D}.
Context `{!Lawful A, !Lawful C, !Lawful D}.

Abbreviation GetUpdates := (@HTTP.LightClientUpdates get versionText A C D _ _ _).
Abbreviation updatesLoop := (@HTTP.updatesLoop A C D _ _ _).

Lemma updatesLoop_rendered {T} `{!JSONCodec T, !Valid T, !Lawful T}
    (version : DataVersion) (slot : option T -> Versioned A C D -> Versioned A C D) :
  (forall x : T, valid x ->
     HTTP.decodeUpdate version (MarshalJSON x) = (slot (Some x) (tagged version), None)) ->
  forall (xs : list T) acc, Forall valid xs ->
  updatesLoop version (map MarshalJSON xs) acc
  = Ok (acc ++ map (fun x => slot (Some x) (tagged version)) xs)%list.
Proof.
  intros Hd. induction xs as [|x r IH]; intros acc Hv; cbn [map HTTP.updatesLoop].
  - rewrite app_nil_r. reflexivity.
  - apply Forall_cons in Hv. destruct Hv as [Hx Hr].
    rewrite (Hd x Hx), (IH _ Hr), <- app_assoc. reflexivity.
Qed.

(** X14.  GetUpdates gives back what MarshalJSON rendered: for a JSON
    response whose data is the array of the renderings of well-formed
    updates, the call returns one envelope per update, in order, tagged
    with the version of the response and holding the update in the slot of
    that version (the altair record for Altair and Bellatrix), with the
    version as only metadata. *)
Theorem updates_round_trip (resp : httpResponse) (startPeriod count : N)
    (ms : list (string * json)) :
  get ("/eth/v1/beacon/light_client/updates?start_period="
         ++ Sprintf_d startPeriod ++ "&count=" ++ Sprintf_d count) = (Some resp, None) ->
  contentType resp = ContentTypeJSON ->
  decodeMap (body_ resp) = Ok ms ->
  let returns datas :=
    GetUpdates startPeriod count
    = (Some {| Data := datas;
               Metadata := [("version", JString (versionText (consensusVersion resp)))] |},
       None) in
  (forall xs : list A, consensusVersion resp = DataVersionAltair ->
     member "data" ms = Some (JArray (map MarshalJSON xs)) -> Forall valid xs ->
     returns (map (fun x => setAltair (Some x) (tagged DataVersionAltair)) xs))
  /\ (forall xs : list A, consensusVersion resp = DataVersionBellatrix ->
        member "data" ms = Some (JArray (map MarshalJSON xs)) -> Forall valid xs ->
        returns (map (fun x => setBellatrix (Some x) (tagged DataVersionBellatrix)) xs))
  /\ (forall xs : list C, consensusVersion resp = DataVersionCapella ->
        member "data" ms = Some (JArray (map MarshalJSON xs)) -> Forall valid xs ->
        returns (map (fun x => setCapella (Some x) (tagged DataVersionCapella)) xs))
  /\ (forall xs : list D, consensusVersion resp = DataVersionDeneb ->
        member "data" ms = Some (JArray (map MarshalJSON xs)) -> Forall valid xs ->
        returns (map (fun x => setDeneb (Some x) (tagged DataVersionDeneb)) xs)).
Proof.
  intros Hg Hc Hm returns. subst returns. cbv beta.
  unfold HTTP.LightClientUpdates, dispatch. rewrite Hg, Hc.
  unfold HTTP.lightClientUpdatesFromJSON. rewrite Hm.
  repeat split; intros xs Hver Hd Hv; rewrite Hd, Hver; cbn [decodeList].
  - rewrite (updatesLoop_rendered DataVersionAltair setAltair); [reflexivity| |exact Hv].
    intros x Hx. unfold HTTP.decodeUpdate. rewrite (decode_encode x Hx). reflexivity.
  - rewrite (updatesLoop_rendered DataVersionBellatrix setBellatrix); [reflexivity| |exact Hv].
    intros x Hx. unfold HTTP.decodeUpdate. rewrite (decode_encode x Hx). reflexivity.
  - rewrite (updatesLoop_rendered DataVersionCapella setCapella); [reflexivity| |exact Hv].
    intros x Hx. unfold HTTP.decodeUpdate. rewrite (decode_encode x Hx). reflexivity.
  - rewrite (updatesLoop_rendered DataVersionDeneb setDeneb); [reflexivity| |exact Hv].
    intros x Hx. unfold HTTP.decodeUpdate. rewrite (decode_encode x Hx). reflexivity.
Qed.
End UpdatesRoundTrip.

Section Dispatcher.
Context {Client Bootstrap Update FinalityUpdate OptimisticUpdate : Type}.
Variable providerBootstrap : Client -> string -> option Bootstrap * option error.
Variable providerUpdates :
  Client -> N -> N -> option (list (option Update)) * option error.
Variable providerFinalityUpdate : Client -> option FinalityUpdate * option error.
Variable providerOptimisticUpdate : Client -> option OptimisticUpdate * option error.
Abbreviation any := (@Multi.any Bootstrap Update FinalityUpdate OptimisticUpdate).
Variable doCall : (Client -> any * option error) -> any * option error.

(** What an operation returns when doCall hands on what the call to one
    client gave: the client's result when it gave no error, its error and
    no result otherwise. *)
Abbreviation handedOn res :=
  (match res with
   | (x, None) => Multi.Returns x None
   | (_, Some e) => Multi.Returns None (Some e)
   end).

(** X12.  The dispatcher adds nothing of its own to a call: when doCall
    hands on what the closure returned for one client, each operation
    returns that client's result with a nil error, or the client's error
    with a nil result (what the client returned beside its error is
    dropped), and it does not panic. *)
Theorem dispatcher_hands_on :
  (forall blockID c,
     doCall (Multi.closure Multi.ofBootstrap (fun c => providerBootstrap c blockID))
     = Multi.closure Multi.ofBootstrap (fun c => providerBootstrap c blockID) c ->
     Multi.LightClientBootstrap providerBootstrap doCall blockID
     = handedOn (providerBootstrap c blockID))
  /\ (forall start count c,
        doCall (Multi.closure Multi.ofUpdates (fun c => providerUpdates c start count))
        = Multi.closure Multi.ofUpdates (fun c => providerUpdates c start count) c ->
        Multi.LightClientUpdates providerUpdates doCall start count
        = handedOn (providerUpdates c start count))
  /\ (forall c,
        doCall (Multi.closure Multi.ofFinalityUpdate providerFinalityUpdate)
        = Multi.closure Multi.ofFinalityUpdate providerFinalityUpdate c ->
        Multi.LightClientFinalityUpdate providerFinalityUpdate doCall
        = handedOn (providerFinalityUpdate c))
  /\ (forall c,
        doCall (Multi.closure Multi.ofOptimisticUpdate providerOptimisticUpdate)
        = Multi.closure Multi.ofOptimisticUpdate providerOptimisticUpdate c ->
        Multi.LightClientOptimisticUpdate providerOptimisticUpdate doCall
        = handedOn (providerOptimisticUpdate c)).
Proof.
  unfold Multi.LightClientBootstrap, Multi.LightClientUpdates,
    Multi.LightClientFinalityUpdate, Multi.LightClientOptimisticUpdate.
  repeat split; intros;
    match goal with H : doCall _ = _ |- _ => rewrite H end;
    unfold Multi.closure;
    match goal with
    | |- context [providerBootstrap ?c ?b] => destruct (providerBootstrap c b) as [x [e|]]
    | |- context [providerUpdates ?c ?s ?n] => destruct (providerUpdates c s n) as [x [e|]]
    | |- context [providerFinalityUpdate ?c] => destruct (providerFinalityUpdate c) as [x [e|]]
    | |- context [providerOptimisticUpdate ?c] =>
        destruct (providerOptimisticUpdate c) as [x [e|]]
    end; reflexivity.
Qed.

(** X13.  Whatever doCall returns, the operations of the dispatcher never
    return a result together with an error; and when doCall returns, with
    a nil error, a value of another type than the operation's, the
    operation panics: the type assertion on the result is not checked.
    (The closures assert their client to be a LightClientProvider, also
    unchecked; the clients of the embedding all are, so nothing is said
    here of a client that is not.) *)
Theorem dispatcher_result_or_error :
  (forall blockID,
     let out := Multi.LightClientBootstrap providerBootstrap doCall blockID in
     let got := doCall (Multi.closure Multi.ofBootstrap
                          (fun c => providerBootstrap c blockID)) in
     (forall res e, out = Multi.Returns res (Some e) -> res = None)
     /\ (forall d, got = (Some d, None) -> (forall p, d <> Multi.ofBootstrap p) ->
           out = Multi.Panics))
  /\ (forall start count,
        let out := Multi.LightClientUpdates providerUpdates doCall start count in
        let got := doCall (Multi.closure Multi.ofUpdates
                             (fun c => providerUpdates c start count)) in
        (forall res e, out = Multi.Returns res (Some e) -> res = None)
        /\ (forall d, got = (Some d, None) -> (forall p, d <> Multi.ofUpdates p) ->
              out = Multi.Panics))
  /\ (let out := Multi.LightClientFinalityUpdate providerFinalityUpdate doCall in
      let got := doCall (Multi.closure Multi.ofFinalityUpdate providerFinalityUpdate) in
      (forall res e, out = Multi.Returns res (Some e) -> res = None)
      /\ (forall d, got = (Some d, None) -> (forall p, d <> Multi.ofFinalityUpdate p) ->
            out = Multi.Panics))
  /\ (let out := Multi.LightClientOptimisticUpdate providerOptimisticUpdate doCall in
      let got := doCall (Multi.closure Multi.ofOptimisticUpdate providerOptimisticUpdate) in
      (forall res e, out = Multi.Returns res (Some e) -> res = None)
      /\ (forall d, got = (Some d, None) -> (forall p, d <> Multi.ofOptimisticUpdate p) ->
            out = Multi.Panics)).
Proof.
  cbv zeta.
  unfold Multi.LightClientBootstrap, Multi.LightClientUpdates,
    Multi.LightClientFinalityUpdate, Multi.LightClientOptimisticUpdate.
  repeat match goal with
         | |- _ /\ _ => split
         | |- forall _, _ => intro
         | |- _ -> _ => intro
         end.
  all: match goal with
       | H : context [doCall ?f] |- _ => destruct (doCall f) as [[[p|p|p|p]|] [e0|]]
       | |- context [doCall ?f] => destruct (doCall f) as [[[p|p|p|p]|] [e0|]]
       end.
  all: try match goal with
           | H : _ = Multi.Returns _ (Some _) |- _ =>
               first [discriminate H | injection H as <- _; reflexivity]
           end.
  all: match goal with
       | Hd : _ = (Some _, None), Hne : forall p, _ <> _ |- _ =>
           first [ discriminate Hd
                 | reflexivity
                 | injection Hd as <-; exfalso; eapply Hne; reflexivity ]
       end.
Qed.
End Dispatcher.

(** ** The properties on the examples *)
Section ExtrasExamples.
Import Fixture.

Abbreviation decodeX :=
  (@Records.decode object object object object _ _ _ _).
Abbreviation encodeX :=
  (@Records.encode object object object object _ _ _ _).
Abbreviation validRecordX :=
  (@Records.validRecord object object object object _ _ _ _).
Abbreviation lawful := Claims.objectLawful.

(** A body in which the rendering of the good update stands under data. *)
Abbreviation updateBody :=
  (jsonBody (JObject [("version", JString "altair"); ("data", goodUpdate)])).

Lemma decode_independent_of_receiver_witness :
  fst (decodeX V1Update zero goodUpdate)
  = fst (decodeX V1Update (fst (decodeX V1Update zero negativeSlot)) goodUpdate).
Proof.
  apply (proj2 (decode_independent_of_receiver V1Update zero
                  (fst (decodeX V1Update zero negativeSlot)) goodUpdate)).
  vm_compute. reflexivity.
Defined.

Lemma keys_match_by_folding_witness :
  decodeX V1Update zero
    (JObject [("ATTESTED_HEADER", header); ("Next_Sync_Committee", committee);
              ("next_sync_committee_BRANCH", branchOf 5); ("Finalized_header", header);
              ("FINALITY_branch", branchOf 6); ("sync_Aggregate", aggregate);
              ("SIGNATURE_SLOT", JString "1234")])
  = decodeX V1Update zero goodUpdate.
Proof.
  apply (keys_match_by_folding V1Update zero).
  repeat (constructor; [split; reflexivity|]). constructor.
Defined.

Lemma branch_decoded_elementwise_witness :
  exists bs, length bs = 5%nat
    /\ fieldOf "finality_branch"
         (encodeX V1Update (fst (decodeX V1Update zero shortUpdate)))
       = Some (marshalBranch bs).
Proof.
  destruct (branch_decoded_elementwise V1Update zero (fst (decodeX V1Update zero shortUpdate))
              shortUpdate "finality_branch" true (replicate 5 root1))
    as (bs & _ & _ & Hl & He).
  - cbn. tauto.
  - reflexivity.
  - vm_compute. reflexivity.
  - exists bs. split; [exact Hl|exact He].
Defined.

Lemma slot_accepted_witness :
  fieldOf "signature_slot"
    (encodeX V1Update
       (fst (decodeX V1Update zero (updateJSON (branchOf 6) (JString "007")))))
  = Some (JString "7").
Proof.
  refine (proj2 (proj2 (proj2
            (slot_accepted V1Update zero _ (updateJSON (branchOf 6) (JString "007")) "007"
               eq_refl eq_refl _)))).
  vm_compute. reflexivity.
Defined.

Lemma capella_header_read_as_altair_witness :
  let x : @capella_LightClientHeader.LightClientHeader object object :=
    {| capella_LightClientHeader.Beacon := Some [("slot", JString "4943744")];
       capella_LightClientHeader.Execution := None;
       capella_LightClientHeader.ExecutionBranch := [] |} in
  altair_LightClientHeader.UnmarshalJSON zero (capella_LightClientHeader.MarshalJSON x)
  = ({| altair_LightClientHeader.Beacon := Some [("slot", JString "4943744")] |}, None).
Proof.
  intros x.
  exact (@capella_header_read_as_altair object object _ _ _ lawful x zero I).
Defined.

Lemma legacy_no_data_witness :
  @Legacy.V1Updates
    (fun _ => (Some (jsonBody (JObject [("version", JString "altair"); ("data", JNull)])),
               None))
    Update _ 0 1
  = (None, None).
Proof.
  unfold Legacy.V1Updates.
  refine (proj2 (@legacy_no_data _ Update _ _ _ _ _)
            (jsonBody (JObject [("version", JString "altair"); ("data", JNull)]))
            (JObject [("version", JString "altair"); ("data", JNull)])
            eq_refl eq_refl _).
  right. eexists. split; [reflexivity|].
  unfold nullWhere. repeat constructor; cbn; intros H; first [discriminate H|reflexivity].
Defined.

Lemma legacy_result_well_formed_witness :
  validRecordX V1Update (fst (decodeX V1Update zero goodUpdate)).
Proof.
  refine (@legacy_result_well_formed (fun _ => (Some updateBody, None))
            object object object object _ _ _ _ _ _ _ _ lawful lawful lawful lawful
            V1Update _
            ("/eth/v1/beacon/light_client/updates?start_period="
               ++ Sprintf_d 0 ++ "&count=" ++ Sprintf_d 1)
            "failed to request beacon light client update"
            "failed to parse beacon light client update"
            "lightClientUpdatesJSON" _).
  vm_compute. reflexivity.
Defined.

Lemma legacy_round_trip_witness :
  let x := fst (decodeX V1Update zero goodUpdate) in
  @Legacy.V1Updates
    (fun _ => (Some (jsonBody (JObject [("version", JString "altair");
                                        ("data", encodeX V1Update x)])), None))
    Update _ 0 1
  = (Some x, None).
Proof.
  intros x. unfold Legacy.V1Updates.
  refine (@legacy_round_trip _ object object object object _ _ _ _ _ _ _ _
            lawful lawful lawful lawful V1Update x
            (jsonBody (JObject [("version", JString "altair");
                                ("data", encodeX V1Update x)]))
            [("version", JString "altair")] [] _ _ _ _ _ eq_refl eq_refl _ _).
  - cbn. repeat split; try exact I; vm_compute; reflexivity.
  - repeat constructor.
  - constructor.
Defined.

Lemma legacy_updates_one_per_element_witness :
  let get : string -> option body * option error :=
    fun _ => (Some (jsonBody (JArray [JObject [("data", goodUpdate)]; JNull; JObject []])),
              None) in
  match @Legacy.LightClientUpdates get Update _ 0 3 with
  | (Some ret, None) => length ret = 3%nat /\ ret !! 1%nat = Some None
  | _ => False
  end.
Proof.
  intros get.
  pose proof (proj2 (@legacy_updates_one_per_element get Update _ 0 3 _ eq_refl)) as H.
  destruct (@Legacy.LightClientUpdates get Update _ 0 3) as [[ret|] [e|]] eqn:E;
    try (vm_compute in E; discriminate E).
  destruct (H _ ret eq_refl eq_refl) as (Hl & Hn & _).
  split; [exact Hl|]. apply (Hn 1%nat JNull eq_refl). left. reflexivity.
Defined.

Lemma updates_succeed_iff_witness :
  @HTTP.LightClientUpdates
    (always (Some (response ContentTypeJSON DataVersionPhase0
                     (jsonBody (JObject [("data", JArray [])])))))
    versionText Update Update Update _ _ _ 7 1
  = (Some {| Data := [];
             Metadata := [("version", JString (versionText DataVersionPhase0))] |}, None).
Proof.
  refine (proj2 (@updates_succeed_iff
                   (always (Some (response ContentTypeJSON DataVersionPhase0
                                    (jsonBody (JObject [("data", JArray [])])))))
                   versionText Update Update Update _ _ _
                   (response ContentTypeJSON DataVersionPhase0
                      (jsonBody (JObject [("data", JArray [])])))
                   7 1 eq_refl eq_refl)
            [("data", JArray [])] eq_refl _).
  right. right. reflexivity.
Defined.

(** The codec of a record of the family is inverse on its well-formed
    values, as those of its nested types are. *)
Lemma updateLawful : @Lawful Update _ (validRecordX V1Update).
Proof.
  constructor.
  - intros x Hv. exact (@Claims.valid_decoded_back object object object object
                          _ _ _ _ _ _ _ _ lawful lawful lawful lawful V1Update x zero Hv).
  - intros x _. discriminate.
  - intros l x input.
    exact (@Claims.decoded_valid object object object object
             _ _ _ _ _ _ _ _ lawful lawful lawful lawful V1Update l x input).
Qed.

Lemma updates_round_trip_witness :
  let x := fst (decodeX V1Update zero goodUpdate) in
  @HTTP.LightClientUpdates
    (always (Some (response ContentTypeJSON DataVersionBellatrix
                     (updatesBody [encodeX V1Update x; encodeX V1Update x]))))
    versionText Update Update Update _ _ _ 0 2
  = (Some {| Data := [setBellatrix (Some x) (tagged DataVersionBellatrix);
                      setBellatrix (Some x) (tagged DataVersionBellatrix)];
             Metadata := [("version", JString (versionText DataVersionBellatrix))] |}, None).
Proof.
  intros x.
  refine (proj1 (proj2
            (@updates_round_trip
               (always (Some (response ContentTypeJSON DataVersionBellatrix
                                (updatesBody [encodeX V1Update x; encodeX V1Update x]))))
               versionText Update Update Update _ _ _
               (validRecordX V1Update) (validRecordX V1Update) (validRecordX V1Update)
               updateLawful updateLawful updateLawful
               (response ContentTypeJSON DataVersionBellatrix
                  (updatesBody [encodeX V1Update x; encodeX V1Update x]))
               0 2 _ eq_refl eq_refl eq_refl))
            [x; x] eq_refl eq_refl _).
  assert (Hx : validRecordX V1Update x)
    by (cbn; repeat split; try exact I; vm_compute; reflexivity).
  repeat constructor; exact Hx.
Defined.

Lemma dispatcher_hands_on_witness :
  @Multi.LightClientFinalityUpdate unit FinalityUpdate Update FinalityUpdate FinalityUpdate
    (fun _ => (Some mockFinalityUpdate, None)) (@firstClient _)
  = Multi.Returns (Some mockFinalityUpdate) None.
Proof.
  exact (proj1 (proj2 (proj2
           (@dispatcher_hands_on unit FinalityUpdate Update FinalityUpdate FinalityUpdate
              (fun _ _ => (None, None)) (fun _ _ _ => (None, None))
              (fun _ => (Some mockFinalityUpdate, None)) silent (@firstClient _))))
           tt eq_refl).
Defined.

Lemma dispatcher_result_or_error_witness :
  @Multi.LightClientFinalityUpdate unit FinalityUpdate Update FinalityUpdate FinalityUpdate
    silent (fun _ => (Some (Multi.ofBootstrap None), None))
  = Multi.Panics.
Proof.
  apply (proj2 (proj1 (proj2 (proj2
           (@dispatcher_result_or_error unit FinalityUpdate Update FinalityUpdate
              FinalityUpdate (fun _ _ => (None, None)) (fun _ _ _ => (None, None))
              silent silent (fun _ => (Some (Multi.ofBootstrap None), None))))))
           (Multi.ofBootstrap None) eq_refl).
  intros p. discriminate.
Defined.
End ExtrasExamples.

End Extras.
